(* ===== verification/_CoqProject ===== *)
-Q . S2P
Prelude.v
Clock.v
Protocol.v
Encdec.v
EncdecFacts.v
EncdecProps.v
Queue.v
QueueConcurrency.v
Sync.v
Singleton.v
Thread.v
Pools.v
PluginManager.v
FutureFactory.v
Executor.v
ServerExecutor.v
ExecutorProps.v
EngineProps.v
ServerExecutorProps.v
Ipc.v
ClientProxy.v
ServerAdapter.v
SaServer.v
Samgr.v
Client.v
EndToEnd.v
ClientProps.v
AdapterProps.v
SyncCall.v
Admission.v
Memory.v
FileOperation.v
Float32.v
Feature.v
SlideProps.v
NormProcessor.v
FeatureProps.v
PluginBase.v
Handover.v
IcPlugin.v
IcProps.v
KwsPlugin.v
PluginHost.v
KwsProps.v
PcmIterator.v
PcmProps.v
AieClient.v
IcSdk.v
KwsSdk.v
AieClientProps.v
IcSdkProps.v
KwsSdkProps.v
FullStack.v
FullSession.v
AudioLoader.v
AudioProps.v
