(* ===== verification/Prelude.v ===== *)
(** * A verification development for the OpenHarmony AI engine

    The AI engine offers algorithms (keyword spotting, image classification) to
    applications.  An application calls the SDK of an algorithm.  The SDK encodes
    its arguments and gives them to the client library, which keeps sessions and
    a connection to the server and packs every call into an IPC message.  The
    server unpacks it, finds the client's adapter, and hands a request to the
    engine of the algorithm: a plugin, a queue of messages and a worker thread.
    The plugin's answer goes back as the reply, or, for asynchronous calls, by
    way of a future, the client's listener and a second IPC message.  Both ends
    share libraries for encoding, queues, threads, plugins' features and audio.

    This library models these parts, file by file under src/services and
    src/interfaces, as executable definitions, and proves what they promise to
    each other.

    ** The program and the files

    Foundations
    - [Prelude]: record update, the state monad [ST] with its weakest
      precondition [wp], machine integers, flat memory, identifier counters.
    - [Clock]: common/platform/time.
    - [Protocol]: return codes, aie_info_define.h, [Request] and [Response] of
      common/protocol/data_channel, and the heap as a ledger of live blocks.
    - [Memory]: the heap with its bytes, for the code that passes raw pointers.
    - [Float32]: the [float] type of the feature code.

    Shared libraries (common/)
    - [Encdec], [EncdecFacts], [EncdecProps]: common/utils/encdec and
      plugin_helper.cpp.
    - [Queue], [QueueConcurrency]: queuepool/queue.inl, sequentially and with
      every atomic statement a step.
    - [Sync]: event.cpp, semaphore.cpp, simple_event_notifier.inl, rw_lock.cpp.
    - [Singleton]: GetInstance and ReleaseInstance of the ten classes that keep
      one object, as lists of statements whose steps interleave.
    - [Thread]: threadpool/thread.cpp and aie_thread_unix.cpp.
    - [Pools]: queue_pool.inl and thread_pool.cpp.
    - [Ipc]: os_wrapper/ipc/aie_ipc.cpp.
    - [FileOperation]: utils/file_operation.
    - [Feature], [NormProcessor]: os_wrapper/feature, with their theorems in
      [SlideProps] and [FeatureProps].
    - [AudioLoader], [AudioProps]: os_wrapper/audio_loader.

    The server (server/)
    - [PluginManager]: plugin_manager and common/platform/dl_operation.
    - [FutureFactory]: future.cpp, future_factory.cpp.
    - [Executor], [ExecutorProps], [EngineProps]: the message handlers, engine
      worker, engine, engine manager and server executor over one [world].
    - [ServerExecutor], [ServerExecutorProps]: the executor as an object, from
      its creation to its destruction with manager, plugins and futures.
    - [ServerAdapter], [SaServer], [AdapterProps]: communication_adapter, from
      the message to the executor and back.
    - [Samgr]: the registration of the service, and the client's search for it.
    - [PluginBase], [Handover], [IcPlugin], [IcProps], [KwsPlugin], [KwsProps]:
      the plugins, and what they owe the holders of messages.
    - [PluginHost]: i_plugin.h, its two implementations as algorithms of the
      executor.

    The client (client/)
    - [ClientProxy]: sa_client_proxy.cpp, one function per call of the server.
    - [Client], [ClientProps]: client_factory.cpp, sa_client_adapter.cpp,
      sa_client.cpp and the two async handlers.
    - [AieClient], [AieClientProps]: the interface i_aie_client.inl as a class,
      [Client] as its instance, and what an SDK expects of it.
    - [IcSdk], [IcSdkProps]: algorithm_sdk/cv/image_classification.
    - [PcmIterator], [PcmProps], [KwsSdk], [KwsSdkProps]:
      algorithm_sdk/asr/keyword_spotting.

    [EndToEnd] joins client and server: what the one packs the other unpacks.
    [SyncCall] makes the server the connection of the client: a synchronous call
    from the proxy to the algorithm and back; [Admission] is the way there, the
    first requests of a client to a new server, and its last one, after which the
    server has forgotten it.  [FullStack] puts the client
    library on top and a plugin below; [FullSession] adds the SDKs and begins with
    a process and a server that have just started.

    ** How the code is modelled

    A module carries the name of its class, its record [t] the members, and a
    definition the name of the function, with the guards, early returns and
    calls in the order of the code.  A function that changes state is an [ST];
    shared state is threaded through: the [world] of the executor, the memory
    under an object ([ST (T * Memory.t)]).  Results are return codes as in the
    code, [None] stands for a null pointer, or for a call that never returns
    where the definition says so.

    Integers are [Z], with [wrap_u] and [wrap_s] where the code can overflow or
    converts; [size_t] has 64 bits.  The heap comes in two kinds.  [Protocol.Mem]
    is a ledger of addresses, enough for ownership: a second [free] is recorded
    in the ledger.  [Memory.t] adds the bytes, and every access out of bounds,
    through null or to freed storage sets [ub].

    Concurrency is modelled where the code's correctness depends on it: queue,
    lock, thread and GetInstance are step relations whose steps are the accesses to shared
    members, with invariants by induction over [rtc].  Code under one mutex is
    one step.  Elsewhere one call runs at a time, and a thread that runs
    meanwhile is given the steps it makes ([Executor.run_worker],
    [Client.run_worker]).  An action of the connection thread
    ([Client.OneAction]) is one step there; a session that waits may in fact look
    between its two stores ([ClientProps.half_connected_session]).  So is the end
    of an active thread, its worker's [Uninitialize] included
    ([Client.CloseAiServer]); what else [StopThread] may leave behind is in
    [Thread].

    Objects behind GetInstance are flags, set when the allocation of the object
    succeeds and reset by ReleaseInstance; a call that finds no object returns the
    error of the code ([PluginManager.PluginManager.GetPluginLabel],
    [FutureFactory.FutureFactory.GetInstance],
    [ServerAdapter.Adapters.GetSaAsyncHandler], [GetServerExecutor], and on the
    client [Client.GetSaClient], [GetSaAsync], [GetThreadPool]).

    Code that is not in the repository is a class, with its documented behaviour
    as a class of laws and a concrete instance for the examples: the allocator
    ([Allocator]), securec ([Securec], [SecurecMemory]), the IPC library
    ([IpcIo], [Connection], [Outgoing]), System V shared memory ([Shm]), pthread
    ([Pthread]), dlopen ([DynLib]), C streams and files ([Stdio], [Files]), the
    service manager ([ServiceManager]), the inference engine ([EngineAdapter]),
    the compiled MFCC processor ([MfccProcessor]), the codec driver ([Codec]),
    the heap algorithms of the C++ library ([StdHeap]), the algorithms
    behind [IPlugin] with their state ([Algorithm]), and what a timed loop observes ([Polling],
    [Environment]).

    ** What the theorems show

    - Messages: encoding then decoding is the identity; only encodings are
      accepted; no run of either leaves its buffer, whatever fails; nothing leaks
      ([EncdecProps]).
    - Payloads: a payload packed and unpacked arrives, inline or in shared
      memory, and no segment stays ([Ipc]); a request and an asynchronous result
      arrive whole ([EndToEnd]).
    - Queue: it refines a bounded FIFO; with one producer and one consumer every
      interleaving is safe, with two producers it is not ([Queue],
      [QueueConcurrency]).
    - Synchronisation and threads: mutual exclusion and no lost wake-up of the
      lock ([Sync]); one object at a time behind GetInstance, published when it is
      ready ([Singleton]); what has happened when a stop of a thread returns, and
      what may still happen, for each way it returns; the stop of a pool returns
      when its time is up ([Thread], [Pools]).
    - Server: plugins, libraries and the plugin label do not leak
      ([PluginManager]); an answer is
      delivered once ([FutureFactory]); a synchronous request is answered, engine
      counts are exact ([ExecutorProps], [EngineProps]); an engine's plugin stays
      loaded while it lives, and at the end everything is closed and deleted
      ([ServerExecutorProps]); client, session and
      transaction numbers are unique, results keep their order
      ([AdapterProps]).
    - Client: the first session connects, the last one takes leave with one call
      to the server, and the cases in which this goes wrong ([ClientProps]); the
      server that gets this call forgets the client and no other
      ([Admission.last_session_is_forgotten]).
    - Features: the sliding window, the iterator over samples and the normaliser
      against reference definitions ([SlideProps], [PcmProps], [FeatureProps]).
    - Plugins: the best classes are returned, slices assemble the image, the
      model sees the window of features ([IcProps], [KwsProps]).
    - Composition: synchronous calls return what the algorithm, as an abstract
      machine, computes of their inputs, through proxy, messages, server, engine
      and worker, and the heap of either side gains the answers and nothing else
      ([SyncCall]); an image is classified by SDK and plugin, and audio
      goes from the application's buffers to its callback ([IcSdkProps],
      [KwsSdkProps]), both proved against the interface [AieClient]; the client
      library over the server satisfies that interface ([FullStack],
      [FullSession]), so from the creation of the SDK on images are classified and
      audio is heard across the IPC with no layer of the repository assumed.  The
      buffers of the model are there before the plugin is prepared, as the engine
      behind [EngineAdapter] is not modelled.
    - Audio loader: handlers stay valid until they are released; the bounds of
      the decoder's output ([AudioProps]).

    Theorems that state how a call fails, such as
    [QueueConcurrency.queue_two_producers_overflow] or
    [ClientProps.dead_server_is_never_reconnected], describe the code as it is.

    ** Fuel

    Loops that are not structural take fuel.
    - [Encdec.DataEncoder.copy_chunks]: one unit per chunk of the buffer;
      [EncdecFacts.EncoderFacts.copy_chunks_spec] shows it is enough.
    - [Prelude.bump_while], for the searches of free numbers: one more than there
      are numbers in use, enough by [bump_while_total].
    - [Pools.ThreadPool.poll]: the round at which the time is up
      ([stop_threads_returns]).
    - [Executor.run_worker] and what passes its fuel on ([SyncExecute], the
      wrappers of [ServerAdapter], [SaServer.Invoke]): the number of messages the
      worker handles meanwhile; one more than are queued is enough
      ([ExecutorProps.sync_execute_completes]).
    - [IcSdk.IcSdkImpl.slice_fuel], [KwsSdk.KWSSdkImpl.window_fuel] and
      [PcmProps.drain]: bounds by the length of the input; the theorems of
      [IcSdkProps], [KwsSdkProps] and [PcmProps] include that the loops end.

    ** Not modelled

    - start_server.c boots the service manager and sleeps.
    - Interfaces without code in the repository: engine_adapter.h, the MFCC, noise
      reduction, filterbank and log scale processors, card rectification,
      i_plugin.h.  Those the code uses are parameters.
    - Logging, the casts of inf_cast_impl.h, [StepSleepMs].
    - Data races outside of the queue, the lock, the thread and GetInstance: the
      mutexes of the plugins, the factories and the adapters are taken to work. *)

From Stdlib Require Import ZArith Lia.
From stdpp Require Import gmap strings list fin_maps sets relations.

#[global] Open Scope Z_scope.

(** ** Scope and hint databases of the development *)

Declare Scope aie_scope.
Delimit Scope aie_scope with aie.
Create HintDb aie discriminated.
#[global] Open Scope aie_scope.

(** ** Record update

    [r <| proj := v |>] is the record [r] with the field [proj] replaced by
    [v].  A record opts in by giving its eta expansion as an instance of [Eta];
    the setter of a field is computed from it. *)

Class Eta (R : Type) := eta_expand : R -> R.

Class FieldSetter {R T : Type} (proj : R -> T) := set_field : (T -> T) -> R -> R.

Ltac build_setter R proj :=
  let inst := constr:(_ : Eta R) in
  let body := eval cbv delta [eta_expand] in inst in
  let body := eval hnf in body in
  lazymatch eval pattern proj in body with
  | ?abs _ => let s := eval cbv beta in (fun f (r : R) => abs (fun r' => f (proj r')) r) in exact s
  end.

#[global] Hint Extern 1 (@FieldSetter ?R _ ?proj) => build_setter R proj : typeclass_instances.

Notation "r <| proj := v |>" := (set_field (proj := proj) (fun _ => v) r)
  (at level 1, left associativity, format "r  <| proj  :=  v |>") : aie_scope.
Notation "r <| proj ::= f |>" := (set_field (proj := proj) f r)
  (at level 1, left associativity, format "r  <| proj  ::=  f |>") : aie_scope.

(** ** State monad

    A C++ member function that returns an [A] and changes an object of type [S]
    is a [ST S A].  stdpp's [x ← m; k] is the sequencing of statements, an
    [if] whose first branch is a [mret] is an early return. *)

Definition ST (S A : Type) : Type := S -> A * S.

#[global] Instance ST_ret {S} : MRet (ST S) := fun A a s => (a, s).
#[global] Instance ST_bind {S} : MBind (ST S) := fun A B f m s => let '(a, s') := m s in f a s'.

Definition gets {S A} (f : S -> A) : ST S A := fun s => (f s, s).
Definition modify {S} (f : S -> S) : ST S unit := fun s => (tt, f s).

(** Run an operation of a sub-object on the field that holds it. *)
Definition on_field {S T A} (proj : S -> T) {setter : FieldSetter proj} (m : ST T A) : ST S A :=
  fun s => let '(a, t) := m (proj s) in (a, s <| proj := t |>).

(** [for (x : xs) body(x)]; *)
Fixpoint for_each {S A} (body : A -> ST S unit) (xs : list A) : ST S unit :=
  match xs with
  | [] => mret tt
  | x :: xs' => body x ;; for_each body xs'
  end.

(** The weakest precondition of a state-passing computation. *)
Definition wp {S A} (m : ST S A) (Q : A -> S -> Prop) (s : S) : Prop := Q (m s).1 (m s).2.

(** ** Machine integers *)

Definition wrap_u (w z : Z) : Z := z mod 2 ^ w.
Definition wrap_s (w z : Z) : Z := (z + 2 ^ (w - 1)) mod 2 ^ w - 2 ^ (w - 1).

Abbreviation u8 := (wrap_u 8).
Abbreviation u32 := (wrap_u 32).
Abbreviation u64 := (wrap_u 64).
Abbreviation s32 := (wrap_s 32).
Abbreviation s64 := (wrap_s 64).

Definition INT_MAX : Z := 2 ^ 31 - 1.
Definition INT_MIN : Z := - 2 ^ 31.
Definition LLONG_MAX : Z := 2 ^ 63 - 1.
Definition LLONG_MIN : Z := - 2 ^ 63.

Definition is_s32 (z : Z) : Prop := INT_MIN <= z <= INT_MAX.
Definition is_s64 (z : Z) : Prop := LLONG_MIN <= z <= LLONG_MAX.
Definition is_u32 (z : Z) : Prop := 0 <= z < 2 ^ 32.
Definition is_u64 (z : Z) : Prop := 0 <= z < 2 ^ 64.

(** ** Flat memory: [memcpy] of [bs] to offset [pos] of the block [l] *)

Definition write_at {A} (l : list A) (pos : nat) (bs : list A) : list A :=
  take pos l ++ bs ++ drop (pos + length bs) l.

Definition read_at {A} (l : list A) (pos n : nat) : list A := take n (drop pos l).

(** ** Identifier counters

    [do { x = bump(x); } while (used(x));] with [bump] the increment of a
    [w]-bit signed counter that restarts at [lo] when it falls below it. *)

Definition bump (w lo x : Z) : Z :=
  let y := wrap_s w (x + 1) in if y <? lo then lo else y.

Fixpoint bump_while (w lo : Z) (used : Z -> bool) (fuel : nat) (x : Z) : option Z :=
  match fuel with
  | O => None
  | S fuel' => let y := bump w lo x in
               if used y then bump_while w lo used fuel' y else Some y
  end.

#[global] Arguments wrap_u : simpl never.
#[global] Arguments wrap_s : simpl never.
#[global] Arguments write_at : simpl never.
#[global] Arguments read_at : simpl never.

(** ** Lemmas: weakest preconditions *)

Lemma wp_ret {S A} (a : A) (Q : A -> S -> Prop) s : Q a s -> wp (mret a) Q s.
Proof. done. Qed.

Lemma wp_gets {S A} (f : S -> A) (Q : A -> S -> Prop) s : Q (f s) s -> wp (gets f) Q s.
Proof. done. Qed.

Lemma wp_modify {S} (f : S -> S) (Q : unit -> S -> Prop) s : Q tt (f s) -> wp (modify f) Q s.
Proof. done. Qed.

Lemma wp_bind {S A B} (m : ST S A) (k : A -> ST S B) (Q : B -> S -> Prop) s :
  wp m (fun a s' => wp (k a) Q s') s -> wp (m ≫= k) Q s.
Proof. unfold wp, mbind, ST_bind. by destruct (m s). Qed.

Lemma wp_on_field {S T A} (proj : S -> T) {setter : FieldSetter proj} (m : ST T A) Q (s : S) :
  wp m (fun a t => Q a (s <| proj := t |>)) (proj s) -> wp (on_field proj m) Q s.
Proof. unfold wp, on_field. by destruct (m (proj s)). Qed.

Lemma wp_mono {S A} (m : ST S A) (P Q : A -> S -> Prop) s :
  wp m P s -> (forall a s', P a s' -> Q a s') -> wp m Q s.
Proof. unfold wp. eauto. Qed.

Lemma wp_run {S A} (m : ST S A) (Q : A -> S -> Prop) s a s' :
  m s = (a, s') -> wp m Q s -> Q a s'.
Proof. unfold wp. by intros ->. Qed.

Lemma wp_for_each {S A} (I : S -> Prop) (body : A -> ST S unit) xs s :
  I s -> (forall x s, x ∈ xs -> I s -> wp (body x) (fun _ => I) s) ->
  wp (for_each body xs) (fun _ => I) s.
Proof.
  revert s. induction xs as [|x xs IH]; intros s HI Hb; cbn; [by apply wp_ret|].
  apply wp_bind. eapply wp_mono; [apply Hb; [by left|done]|].
  intros ? s' ?. apply IH; [done|]. intros. apply Hb; [by right|done].
Qed.

(** ** Lemmas: integers *)

Lemma wrap_u_small w z : 0 <= z < 2 ^ w -> wrap_u w z = z.
Proof. intros. unfold wrap_u. by apply Z.mod_small. Qed.

Lemma wrap_u_range w z : 0 <= w -> 0 <= wrap_u w z < 2 ^ w.
Proof. intros. apply Z.mod_pos_bound. by apply Z.pow_pos_nonneg. Qed.

Lemma wrap_s_small w z : 0 < w -> - 2 ^ (w - 1) <= z < 2 ^ (w - 1) -> wrap_s w z = z.
Proof.
  intros Hw Hz. unfold wrap_s.
  assert (2 ^ w = 2 * 2 ^ (w - 1)) as E by (rewrite <- Z.pow_succ_r by lia; f_equal; lia).
  rewrite Z.mod_small; lia.
Qed.

Lemma wrap_s_range w z : 0 < w -> - 2 ^ (w - 1) <= wrap_s w z < 2 ^ (w - 1).
Proof.
  intros Hw. unfold wrap_s.
  assert (2 ^ w = 2 * 2 ^ (w - 1)) as E by (rewrite <- Z.pow_succ_r by lia; f_equal; lia).
  assert (0 < 2 ^ (w - 1)) by (apply Z.pow_pos_nonneg; lia).
  pose proof (Z.mod_pos_bound (z + 2 ^ (w - 1)) (2 ^ w)). lia.
Qed.

(** The increment that overflows: from the largest value to the smallest. *)
Lemma wrap_s_max w : 0 < w -> wrap_s w (2 ^ (w - 1) - 1 + 1) = - 2 ^ (w - 1).
Proof.
  intros Hw. unfold wrap_s.
  assert (2 ^ w = 2 * 2 ^ (w - 1)) as E by (rewrite <- Z.pow_succ_r by lia; f_equal; lia).
  replace (2 ^ (w - 1) - 1 + 1 + 2 ^ (w - 1)) with (2 ^ w) by lia.
  rewrite Z.mod_same; lia.
Qed.

(** ** Lemmas: flat memory *)

Section flat_memory.
  Context {A : Type}.
  Implicit Types (l bs : list A).

Lemma length_write_at l pos bs :
  (pos + length bs <= length l)%nat -> length (write_at l pos bs) = length l.
Proof. intros. unfold write_at. rewrite !length_app, length_take, length_drop. lia. Qed.

Lemma take_write_at l pos bs :
  (pos <= length l)%nat -> take (pos + length bs) (write_at l pos bs) = take pos l ++ bs.
Proof.
  intros. unfold write_at. rewrite app_assoc, take_app_length'; [done|].
  rewrite length_app, length_take. lia.
Qed.

Lemma take_write_at_le l pos bs n :
  (n <= pos <= length l)%nat -> take n (write_at l pos bs) = take n l.
Proof.
  intros. unfold write_at. rewrite take_app_le by (rewrite length_take; lia).
  rewrite take_take. f_equal. lia.
Qed.

Lemma drop_write_at l pos bs n :
  (pos + length bs <= n)%nat -> (pos + length bs <= length l)%nat ->
  drop n (write_at l pos bs) = drop n l.
Proof.
  intros. unfold write_at. rewrite app_assoc, drop_app_ge.
  - rewrite drop_drop, length_app, length_take. f_equal. lia.
  - rewrite length_app, length_take. lia.
Qed.

Lemma read_write_at l pos bs :
  (pos <= length l)%nat -> read_at (write_at l pos bs) pos (length bs) = bs.
Proof.
  intros. unfold read_at, write_at. rewrite drop_app_length' by (rewrite length_take; lia).
  by rewrite take_app_length.
Qed.

Lemma length_read_at l pos n : (pos + n <= length l)%nat -> length (read_at l pos n) = n.
Proof. intros. unfold read_at. rewrite length_take, length_drop. lia. Qed.

Lemma read_at_app_middle l1 l2 l3 :
  read_at (l1 ++ l2 ++ l3) (length l1) (length l2) = l2.
Proof. unfold read_at. by rewrite drop_app_length, take_app_length. Qed.

End flat_memory.

(** ** Lemmas: identifier counters *)

Section fresh.
  Context (w lo : Z).
  #[local] Notation hi := (2 ^ (w - 1) - 1).
  Context (Hw : 0 < w) (Hlo : - 2 ^ (w - 1) < lo <= hi).

Lemma bump_mod x : lo - 1 <= x <= hi -> bump w lo x = lo + (x - lo + 1) mod (hi - lo + 1).
Proof.
  intros Hx. unfold bump.
  assert (0 < 2 ^ (w - 1)) by (apply Z.pow_pos_nonneg; lia).
  destruct (decide (x = hi)) as [->|Hne].
  - unfold hi at 1. rewrite wrap_s_max by done.
    rewrite Z_mod_same_full. destruct (Z.ltb_spec (- 2 ^ (w - 1)) lo); lia.
  - rewrite wrap_s_small by (unfold hi in *; lia).
    rewrite Z.mod_small by lia. destruct (Z.ltb_spec (x + 1) lo); lia.
Qed.

Lemma bump_range x : lo - 1 <= x <= hi -> lo <= bump w lo x <= hi.
Proof.
  intros Hx. rewrite bump_mod by done.
  pose proof (Z.mod_pos_bound (x - lo + 1) (hi - lo + 1)). lia.
Qed.

Lemma iter_bump_range k x : lo - 1 <= x <= hi -> lo <= Nat.iter (S k) (bump w lo) x <= hi.
Proof.
  intros Hx. induction k as [|k IH]; [by apply bump_range|].
  cbn [Nat.iter nat_rect] in *. apply bump_range. lia.
Qed.

Lemma iter_bump_mod k x :
  lo - 1 <= x <= hi ->
  Nat.iter (S k) (bump w lo) x = lo + (x - lo + 1 + Z.of_nat k) mod (hi - lo + 1).
Proof.
  intros Hx. induction k as [|k IH].
  - cbn. rewrite bump_mod by done. do 2 f_equal. lia.
  - pose proof (iter_bump_range k x Hx) as HR.
    change (Nat.iter (S (S k)) (bump w lo) x) with (bump w lo (Nat.iter (S k) (bump w lo) x)).
    rewrite bump_mod by lia. rewrite IH.
    replace (lo + (x - lo + 1 + Z.of_nat k) mod (hi - lo + 1) - lo + 1)
      with ((x - lo + 1 + Z.of_nat k) mod (hi - lo + 1) + 1) by lia.
    rewrite Zplus_mod_idemp_l. do 2 f_equal. lia.
Qed.

Lemma iter_bump_inj x i j :
  lo - 1 <= x <= hi -> Z.of_nat i < hi - lo + 1 -> Z.of_nat j < hi - lo + 1 ->
  Nat.iter (S i) (bump w lo) x = Nat.iter (S j) (bump w lo) x -> i = j.
Proof.
  intros Hx Hi Hj E. rewrite !iter_bump_mod in E by done.
  set (N := hi - lo + 1) in *. set (c := x - lo + 1) in *.
  assert ((c + Z.of_nat i) mod N = (c + Z.of_nat j) mod N) as E' by lia.
  pose proof (Z.div_mod (c + Z.of_nat i) N ltac:(lia)) as D1.
  pose proof (Z.div_mod (c + Z.of_nat j) N ltac:(lia)) as D2.
  set (q1 := (c + Z.of_nat i) / N) in *. set (q2 := (c + Z.of_nat j) / N) in *.
  assert (Z.of_nat i - Z.of_nat j = N * (q1 - q2)) as D by lia.
  assert (- N < N * (q1 - q2) < N) by lia.
  assert (q1 - q2 = 0) as Q by nia. rewrite Q in D. lia.
Qed.

Lemma bump_while_none used fuel x k :
  bump_while w lo used fuel x = None -> (k < fuel)%nat ->
  used (Nat.iter (S k) (bump w lo) x) = true.
Proof.
  revert x k. induction fuel as [|fuel IH]; intros x k Hn Hk; [lia|].
  cbn in Hn. destruct (used (bump w lo x)) eqn:U; [|done].
  destruct k as [|k]; [done|].
  specialize (IH _ k Hn ltac:(lia)).
  change (S (S k)) with (1 + S k)%nat. rewrite Nat.add_comm, Nat.iter_add. done.
Qed.

Lemma bump_while_some used fuel x y :
  lo - 1 <= x <= hi -> bump_while w lo used fuel x = Some y ->
  lo <= y <= hi /\ used y = false.
Proof.
  revert x. induction fuel as [|fuel IH]; intros x Hx E; [done|].
  cbn in E. pose proof (bump_range x Hx). destruct (used (bump w lo x)) eqn:U.
  - apply (IH (bump w lo x)); [split; lia|exact E].
  - by simplify_eq.
Qed.

Lemma bump_while_mono used fuel fuel' x y :
  bump_while w lo used fuel x = Some y -> (fuel <= fuel')%nat ->
  bump_while w lo used fuel' x = Some y.
Proof.
  revert fuel' x. induction fuel as [|fuel IH]; intros [|fuel'] x E Hle; try done; [lia|].
  cbn in *. destruct (used _); [|done]. apply IH; [done|lia].
Qed.

(** The counter finds an unused identifier: fewer identifiers are used than the
    fuel allows attempts, and fewer than there are identifiers. *)
Lemma bump_while_total (used : Z -> bool) (X : gset Z) fuel x :
  lo - 1 <= x <= hi -> (forall y, used y = true -> y ∈ X) ->
  (size X < fuel)%nat -> Z.of_nat (size X) < hi - lo + 1 ->
  exists y, bump_while w lo used fuel x = Some y.
Proof.
  intros Hx HX Hf HN.
  destruct (bump_while w lo used (S (size X)) x) as [y|] eqn:E.
  { exists y. apply (bump_while_mono _ _ _ _ _ E). lia. }
  exfalso.
  set (L := (fun k => Nat.iter (S k) (bump w lo) x) <$> seq 0 (S (size X))).
  assert (NoDup L) as ND.
  { apply NoDup_fmap_2_strong; [|apply NoDup_seq].
    intros i j Hi Hj. rewrite !elem_of_seq in *. apply iter_bump_inj; [done|lia|lia]. }
  assert (list_to_set L ⊆ X) as HS.
  { intros z Hz. apply elem_of_list_to_set, list_elem_of_fmap in Hz as (k & -> & Hk%elem_of_seq).
    apply HX, (bump_while_none _ _ _ _ E). lia. }
  apply subseteq_size in HS. rewrite size_list_to_set in HS by done.
  unfold L in HS. rewrite length_fmap, length_seq in HS. lia.
Qed.

End fresh.

#[export] Hint Resolve wrap_u_range wrap_s_range : aie.

(** ** Tactics *)

(** Case analysis on the guards and matches of a modelled function. *)
Ltac split_guards :=
  repeat (case_match || case_decide); simplify_eq/=; try done.

(** One step through the statements of a state-passing computation. *)
Ltac wp_step :=
  lazymatch goal with
  | |- wp (mbind _ _) _ _ => apply wp_bind
  | |- wp (mret _) _ _ => apply wp_ret
  | |- wp (gets _) _ _ => apply wp_gets
  | |- wp (modify _) _ _ => apply wp_modify
  | |- wp (on_field _ _) _ _ => apply wp_on_field
  | |- wp (if ?b then _ else _) _ _ => destruct b eqn:?
  | |- wp (match ?x with _ => _ end) _ _ => destruct x eqn:?
  end.

(** Steps up to the next choice. *)
Ltac wp_flow :=
  repeat (cbn beta iota; lazymatch goal with
  | |- wp (mbind _ _) _ _ => apply wp_bind
  | |- wp (mret _) _ _ => apply wp_ret
  | |- wp (gets _) _ _ => apply wp_gets
  | |- wp (modify _) _ _ => apply wp_modify
  end).

Ltac wp_steps := repeat (cbn beta iota; wp_step).

Ltac boolify :=
  repeat match goal with
  | H : (_ =? _) = true |- _ => apply Z.eqb_eq in H
  | H : (_ =? _) = false |- _ => apply Z.eqb_neq in H
  | H : (_ <? _) = true |- _ => apply Z.ltb_lt in H
  | H : (_ <? _) = false |- _ => apply Z.ltb_ge in H
  | H : (_ <=? _) = true |- _ => apply Z.leb_le in H
  | H : (_ <=? _) = false |- _ => apply Z.leb_gt in H
  | H : (_ && _)%bool = true |- _ => apply andb_prop in H as [? ?]
  | H : (_ || _)%bool = false |- _ => apply orb_false_elim in H as [? ?]
  | H : negb _ = true |- _ => apply negb_true_iff in H
  | H : negb _ = false |- _ => apply negb_false_iff in H
  end.
