(* ===== verification/Clock.v ===== *)
(** * Clock: the wall clock and elapsed time (platform/time)

    time.cpp and time_elapser.cpp.  The clock is [std::chrono::system_clock],
    whose time points count nanoseconds since the epoch in the library the
    engine is built with; its reading is an argument of every operation.  It is
    a wall clock and may be set back. *)

From Stdlib Require Import ZArith Lia.
From stdpp Require Import base tactics.
From S2P Require Import Prelude.

#[local] Open Scope Z_scope.

(** [duration_cast] to a unit of so many nanoseconds; it truncates. *)
Definition duration_cast (unit_ns ns : Z) : Z := s64 (Z.quot ns unit_ns).

Definition MICRO : Z := 1000.
Definition MILLI : Z := 1000 * MICRO.
Definition SEC : Z := 1000 * MILLI.

(** ** time.cpp *)

Definition GetCurTimeSec (now : Z) : Z := duration_cast SEC now.
Definition GetCurTimeMillSec (now : Z) : Z := duration_cast MILLI now.

(** ** [TimeElapser] *)

Module TimeElapser.

Record t := mk { startTime_ : Z }.
#[global] Instance eta_elapser : Eta t := fun r => mk (startTime_ r).

Definition Reset (now : Z) (e : t) : t := e <| startTime_ := now |>.
Definition ctor (now : Z) : t := Reset now (mk 0).
Definition GetStartTime (e : t) : Z := duration_cast MICRO (startTime_ e).
Definition ElapseMicro (now : Z) (e : t) : Z := duration_cast MICRO (now - startTime_ e).
Definition ElapseMilli (now : Z) (e : t) : Z := duration_cast MILLI (now - startTime_ e).
Definition ElapseSec (now : Z) (e : t) : Z := duration_cast SEC (now - startTime_ e).

(** [static_cast<int32_t>(elapser.ElapseMilli())], as the timed waits use it. *)
Definition ElapseMilli32 (now : Z) (e : t) : Z := s32 (ElapseMilli now e).

End TimeElapser.

Module ClockFacts.
Import TimeElapser.

Lemma duration_cast_exact u ns : 0 < u -> is_s64 ns -> duration_cast u ns = Z.quot ns u.
Proof.
  unfold is_s64, LLONG_MIN, LLONG_MAX, duration_cast. intros Hu Hn. apply wrap_s_small; [lia|].
  change (2 ^ (64 - 1)) with (2 ^ 63).
  destruct (Z_le_gt_dec 0 ns).
  - rewrite Z.quot_div_nonneg by lia. pose proof (Z.div_pos ns u). pose proof (Z.div_le_upper_bound ns u ns). nia.
  - replace ns with (- - ns) by lia. rewrite Z.quot_opp_l, Z.quot_div_nonneg by lia.
    pose proof (Z.div_pos (- ns) u). pose proof (Z.div_le_upper_bound (- ns) u (- ns)). nia.
Qed.

Lemma quot_bounds u ns : 0 < u -> 0 <= ns -> Z.quot ns u * u <= ns < (Z.quot ns u + 1) * u.
Proof.
  intros Hu Hn. rewrite Z.quot_div_nonneg by lia.
  pose proof (Z.div_mod ns u ltac:(lia)). pose proof (Z.mod_pos_bound ns u Hu). nia.
Qed.

End ClockFacts.

(** The elapsed time is the time gone by in whole units, and the 32 bits the
    timed waits keep of it are enough for 24 days. *)
Theorem elapse_measures (start now : Z) (e : TimeElapser.t) :
  e = TimeElapser.ctor start -> is_s64 (now - start) -> start <= now ->
  (TimeElapser.ElapseMilli now e * MILLI <= now - start < (TimeElapser.ElapseMilli now e + 1) * MILLI) /\
  (now - start < 2 ^ 31 * MILLI -> TimeElapser.ElapseMilli32 now e = TimeElapser.ElapseMilli now e).
Proof.
  intros -> Hn Hle. unfold TimeElapser.ElapseMilli32, TimeElapser.ElapseMilli. cbn [TimeElapser.startTime_ TimeElapser.ctor].
  change (TimeElapser.startTime_ _) with start.
  rewrite ClockFacts.duration_cast_exact by done.
  pose proof (ClockFacts.quot_bounds MILLI (now - start) ltac:(done) ltac:(lia)) as B. split; [done|]. intros Hs.
  assert (0 <= Z.quot (now - start) MILLI) by (apply Z.quot_pos; [lia|done]).
  apply wrap_s_small; [done|]. change (2 ^ (32 - 1)) with (2 ^ 31). unfold MILLI, MICRO in *. lia.
Qed.

Lemma elapse_measures_witness :
  let e := TimeElapser.ctor 1000000 in
  (TimeElapser.ElapseMilli 3999999 e * MILLI <= 3999999 - 1000000 < (TimeElapser.ElapseMilli 3999999 e + 1) * MILLI) /\
  (3999999 - 1000000 < 2 ^ 31 * MILLI -> TimeElapser.ElapseMilli32 3999999 e = TimeElapser.ElapseMilli 3999999 e).
Proof. apply (elapse_measures 1000000 3999999); [done| |done]. unfold is_s64, LLONG_MIN, LLONG_MAX. lia. Defined.

(** A clock that is set back makes a timed wait longer: the time gone by is not
    positive until the clock has caught up. *)
Lemma clock_set_back start now : is_s64 (now - start) -> now <= start ->
  TimeElapser.ElapseMilli now (TimeElapser.ctor start) <= 0.
Proof.
  intros Hn Hle. unfold TimeElapser.ElapseMilli. change (TimeElapser.startTime_ _) with start.
  rewrite ClockFacts.duration_cast_exact by done.
  replace (now - start) with (- (start - now)) by lia. rewrite Z.quot_opp_l by done.
  pose proof (Z.quot_pos (start - now) MILLI ltac:(lia) ltac:(done)). lia.
Qed.
