(* ===== verification/Protocol.v ===== *)
(** * Protocol: data shared by every part of the engine

    The return codes, the structures of [aie_info_define.h], the [Request] and
    [Response] classes of [protocol/data_channel], and the C heap their payloads
    live in.  A payload block is its address together with its bytes: a block is
    filled once, right after [malloc], and only read afterwards, so the bytes
    travel with the pointer while the heap records which addresses are live. *)

From Stdlib Require Import ZArith Lia.
From stdpp Require Import gmap strings list.
From S2P Require Import Prelude.

(** ** Return codes ([AieInnerCode]) and constants *)

Definition RETCODE_SUCCESS : Z := 0.
Definition RETCODE_FAILURE : Z := -1.
Definition RETCODE_OUT_OF_MEMORY : Z := 1001.
Definition RETCODE_NULL_PARAM : Z := 1002.
Definition RETCODE_ALGORITHM_ID_INVALID : Z := 1003.
Definition RETCODE_MEMORY_COPY_FAILURE : Z := 1004.
Definition RETCODE_SERVER_NOT_INIT : Z := 1005.
Definition RETCODE_INVALID_PARAM : Z := 1006.
Definition RETCODE_SA_SERVICE_EXCEPTION : Z := 1100.
Definition RETCODE_SA_ASYNC_HANDLER_NOT_FOUND : Z := 1102.
Definition RETCODE_SO_LACK_SYMBOL : Z := 1200.
Definition RETCODE_PLUGIN_LOAD_FAILED : Z := 1201.
Definition RETCODE_OPEN_SO_FAILED : Z := 1202.
Definition RETCODE_NO_LISTENER_FOUND : Z := 1203.
Definition RETCODE_ENGINE_NOT_EXIST : Z := 1204.
Definition RETCODE_ENGINE_MANAGER_NOT_INIT : Z := 1205.
Definition RETCODE_NO_CLIENT_FOUND : Z := 1206.
Definition RETCODE_WRONG_INFER_MODE : Z := 1207.
Definition RETCODE_ASYNC_CB_STARTED : Z := 1208.
Definition RETCODE_SYNC_MSG_TIMEOUT : Z := 1300.
Definition RETCODE_START_THREAD_FAILED : Z := 1400.
Definition RETCODE_QUEUE_FULL : Z := 1500.
Definition RETCODE_QUEUE_EMPTY : Z := 1501.
Definition RETCODE_QUEUE_NODE_INVALID : Z := 1502.
Definition RETCODE_EMPTY_MAP : Z := 1600.
Definition RETCODE_ALGORITHM_PROCESS_ERROR : Z := 1700.

Definition INVALID_CLIENT_ID : Z := -1.
Definition INVALID_SESSION_ID : Z := -1.
Definition INVALID_UID : Z := 0.

(** ** The C heap

    [malloc_ok t n] says whether the [t]-th allocation of the run, of [n] bytes,
    succeeds; [new_ok t] says so for [new(std::nothrow)].  Both are behaviour of
    the C++ run time and are arguments of everything that allocates. *)

Class Allocator := {
  malloc_ok : nat -> Z -> bool;
  new_ok : nat -> bool;
}.

Module Mem.

Record t := mk {
  tick : nat;                (** allocations attempted so far *)
  next : nat;                (** addresses below [next] have been handed out *)
  live : gset nat;           (** allocated and not yet freed *)
  bad_frees : list nat;      (** [free] of an address that is not live *)
}.

#[global] Instance eta_mem : Eta t := fun r => mk (tick r) (next r) (live r) (bad_frees r).

Definition empty : t := mk 0 0 ∅ [].

End Mem.

(** A non-null [unsigned char *] of the program. *)
Module Block.
Record t := mk { addr : nat; bytes : list Z }.
End Block.

Section heap.
  Context `{!Allocator}.

Definition malloc (size : Z) (content : list Z) : ST Mem.t (option Block.t) := fun m =>
  let m1 := m <| Mem.tick ::= S |> in
  if malloc_ok (Mem.tick m) size
  then (Some (Block.mk (Mem.next m) content),
        m1 <| Mem.next ::= S |> <| Mem.live ::= union {[Mem.next m]} |>)
  else (None, m1).

(** [AIE_NEW]: try to create an object; the result says whether it succeeded. *)
Definition AIE_NEW : ST Mem.t bool := fun m => (new_ok (Mem.tick m), m <| Mem.tick ::= S |>).

Definition free (b : option Block.t) : ST Mem.t unit := fun m =>
  match b with
  | None => (tt, m)
  | Some b => if decide (Block.addr b ∈ Mem.live m)
              then (tt, m <| Mem.live := Mem.live m ∖ {[Block.addr b]} |>)
              else (tt, m <| Mem.bad_frees ::= cons (Block.addr b) |>)
  end.

End heap.

(** ** [aie_info_define.h] *)

Module DataInfo.
Record t := mk { data : option Block.t; length : Z }.
#[global] Instance eta_data_info : Eta t := fun r => mk (data r) (length r).
Definition null : t := mk None 0.
(** The bytes behind [data]. *)
Definition content (d : t) : list Z := default [] (Block.bytes <$> data d).
End DataInfo.

Module ConfigInfo.
Record t := mk { description : string }.
End ConfigInfo.

Module ClientInfo.
Record t := mk {
  clientVersion : Z;
  clientId : Z;
  sessionId : Z;
  serverUid : Z;
  clientUid : Z;
  extendLen : Z;
  extendMsg : option Block.t;
}.
#[global] Instance eta_client_info : Eta t := fun r =>
  mk (clientVersion r) (clientId r) (sessionId r) (serverUid r) (clientUid r) (extendLen r) (extendMsg r).
Definition zero : t := mk 0 0 0 0 0 0 None.
End ClientInfo.

Module AlgorithmInfo.
Record t := mk {
  clientVersion : Z;
  isAsync : bool;
  algorithmType : Z;
  algorithmVersion : Z;
  isCloud : bool;
  operateId : Z;
  requestId : Z;
  extendLen : Z;
  extendMsg : option Block.t;
}.
#[global] Instance eta_algorithm_info : Eta t := fun r =>
  mk (clientVersion r) (isAsync r) (algorithmType r) (algorithmVersion r) (isCloud r)
     (operateId r) (requestId r) (extendLen r) (extendMsg r).
Definition zero : t := mk 0 false 0 0 false 0 0 0 None.
End AlgorithmInfo.

(** ** [Request] (request.cpp) *)

Module Request.

Record t := mk {
  innerSequenceId : Z;
  requestId : Z;
  operationId : Z;
  clientUid : Z;
  transactionId : Z;
  algoPluginType : Z;
  msg : DataInfo.t;
}.
#[global] Instance eta_request : Eta t := fun r =>
  mk (innerSequenceId r) (requestId r) (operationId r) (clientUid r) (transactionId r)
     (algoPluginType r) (msg r).

(** [Request::Request()] *)
Definition ctor : t := mk 0 0 0 0 0 0 DataInfo.null.

(** [IRequest::Create()]: null when [new] fails. *)
Definition Create `{!Allocator} : ST Mem.t (option t) :=
  ok ← AIE_NEW;
  mret (if (ok : bool) then Some ctor else None).

Definition SetInnerSequenceId (seqId : Z) (r : t) : t := r <| innerSequenceId := seqId |>.
Definition SetRequestId (id : Z) (r : t) : t := r <| requestId := id |>.
Definition SetOperationId (id : Z) (r : t) : t := r <| operationId := id |>.
Definition SetClientUid (uid : Z) (r : t) : t := r <| clientUid := uid |>.
Definition SetTransactionId (id : Z) (r : t) : t := r <| transactionId := id |>.
Definition SetAlgoPluginType (ty : Z) (r : t) : t := r <| algoPluginType := ty |>.
Definition SetMsg (m : DataInfo.t) (r : t) : t := r <| msg := m |>.

(** [Request::~Request()]: the request owns the payload of its message. *)
Definition dtor (r : t) : ST Mem.t unit :=
  match DataInfo.data (msg r) with
  | None => mret tt
  | Some b => free (Some b)
  end.

(** [IRequest::Destroy(request)]: deleting a null pointer does nothing. *)
Definition Destroy (r : option t) : ST Mem.t unit :=
  match r with
  | None => mret tt
  | Some r => dtor r
  end.

End Request.

(** ** [Response] (response.cpp) *)

Module Response.

Record t := mk {
  requestId : Z;
  innerSequenceId : Z;
  transactionId : Z;
  retCode : Z;
  retDesc : string;
  result : DataInfo.t;
  algoPluginType : Z;
  clientUid : Z;
}.
#[global] Instance eta_response : Eta t := fun r =>
  mk (requestId r) (innerSequenceId r) (transactionId r) (retCode r) (retDesc r) (result r)
     (algoPluginType r) (clientUid r).

Definition INVALID_ALGO_PLUGIN_TYPE : Z := -1.

(** [Response::Response(request)]; [clientUid_] has the default 0. *)
Definition ctor (request : option Request.t) : t :=
  match request with
  | None => mk 0 0 0 RETCODE_SUCCESS "" DataInfo.null INVALID_ALGO_PLUGIN_TYPE 0
  | Some q => mk (Request.requestId q) (Request.innerSequenceId q) (Request.transactionId q)
                 RETCODE_SUCCESS "" DataInfo.null (Request.algoPluginType q) (Request.clientUid q)
  end.

(** [IResponse::Create(request)] *)
Definition Create `{!Allocator} (request : option Request.t) : ST Mem.t (option t) :=
  ok ← AIE_NEW;
  mret (if (ok : bool) then Some (ctor request) else None).

Definition SetRetCode (c : Z) (r : t) : t := r <| retCode := c |>.
Definition SetTransactionId (id : Z) (r : t) : t := r <| transactionId := id |>.
Definition SetClientUid (uid : Z) (r : t) : t := r <| clientUid := uid |>.
Definition SetRetDesc (d : string) (r : t) : t := r <| retDesc := d |>.
Definition SetResult (d : DataInfo.t) (r : t) : t := r <| result := d |>.
Definition SetInnerSequenceId (id : Z) (r : t) : t := r <| innerSequenceId := id |>.
Definition SetAlgoPluginType (ty : Z) (r : t) : t := r <| algoPluginType := ty |>.

(** [Response::Detach()]: the payload is given away, the length stays. *)
Definition Detach (r : t) : t := r <| result := (result r) <| DataInfo.data := None |> |>.

(** [Response::~Response()] *)
Definition dtor (r : t) : ST Mem.t unit :=
  match DataInfo.data (result r) with
  | None => mret tt
  | Some b => free (Some b)
  end.

(** [IResponse::Destroy(response)] *)
Definition Destroy (r : option t) : ST Mem.t unit :=
  match r with
  | None => mret tt
  | Some r => dtor r
  end.

End Response.

(** ** Lemmas: the heap *)

Definition always_alloc : Allocator := {| malloc_ok := fun _ _ => true; new_ok := fun _ => true |}.

(** Well-formed heaps: live addresses have been handed out. *)
Definition mem_wf (m : Mem.t) : Prop := forall a, a ∈ Mem.live m -> (a < Mem.next m)%nat.

Lemma mem_wf_empty : mem_wf Mem.empty.
Proof. intros a. cbn. set_solver. Qed.

Lemma malloc_spec `{!Allocator} n c m :
  mem_wf m ->
  wp (malloc n c) (fun r m' => mem_wf m' /\ Mem.bad_frees m' = Mem.bad_frees m /\
    malloc_ok (Mem.tick m) n = bool_decide (is_Some r) /\
    match r with
    | None => Mem.live m' = Mem.live m
    | Some b => Block.bytes b = c /\ (Block.addr b ∉ Mem.live m) /\
                Mem.live m' = {[Block.addr b]} ∪ Mem.live m
    end) m.
Proof.
  intros WF. unfold malloc, wp. destruct (malloc_ok _ _) eqn:E; cbn; split_and!; try done.
  - intros a. cbn. rewrite elem_of_union, elem_of_singleton. intros [->|?%WF]; lia.
  - intros ?%WF. lia.
Qed.

Lemma free_spec b m L :
  mem_wf m -> Mem.live m = {[Block.addr b]} ∪ L -> (Block.addr b ∉ L) ->
  wp (free (Some b)) (fun _ m' =>
    mem_wf m' /\ Mem.live m' = L /\ Mem.bad_frees m' = Mem.bad_frees m) m.
Proof.
  intros WF HL Hn. unfold free, wp. rewrite decide_True by set_solver. cbn. split_and!; [|set_solver|done].
  intros a Ha. apply WF. cbn in Ha. set_solver.
Qed.

#[export] Hint Resolve mem_wf_empty : aie.
