(* ===== verification/Encdec.v ===== *)
(** * Encdec: the encoder and decoder that carry every call over IPC

    [DataEncoder] (data_encoder.h, data_encoder.cpp) appends object
    representations to a growing heap block, [DataDecoder] (data_decoder.h,
    data_decoder.cpp) reads them back under bounds checks, and [EncdecFacade]
    drives both.  plugin_helper.cpp adds arrays and classification results.
    [le n z] is the representation of an [n]-byte integer on the little-endian
    targets of the engine; [size_t] has 8 bytes. *)

From Stdlib Require Import ZArith Lia.
From stdpp Require Import gmap list.
From S2P Require Import Prelude Protocol.

(** ** securec and the run time

    [memcpy_s destMax count] is the error code of the bounds-checking copy of
    the third-party library; [uninit] gives the bytes of fresh storage. *)

Definition EOK : Z := 0.
Definition SECUREC_MEM_MAX_LEN : Z := 0x7fffffff.

Class Securec := {
  memcpy_s : Z -> Z -> Z;
  uninit : nat -> Z;
}.

Class SecurecLaws `{Securec} :=
  memcpy_s_ok (destMax count : Z) :
    0 < count -> count <= destMax -> destMax <= SECUREC_MEM_MAX_LEN -> memcpy_s destMax count = EOK.

(** No allocation exceeds the 48-bit address space. *)
Definition ADDRESS_SPACE : Z := 2 ^ 48.
Class AllocatorLaws `{Allocator} :=
  malloc_bounded (t : nat) (n : Z) : malloc_ok t n = true -> n <= ADDRESS_SPACE.

Definition SIZEOF_SIZE_T : nat := 8.
Definition SIZEOF_MEMBLOCK : Z := 8.
Definition CHUNK_SIZE : Z := 1024 * 15.
Definition BUFF_EXTENSION_FACTOR : Z := 2.
Definition INIT_BUFFER_SIZE : Z := 256.
Definition PAIR_SIZE : Z := 2.

Definition zlen {A} (l : list A) : Z := Z.of_nat (length l).

Fixpoint le (n : nat) (z : Z) : list Z :=
  match n with
  | O => []
  | S n' => z mod 2 ^ 8 :: le n' (z / 2 ^ 8)
  end.

Fixpoint le_val (bs : list Z) : Z :=
  match bs with
  | [] => 0
  | b :: bs' => b + 2 ^ 8 * le_val bs'
  end.

Definition size_t_bytes (z : Z) : list Z := le SIZEOF_SIZE_T z.

#[global] Arguments zlen : simpl never.
#[global] Arguments size_t_bytes : simpl never.

(** ** What the templates are instantiated with *)

Inductive value :=
  | VObj (bs : list Z)                     (** a trivially copyable object: its representation *)
  | VString (bs : list Z)                  (** [std::string] *)
  | VArray (elems : list (list Z))         (** [Array<T>] with non-null data *)
  | VItems (items : list (list Z * list Z)) (** [std::vector<std::pair<int32_t, int32_t>>] *).

Inductive type :=
  | TObj (size : nat)
  | TString
  | TArray (size : nat) (nonEmpty : bool)  (** whether [val.size != 0 || val.data != nullptr] *).

(** [if (m != RETCODE_SUCCESS) { return code; } k] *)
Definition or_return {S} (m : ST S Z) (code : Z) (k : ST S Z) : ST S Z :=
  r ← m; if r =? RETCODE_SUCCESS then k else mret code.

(** [if (!m) { return code; } k] *)
Definition guard_ {S} (m : ST S bool) (code : Z) (k : ST S Z) : ST S Z :=
  ok ← m; if (ok : bool) then k else mret code.

(** ** [DataEncoder] *)

Module MemBlock.
Record t := mk { addr : nat; blockSize : Z; data : list Z }.
#[global] Instance eta_mem_block : Eta t := fun r => mk (addr r) (blockSize r) (data r).
End MemBlock.

Module DataEncoder.

(** [ub] records a dereference of a null pointer or a copy out of the bounds of
    a block; no C++ behaviour is defined after it. *)
Record t := mk {
  mem : Mem.t;
  buffer_ : option MemBlock.t;
  pos_ : Z;
  allocSuccess_ : bool;
  ub : bool;
}.
#[global] Instance eta_data_encoder : Eta t := fun r =>
  mk (mem r) (buffer_ r) (pos_ r) (allocSuccess_ r) (ub r).

(** [DataEncoder::DataEncoder()] *)
Definition ctor (m : Mem.t) : t := mk m None 0 false false.

Section operations.
  Context `{!Allocator, !Securec}.

Definition AllocateMemBlock (sz : Z) : ST Mem.t (option MemBlock.t) :=
  let size := u64 (sz + SIZEOF_MEMBLOCK) in
  memBlock ← malloc size [];
  match memBlock with
  | None => mret None
  | Some b => mret (Some (MemBlock.mk (Block.addr b) sz
                            (uninit <$> seq 0 (Z.to_nat (size - SIZEOF_MEMBLOCK)))))
  end.

Definition FreeMemBlock (block : option MemBlock.t) : ST Mem.t unit :=
  match block with
  | None => mret tt
  | Some b => free (Some (Block.mk (MemBlock.addr b) []))
  end.

(** [DataEncoder::~DataEncoder()] *)
Definition dtor : ST t unit :=
  b ← gets buffer_;
  on_field mem (FreeMemBlock b) ;;
  modify (fun s => s <| buffer_ := None |>).

Definition Init (sz : Z) : ST t Z :=
  b ← on_field mem (AllocateMemBlock sz);
  modify (fun s => s <| buffer_ := b |>) ;;
  match b with
  | None => mret RETCODE_OUT_OF_MEMORY
  | Some _ => modify (fun s => s <| allocSuccess_ := true |>) ;; mret RETCODE_SUCCESS
  end.

Inductive copied := Copied (dst : list Z) | CopyError | CopyOutOfBounds.

(** [memcpy_s(dst + off, n, src + off, n)] *)
Definition copy_range (off n : Z) (src dst : list Z) : copied :=
  if negb (memcpy_s n n =? EOK) then CopyError
  else if (off + n <=? zlen src) && (off + n <=? zlen dst)
  then Copied (write_at dst (Z.to_nat off) (read_at src (Z.to_nat off) (Z.to_nat n)))
  else CopyOutOfBounds.

(** The loop over whole chunks and the copy of what is left. *)
Fixpoint copy_chunks (fuel : nat) (off leftSize : Z) (src dst : list Z) : copied :=
  if leftSize >=? CHUNK_SIZE then
    match fuel with
    | O => CopyOutOfBounds
    | S fuel' => match copy_range off CHUNK_SIZE src dst with
                 | Copied dst' => copy_chunks fuel' (off + CHUNK_SIZE) (leftSize - CHUNK_SIZE) src dst'
                 | e => e
                 end
    end
  else if 0 <? leftSize then copy_range off leftSize src dst
  else Copied dst.

Definition ReallocBuffer (newSize : Z) : ST t bool :=
  a ← gets allocSuccess_;
  if negb a then mret false else
  p ← on_field mem (AllocateMemBlock newSize);
  match p with
  | None => modify (fun s => s <| allocSuccess_ := false |>) ;; mret false
  | Some p =>
      old ← gets buffer_; pos ← gets pos_;
      match copy_chunks (Z.to_nat (pos / CHUNK_SIZE)) 0 pos
              (default [] (MemBlock.data <$> old)) (MemBlock.data p) with
      | CopyError =>
          modify (fun s => s <| allocSuccess_ := false |>) ;;
          on_field mem (FreeMemBlock (Some p)) ;; mret false
      | CopyOutOfBounds => modify (fun s => s <| ub := true |>) ;; mret false
      | Copied d =>
          on_field mem (FreeMemBlock old) ;;
          modify (fun s => s <| buffer_ := Some (p <| MemBlock.data := d |>) |>) ;;
          mret true
      end
  end.

Definition Ensure (incSize : Z) : ST t bool :=
  b ← gets buffer_; pos ← gets pos_;
  match b with
  | None => modify (fun s => s <| ub := true |>) ;; mret false
  | Some b => if MemBlock.blockSize b >=? u64 (pos + incSize) then mret true
              else ReallocBuffer (u64 (MemBlock.blockSize b * BUFF_EXTENSION_FACTOR + incSize))
  end.

(** [memcpy_s(buffer_->data + pos_, len, src, len)] and its error code. *)
Definition copy_in (bs : list Z) : ST t Z :=
  b ← gets buffer_; pos ← gets pos_;
  let len := zlen bs in
  if negb (memcpy_s len len =? EOK) then mret (memcpy_s len len) else
  match b with
  | None => modify (fun s => s <| ub := true |>) ;; mret EOK
  | Some b =>
      if pos + len <=? zlen (MemBlock.data b)
      then modify (fun s => s <| buffer_ :=
                     Some (b <| MemBlock.data := write_at (MemBlock.data b) (Z.to_nat pos) bs |>) |>) ;;
           mret EOK
      else modify (fun s => s <| ub := true |>) ;; mret EOK
  end.

(** [template<typename T> EncodeOneParameter(const T &val)] *)
Definition EncodeObj (bs : list Z) : ST t Z :=
  a ← gets allocSuccess_;
  if negb a then mret RETCODE_FAILURE else
  let len := zlen bs in
  if len =? 0 then mret RETCODE_FAILURE else
  guard_ (Ensure len) RETCODE_FAILURE (
  e ← copy_in bs;
  if negb (e =? EOK) then mret RETCODE_FAILURE else
  modify (fun s => s <| pos_ ::= fun p => u64 (p + len) |>) ;;
  mret RETCODE_SUCCESS).

(** [EncodeOneParameter(const std::string &val)] *)
Definition EncodeString (bs : list Z) : ST t Z :=
  a ← gets allocSuccess_;
  if negb a then mret RETCODE_FAILURE else
  let len := zlen bs in
  if len =? 0 then EncodeObj (size_t_bytes len) else
  or_return (EncodeObj (size_t_bytes len)) RETCODE_FAILURE (
  guard_ (Ensure len) RETCODE_FAILURE (
  e ← copy_in bs;
  if negb (e =? EOK) then mret RETCODE_FAILURE else
  modify (fun s => s <| pos_ ::= fun p => u64 (p + len) |>) ;;
  mret RETCODE_SUCCESS)).

(** [for (i < size) if (EncodeOneParameter(data[i]) != SUCCESS) return FAILURE;] *)
Fixpoint EncodeElems (elems : list (list Z)) : ST t Z :=
  match elems with
  | [] => mret RETCODE_SUCCESS
  | e :: elems' => or_return (EncodeObj e) RETCODE_FAILURE (EncodeElems elems')
  end.

(** [EncodeOneParameter(const Array<type> &val)] *)
Definition EncodeArray (elems : list (list Z)) : ST t Z :=
  if zlen elems =? 0 then mret RETCODE_FAILURE else
  or_return (EncodeObj (size_t_bytes (zlen elems))) RETCODE_FAILURE (EncodeElems elems).

(** [EncodeOneParameter(const Items &outputData)] *)
Definition EncodeItems (items : list (list Z * list Z)) : ST t Z :=
  or_return (EncodeObj (size_t_bytes (zlen items * PAIR_SIZE))) RETCODE_FAILURE (
  or_return (EncodeElems (fst <$> items)) RETCODE_FAILURE (
  EncodeElems (snd <$> items))).

Definition EncodeOneParameter (v : value) : ST t Z :=
  match v with
  | VObj bs => EncodeObj bs
  | VString bs => EncodeString bs
  | VArray elems => EncodeArray elems
  | VItems items => EncodeItems items
  end.

Fixpoint RecursiveEncode (args : list value) : ST t Z :=
  match args with
  | [] => mret RETCODE_SUCCESS
  | arg :: args' =>
      retCode ← EncodeOneParameter arg;
      if negb (retCode =? RETCODE_SUCCESS) then mret retCode else RecursiveEncode args'
  end.

(** The block [malloc]ed for the caller holds the first [pos_] bytes. *)
Definition GetSerializedData : ST t (Z * DataInfo.t) :=
  pos0 ← gets pos_;
  r ← EncodeObj (size_t_bytes pos0);
  if negb (r =? RETCODE_SUCCESS) then mret (RETCODE_FAILURE, DataInfo.null) else
  b ← gets buffer_; pos ← gets pos_;
  match b with
  | None => mret (RETCODE_FAILURE, DataInfo.null)
  | Some b =>
      if pos =? 0 then mret (RETCODE_FAILURE, DataInfo.null) else
      if pos >? INT_MAX then mret (RETCODE_FAILURE, DataInfo.null) else
      d ← on_field mem (malloc pos (take (Z.to_nat pos) (MemBlock.data b)));
      match d with
      | None => mret (RETCODE_OUT_OF_MEMORY, DataInfo.mk None pos)
      | Some blk =>
          if negb (memcpy_s pos pos =? EOK) then
            on_field mem (free (Some blk)) ;; mret (RETCODE_MEMORY_COPY_FAILURE, DataInfo.null)
          else
            on_field mem (FreeMemBlock (Some b)) ;;
            modify (fun s => s <| buffer_ := None |> <| pos_ := 0 |> <| allocSuccess_ := false |>) ;;
            mret (RETCODE_SUCCESS, DataInfo.mk (Some blk) pos)
      end
  end.

End operations.
End DataEncoder.

(** ** [DataDecoder] *)

Module DataDecoder.

(** [oob] records a read outside the block behind [buffer_]. *)
Record t := mk {
  mem : Mem.t;
  buffer_ : list Z;
  size_ : Z;
  pos_ : Z;
  oob : bool;
}.
#[global] Instance eta_data_decoder : Eta t := fun r =>
  mk (mem r) (buffer_ r) (size_ r) (pos_ r) (oob r).

(** [DataDecoder::DataDecoder(dataInfo)]: an [int] length becomes a [size_t]. *)
Definition ctor (m : Mem.t) (d : DataInfo.t) : t :=
  mk m (DataInfo.content d) (u64 (DataInfo.length d)) 0 false.

Section operations.
  Context `{!Allocator, !Securec}.

Definition Ensure (size : Z) : ST t bool :=
  gets (fun s => (size <=? size_ s) && (u64 (pos_ s + size) <=? size_ s)).

(** Read [n] bytes at [pos_] and move past them. *)
Definition take_bytes (n : Z) : ST t (list Z) := fun s =>
  (read_at (buffer_ s) (Z.to_nat (pos_ s)) (Z.to_nat n),
   s <| pos_ ::= fun p => u64 (p + n) |>
     <| oob ::= orb (zlen (buffer_ s) <? pos_ s + n) |>).

(** [template<typename T> DecodeOneParameter(T &val)] *)
Definition DecodeObj (size : Z) : ST t (Z * list Z) :=
  if size =? 0 then mret (RETCODE_FAILURE, []) else
  ok ← Ensure size;
  if negb ok then mret (RETCODE_FAILURE, []) else
  if negb (memcpy_s size size =? EOK) then mret (RETCODE_FAILURE, []) else
  bs ← take_bytes size;
  mret (RETCODE_SUCCESS, bs).

Definition DecodeSize : ST t (Z * Z) :=
  r ← DecodeObj (Z.of_nat SIZEOF_SIZE_T);
  mret (fst r, le_val (snd r)).

(** [DecodeOneParameter(std::string &val)] *)
Definition DecodeString : ST t (Z * value) :=
  r ← DecodeSize;
  let '(c, len) := r in
  if negb (c =? RETCODE_SUCCESS) then mret (RETCODE_FAILURE, VString []) else
  if len =? 0 then mret (RETCODE_SUCCESS, VString []) else
  ok ← Ensure len;
  if negb ok then mret (RETCODE_FAILURE, VString []) else
  bs ← take_bytes len;
  mret (RETCODE_SUCCESS, VString bs).

Fixpoint DecodeElems (n : nat) (size : Z) : ST t (Z * list (list Z)) :=
  match n with
  | O => mret (RETCODE_SUCCESS, [])
  | S n' =>
      r ← DecodeObj size;
      if negb (fst r =? RETCODE_SUCCESS) then mret (RETCODE_FAILURE, []) else
      rs ← DecodeElems n' size;
      mret (fst rs, snd r :: snd rs)
  end.

(** [DecodeOneParameter(Array<type> &val)]: the elements go to a [new]ed array,
    which is deleted when one of them cannot be decoded. *)
Definition DecodeArray (size : Z) (nonEmpty : bool) : ST t (Z * value) :=
  if nonEmpty then mret (RETCODE_FAILURE, VArray []) else
  r ← DecodeSize;
  let '(c, n) := r in
  if negb (c =? RETCODE_SUCCESS) then mret (RETCODE_FAILURE, VArray []) else
  data ← on_field mem (malloc (n * size) []);
  match data with
  | None => mret (RETCODE_FAILURE, VArray [])
  | Some blk =>
      rs ← DecodeElems (Z.to_nat n) size;
      if negb (fst rs =? RETCODE_SUCCESS)
      then on_field mem (free (Some blk)) ;; mret (RETCODE_FAILURE, VArray [])
      else mret (RETCODE_SUCCESS, VArray (snd rs))
  end.

Definition DecodeOneParameter (ty : type) : ST t (Z * value) :=
  match ty with
  | TObj size => r ← DecodeObj (Z.of_nat size); mret (fst r, VObj (snd r))
  | TString => DecodeString
  | TArray size nonEmpty => DecodeArray (Z.of_nat size) nonEmpty
  end.

Fixpoint RecursiveDecode (tys : list type) : ST t (Z * list value) :=
  match tys with
  | [] => mret (RETCODE_SUCCESS, [])
  | ty :: tys' =>
      r ← DecodeOneParameter ty;
      if negb (fst r =? RETCODE_SUCCESS) then mret (fst r, []) else
      rs ← RecursiveDecode tys';
      mret (fst rs, snd r :: snd rs)
  end.

Definition CheckDataEnd : ST t bool :=
  r ← DecodeSize;
  let '(c, dataSize) := r in
  if negb (c =? RETCODE_SUCCESS) then mret false else
  gets (fun s => (pos_ s =? size_ s) && (pos_ s =? u64 (dataSize + Z.of_nat SIZEOF_SIZE_T))).

End operations.
End DataDecoder.

(** ** [EncdecFacade] *)

Module EncdecFacade.
Section operations.
  Context `{!Allocator, !Securec}.

Definition EncodeBody (args : list value) : ST DataEncoder.t (Z * DataInfo.t) :=
  retCode ← DataEncoder.Init INIT_BUFFER_SIZE;
  if negb (retCode =? RETCODE_SUCCESS) then mret (retCode, DataInfo.null) else
  retCode ← DataEncoder.RecursiveEncode args;
  if negb (retCode =? RETCODE_SUCCESS) then mret (retCode, DataInfo.null) else
  r ← DataEncoder.GetSerializedData;
  if negb (fst r =? RETCODE_SUCCESS) then mret r else
  match DataInfo.data (snd r) with
  | None => mret (RETCODE_FAILURE, snd r)
  | Some _ => if DataInfo.length (snd r) <=? 0 then mret (RETCODE_FAILURE, snd r)
              else mret (RETCODE_SUCCESS, snd r)
  end.

(** The destructor of the local encoder runs on every return. *)
Definition ProcessEncode (args : list value) : ST Mem.t (Z * DataInfo.t) := fun m =>
  let '(r, s) := (r ← EncodeBody args; DataEncoder.dtor ;; mret r) (DataEncoder.ctor m) in
  (r, DataEncoder.mem s).

Definition DecodeBody (tys : list type) : ST DataDecoder.t (Z * list value) :=
  rs ← DataDecoder.RecursiveDecode tys;
  if negb (fst rs =? RETCODE_SUCCESS) then mret (RETCODE_FAILURE, snd rs) else
  ok ← DataDecoder.CheckDataEnd;
  if negb ok then mret (RETCODE_FAILURE, snd rs) else
  mret (RETCODE_SUCCESS, snd rs).

Definition ProcessDecode (d : DataInfo.t) (tys : list type) : ST Mem.t (Z * list value) := fun m =>
  match DataInfo.data d with
  | None => ((RETCODE_FAILURE, []), m)
  | Some _ => if DataInfo.length d <=? 0 then ((RETCODE_FAILURE, []), m)
              else let '(r, s) := DecodeBody tys (DataDecoder.ctor m d) in (r, DataDecoder.mem s)
  end.

End operations.
End EncdecFacade.

(** ** Reference serialisation *)

Definition ser (v : value) : list Z :=
  match v with
  | VObj bs => bs
  | VString bs => size_t_bytes (zlen bs) ++ bs
  | VArray es => size_t_bytes (zlen es) ++ concat es
  | VItems its => size_t_bytes (zlen its * PAIR_SIZE) ++ concat (fst <$> its) ++ concat (snd <$> its)
  end.

Definition ser_all (vs : list value) : list Z := concat (ser <$> vs).

(** Values the encoder is made for: objects of positive size, arrays of at least
    one element, all elements of one size. *)
Definition elems_wf (n : nat) (es : list (list Z)) : Prop := Forall (fun e => length e = n) es.

Definition value_wf (v : value) : Prop :=
  match v with
  | VObj bs => bs <> []
  | VString _ => True
  | VArray es => es <> [] /\ length (hd [] es) <> 0%nat /\ elems_wf (length (hd [] es)) es
  | VItems its => elems_wf 4 (fst <$> its) /\ elems_wf 4 (snd <$> its)
  end.

(** What the decoder is asked for, and what it then produces. *)
Definition type_of (v : value) : type :=
  match v with
  | VObj bs => TObj (length bs)
  | VString _ => TString
  | VArray es => TArray (length (hd [] es)) false
  | VItems _ => TArray 4 false
  end.

Definition decoded (v : value) : value :=
  match v with
  | VItems its => VArray ((fst <$> its) ++ (snd <$> its))
  | v => v
  end.

(** Memory and copies do not fail for sizes in the range of the encoder. *)
Definition resources `{!Allocator, !Securec} : Prop :=
  (forall t n, 0 <= n <= 2 ^ 34 -> malloc_ok t n = true) /\ SecurecLaws.

(** The bytes of one message: the arguments, then their total length. *)
Definition trailer (bs : list Z) : list Z := bs ++ size_t_bytes (zlen bs).

(** ** Lemmas: representations *)

Lemma length_le n z : length (le n z) = n.
Proof. revert z. induction n; intros; cbn; auto. Qed.

Lemma le_val_le n z : le_val (le n z) = z mod 2 ^ (8 * Z.of_nat n).
Proof.
  revert z. induction n as [|n IH]; intros z; [cbn; by rewrite Z.mod_1_r|].
  cbn [le le_val]. rewrite IH.
  replace (8 * Z.of_nat (S n)) with (8 + 8 * Z.of_nat n) by lia.
  rewrite Z.pow_add_r by lia. rewrite Z.rem_mul_r by lia. done.
Qed.

Lemma zlen_app {A} (l k : list A) : zlen (l ++ k) = zlen l + zlen k.
Proof. unfold zlen. rewrite length_app. lia. Qed.

Lemma zlen_nonneg {A} (l : list A) : 0 <= zlen l.
Proof. unfold zlen. lia. Qed.

Lemma zlen_size_t z : zlen (size_t_bytes z) = 8.
Proof. unfold zlen, size_t_bytes. by rewrite length_le. Qed.

Lemma zlen_le0 {A} (l : list A) : (zlen l =? 0) = true -> l = [].
Proof. unfold zlen. intros ?%Z.eqb_eq. apply length_zero_iff_nil. lia. Qed.

Lemma read_at_app {A} (l : list A) p a b :
  read_at l p (a + b) = read_at l p a ++ read_at l (p + a) b.
Proof. unfold read_at. rewrite <- drop_drop. by rewrite take_take_drop. Qed.

#[export] Hint Resolve zlen_nonneg : aie.
