(* ===== verification/EncdecFacts.v ===== *)
(** * EncdecFacts: invariants of the encoder and of the decoder

    [EncoderFacts] shows that every operation of [DataEncoder] appends the
    reference serialisation of its argument, keeps the ledger of blocks and stays
    in bounds.  [DecoderFacts] gives two readings of every operation of
    [DataDecoder]: [consumes] for arbitrary input and [parses] for the bytes of an
    encoding. *)

From Stdlib Require Import ZArith Lia.
From stdpp Require Import gmap list.
From S2P Require Import Prelude Protocol Encdec.

(** ** Lemmas: the encoder *)

Module EncoderFacts.
Import DataEncoder.

Section facts.
  Context `{!Allocator, !Securec, !AllocatorLaws}.

(** Invariant of an encoder created in a heap with live blocks [L]. *)
Record inv (L : gset nat) (B : list nat) (s : t) : Prop := {
  inv_wf : mem_wf (mem s);
  inv_ub : ub s = false;
  inv_bad : Mem.bad_frees (mem s) = B;
  inv_buf : match buffer_ s with
            | None => Mem.live (mem s) = L /\ allocSuccess_ s = false
            | Some b => (MemBlock.addr b ∉ L) /\ Mem.live (mem s) = {[MemBlock.addr b]} ∪ L /\
                        zlen (MemBlock.data b) = MemBlock.blockSize b /\
                        0 <= pos_ s <= MemBlock.blockSize b /\ MemBlock.blockSize b <= ADDRESS_SPACE
            end
}.

Definition blockSize_of (s : t) : Z := default 0 (MemBlock.blockSize <$> buffer_ s).

(** The bytes encoded so far. *)
Definition written (s : t) : list Z :=
  match buffer_ s with
  | None => []
  | Some b => take (Z.to_nat (pos_ s)) (MemBlock.data b)
  end.

Ltac solve_inv :=
  split; cbn; try done; try congruence;
  repeat match goal with
  | H : buffer_ _ = _ |- context [buffer_] => rewrite H
  | H : u64 _ = _ |- context [wrap_u] => rewrite H
  end; split_and!; try done; try congruence; unfold ADDRESS_SPACE in *; try lia.

Lemma AllocateMemBlock_spec sz m :
  mem_wf m -> 0 <= sz < 2 ^ 63 ->
  wp (AllocateMemBlock sz) (fun r m' =>
    mem_wf m' /\ Mem.bad_frees m' = Mem.bad_frees m /\
    match r with
    | None => Mem.live m' = Mem.live m
    | Some p => (MemBlock.addr p ∉ Mem.live m) /\ Mem.live m' = {[MemBlock.addr p]} ∪ Mem.live m /\
                MemBlock.blockSize p = sz /\ zlen (MemBlock.data p) = sz /\ sz <= ADDRESS_SPACE
    end /\ (resources -> sz <= 2 ^ 33 -> r <> None)) m.
Proof.
  intros WF Hsz. unfold AllocateMemBlock.
  assert (u64 (sz + SIZEOF_MEMBLOCK) = sz + 8) as -> by (apply wrap_u_small; unfold SIZEOF_MEMBLOCK; lia).
  apply wp_bind. eapply wp_mono; [by apply malloc_spec|]. unfold SIZEOF_MEMBLOCK.
  intros [b|] m' (WF' & Hbad & Ok & Hr); cbn beta iota; apply wp_ret; cbn in *.
  - destruct Hr as (_ & ? & ?). pose proof (malloc_bounded _ _ Ok). unfold zlen.
    rewrite length_fmap, length_seq. split_and!; try done; lia.
  - split_and!; try done. intros [Ha _] ?. rewrite Ha in Ok by lia. done.
Qed.

Lemma FreeMemBlock_spec b m L :
  mem_wf m -> Mem.live m = {[MemBlock.addr b]} ∪ L -> (MemBlock.addr b ∉ L) ->
  wp (FreeMemBlock (Some b)) (fun _ m' =>
    mem_wf m' /\ Mem.live m' = L /\ Mem.bad_frees m' = Mem.bad_frees m) m.
Proof.
  intros. by apply (free_spec (Block.mk (MemBlock.addr b) [])).
Qed.

Lemma copy_range_spec off n src dst :
  0 <= off -> 0 < n -> off + n <= zlen src -> off + n <= zlen dst ->
  match copy_range off n src dst with
  | Copied d => zlen d = zlen dst /\
      take (Z.to_nat (off + n)) d = take (Z.to_nat off) dst ++ read_at src (Z.to_nat off) (Z.to_nat n)
  | CopyError => ~ (SecurecLaws /\ n <= SECUREC_MEM_MAX_LEN)
  | CopyOutOfBounds => False
  end.
Proof.
  intros. unfold copy_range. destruct (memcpy_s n n =? EOK) eqn:E; cbn.
  - rewrite !(proj2 (Z.leb_le _ _)) by done. cbn. unfold zlen in *.
    assert (length (read_at src (Z.to_nat off) (Z.to_nat n)) = Z.to_nat n) as HR
      by (apply length_read_at; lia).
    split; [rewrite length_write_at; lia|].
    rewrite Z2Nat.inj_add by lia. rewrite <- HR at 1. apply take_write_at. lia.
  - intros [? ?]. rewrite memcpy_s_ok in E by lia. done.
Qed.

(** The last, partial chunk. *)
Lemma copy_rest_spec off left src dst :
  0 <= off -> 0 <= left < CHUNK_SIZE -> off + left <= zlen src -> off + left <= zlen dst ->
  match (if 0 <? left then copy_range off left src dst else Copied dst) with
  | Copied d => zlen d = zlen dst /\
      take (Z.to_nat (off + left)) d = take (Z.to_nat off) dst ++ read_at src (Z.to_nat off) (Z.to_nat left)
  | CopyError => ~ SecurecLaws
  | CopyOutOfBounds => False
  end.
Proof.
  intros. destruct (Z.ltb_spec 0 left).
  - pose proof (copy_range_spec off left src dst) as HR. destruct (copy_range _ _ _ _); auto.
    intros ?. apply HR; auto. unfold SECUREC_MEM_MAX_LEN, CHUNK_SIZE in *. split; [done|lia].
  - replace left with 0 by lia. unfold read_at. rewrite Z.add_0_r. cbn. by rewrite app_nil_r.
Qed.

Lemma copy_chunks_spec fuel off left src dst :
  0 <= off -> 0 <= left -> off + left <= zlen src -> off + left <= zlen dst ->
  left / CHUNK_SIZE <= Z.of_nat fuel ->
  match copy_chunks fuel off left src dst with
  | Copied d => zlen d = zlen dst /\
      take (Z.to_nat (off + left)) d = take (Z.to_nat off) dst ++ read_at src (Z.to_nat off) (Z.to_nat left)
  | CopyError => ~ SecurecLaws
  | CopyOutOfBounds => False
  end.
Proof.
  revert off left dst. induction fuel as [|fuel IH]; intros off left dst Ho Hl Hs Hd Hf; cbn [copy_chunks];
    rewrite Z.geb_leb; destruct (Z.leb_spec CHUNK_SIZE left) as [Hc|Hc];
    try (apply copy_rest_spec; lia).
  - pose proof (Z.div_str_pos left CHUNK_SIZE). unfold CHUNK_SIZE in *. lia.
  - assert ((left - CHUNK_SIZE) / CHUNK_SIZE <= Z.of_nat fuel) as Hf'.
    { replace (left - CHUNK_SIZE) with (left + (-1) * CHUNK_SIZE) by lia.
      rewrite Z.div_add by done. lia. }
    pose proof (copy_range_spec off CHUNK_SIZE src dst Ho ltac:(done) ltac:(lia) ltac:(lia)) as HR.
    destruct (copy_range _ _ _ _) as [d| |]; [|intros ?; by apply HR|done].
    destruct HR as [HR1 HR2]. assert (0 < CHUNK_SIZE) by done.
    specialize (IH (off + CHUNK_SIZE) (left - CHUNK_SIZE) d ltac:(lia) ltac:(lia) ltac:(lia) ltac:(lia) Hf').
    replace (off + CHUNK_SIZE + (left - CHUNK_SIZE)) with (off + left) in IH by lia.
    destruct (copy_chunks _ _ _ _ _) as [d'| |]; [|done..].
    destruct IH as [IH1 IH2]. split; [lia|]. rewrite IH2, HR2, <- app_assoc. f_equal.
    replace (Z.to_nat left) with (Z.to_nat CHUNK_SIZE + Z.to_nat (left - CHUNK_SIZE))%nat by lia.
    rewrite read_at_app. do 2 f_equal. lia.
Qed.

Lemma pos_written L B s : inv L B s -> allocSuccess_ s = true -> pos_ s = zlen (written s).
Proof.
  intros [_ _ _ Hb] Ha. unfold written. destruct (buffer_ s) as [b|]; [|naive_solver congruence].
  unfold zlen in *. rewrite length_take. lia.
Qed.

Lemma ReallocBuffer_spec L B s b newSize :
  inv L B s -> allocSuccess_ s = true -> buffer_ s = Some b -> pos_ s <= newSize < 2 ^ 63 ->
  wp (ReallocBuffer newSize) (fun ok s' => inv L B s' /\
    (ok = true -> allocSuccess_ s' = true /\ pos_ s' = pos_ s /\ written s' = written s /\
                  exists b', buffer_ s' = Some b' /\ MemBlock.blockSize b' = newSize) /\
    (resources -> newSize <= 2 ^ 33 -> ok = true)) s.
Proof.
  intros [WF Hub Hbad Hbuf] Ha Hb Hn. unfold ReallocBuffer. rewrite Hb in Hbuf.
  destruct Hbuf as (HbL & Hlive & Hdata & Hpos & Hsz).
  do 2 wp_step. rewrite Ha. cbn [negb]. wp_step. wp_step.
  eapply wp_mono; [apply AllocateMemBlock_spec; [done|lia]|].
  intros [p|] m' (WF' & Hbad' & HA & HR); cbn beta iota.
  2: { repeat wp_step. cbn. split_and!; [solve_inv|done|naive_solver]. }
  destruct HA as (Hpn & Hlive' & Hps & Hpl & Hpa).
  do 4 wp_step. cbn [pos_ buffer_]. cbn. rewrite Hb. cbn.
  pose proof (copy_chunks_spec (Z.to_nat (pos_ s / CHUNK_SIZE)) 0 (pos_ s) (MemBlock.data b) (MemBlock.data p)
    ltac:(lia) ltac:(lia) ltac:(lia) ltac:(lia)) as HC.
  assert (0 <= pos_ s / CHUNK_SIZE) by (apply Z.div_pos; [lia|done]).
  specialize (HC ltac:(lia)).
  destruct (copy_chunks _ _ _ _ _) as [d| |]; [| |done]; cbn beta iota.
  - destruct HC as [Hd Htake]. do 2 wp_step.
    eapply wp_mono; [eapply (FreeMemBlock_spec b _ ({[MemBlock.addr p]} ∪ L)); cbn; [done| |]|].
    { rewrite Hlive', Hlive. set_solver. }
    { rewrite Hlive in Hpn. set_solver. }
    cbn. intros _ m'' (WF'' & Hlive'' & Hbad''). repeat wp_step. cbn.
    split_and!; [solve_inv; set_solver| |done].
    + intros _. split_and!; try done; [|eauto]. unfold written. cbn. rewrite Hb.
      rewrite Z.add_0_l in Htake. rewrite Htake. done.
  - do 4 wp_step. cbn.
    eapply wp_mono; [eapply (FreeMemBlock_spec p _ (Mem.live (mem s))); cbn; [done|done|done]|].
    cbn. intros _ m'' (WF'' & Hlive'' & Hbad''). repeat wp_step. cbn.
    split_and!; [solve_inv|done|intros [? ?]; by destruct HC].
Qed.

Lemma Ensure_spec L B s inc :
  inv L B s -> allocSuccess_ s = true -> 0 <= inc <= ADDRESS_SPACE ->
  wp (Ensure inc) (fun ok s' => inv L B s' /\
    (ok = true -> allocSuccess_ s' = true /\ pos_ s' = pos_ s /\ written s' = written s /\
                  exists b', buffer_ s' = Some b' /\ pos_ s' + inc <= MemBlock.blockSize b') /\
    (resources -> blockSize_of s <= 2 ^ 33 -> pos_ s + inc <= INT_MAX ->
     ok = true /\ blockSize_of s' <= 2 ^ 33)) s.
Proof.
  intros HI Ha Hinc. unfold Ensure. pose proof (inv_buf _ _ _ HI) as Hbuf.
  repeat (wp_step; cbn beta iota); [| |].
  - simplify_eq/=. destruct (buffer_ s) as [b|] eqn:Hb; simplify_eq.
    unfold ADDRESS_SPACE in *. rewrite Z.geb_leb in *. boolify.
    rewrite wrap_u_small in * by lia. unfold blockSize_of. rewrite Hb. cbn.
    split_and!; [done| |naive_solver]. intros _. split_and!; eauto.
  - destruct (buffer_ s) as [b|] eqn:Hb; simplify_eq.
    unfold ADDRESS_SPACE in *. rewrite Z.geb_leb in *. boolify.
    unfold BUFF_EXTENSION_FACTOR. rewrite !wrap_u_small in * by lia.
    eapply wp_mono; [eapply ReallocBuffer_spec; [done|done|done|lia]|].
    cbn. intros ok s' (HI' & HS & HR). split_and!; [done| |].
    + intros Hok. destruct (HS Hok) as (? & Hp & ? & b' & ? & Hb'). split_and!; try done.
      exists b'. split; [done|]. lia.
    + intros Hres _ Hmax. unfold INT_MAX in *. specialize (HR Hres ltac:(lia)). subst ok.
      destruct (HS eq_refl) as (? & Hp & ? & b' & Hb' & ?). split; [done|].
      unfold blockSize_of. rewrite Hb'. cbn. lia.
  - destruct (buffer_ s) eqn:Hb; [done|]. naive_solver congruence.
Qed.

Lemma copy_in_spec L B s b bs :
  inv L B s -> buffer_ s = Some b -> pos_ s + zlen bs <= MemBlock.blockSize b ->
  wp (copy_in bs) (fun e s' => inv L B s' /\ allocSuccess_ s' = allocSuccess_ s /\ pos_ s' = pos_ s /\
    exists b', buffer_ s' = Some b' /\ MemBlock.blockSize b' = MemBlock.blockSize b /\
    (e = EOK -> take (Z.to_nat (pos_ s + zlen bs)) (MemBlock.data b') = written s ++ bs) /\
    (resources -> 0 < zlen bs <= SECUREC_MEM_MAX_LEN -> e = EOK)) s.
Proof.
  intros HI Hb Hle. pose proof (inv_buf _ _ _ HI) as Hbuf. rewrite Hb in Hbuf.
  destruct Hbuf as (HbL & Hlive & Hdata & Hpos & Hsz).
  unfold copy_in. do 4 wp_step. cbn beta zeta. rewrite Hb. cbn beta iota.
  destruct (memcpy_s _ _ =? EOK) eqn:E; cbn [negb].
  - rewrite (proj2 (Z.leb_le _ _)) by lia. repeat wp_step. cbn.
    destruct HI as [WF Hub Hbad _]. unfold zlen in *.
    split_and!; [solve_inv; unfold zlen; rewrite length_write_at; lia|done|done|].
    + eexists. split_and!; [done|done| |done]. intros _. cbn.
      rewrite Z2Nat.inj_add, Nat2Z.id by lia. rewrite take_write_at by lia.
      unfold written. by rewrite Hb.
  - wp_step. split_and!; try done. exists b. split_and!; try done.
    + intros He. rewrite He in E. done.
    + intros [_ HS] [? ?]. rewrite memcpy_s_ok in E by lia. done.
Qed.

(** An operation that appends [bs], or fails and leaves a well-formed encoder. *)
Definition encodes (m : ST t Z) (bs : list Z) : Prop :=
  forall L B s, inv L B s -> allocSuccess_ s = true -> zlen bs <= ADDRESS_SPACE ->
  wp m (fun r s' => inv L B s' /\
    (r = RETCODE_SUCCESS -> allocSuccess_ s' = true /\ written s' = written s ++ bs) /\
    (resources -> blockSize_of s <= 2 ^ 33 -> pos_ s + zlen bs <= INT_MAX ->
     r = RETCODE_SUCCESS /\ blockSize_of s' <= 2 ^ 33)) s.

(** The statements shared by every [EncodeOneParameter]. *)
Lemma append_encodes bs :
  bs <> [] ->
  encodes (guard_ (Ensure (zlen bs)) RETCODE_FAILURE (
      e ← copy_in bs;
      if negb (e =? EOK) then mret RETCODE_FAILURE else
      modify (fun s => s <| pos_ ::= fun p => u64 (p + zlen bs) |>) ;;
      mret RETCODE_SUCCESS)) bs.
Proof.
  intros Hne L B s HI Ha Hlen. assert (0 < zlen bs) by (unfold zlen; destruct bs; cbn; [done|lia]).
  unfold guard_. wp_step. eapply wp_mono; [eapply Ensure_spec; [done|done|lia]|].
  cbn. intros ok s1 (HI1 & HS & HR). destruct ok; cbn beta iota.
  2: { wp_step. split_and!; [done|done|]. intros. by destruct HR. }
  destruct (HS eq_refl) as (Ha1 & Hp1 & Hw1 & b & Hb & Hle). wp_step.
  eapply wp_mono; [eapply copy_in_spec; [done|done|done]|].
  cbn. intros e s2 (HI2 & Ha2 & Hp2 & b2 & Hb2 & Hbs & He & HE).
  pose proof (inv_buf _ _ _ HI2) as Hbuf. rewrite Hb2 in Hbuf.
  destruct Hbuf as (HbL & Hlive & Hdata & Hpos & Hsz). destruct HI2 as [WF Hub Hbad _].
  destruct (e =? EOK) eqn:E; cbn [negb]; boolify.
  - do 3 wp_step. cbn. unfold ADDRESS_SPACE in *.
    assert (u64 (pos_ s2 + zlen bs) = pos_ s2 + zlen bs) as Hu by (apply wrap_u_small; lia).
    split_and!; [solve_inv| |].
    + intros _. split; [congruence|]. unfold written at 1. cbn. rewrite Hb2, Hu.
      rewrite Hp2, He by done. congruence.
    + intros HRes Hb33 Hm. split; [done|]. unfold blockSize_of in *. cbn. rewrite Hb2. cbn.
      destruct HR as [_ HR]; [done..|]. rewrite Hb in HR. cbn in HR. lia.
  - wp_step. split_and!; [solve_inv|done|].
    intros HRes Hb33 Hm. unfold INT_MAX in Hm. destruct E. apply HE; [done|].
    unfold SECUREC_MEM_MAX_LEN. lia.
Qed.

Lemma encodes_nil : encodes (mret RETCODE_SUCCESS) [].
Proof. intros L B s HI Ha _. apply wp_ret. rewrite app_nil_r. auto. Qed.

Lemma encodes_bind m bs (K : Z -> ST t Z) bs' :
  encodes m bs -> encodes (K RETCODE_SUCCESS) bs' ->
  (forall r, r <> RETCODE_SUCCESS -> exists c, c <> RETCODE_SUCCESS /\ K r = mret c) ->
  encodes (r ← m; K r) (bs ++ bs').
Proof.
  intros Hm HK Hf L B s HI Ha Hlen. rewrite zlen_app in *.
  pose proof (zlen_nonneg bs). pose proof (zlen_nonneg bs').
  wp_step. eapply wp_mono; [apply Hm; [done|done|lia]|].
  cbn. intros r s1 (HI1 & HS & HR). destruct (decide (r = RETCODE_SUCCESS)) as [->|Hr].
  - destruct (HS eq_refl) as [Ha1 Hw1]. eapply wp_mono; [apply HK; [done|done|lia]|].
    cbn. intros r2 s2 (HI2 & HS2 & HR2). split_and!; [done| |].
    + intros Hr2. destruct (HS2 Hr2) as [Ha2 Hw2]. split; [done|]. by rewrite Hw2, Hw1, app_assoc.
    + intros ? ? ?. destruct HR as [_ ?]; try done; [lia|]. apply HR2; try done.
      rewrite (pos_written _ _ _ HI1), Hw1, zlen_app by done.
      rewrite <- (pos_written _ _ _ HI) by done. lia.
  - destruct (Hf r Hr) as (c & Hc & ->). apply wp_ret. split_and!; [done|done|].
    intros ? ? ?. destruct HR as [? _]; try done. lia.
Qed.

Lemma encodes_or_return m bs k bs' c :
  encodes m bs -> encodes k bs' -> c <> RETCODE_SUCCESS -> encodes (or_return m c k) (bs ++ bs').
Proof.
  intros ? ? ?. unfold or_return. apply encodes_bind; [done|done|].
  intros r Hr. exists c. by rewrite (proj2 (Z.eqb_neq _ _) Hr).
Qed.

Lemma encodes_checked (k : ST t Z) bs c :
  encodes k bs -> encodes (a ← gets allocSuccess_; if negb a then mret c else k) bs.
Proof. intros Hk L B s HI Ha Hlen. do 2 wp_step. rewrite Ha. by apply Hk. Qed.

Lemma EncodeObj_encodes bs : bs <> [] -> encodes (EncodeObj bs) bs.
Proof.
  intros Hne. apply encodes_checked. cbn zeta.
  destruct (zlen bs =? 0) eqn:E; [by apply zlen_le0 in E|]. by apply append_encodes.
Qed.

Lemma EncodeSize_encodes z : encodes (EncodeObj (size_t_bytes z)) (size_t_bytes z).
Proof. by apply EncodeObj_encodes. Qed.

Lemma EncodeString_encodes bs : encodes (EncodeString bs) (size_t_bytes (zlen bs) ++ bs).
Proof.
  apply encodes_checked. cbn zeta. destruct (zlen bs =? 0) eqn:E.
  - apply zlen_le0 in E as ->. rewrite app_nil_r. apply EncodeSize_encodes.
  - apply encodes_or_return; [apply EncodeSize_encodes| |done].
    apply append_encodes. by intros ->.
Qed.

Lemma EncodeElems_encodes n es : elems_wf n es -> n <> 0%nat -> encodes (EncodeElems es) (concat es).
Proof.
  intros He Hn. induction He as [|e es He _ IH]; [apply encodes_nil|].
  cbn [EncodeElems concat]. apply encodes_or_return; [|done|done].
  apply EncodeObj_encodes. by intros ->.
Qed.

Lemma EncodeOneParameter_encodes v : value_wf v -> encodes (EncodeOneParameter v) (ser v).
Proof.
  destruct v as [bs|bs|es|its]; cbn [value_wf EncodeOneParameter ser].
  - apply EncodeObj_encodes.
  - intros _. apply EncodeString_encodes.
  - intros (Hne & Hn & Hwf). unfold EncodeArray. destruct (zlen es =? 0) eqn:E; [by apply zlen_le0 in E|].
    apply encodes_or_return; [apply EncodeSize_encodes| |done]. by eapply EncodeElems_encodes.
  - intros [Hf Hs]. repeat apply encodes_or_return; try done; [apply EncodeSize_encodes|..];
      by eapply EncodeElems_encodes.
Qed.

Lemma RecursiveEncode_encodes vs : Forall value_wf vs -> encodes (RecursiveEncode vs) (ser_all vs).
Proof.
  induction 1 as [|v vs Hv _ IH]; [apply encodes_nil|].
  cbn [RecursiveEncode]. apply encodes_bind; [by apply EncodeOneParameter_encodes|done|].
  intros r Hr. exists r. by rewrite (proj2 (Z.eqb_neq _ _) Hr).
Qed.

(** What the caller of [GetSerializedData] gets: exactly one new block, or
    nothing. *)
Definition handed_over (L : gset nat) (bs : list Z) (r : Z) (d : DataInfo.t) (m : Mem.t) : Prop :=
  if decide (r = RETCODE_SUCCESS) then
    DataInfo.length d = zlen bs /\ 0 < zlen bs <= INT_MAX /\
    exists blk, DataInfo.data d = Some blk /\ Block.bytes blk = bs /\
      (Block.addr blk ∉ L) /\ Mem.live m = {[Block.addr blk]} ∪ L
  else Mem.live m = L.

Lemma handed_over_fail L bs r d m :
  r <> RETCODE_SUCCESS -> Mem.live m = L -> handed_over L bs r d m.
Proof. intros. unfold handed_over. by rewrite decide_False. Qed.

Lemma GetSerializedData_spec L B s :
  inv L B s -> allocSuccess_ s = true ->
  wp GetSerializedData (fun rd s' =>
    (if decide (rd.1 = RETCODE_SUCCESS)
     then mem_wf (mem s') /\ ub s' = false /\ Mem.bad_frees (mem s') = B /\ buffer_ s' = None /\
          handed_over L (trailer (written s)) rd.1 rd.2 (mem s')
     else inv L B s') /\
    (resources -> blockSize_of s <= 2 ^ 33 -> pos_ s + 8 <= INT_MAX -> rd.1 = RETCODE_SUCCESS)) s.
Proof.
  intros HI Ha. unfold GetSerializedData. do 3 wp_step.
  pose proof (pos_written _ _ _ HI Ha) as Hpw.
  eapply wp_mono; [apply EncodeSize_encodes; [done|done|by rewrite zlen_size_t]|].
  cbn beta. intros r s1 (HI1 & HS & HR). rewrite zlen_size_t in HR.
  destruct (r =? RETCODE_SUCCESS) eqn:E; cbn [negb]; boolify.
  2: { apply wp_ret. cbn. split; [done|]. intros. by destruct HR. }
  subst r. destruct (HS eq_refl) as [Ha1 Hw1]. clear HS.
  pose proof (pos_written _ _ _ HI1 Ha1) as Hp1. pose proof (inv_buf _ _ _ HI1) as Hbuf.
  do 4 wp_step. cbn beta. destruct (buffer_ s1) as [b|] eqn:Hb; [|naive_solver congruence].
  destruct Hbuf as (HbL & Hlive & Hdata & Hpos & Hsz). destruct HI1 as [WF Hub Hbad _].
  assert (pos_ s1 = pos_ s + 8) as Hp8 by (rewrite Hp1, Hw1, zlen_app, zlen_size_t; lia).
  assert (0 <= pos_ s) by (rewrite Hpw; apply zlen_nonneg).
  destruct (pos_ s1 =? 0) eqn:E0; boolify; [lia|]. rewrite Z.gtb_ltb.
  destruct (INT_MAX <? pos_ s1) eqn:E1; boolify.
  { apply wp_ret. cbn. split; [solve_inv|lia]. }
  do 2 wp_step. eapply wp_mono; [by apply malloc_spec|]. cbn.
  intros [blk|] m' (WF' & Hbad' & Ok & HM); cbn beta iota.
  2: { apply wp_ret. cbn. split; [solve_inv|]. intros [HA _] ? ?. unfold INT_MAX in *.
       rewrite HA in Ok by lia. done. }
  destruct HM as (Hbytes & Hbn & Hlive').
  destruct (memcpy_s _ _ =? EOK) eqn:EC; cbn [negb]; do 2 wp_step.
  - assert (Mem.live m' = {[MemBlock.addr b]} ∪ ({[Block.addr blk]} ∪ L)) as Hl1
      by (rewrite Hlive', Hlive; clear; set_solver).
    assert (MemBlock.addr b ∉ {[Block.addr blk]} ∪ L) as Hn1
      by (rewrite Hlive in Hbn; clear - HbL Hbn; set_solver).
    eapply (wp_mono _ _ _ _ (FreeMemBlock_spec b m' ({[Block.addr blk]} ∪ L) WF' Hl1 Hn1)).
    intros _ m2 (WF2 & Hl2 & Hbad2). do 3 wp_step. cbn. split; [|done]. split_and!; try done; [congruence|].
    unfold handed_over, trailer. cbn. rewrite <- Hpw, <- Hw1, <- Hp1.
    split_and!; [done|lia|done|]. exists blk. rewrite Hlive in Hbn. split_and!; try done; [|clear - Hbn; set_solver].
    rewrite Hbytes. unfold written. by rewrite Hb.
  - eapply (wp_mono _ _ _ _ (free_spec blk m' (Mem.live (mem s1)) WF' Hlive' Hbn)).
    intros _ m2 (WF2 & Hl2 & Hbad2). wp_step. cbn. split; [solve_inv|].
    intros [_ HS] ? ?. unfold INT_MAX in *.
    rewrite memcpy_s_ok in EC by (unfold SECUREC_MEM_MAX_LEN; lia). done.
Qed.

Lemma inv_ctor m : mem_wf m -> inv (Mem.live m) (Mem.bad_frees m) (ctor m).
Proof. intros. by split. Qed.

Lemma dtor_spec L B s :
  inv L B s -> wp dtor (fun _ s' => mem_wf (mem s') /\ ub s' = false /\
    Mem.bad_frees (mem s') = B /\ Mem.live (mem s') = L) s.
Proof.
  intros [WF Hub Hbad Hbuf]. unfold dtor. do 2 wp_step. wp_step. wp_step.
  destruct (buffer_ s) as [b|] eqn:Hb.
  - destruct Hbuf as (HbL & Hlive & _).
    eapply wp_mono; [by eapply FreeMemBlock_spec|]. intros _ m' (?&?&?). wp_step. cbn. by subst.
  - destruct Hbuf. unfold FreeMemBlock. repeat wp_step. cbn. by split_and!.
Qed.

(** An encoder that has handed its bytes over owns nothing. *)
Lemma dtor_done s : buffer_ s = None ->
  wp dtor (fun _ s' => mem s' = mem s /\ ub s' = ub s) s.
Proof. intros Hb. unfold dtor. do 4 wp_step. rewrite Hb. by repeat wp_step. Qed.

Lemma Init_spec m :
  mem_wf m -> wp (Init INIT_BUFFER_SIZE) (fun r s => inv (Mem.live m) (Mem.bad_frees m) s /\
    (r = RETCODE_SUCCESS -> allocSuccess_ s = true /\ pos_ s = 0 /\ written s = [] /\
                            blockSize_of s = INIT_BUFFER_SIZE) /\
    (resources -> r = RETCODE_SUCCESS)) (ctor m).
Proof.
  intros WF. unfold Init. do 2 wp_step.
  eapply wp_mono; [by apply AllocateMemBlock_spec|]. cbn. intros r m' (WF' & Hbad & HA & HR).
  do 2 wp_step. cbn. destruct r as [b|]; cbn beta iota.
  - destruct HA as (Hn & Hlive & Hbs & Hdata & ?). do 3 wp_step. cbn. split_and!; [|intros _|done].
    + solve_inv; rewrite Hbs; done.
    + by split_and!.
  - wp_step. split_and!; [by split|done|]. intros HRes. by destruct (HR HRes).
Qed.

Lemma EncodeBody_spec args m :
  mem_wf m -> Forall value_wf args -> zlen (ser_all args) <= ADDRESS_SPACE ->
  wp (EncdecFacade.EncodeBody args ≫= fun r => dtor ;; mret r) (fun rd s' =>
    mem_wf (mem s') /\ ub s' = false /\ Mem.bad_frees (mem s') = Mem.bad_frees m /\
    handed_over (Mem.live m) (trailer (ser_all args)) rd.1 rd.2 (mem s') /\
    (resources -> zlen (ser_all args) + 8 <= INT_MAX -> rd.1 = RETCODE_SUCCESS)) (ctor m).
Proof.
  intros WF Hargs Hlen. unfold EncdecFacade.EncodeBody.
  assert (forall s r d, inv (Mem.live m) (Mem.bad_frees m) s -> r <> RETCODE_SUCCESS ->
    ~ (resources /\ zlen (ser_all args) + 8 <= INT_MAX) ->
    wp (dtor ;; mret (r, d)) (fun rd s' =>
      mem_wf (mem s') /\ ub s' = false /\ Mem.bad_frees (mem s') = Mem.bad_frees m /\
      handed_over (Mem.live m) (trailer (ser_all args)) rd.1 rd.2 (mem s') /\
      (resources -> zlen (ser_all args) + 8 <= INT_MAX -> rd.1 = RETCODE_SUCCESS)) s) as Hfail.
  { intros s r d HI Hr HR. wp_step. eapply wp_mono; [by apply dtor_spec|]. intros _ s' (?&?&?&?).
    wp_step. split_and!; try done; [by apply handed_over_fail|]. intros. destruct HR. done. }
  do 2 wp_step. eapply wp_mono; [by apply Init_spec|]. cbn beta. intros r s (HI & HS & HR).
  destruct (r =? RETCODE_SUCCESS) eqn:E; cbn [negb]; boolify.
  2: { wp_step. apply Hfail; [done..|]. intros [? _]. by destruct E, HR. }
  destruct (HS E) as (Ha & Hp & Hw & Hbs). clear E r HS HR.
  wp_step. eapply wp_mono; [apply RecursiveEncode_encodes; done|]. cbn beta. intros r s1 (HI1 & HS & HR).
  rewrite Hbs, Hp in HR. destruct (r =? RETCODE_SUCCESS) eqn:E; cbn [negb]; boolify.
  2: { wp_step. apply Hfail; [done..|]. intros [? ?]. destruct E. apply HR; [done|done|]. lia. }
  destruct (HS E) as (Ha1 & Hw1). rewrite Hw, app_nil_l in Hw1.
  wp_step. eapply wp_mono; [by apply GetSerializedData_spec|]. cbn beta. intros [r2 d] s2 [HG HT].
  rewrite (pos_written _ _ _ HI1 Ha1), Hw1 in HT. cbn [fst snd] in *. case_decide as Hr2.
  2: { rewrite (proj2 (Z.eqb_neq _ _) Hr2). cbn [negb]. wp_step. apply Hfail; [done..|].
       intros [? ?]. destruct Hr2. apply HT; [done| |lia]. apply HR; [done|done|lia]. }
  destruct HG as (WF2 & Hub & Hbad & Hb & HH). subst r2. cbn [negb]. rewrite Hw1 in HH.
  pose proof HH as HH'. unfold handed_over in HH'. cbn in HH'.
  destruct HH' as (Hl & Hlr & blk & Hd & _). cbn. rewrite Hd, Hl, (proj2 (Z.leb_gt _ _)) by lia.
  repeat wp_step. eapply wp_mono; [by apply dtor_done|]. intros _ s' [Hm Hu]. wp_step.
  rewrite Hm, Hu. cbn. done.
Qed.

Lemma ProcessEncode_spec args m :
  mem_wf m -> Forall value_wf args -> zlen (ser_all args) <= ADDRESS_SPACE ->
  wp (EncdecFacade.ProcessEncode args) (fun rd m' =>
    mem_wf m' /\ Mem.bad_frees m' = Mem.bad_frees m /\
    handed_over (Mem.live m) (trailer (ser_all args)) rd.1 rd.2 m' /\
    (resources -> zlen (ser_all args) + 8 <= INT_MAX -> rd.1 = RETCODE_SUCCESS)) m.
Proof.
  intros WF Ha Hl. pose proof (EncodeBody_spec args m WF Ha Hl) as H'.
  unfold wp, EncdecFacade.ProcessEncode in *.
  destruct ((r ← EncdecFacade.EncodeBody args; dtor ;; mret r) (ctor m)) as [rd s']. cbn in *. tauto.
Qed.

End facts.
End EncoderFacts.

(** ** Lemmas: the decoder *)

Module DecoderFacts.
Import DataDecoder.

Definition is_byte (b : Z) : Prop := 0 <= b < 2 ^ 8.

Lemma le_le_val bs : Forall is_byte bs -> le (length bs) (le_val bs) = bs.
Proof.
  induction 1 as [|b bs Hb _ IH]; [done|]. unfold is_byte in Hb. cbn [length le le_val].
  rewrite (Z.mul_comm (2 ^ 8)), Z.mod_add, Z.div_add by lia.
  rewrite Z.mod_small, (Z.div_small b), Z.add_0_l, IH by lia. done.
Qed.

#[global] Instance is_byte_dec b : Decision (is_byte b).
Proof. unfold is_byte. apply _. Defined.

Lemma le_bytes n z : Forall is_byte (le n z).
Proof.
  revert z. induction n as [|n IH]; intros z; cbn [le]; constructor; [|apply IH].
  apply Z.mod_pos_bound. lia.
Qed.

Lemma le_val_bound bs : Forall is_byte bs -> 0 <= le_val bs < 2 ^ (8 * zlen bs).
Proof.
  induction 1 as [|b bs Hb _ IH]; [done|]. unfold is_byte in Hb. unfold zlen in *. cbn [length le_val].
  rewrite Nat2Z.inj_succ, Z.mul_succ_r, Z.add_comm, Z.pow_add_r by lia. nia.
Qed.

Section facts.
  Context `{!Allocator, !Securec}.

(** Invariant of a decoder over a block at least as long as it claims. *)
Record inv (s : t) : Prop := {
  inv_oob : oob s = false;
  inv_pos : 0 <= pos_ s <= size_ s;
  inv_size : size_ s <= zlen (buffer_ s);
  inv_int : size_ s <= INT_MAX;
  inv_bytes : Forall is_byte (buffer_ s);
}.

Definition same_input (s s' : t) : Prop := buffer_ s' = buffer_ s /\ size_ s' = size_ s.

(** Whatever the input, an operation stays inside the block; if it succeeds with
    [x], the bytes it consumed are related to [x]. *)
Definition consumes {A} (m : ST t (Z * A)) (R : A -> list Z -> Prop) : Prop :=
  forall s, inv s -> wp m (fun r s' => inv s' /\ same_input s s' /\
    (r.1 = RETCODE_SUCCESS -> exists bs, R r.2 bs /\
     take (Z.to_nat (pos_ s')) (buffer_ s) = take (Z.to_nat (pos_ s)) (buffer_ s) ++ bs)) s.

(** If the next bytes are [bs], the operation succeeds with [x] and consumes them. *)
Definition parses {A} (m : ST t (Z * A)) (bs : list Z) (x : A) : Prop :=
  forall s, inv s -> read_at (buffer_ s) (Z.to_nat (pos_ s)) (length bs) = bs ->
  pos_ s + zlen bs <= size_ s ->
  wp m (fun r s' => r = (RETCODE_SUCCESS, x) /\ inv s' /\ same_input s s' /\
                    pos_ s' = pos_ s + zlen bs) s.

Lemma DecEnsure_spec s n : inv s -> 0 <= n < 2 ^ 64 ->
  wp (Ensure n) (fun ok s' => s' = s /\ ok = bool_decide (pos_ s + n <= size_ s)) s.
Proof.
  intros [_ Hp _ Hi _] Hn. unfold Ensure. apply wp_gets. split; [done|].
  unfold INT_MAX in Hi. destruct (Z.leb_spec n (size_ s)); cbn.
  - rewrite wrap_u_small by lia. destruct (Z.leb_spec (pos_ s + n) (size_ s)); symmetry;
      [by apply bool_decide_eq_true|apply bool_decide_eq_false; lia].
  - symmetry. apply bool_decide_eq_false. lia.
Qed.

Lemma take_bytes_spec s n : inv s -> 0 <= n -> pos_ s + n <= size_ s ->
  wp (take_bytes n) (fun bs s' => inv s' /\ same_input s s' /\ pos_ s' = pos_ s + n /\
    bs = read_at (buffer_ s) (Z.to_nat (pos_ s)) (Z.to_nat n) /\ zlen bs = n /\ Forall is_byte bs /\
    take (Z.to_nat (pos_ s')) (buffer_ s) = take (Z.to_nat (pos_ s)) (buffer_ s) ++ bs) s.
Proof.
  intros [Ho Hp Hs Hi Hb] Hn Hle. unfold take_bytes, wp, INT_MAX in *. cbn.
  assert (u64 (pos_ s + n) = pos_ s + n) as Hu by (apply wrap_u_small; lia).
  assert (zlen (buffer_ s) <? pos_ s + n = false) as Hlt by (apply Z.ltb_ge; lia).
  split_and!; cbn; rewrite ?Hu; try done.
  - split; cbn; rewrite ?Hu, ?Hlt, ?Ho; try done. lia.
  - unfold zlen in *. rewrite length_read_at by lia. lia.
  - unfold read_at. by apply Forall_take, Forall_drop.
  - rewrite Z2Nat.inj_add by lia. unfold read_at. by rewrite take_take_drop.
Qed.

Lemma consumes_ret {A} (x : A) (R : A -> list Z -> Prop) c :
  (c = RETCODE_SUCCESS -> R x []) -> consumes (mret (c, x)) R.
Proof.
  intros HR s HI. apply wp_ret. split_and!; [done|done|]. cbn. intros Hc.
  exists []. rewrite app_nil_r. auto.
Qed.

(** Sequencing in the decoder: check the code, go on with the value. *)
Lemma consumes_bind {A B} (m : ST t (Z * A)) (K : Z * A -> ST t (Z * B)) R1 R2 (R : B -> list Z -> Prop) :
  consumes m R1 ->
  (forall c x, c <> RETCODE_SUCCESS -> exists c' y, c' <> RETCODE_SUCCESS /\ K (c, x) = mret (c', y)) ->
  (forall x bs, R1 x bs -> consumes (K (RETCODE_SUCCESS, x)) (R2 x bs)) ->
  (forall x bs1 y bs2, R1 x bs1 -> R2 x bs1 y bs2 -> R y (bs1 ++ bs2)) ->
  consumes (m ≫= K) R.
Proof.
  intros Hm Hf HK HR s HI. wp_step. eapply wp_mono; [by apply Hm|].
  intros [c x] s1 (HI1 & [Hb1 Hs1] & HS1). cbn [fst snd] in HS1. destruct (decide (c = RETCODE_SUCCESS)) as [->|Hc].
  - destruct HS1 as (b1 & HR1 & HT1); [done|].
    eapply wp_mono; [by eapply HK|]. intros [c2 y] s2 (HI2 & [Hb2 Hs2] & HS2).
    split_and!; [done|split; congruence|]. intros Hc2. cbn in *.
    destruct HS2 as (b2 & HR2 & HT2); [done|]. exists (b1 ++ b2). split; [eauto|].
    rewrite <- Hb1, HT2, Hb1, HT1. by rewrite <- app_assoc.
  - destruct (Hf c x Hc) as (c' & y & Hc' & ->). apply wp_ret. by split_and!.
Qed.

Lemma consumes_mono {A} (m : ST t (Z * A)) (R R' : A -> list Z -> Prop) :
  consumes m R -> (forall x bs, R x bs -> R' x bs) -> consumes m R'.
Proof.
  intros Hm HR s HI. eapply wp_mono; [by apply Hm|]. intros r s' (?&?&HS).
  split_and!; try done. intros Hr. destruct (HS Hr) as (bs & ? & ?). eauto.
Qed.

Definition Z64 (n : Z) : Prop := 0 <= n < 2 ^ 64.

Lemma DecodeObj_consumes n :
  Z64 n -> consumes (DecodeObj n) (fun x bs => x = bs /\ zlen bs = n /\ Forall is_byte bs).
Proof.
  intros Hn s HI. unfold DecodeObj. destruct (n =? 0) eqn:E0; [by apply wp_ret|].
  wp_step. eapply wp_mono; [by apply DecEnsure_spec|]. intros ok s' [-> ->].
  destruct (bool_decide _) eqn:E; cbn [negb]; [|by apply wp_ret].
  apply bool_decide_eq_true in E. destruct (negb _); [by apply wp_ret|].
  wp_step. eapply wp_mono; [apply take_bytes_spec; [done| |done]; unfold Z64 in Hn; lia|].
  intros bs s' (?&?&?&?&?&?&?). apply wp_ret. split_and!; [done|done|]. intros _. eauto.
Qed.

Lemma DecodeSize_consumes :
  consumes DecodeSize (fun n bs => bs = size_t_bytes n /\ Z64 n).
Proof.
  eapply (consumes_bind _ _ _ (fun _ bs n b => n = le_val bs /\ b = [])); [by apply DecodeObj_consumes| | |].
  - intros c x Hc. by eexists _, _.
  - intros x bs (-> & Hl & Hb). by apply consumes_ret.
  - cbn. intros x bs y bs2 (-> & Hl & Hb) [-> ->]. rewrite app_nil_r. unfold size_t_bytes.
    unfold zlen in Hl. assert (length bs = SIZEOF_SIZE_T) as <- by lia. rewrite le_le_val by done.
    split; [done|]. pose proof (le_val_bound bs Hb) as HB. unfold zlen in HB. unfold Z64.
    rewrite Hl in HB. done.
Qed.

Lemma DecodeString_consumes : consumes DecodeString (fun v bs => bs = ser v).
Proof.
  eapply (consumes_bind _ _ _ (fun n _ v b => exists b', v = VString b' /\ zlen b' = n /\ b = b'));
    [by apply DecodeSize_consumes| | |].
  - intros c x Hc. eexists _, _. split; [|by rewrite (proj2 (Z.eqb_neq _ _) Hc)]. done.
  - cbn. intros n bs [-> Hn].
    destruct (n =? 0) eqn:E0; boolify.
    { apply consumes_ret. intros _. exists []. unfold zlen. cbn. by subst. }
    intros s HI. wp_step. eapply wp_mono; [by apply DecEnsure_spec|]. intros ok s' [-> ->].
    destruct (bool_decide _) eqn:E; cbn [negb]; [|by apply wp_ret].
    apply bool_decide_eq_true in E. unfold Z64 in Hn.
    wp_step. eapply wp_mono; [apply take_bytes_spec; [done|lia|done]|].
    intros bs s' (?&?&?&?&?&?&?). apply wp_ret. split_and!; [done|done|]. intros _. exists bs. eauto.
  - cbn. intros n bs v bs2 [-> _] (b' & -> & <- & ->). done.
Qed.

Lemma DecodeElems_consumes n size :
  Z64 size -> consumes (DecodeElems n size) (fun es bs => bs = concat es /\ length es = n).
Proof.
  intros Hs. induction n as [|n IH]; [by apply consumes_ret|]. cbn [DecodeElems].
  eapply (consumes_bind _ _ _ (fun _ b1 es b => exists es', es = b1 :: es' /\ b = concat es' /\ length es' = n));
    [by apply DecodeObj_consumes| | |].
  - intros c x Hc. eexists _, _. split; [|cbn; by rewrite (proj2 (Z.eqb_neq _ _) Hc)]. done.
  - cbn. intros e bs (-> & Hl & Hb).
    eapply (consumes_bind _ _ _ (fun es b y b2 => y = bs :: es /\ b2 = [])
      (fun es b => exists es', es = bs :: es' /\ b = concat es' /\ length es' = n)); [exact IH| | |].
    + intros c x Hc. by eexists _, _.
    + intros es b [-> _]. by apply consumes_ret.
    + intros es b1 y b2 [-> ?] [-> ->]. rewrite app_nil_r. eauto.
  - cbn. intros e b1 es b2 (-> & _) (es' & -> & -> & <-). done.
Qed.

Lemma DecodeArray_consumes size nonEmpty :
  Z64 size -> consumes (DecodeArray size nonEmpty) (fun v bs => bs = ser v).
Proof.
  intros Hs. unfold DecodeArray. destruct nonEmpty; [by apply consumes_ret|].
  eapply (consumes_bind _ _ _ (fun n _ v b => exists es, v = VArray es /\ zlen es = n /\ b = concat es));
    [by apply DecodeSize_consumes| | |].
  - intros c x Hc. eexists _, _. split; [|by rewrite (proj2 (Z.eqb_neq _ _) Hc)]. done.
  - cbn. intros n bs [-> Hn].
    intros s HI. wp_step. wp_step. unfold wp at 1. destruct (malloc _ _ _) as [[blk|] m']; cbn [fst snd];
      cbn beta iota; [|apply wp_ret; by split_and!; [destruct HI; split| |]].
    wp_step. eapply wp_mono; [apply DecodeElems_consumes; [done|destruct HI; by split]|].
    intros [c es] s1 (HI1 & [Hb1 Hs1] & HS1). cbn [fst snd] in HS1. cbn [fst snd].
    destruct (c =? RETCODE_SUCCESS) eqn:E; cbn [negb].
    + apply wp_ret. split_and!; [done|done|]. cbn. intros _. apply Z.eqb_eq in E.
      destruct (HS1 E) as (b & [-> Hl] & HT). exists (concat es). split; [|done].
      exists es. unfold Z64, zlen in *. rewrite Hl. split_and!; try done. lia.
    + wp_step. wp_step. unfold wp at 1. destruct (free _ _) as [u m2]. cbn [fst snd].
      apply wp_ret. split_and!; [destruct HI1; by split|done|done].
  - cbn. intros n bs v b2 [-> _] (es & -> & <- & ->). done.
Qed.

Definition type_ok (ty : type) : Prop :=
  match ty with TObj n | TArray n _ => Z64 (Z.of_nat n) | TString => True end.

#[global] Instance type_ok_dec ty : Decision (type_ok ty).
Proof. destruct ty; cbn; unfold Z64; apply _. Defined.

Lemma DecodeOneParameter_consumes ty :
  type_ok ty -> consumes (DecodeOneParameter ty) (fun v bs => bs = ser v).
Proof.
  destruct ty as [n| |n e]; cbn [type_ok DecodeOneParameter]; intros Hok.
  - eapply (consumes_bind _ _ _ (fun _ b v b' => v = VObj b /\ b' = [])); [by apply DecodeObj_consumes| | |].
    + intros c x Hc. by eexists _, _.
    + intros bs b (-> & _). by apply consumes_ret.
    + cbn. intros x bs y b2 (-> & _) [-> ->]. by rewrite app_nil_r.
  - apply DecodeString_consumes.
  - by apply DecodeArray_consumes.
Qed.

Lemma RecursiveDecode_consumes tys :
  Forall type_ok tys -> consumes (RecursiveDecode tys) (fun vs bs => bs = ser_all vs).
Proof.
  induction 1 as [|ty tys Hty _ IH]; [by apply consumes_ret|]. cbn [RecursiveDecode].
  eapply (consumes_bind _ _ _ (fun v _ vs b => exists vs', vs = v :: vs' /\ b = ser_all vs'));
    [by apply DecodeOneParameter_consumes| | |].
  - intros c x Hc. eexists _, _. split; [|cbn; by rewrite (proj2 (Z.eqb_neq _ _) Hc)]. done.
  - cbn. intros v bs ->.
    eapply (consumes_bind _ _ _ (fun vs b y b2 => y = v :: vs /\ b2 = [])
      (fun vs b => exists vs', vs = v :: vs' /\ b = ser_all vs')); [exact IH| | |].
    + intros c x Hc. by eexists _, _.
    + intros vs b ->. by apply consumes_ret.
    + intros vs b1 y b2 -> [-> ->]. rewrite app_nil_r. eauto.
  - cbn. intros v b1 vs b2 -> (vs' & -> & ->). done.
Qed.

Lemma parses_bind {A B} (m : ST t (Z * A)) (K : Z * A -> ST t (Z * B)) b1 b2 x y :
  parses m b1 x -> parses (K (RETCODE_SUCCESS, x)) b2 y -> parses (m ≫= K) (b1 ++ b2) y.
Proof.
  intros Hm HK s HI Hr Hle. rewrite length_app, read_at_app in Hr. rewrite zlen_app in *.
  pose proof (zlen_nonneg b2). pose proof (inv_pos s HI). pose proof (inv_size s HI).
  apply app_inj_1 in Hr as [Hr1 Hr2]; [|unfold zlen in *; rewrite length_read_at; lia].
  wp_step. eapply wp_mono; [apply Hm; [done|done|lia]|]. intros r s1 (-> & HI1 & [Hb Hs] & Hp).
  eapply wp_mono; [apply HK; [done| |lia]|].
  - rewrite Hb, Hp. rewrite <- Hr2 at 2. f_equal. unfold zlen. lia.
  - intros r s2 (-> & HI2 & [Hb2 Hs2] & Hp2). split_and!; [done|done|split; congruence|lia].
Qed.

Lemma parses_ret {A} (x : A) : parses (mret (RETCODE_SUCCESS, x)) [] x.
Proof. intros s HI _ _. apply wp_ret. split_and!; try done. unfold zlen. cbn. lia. Qed.

Lemma parses_take {A} (x0 x : A) bs k :
  zlen bs < 2 ^ 64 -> parses (k bs) [] x ->
  parses (ok ← Ensure (zlen bs); if negb ok then mret (RETCODE_FAILURE, x0)
          else b ← take_bytes (zlen bs); k b) bs x.
Proof.
  intros Hlt Hk s HI Hr Hle. pose proof (zlen_nonneg bs). wp_step. eapply wp_mono; [by apply DecEnsure_spec|].
  intros ok s' [-> ->]. rewrite bool_decide_eq_true_2 by done. cbn [negb].
  wp_step. eapply wp_mono; [by apply take_bytes_spec|].
  intros b s1 (HI1 & [Hb Hs] & Hp & -> & _).
  replace (Z.to_nat (zlen bs)) with (length bs) by (unfold zlen; lia). rewrite Hr.
  pose proof (inv_pos s1 HI1). eapply wp_mono; [apply Hk; [done|done|unfold zlen; cbn; lia]|].
  intros r s2 (-> & HI2 & [Hb2 Hs2] & Hp2). unfold zlen in Hp2. cbn in Hp2.
  split_and!; [done|done|split; congruence|lia].
Qed.

Lemma DecodeObj_parses bs :
  SecurecLaws -> bs <> [] -> zlen bs <= INT_MAX -> parses (DecodeObj (zlen bs)) bs bs.
Proof.
  intros HS Hne Hle. assert (0 < zlen bs) by (unfold zlen; destruct bs; cbn; [done|lia]).
  unfold DecodeObj. rewrite (proj2 (Z.eqb_neq _ _)) by lia.
  rewrite memcpy_s_ok by (unfold SECUREC_MEM_MAX_LEN, INT_MAX in *; lia). cbn [negb Z.eqb EOK].
  unfold INT_MAX in Hle. apply parses_take; [lia|apply parses_ret].
Qed.

Lemma DecodeSize_parses n :
  SecurecLaws -> 0 <= n <= INT_MAX -> parses DecodeSize (size_t_bytes n) n.
Proof.
  intros HS Hn. rewrite <- (app_nil_r (size_t_bytes n)). eapply parses_bind.
  - apply (DecodeObj_parses (size_t_bytes n)); [done|done|by rewrite zlen_size_t].
  - cbn [fst snd]. unfold size_t_bytes. rewrite le_val_le, Z.mod_small; [apply parses_ret|].
    unfold INT_MAX in *. change (2 ^ (8 * Z.of_nat SIZEOF_SIZE_T)) with (2 ^ 64). lia.
Qed.

Lemma DecodeString_parses bs :
  SecurecLaws -> zlen bs <= INT_MAX -> parses DecodeString (size_t_bytes (zlen bs) ++ bs) (VString bs).
Proof.
  intros HS Hle. pose proof (zlen_nonneg bs). eapply parses_bind; [by apply DecodeSize_parses|].
  cbn. destruct (zlen bs =? 0) eqn:E; [apply zlen_le0 in E as ->; apply parses_ret|].
  unfold INT_MAX in *. apply parses_take; [lia|apply parses_ret].
Qed.

Lemma DecodeElems_parses n es :
  SecurecLaws -> n <> 0%nat -> zlen (concat es) <= INT_MAX -> elems_wf n es ->
  parses (DecodeElems (length es) (Z.of_nat n)) (concat es) es.
Proof.
  intros HS Hn Hle Hwf. induction Hwf as [|e es <- _ IH]; [apply parses_ret|].
  cbn [length DecodeElems concat] in *. rewrite zlen_app in Hle.
  pose proof (zlen_nonneg e). pose proof (zlen_nonneg (concat es)).
  eapply parses_bind; [apply DecodeObj_parses; [done|by intros ->|lia]|].
  cbn. rewrite <- (app_nil_r (concat es)). eapply parses_bind; [apply IH; lia|]. apply parses_ret.
Qed.

Lemma zlen_concat n es : elems_wf n es -> zlen (concat es) = zlen es * Z.of_nat n.
Proof.
  unfold zlen. induction 1 as [|e es He _ IH]; [done|].
  cbn [concat length]. rewrite length_app. lia.
Qed.

Lemma DecodeArray_parses n es :
  resources -> n <> 0%nat -> elems_wf n es -> zlen es <= INT_MAX -> zlen (concat es) <= INT_MAX ->
  parses (DecodeArray (Z.of_nat n) false) (size_t_bytes (zlen es) ++ concat es) (VArray es).
Proof.
  intros [HA HS] Hn Hwf Hes Hle. pose proof (zlen_nonneg es). pose proof (zlen_concat n es Hwf) as Hcat.
  eapply parses_bind; [by apply DecodeSize_parses|]. cbn [Z.eqb RETCODE_SUCCESS negb fst snd].
  intros s HI Hr Hle'. wp_step. wp_step. unfold wp at 1, malloc. unfold INT_MAX in *.
  rewrite HA by lia. cbn [fst snd].
  replace (Z.to_nat (zlen es)) with (length es) by (unfold zlen; lia). wp_step.
  eapply wp_mono; [apply DecodeElems_parses; [done|done|done|done|destruct HI; by split|done|done]|].
  cbn beta. intros r s1 (-> & HI1 & Hs1 & Hp1). cbn. apply wp_ret. by split_and!.
Qed.

Definition bytes_ok (v : value) : Prop := zlen (ser v) <= INT_MAX.

Lemma DecodeOneParameter_parses v :
  resources -> value_wf v -> zlen (ser v) <= INT_MAX ->
  parses (DecodeOneParameter (type_of v)) (ser v) (decoded v).
Proof.
  intros HR Hv Hle. pose proof HR as [HA HS].
  destruct v as [bs|bs|es|its]; cbn [type_of ser decoded value_wf DecodeOneParameter] in *;
    rewrite ?zlen_app, ?zlen_size_t in Hle.
  - rewrite <- (app_nil_r bs) at 2. eapply parses_bind; [by apply DecodeObj_parses|]. apply parses_ret.
  - apply DecodeString_parses; [done|lia].
  - destruct Hv as (Hne & Hn & Hwf). pose proof (zlen_concat _ _ Hwf).
    apply DecodeArray_parses; try done; [|lia]. unfold zlen in *. nia.
  - destruct Hv as [Hf Hs].
    pose proof (zlen_concat _ _ Hf). pose proof (zlen_concat _ _ Hs).
    assert (zlen its * PAIR_SIZE = zlen ((fst <$> its) ++ (snd <$> its))) as ->
      by (unfold zlen, PAIR_SIZE; rewrite length_app, !length_fmap; lia).
    rewrite <- concat_app. apply (DecodeArray_parses 4); [done|done|by apply Forall_app| |].
    + unfold zlen in *. rewrite length_app, !length_fmap in *. lia.
    + rewrite concat_app, zlen_app. lia.
Qed.

Lemma RecursiveDecode_parses vs :
  resources -> Forall value_wf vs -> zlen (ser_all vs) <= INT_MAX ->
  parses (RecursiveDecode (type_of <$> vs)) (ser_all vs) (decoded <$> vs).
Proof.
  intros HR Hwf. induction Hwf as [|v vs Hv _ IH]; intros Hle; [apply parses_ret|].
  change (ser_all (v :: vs)) with (ser v ++ ser_all vs) in *. rewrite zlen_app in Hle.
  pose proof (zlen_nonneg (ser v)). pose proof (zlen_nonneg (ser_all vs)).
  cbn [fmap list_fmap RecursiveDecode].
  eapply parses_bind; [apply DecodeOneParameter_parses; [done|done|lia]|].
  cbn. rewrite <- (app_nil_r (ser_all vs)). eapply parses_bind; [apply IH; lia|]. apply parses_ret.
Qed.

Lemma ctor_inv m d :
  0 < DataInfo.length d <= zlen (DataInfo.content d) -> DataInfo.length d <= INT_MAX ->
  Forall is_byte (DataInfo.content d) -> inv (ctor m d).
Proof.
  intros Hl Hi Hb. unfold INT_MAX in *. assert (u64 (DataInfo.length d) = DataInfo.length d) as Hu
    by (apply wrap_u_small; lia).
  split; cbn; rewrite ?Hu; try done; unfold INT_MAX; lia.
Qed.

(** [CheckDataEnd] accepts exactly the position after the trailer. *)
Lemma CheckDataEnd_spec s :
  inv s -> wp CheckDataEnd (fun ok s' => inv s' /\ same_input s s' /\
    (ok = true -> exists n, take (Z.to_nat (size_ s)) (buffer_ s) =
       take (Z.to_nat (pos_ s)) (buffer_ s) ++ size_t_bytes n /\ size_ s = u64 (n + 8) /\ Z64 n)) s.
Proof.
  intros HI. unfold CheckDataEnd. wp_step. eapply wp_mono; [by apply DecodeSize_consumes|].
  intros [c n] s1 (HI1 & [Hb Hs] & HS1). cbn in HS1.
  destruct (c =? RETCODE_SUCCESS) eqn:E; cbn [negb]; [|by apply wp_ret].
  wp_step. split_and!; [done|done|]. intros [E1 E2]%andb_prop. apply Z.eqb_eq in E, E1, E2.
  destruct (HS1 E) as (b & [-> Hn] & HT). exists n. rewrite E1, Hs in HT.
  split_and!; [done| |done]. rewrite <- Hs, <- E1, E2. done.
Qed.

Lemma CheckDataEnd_accepts s (bs : list Z) :
  SecurecLaws -> inv s -> pos_ s = zlen bs -> pos_ s + 8 = size_ s ->
  read_at (buffer_ s) (Z.to_nat (pos_ s)) 8 = size_t_bytes (zlen bs) ->
  wp CheckDataEnd (fun ok s' => ok = true) s.
Proof.
  intros HS HI Hp Hsz Hr. pose proof (zlen_nonneg bs). pose proof (inv_int s HI). unfold INT_MAX in *.
  unfold CheckDataEnd. wp_step.
  eapply wp_mono; [apply (DecodeSize_parses (zlen bs)); [done| |done| |]|].
  - unfold INT_MAX. lia.
  - unfold size_t_bytes at 1. by rewrite length_le.
  - rewrite zlen_size_t. lia.
  - rewrite zlen_size_t. intros r s1 (-> & HI1 & [Hb Hs] & Hp1). cbn. wp_step.
    change (Z.of_nat SIZEOF_SIZE_T) with 8. rewrite Hp1, Hs, wrap_u_small by lia.
    apply andb_true_intro; split; apply Z.eqb_eq; lia.
Qed.

End facts.
End DecoderFacts.
