(* ===== verification/EncdecProps.v ===== *)
(** * EncdecProps: correctness of the message encoding

    The encoder and the decoder are inverse to each other, the decoder refuses
    everything else, and neither leaves its buffer or a block behind. *)

From Stdlib Require Import ZArith Lia.
From stdpp Require Import gmap list.
From S2P Require Import Prelude Protocol Encdec EncdecFacts.

(** ** Properties *)

(** The state of the decoder after [ProcessDecode] has run on [d]. *)
Definition decoder_after `{!Allocator, !Securec} (d : DataInfo.t) (tys : list type) (m : Mem.t) : DataDecoder.t :=
  snd (EncdecFacade.DecodeBody tys (DataDecoder.ctor m d)).

Definition message_ok (d : DataInfo.t) : Prop :=
  0 < DataInfo.length d <= zlen (DataInfo.content d) /\ DataInfo.length d <= INT_MAX /\
  Forall DecoderFacts.is_byte (DataInfo.content d).

Lemma ProcessDecode_body `{!Allocator, !Securec} d tys m :
  message_ok d -> fst (EncdecFacade.ProcessDecode d tys m) =
                  fst (EncdecFacade.DecodeBody tys (DataDecoder.ctor m d)).
Proof.
  intros ([Hp Hl] & _). unfold EncdecFacade.ProcessDecode, DataInfo.content in *.
  destruct (DataInfo.data d) as [blk|]; cbn in Hl; [|unfold zlen in Hl; cbn in Hl; lia].
  rewrite (proj2 (Z.leb_gt _ _)) by lia. by destruct (EncdecFacade.DecodeBody _ _).
Qed.

Lemma DecodeBody_consumes `{!Allocator, !Securec} d tys m :
  message_ok d -> Forall DecoderFacts.type_ok tys ->
  wp (EncdecFacade.DecodeBody tys) (fun r s' => DecoderFacts.inv s' /\
    (r.1 = RETCODE_SUCCESS ->
     take (Z.to_nat (DataInfo.length d)) (DataInfo.content d) = trailer (ser_all r.2))) (DataDecoder.ctor m d).
Proof.
  intros ([Hp Hl] & Hi & Hb) Htys. pose proof (DecoderFacts.ctor_inv m d (conj Hp Hl) Hi Hb) as HI.
  unfold EncdecFacade.DecodeBody. wp_step.
  eapply wp_mono; [by apply DecoderFacts.RecursiveDecode_consumes|].
  intros [c vs] s (HI1 & [Hb1 Hs1] & HS1). cbn [fst snd] in *.
  destruct (c =? RETCODE_SUCCESS) eqn:E; cbn [negb]; [|by apply wp_ret]. apply Z.eqb_eq in E.
  destruct (HS1 E) as (bs & -> & HT). cbn in HT. wp_step.
  eapply wp_mono; [by apply DecoderFacts.CheckDataEnd_spec|]. intros ok s2 (HI2 & _ & HE).
  destruct ok; cbn [negb]; apply wp_ret; [|done]. split; [done|]. intros _. cbn.
  destruct (HE eq_refl) as (n & HT2 & Hsz & Hn). unfold DecoderFacts.Z64, INT_MAX in *.
  rewrite Hb1, Hs1 in *. cbn in *. rewrite (wrap_u_small 64 (DataInfo.length d)) in * by lia.
  change (Z.to_nat 0) with 0%nat in HT. rewrite take_0, app_nil_l in HT.
  assert (zlen (take (Z.to_nat (DataInfo.length d)) (DataInfo.content d)) = DataInfo.length d) as HL
    by (unfold zlen in *; rewrite length_take; lia).
  rewrite HT2, HT, zlen_app, zlen_size_t in HL. pose proof (zlen_nonneg (ser_all vs)).
  assert (n = zlen (ser_all vs)) as ->; [|by rewrite HT2, HT].
  unfold wrap_u in Hsz. destruct (Z.lt_ge_cases (n + 8) (2 ^ 64)).
  - rewrite Z.mod_small in Hsz by lia. lia.
  - rewrite <- (Z.mod_add _ (-1)), Z.mod_small in Hsz by lia. lia.
Qed.

(** C4. Every byte string of a message that [ProcessDecode] accepts is the
    encoding of the values it returns, and of nothing else: there is exactly one
    encoding of a list of values, and a message that is truncated, extended or
    has a wrong trailer is refused. *)
Theorem decode_accepts_only_encodings `{!Allocator, !Securec} m d tys vs :
  message_ok d -> Forall DecoderFacts.type_ok tys ->
  fst (EncdecFacade.ProcessDecode d tys m) = (RETCODE_SUCCESS, vs) ->
  take (Z.to_nat (DataInfo.length d)) (DataInfo.content d) = trailer (ser_all vs).
Proof.
  intros Hd Htys HE. rewrite ProcessDecode_body in HE by done.
  destruct (DecodeBody_consumes d tys m Hd Htys) as [_ HS]. rewrite HE in HS. by apply HS.
Qed.

(** C19. Whatever bytes arrive and whatever is asked for, the decoder never reads
    outside the block of the message: its bounds checks suffice for every type
    and for every length read from the message itself. *)
Theorem decode_in_bounds `{!Allocator, !Securec} m d tys :
  message_ok d -> Forall DecoderFacts.type_ok tys ->
  DataDecoder.oob (decoder_after d tys m) = false.
Proof.
  intros Hd Htys. by destruct (DecodeBody_consumes d tys m Hd Htys) as [[] _].
Qed.

Lemma DecodeBody_parses `{!Allocator, !Securec} d vs m :
  resources -> Forall value_wf vs -> message_ok d ->
  DataInfo.content d = trailer (ser_all vs) -> DataInfo.length d = zlen (trailer (ser_all vs)) ->
  wp (EncdecFacade.DecodeBody (type_of <$> vs)) (fun r _ => r = (RETCODE_SUCCESS, decoded <$> vs))
     (DataDecoder.ctor m d).
Proof.
  intros HR Hvs ([Hp Hl] & Hi & Hb) Hc Hlen.
  pose proof (DecoderFacts.ctor_inv m d (conj Hp Hl) Hi Hb) as HI. pose proof (zlen_nonneg (ser_all vs)).
  assert (DataInfo.length d = zlen (ser_all vs) + 8) as HL
    by (rewrite Hlen; unfold trailer; rewrite zlen_app, zlen_size_t; done).
  assert (u64 (DataInfo.length d) = zlen (ser_all vs) + 8) as Hu
    by (rewrite HL; apply wrap_u_small; unfold INT_MAX in *; lia).
  unfold EncdecFacade.DecodeBody. wp_step.
  eapply wp_mono; [apply DecoderFacts.RecursiveDecode_parses; [done|done|lia|done| |]|].
  - cbn. rewrite Hc. unfold trailer, read_at. change (Z.to_nat 0) with 0%nat. by rewrite drop_0, take_app_length.
  - cbn. lia.
  - cbn. intros r s (-> & HI1 & [Hb1 Hs1] & Hp1). cbn in *. wp_step.
    eapply wp_mono; [apply (DecoderFacts.CheckDataEnd_accepts s (ser_all vs));
                     [apply HR|done|lia|lia|]|].
    + rewrite Hb1, Hp1, Hc. unfold trailer, read_at.
      replace (Z.to_nat (0 + zlen (ser_all vs))) with (length (ser_all vs)) by (unfold zlen; lia).
      rewrite drop_app_length, take_ge; [done|]. unfold size_t_bytes. by rewrite length_le.
    + intros ok s2 ->. cbn. by wp_step.
Qed.

(** C3. Round trip.  With enough memory, encoding well-formed arguments whose
    representation fits an [int] succeeds, and decoding the message with the
    types of the arguments returns the arguments. *)
Theorem encode_decode_roundtrip `{!Allocator, !Securec, !AllocatorLaws} m m' vs :
  resources -> mem_wf m -> Forall value_wf vs -> Forall DecoderFacts.is_byte (ser_all vs) ->
  zlen (ser_all vs) + 8 <= INT_MAX ->
  exists d, fst (EncdecFacade.ProcessEncode vs m) = (RETCODE_SUCCESS, d) /\
    fst (EncdecFacade.ProcessDecode d (type_of <$> vs) m') = (RETCODE_SUCCESS, decoded <$> vs).
Proof.
  intros HR Hm Hvs Hb Hle. pose proof (zlen_nonneg (ser_all vs)).
  pose proof (EncoderFacts.ProcessEncode_spec vs m Hm Hvs) as HP. unfold wp, ADDRESS_SPACE, INT_MAX in HP.
  destruct HP as (_ & _ & HH & HS); [unfold INT_MAX in *; lia|].
  destruct (EncdecFacade.ProcessEncode vs m) as [[r d] m1]. cbn [fst snd] in *.
  assert (r = RETCODE_SUCCESS) as -> by (apply HS; [done|unfold INT_MAX in *; lia]).
  unfold EncoderFacts.handed_over in HH. rewrite decide_True in HH by done.
  destruct HH as (Hl & Hr & blk & Hd & Hbytes & _). exists d. split; [done|].
  assert (DataInfo.content d = trailer (ser_all vs)) as Hc by (unfold DataInfo.content; by rewrite Hd).
  assert (message_ok d) as Hok.
  { split_and!; [lia|rewrite Hc; lia|lia|]. rewrite Hc. unfold trailer. apply Forall_app. split; [done|].
    apply DecoderFacts.le_bytes. }
  rewrite ProcessDecode_body by done. by apply DecodeBody_parses.
Qed.

(** C21. Ownership of the encoded message, whatever allocation or copy fails: on
    success the caller owns exactly one new block, which holds the encoding; on
    failure nothing is left allocated.  Nothing is freed twice. *)
Theorem encode_no_leak `{!Allocator, !Securec, !AllocatorLaws} m vs :
  mem_wf m -> Forall value_wf vs -> zlen (ser_all vs) <= ADDRESS_SPACE ->
  let '((r, d), m') := EncdecFacade.ProcessEncode vs m in
  Mem.bad_frees m' = Mem.bad_frees m /\
  if decide (r = RETCODE_SUCCESS) then
    exists blk, d = DataInfo.mk (Some blk) (zlen (trailer (ser_all vs))) /\
      Block.bytes blk = trailer (ser_all vs) /\
      (Block.addr blk ∉ Mem.live m) /\ Mem.live m' = {[Block.addr blk]} ∪ Mem.live m
  else Mem.live m' = Mem.live m.
Proof.
  intros Hm Hvs Hle. destruct (EncoderFacts.ProcessEncode_spec vs m Hm Hvs Hle) as (_ & Hbad & HH & _).
  destruct (EncdecFacade.ProcessEncode vs m) as [[r d] m1]. cbn [fst snd] in *. split; [done|].
  unfold EncoderFacts.handed_over in HH. case_decide; [|done].
  destruct HH as (Hl & _ & blk & Hd & Hbytes & ?). exists blk. destruct d; cbn in *. by subst.
Qed.

(** C20. The encoder never writes or reads outside its buffer and never uses it
    after it is gone, whatever allocation or copy fails while the buffer grows. *)
Theorem encode_in_bounds `{!Allocator, !Securec, !AllocatorLaws} m vs :
  mem_wf m -> Forall value_wf vs -> zlen (ser_all vs) <= ADDRESS_SPACE ->
  DataEncoder.ub (snd ((r ← EncdecFacade.EncodeBody vs; DataEncoder.dtor ;; mret r) (DataEncoder.ctor m))) = false.
Proof. intros Hm Hvs Hle. by destruct (EncoderFacts.EncodeBody_spec vs m Hm Hvs Hle) as (_ & Hub & _). Qed.

(** ** Witnesses *)

Definition sys_alloc : Allocator := {| malloc_ok := fun _ n => n <=? ADDRESS_SPACE; new_ok := fun _ => true |}.
Definition sys_securec : Securec :=
  {| memcpy_s := fun d c => if (0 <? d) && (d <=? SECUREC_MEM_MAX_LEN) && (c <=? d) then EOK else 34;
     uninit := fun _ => 0 |}.

Lemma sys_alloc_laws : @AllocatorLaws sys_alloc.
Proof. intros t n Hn. by apply Z.leb_le. Qed.

Lemma sys_resources : @resources sys_alloc sys_securec.
Proof.
  split.
  - intros t n Hn. cbn. apply Z.leb_le. unfold ADDRESS_SPACE. lia.
  - intros d c H1 H2 H3. cbn. rewrite !(proj2 (Z.leb_le _ _)), (proj2 (Z.ltb_lt _ _)) by lia. done.
Qed.

Definition sample : list value :=
  [VObj (le 4 7); VString [104; 105]; VArray [le 2 1; le 2 258]; VItems [(le 4 3, le 4 9)]; VString []].

Definition sample_message : DataInfo.t :=
  DataInfo.mk (Some (Block.mk 0 (trailer (ser_all sample)))) (zlen (trailer (ser_all sample))).

Lemma sample_ok : message_ok sample_message.
Proof. split_and!; [by vm_compute..|]. apply (bool_decide_unpack _). by vm_compute. Qed.

Lemma decode_accepts_only_encodings_witness :
  take 67 (DataInfo.content sample_message) = trailer (ser_all (decoded <$> sample)).
Proof.
  apply (@decode_accepts_only_encodings sys_alloc sys_securec Mem.empty sample_message (type_of <$> sample)).
  - apply sample_ok.
  - apply (bool_decide_unpack _). by vm_compute.
  - by vm_compute.
Defined.

Lemma decode_in_bounds_witness :
  DataDecoder.oob (@decoder_after sys_alloc sys_securec sample_message [TString; TArray 4 false] Mem.empty) = false.
Proof. apply decode_in_bounds; [apply sample_ok|]. apply (bool_decide_unpack _). by vm_compute. Defined.

Lemma encode_decode_roundtrip_witness :
  exists d, fst (@EncdecFacade.ProcessEncode sys_alloc sys_securec sample Mem.empty) = (RETCODE_SUCCESS, d) /\
    fst (@EncdecFacade.ProcessDecode sys_alloc sys_securec d (type_of <$> sample) Mem.empty)
    = (RETCODE_SUCCESS, decoded <$> sample).
Proof.
  apply (@encode_decode_roundtrip sys_alloc sys_securec sys_alloc_laws).
  - apply sys_resources.
  - apply mem_wf_empty.
  - repeat constructor; done.
  - apply (bool_decide_unpack _). by vm_compute.
  - by vm_compute.
Defined.

Lemma encode_no_leak_witness :
  let '((r, d), m') := @EncdecFacade.ProcessEncode sys_alloc sys_securec sample Mem.empty in
  Mem.bad_frees m' = [] /\
  if decide (r = RETCODE_SUCCESS) then
    exists blk, d = DataInfo.mk (Some blk) (zlen (trailer (ser_all sample))) /\
      Block.bytes blk = trailer (ser_all sample) /\
      (Block.addr blk ∉ (∅ : gset nat)) /\ Mem.live m' = {[Block.addr blk]} ∪ ∅
  else Mem.live m' = ∅.
Proof.
  apply (@encode_no_leak sys_alloc sys_securec sys_alloc_laws Mem.empty sample);
    [apply mem_wf_empty|repeat constructor; done|by vm_compute].
Defined.

Lemma encode_in_bounds_witness :
  DataEncoder.ub (snd ((r ← @EncdecFacade.EncodeBody sys_alloc sys_securec sample;
                        @DataEncoder.dtor ;; mret r) (DataEncoder.ctor Mem.empty))) = false.
Proof.
  apply (@encode_in_bounds sys_alloc sys_securec sys_alloc_laws);
    [apply mem_wf_empty|repeat constructor; done|by vm_compute].
Defined.
