(* ===== verification/Queue.v ===== *)
(** * Queue: the message queue between an engine and its worker

    [Queue<TYPE>] (queue.h, queue.inl) is a ring of nodes with [size_t]
    positions that only grow, and two atomic counters that say how much can be
    written and read.  The operations are first modelled as they run without
    interference; [Queue.step] then interleaves one consumer with any number of
    producers at the granularity of the accesses to the shared members. *)

From Stdlib Require Import ZArith Lia.
From stdpp Require Import gmap list relations.
From S2P Require Import Prelude Protocol.

Module Queue.

Section queue.
  Context {A : Type}.

Record t := mk {
  pushPos_ : Z;
  popPos_ : Z;
  totalNum_ : Z;
  writeAbleCount_ : Z;
  readAbleCount_ : Z;
  empty : list bool;      (** [queue_[i].empty] *)
  node : list (option A); (** [queue_[i].node], [None] before the first write *)
}.
#[global] Instance eta_queue : Eta t := fun r =>
  mk (pushPos_ r) (popPos_ r) (totalNum_ r) (writeAbleCount_ r) (readAbleCount_ r) (empty r) (node r).

(** [Queue(maxQueueSize)] when the array of nodes can be allocated. *)
Definition ctor (maxQueueSize : Z) : t :=
  mk 0 0 maxQueueSize maxQueueSize 0
     (replicate (Z.to_nat maxQueueSize) true) (replicate (Z.to_nat maxQueueSize) None).

(** The accesses to the members, in the order the code makes them. *)
Definition dec_write (q : t) : t := q <| writeAbleCount_ ::= fun n => u64 (n - 1) |>.
Definition inc_write (q : t) : t := q <| writeAbleCount_ ::= fun n => u64 (n + 1) |>.
Definition dec_read (q : t) : t := q <| readAbleCount_ ::= fun n => u64 (n - 1) |>.
Definition inc_read (q : t) : t := q <| readAbleCount_ ::= fun n => u64 (n + 1) |>.
Definition push_index (q : t) : nat := Z.to_nat (pushPos_ q mod totalNum_ q).
Definition pop_index (q : t) : nat := Z.to_nat (popPos_ q mod totalNum_ q).
Definition inc_push (q : t) : t := q <| pushPos_ ::= fun n => u64 (n + 1) |>.
Definition inc_pop (q : t) : t := q <| popPos_ ::= fun n => u64 (n + 1) |>.
Definition set_node (i : nat) (m : option A) (q : t) : t := q <| node ::= <[i := m]> |>.
Definition set_empty (i : nat) (b : bool) (q : t) : t := q <| empty ::= <[i := b]> |>.

Definition IsEmpty (q : t) : bool := readAbleCount_ q =? 0.
Definition IsFull (q : t) : bool := totalNum_ q =? readAbleCount_ q.
Definition Count (q : t) : Z := readAbleCount_ q.

(** The code of a full queue is [RETCODE_QUEUE_FULL], 1500; queue.h announces 1011. *)
Definition PushBack (msgBlock : A) : ST t Z :=
  w ← gets writeAbleCount_;
  if w =? 0 then mret RETCODE_QUEUE_FULL else
  modify dec_write ;;
  pushPos ← gets push_index;
  modify inc_push ;;
  modify (set_node pushPos (Some msgBlock)) ;;
  modify (set_empty pushPos false) ;;
  modify inc_read ;;
  mret RETCODE_SUCCESS.

(** The message is returned beside the code; [None] leaves the caller's
    variable as it was.  The code of an empty queue is [RETCODE_QUEUE_EMPTY], 1501;
    queue.h announces 1012. *)
Definition PopFront : ST t (Z * option A) :=
  r ← gets readAbleCount_;
  if r =? 0 then mret (RETCODE_QUEUE_EMPTY, None) else
  modify dec_read ;;
  popPos ← gets pop_index;
  e ← gets (fun q => default true (empty q !! popPos));
  if (e : bool) then modify inc_read ;; mret (RETCODE_QUEUE_NODE_INVALID, None) else
  modify inc_pop ;;
  msgBlock ← gets (fun q => default None (node q !! popPos));
  modify (set_empty popPos true) ;;
  modify inc_write ;;
  mret (RETCODE_SUCCESS, msgBlock).

Definition Reset : ST t unit :=
  modify (fun q => q <| pushPos_ := 0 |> <| popPos_ := 0 |>
                     <| writeAbleCount_ := totalNum_ q |> <| readAbleCount_ := 0 |>) ;;
  q ← gets id;
  for_each (fun i => modify (set_empty i true)) (seq 0 (Z.to_nat (totalNum_ q))).

(** ** What a bounded FIFO does *)

Definition fifo_push (cap : Z) (m : A) (l : list A) : Z * list A :=
  if Z.of_nat (length l) =? cap then (RETCODE_QUEUE_FULL, l) else (RETCODE_SUCCESS, l ++ [m]).

Definition fifo_pop (l : list A) : (Z * option A) * list A :=
  match l with
  | [] => ((RETCODE_QUEUE_EMPTY, None), [])
  | m :: l' => ((RETCODE_SUCCESS, Some m), l')
  end.

Inductive op := OpPush (m : A) | OpPop | OpCount | OpIsEmpty | OpIsFull | OpReset.
Inductive obs := ObsCode (c : Z) | ObsPop (r : Z * option A) | ObsSize (n : Z) | ObsBool (b : bool) | ObsUnit.

Definition exec (o : op) : ST t obs :=
  match o with
  | OpPush m => c ← PushBack m; mret (ObsCode c)
  | OpPop => r ← PopFront; mret (ObsPop r)
  | OpCount => gets (fun q => ObsSize (Count q))
  | OpIsEmpty => gets (fun q => ObsBool (IsEmpty q))
  | OpIsFull => gets (fun q => ObsBool (IsFull q))
  | OpReset => Reset ;; mret ObsUnit
  end.

Definition fifo_exec (cap : Z) (o : op) (l : list A) : obs * list A :=
  match o with
  | OpPush m => let '(c, l') := fifo_push cap m l in (ObsCode c, l')
  | OpPop => let '(r, l') := fifo_pop l in (ObsPop r, l')
  | OpCount => (ObsSize (Z.of_nat (length l)), l)
  | OpIsEmpty => (ObsBool (bool_decide (l = [])), l)
  | OpIsFull => (ObsBool (Z.of_nat (length l) =? cap), l)
  | OpReset => (ObsUnit, [])
  end.

Fixpoint run (ops : list op) (q : t) : list obs :=
  match ops with
  | [] => []
  | o :: ops' => let '(r, q') := exec o q in r :: run ops' q'
  end.

Fixpoint fifo_run (cap : Z) (ops : list op) (l : list A) : list obs :=
  match ops with
  | [] => []
  | o :: ops' => let '(r, l') := fifo_exec cap o l in r :: fifo_run cap ops' l'
  end.

End queue.
End Queue.

(** ** Lemmas: a queue of [cap] nodes is a bounded FIFO *)

Module QueueFacts.
Import Queue.

Section facts.
  Context {A : Type} (cap : Z).
  Context (Hcap : 0 < cap < 2 ^ 64) (Hdiv : (cap | 2 ^ 64)).
  Implicit Types (q : @Queue.t A) (l : list A).

Definition index (p : Z) : nat := Z.to_nat (p mod cap).

Lemma index_lt p : (index p < Z.to_nat cap)%nat.
Proof. unfold index. pose proof (Z.mod_pos_bound p cap). lia. Qed.

Lemma index_u64 p : index (u64 p) = index p.
Proof.
  unfold index, wrap_u. f_equal. by apply Z.mod_mod_divide.
Qed.

Lemma index_inj p i j :
  0 <= i < cap -> 0 <= j < cap -> index (p + i) = index (p + j) -> i = j.
Proof.
  unfold index. intros Hi Hj E.
  pose proof (Z.mod_pos_bound (p + i) cap). pose proof (Z.mod_pos_bound (p + j) cap).
  assert ((p + i) mod cap = (p + j) mod cap) as E' by lia.
  pose proof (Z.div_mod (p + i) cap ltac:(lia)) as D1.
  pose proof (Z.div_mod (p + j) cap ltac:(lia)) as D2. rewrite <- E' in D2.
  set (x := (p + i) / cap) in *. set (y := (p + j) / cap) in *.
  assert (i - j = cap * (x - y)) as D by lia. assert (- cap < cap * (x - y) < cap) by lia.
  assert (x - y = 0) as Q by nia. rewrite Q in D. lia.
Qed.

Lemma index_add_cap p : index (p + cap) = index p.
Proof.
  unfold index. f_equal. replace (p + cap) with (p + 1 * cap) by lia. apply Z.mod_add. lia.
Qed.

(** The node of the ring that holds the [i]-th element from position [p]. *)
Definition holds q (p : Z) (l : list A) : Prop :=
  forall i, 0 <= i < cap ->
    if decide (i < Z.of_nat (length l))
    then empty q !! index (p + i) = Some false /\ node q !! index (p + i) = Some (l !! Z.to_nat i)
    else empty q !! index (p + i) = Some true.

Record rep q l : Prop := {
  rep_total : totalNum_ q = cap;
  rep_empty : length (empty q) = Z.to_nat cap;
  rep_node : length (node q) = Z.to_nat cap;
  rep_len : Z.of_nat (length l) <= cap;
  rep_read : readAbleCount_ q = Z.of_nat (length l);
  rep_write : writeAbleCount_ q = cap - Z.of_nat (length l);
  rep_push : pushPos_ q = u64 (popPos_ q + Z.of_nat (length l));
  rep_holds : holds q (popPos_ q) l;
}.

Lemma rep_ctor : rep (ctor cap) [].
Proof.
  split; cbn; rewrite ?length_replicate; try done; try lia.
  intros i Hi. rewrite decide_False by (cbn; lia).
  apply lookup_replicate_2. apply index_lt.
Qed.

Lemma clear_flags_spec xs q :
  wp (for_each (fun i => modify (set_empty i true)) xs) (fun _ q' => exists e,
    q' = q <| empty := e |> /\ length e = length (empty q) /\
    forall i, (i < length (empty q))%nat ->
      e !! i = if decide (i ∈ xs) then Some true else empty q !! i) q.
Proof.
  revert q. induction xs as [|x xs IH]; intros q; cbn.
  - apply wp_ret. exists (empty q). by destruct q.
  - do 2 wp_step. eapply wp_mono; [apply IH|]. cbn. intros _ q' (e & -> & Hl & Hi).
    rewrite length_insert in *. exists e. split_and!; [done|done|].
    intros i Hlt. rewrite Hi by done. destruct (decide (x = i)) as [->|Hne].
    + rewrite list_lookup_insert_eq by done. rewrite (decide_True (P := i ∈ i :: xs)) by left. by case_decide.
    + rewrite list_lookup_insert_ne by done. destruct (decide (i ∈ xs)).
      * by rewrite decide_True by (by right).
      * rewrite decide_False; [done|]. rewrite elem_of_cons. naive_solver.
Qed.

Lemma Reset_spec q l : rep q l -> wp Reset (fun _ q' => rep q' []) q.
Proof.
  intros R. unfold Reset. do 4 wp_step. cbn [id]. cbn. rewrite (rep_total _ _ R).
  eapply wp_mono; [apply clear_flags_spec|]. cbn. intros _ q' (e & -> & Hl & Hi).
  destruct R. split; cbn; try done; try lia.
  intros i Hlt. cbn. rewrite decide_False by lia. pose proof (index_lt (0 + i)).
  rewrite Hi by lia. rewrite decide_True; [done|]. apply elem_of_seq. lia.
Qed.

Lemma PushBack_spec q l m :
  rep q l -> wp (PushBack m) (fun c q' => exists l', fifo_push cap m l = (c, l') /\ rep q' l') q.
Proof.
  intros R. pose proof R as [Ht He Hn Hl Hr Hw Hp Hh]. unfold PushBack, fifo_push.
  do 2 wp_step. rewrite Hw. destruct (Z.eqb_spec (cap - Z.of_nat (length l)) 0) as [E|E].
  { apply wp_ret. rewrite (proj2 (Z.eqb_eq _ _)) by lia. eauto. }
  rewrite (proj2 (Z.eqb_neq _ _)) by lia. repeat wp_step. eexists. split; [done|].
  assert (push_index (dec_write q) = index (popPos_ q + Z.of_nat (length l))) as ->.
  { unfold push_index. cbn. rewrite Ht, Hp. apply index_u64. }
  set (k := index (popPos_ q + Z.of_nat (length l))).
  pose proof (index_lt (popPos_ q + Z.of_nat (length l))) as Hk. fold k in Hk.
  split; cbn; rewrite ?length_insert, ?length_app; cbn [length]; try done; try lia.
  - rewrite wrap_u_small; lia.
  - rewrite wrap_u_small; lia.
  - rewrite Hp. unfold wrap_u. rewrite Zplus_mod_idemp_l. f_equal. lia.
  - intros i Hi. cbn. specialize (Hh i Hi). rewrite length_app. cbn [length].
    destruct (decide (i = Z.of_nat (length l))) as [->|Hne].
    + fold k. rewrite decide_True by lia. rewrite !list_lookup_insert_eq by lia.
      rewrite lookup_app_r by lia. by replace (Z.to_nat (Z.of_nat (length l)) - length l)%nat with 0%nat by lia.
    + rewrite !list_lookup_insert_ne by (intros E'; apply Hne; eapply index_inj; [done| |exact (eq_sym E')]; lia).
      destruct (decide (i < Z.of_nat (length l))).
      * rewrite decide_True by lia. by rewrite lookup_app_l by lia.
      * by rewrite decide_False by lia.
Qed.

Lemma PopFront_spec q l :
  rep q l -> wp PopFront (fun r q' => exists l', fifo_pop l = (r, l') /\ rep q' l') q.
Proof.
  intros R. pose proof R as [Ht He Hn Hl Hr Hw Hp Hh]. unfold PopFront.
  do 2 wp_step. rewrite Hr. destruct l as [|m l]; cbn [length] in *.
  { apply wp_ret. exists []. auto. }
  destruct (Z.eqb_spec (Z.of_nat (S (length l))) 0) as [E|E]; [lia|].
  do 6 wp_step. cbn. assert (pop_index (dec_read q) = index (popPos_ q)) as -> by (unfold pop_index; cbn; by rewrite Ht).
  pose proof (Hh 0 ltac:(lia)) as H0. cbn in H0. rewrite decide_True, Z.add_0_r in H0 by lia.
  destruct H0 as [H0e H0n]. rewrite H0e. cbn. repeat (wp_step; cbn). rewrite H0n. cbn.
  eexists. split; [done|].
  pose proof (index_lt (popPos_ q)) as Hk.
  split; cbn; rewrite ?length_insert; try done; try lia.
  - rewrite Hr. rewrite wrap_u_small; lia.
  - rewrite wrap_u_small; lia.
  - rewrite Hp. unfold wrap_u. rewrite Zplus_mod_idemp_l. f_equal. lia.
  - intros i Hi. cbn.
    assert (index (u64 (popPos_ q + 1) + i) = index (popPos_ q + (i + 1))) as ->.
    { rewrite <- (index_u64 (u64 _ + i)), <- (index_u64 (popPos_ q + (i + 1))). f_equal.
      unfold wrap_u. rewrite Zplus_mod_idemp_l. f_equal. lia. }
    destruct (decide (i = cap - 1)) as [->|Hne].
    + rewrite decide_False by lia. replace (cap - 1 + 1) with cap by lia. rewrite index_add_cap.
      by rewrite list_lookup_insert_eq by lia.
    + specialize (Hh (i + 1) ltac:(lia)).
      rewrite !list_lookup_insert_ne.
      2: { intros E'. rewrite <- (Z.add_0_r (popPos_ q)) in E' at 1. apply index_inj in E'; lia. }
      destruct (decide (i < Z.of_nat (length l))).
      * rewrite decide_True in Hh by (cbn; lia).
        replace (Z.to_nat (i + 1)) with (S (Z.to_nat i)) in Hh by lia. done.
      * rewrite decide_False in Hh by (cbn; lia). done.
Qed.

Lemma exec_spec q l o :
  rep q l -> wp (exec o) (fun r q' => exists l', fifo_exec cap o l = (r, l') /\ rep q' l') q.
Proof.
  intros R. pose proof R as [Ht He Hn Hl Hr Hw Hp Hh].
  destruct o; cbn [exec fifo_exec].
  - wp_step. eapply wp_mono; [by apply PushBack_spec|]. cbn. intros c q' (l' & -> & ?). wp_step. eauto.
  - wp_step. eapply wp_mono; [by apply PopFront_spec|]. cbn. intros c q' (l' & -> & ?). wp_step. eauto.
  - wp_step. unfold Count. rewrite Hr. eauto.
  - wp_step. exists l. split; [|done]. unfold IsEmpty. rewrite Hr. do 2 f_equal. destruct l; [done|].
    rewrite bool_decide_false by done. symmetry. apply Z.eqb_neq. cbn. lia.
  - wp_step. exists l. split; [|done]. unfold IsFull. rewrite Hr, Ht. by rewrite Z.eqb_sym.
  - wp_step. eapply wp_mono; [by eapply Reset_spec|]. cbn. intros _ q' ?. wp_step. eauto.
Qed.

Lemma run_spec ops q l : rep q l -> run ops q = fifo_run cap ops l.
Proof.
  revert q l. induction ops as [|o ops IH]; intros q l R; [done|]. cbn.
  destruct (exec o q) as [r q'] eqn:E.
  pose proof (wp_run _ _ _ _ _ E (exec_spec q l o R)) as (l' & -> & R'). f_equal. eauto.
Qed.

End facts.
End QueueFacts.

(** The codes of the two refusals, which are not the ones queue.h documents: a
    full queue answers 1500 where the header says 1011, an empty one 1501 where it
    says 1012.  The handlers pass the code on, the worker compares it with
    success. *)
Lemma refusal_codes {A : Type} (cap : Z) (q : @Queue.t A) (l : list A) (m : A) :
  0 < cap < 2 ^ 64 -> (cap | 2 ^ 64) -> QueueFacts.rep cap q l ->
  (Z.of_nat (length l) = cap -> fst (Queue.PushBack m q) = 1500) /\
  (l = [] -> fst (Queue.PopFront q) = (1501, None)).
Proof.
  intros Hc Hd R. split; intros E.
  - destruct (Queue.PushBack m q) as [c q'] eqn:EP.
    destruct (wp_run _ _ _ _ _ EP (QueueFacts.PushBack_spec cap Hc Hd q l m R)) as (l' & E' & _).
    unfold Queue.fifo_push in E'. rewrite (proj2 (Z.eqb_eq _ _) E) in E'. by injection E' as <- _.
  - subst l. destruct (Queue.PopFront q) as [r q'] eqn:EP.
    destruct (wp_run _ _ _ _ _ EP (QueueFacts.PopFront_spec cap Hc Hd q [] R)) as (l' & E' & _).
    by injection E' as <- _.
Qed.

(** C5. For every capacity that divides the range of [size_t] (1024 is the one in
    use) the queue behaves as a bounded FIFO: for every sequence of operations,
    every code, message, count and flag is the one of the list specification,
    also after the positions wrapped around.  The codes are those of the code,
    1500 for a full and 1501 for an empty queue; queue.h documents 1011 and 1012
    ([refusal_codes]). *)
Theorem queue_refines_fifo {A : Type} (cap : Z) (ops : list (@Queue.op A)) :
  0 < cap < 2 ^ 64 -> (cap | 2 ^ 64) ->
  Queue.run ops (Queue.ctor cap) = Queue.fifo_run cap ops [].
Proof. intros Hc Hd. apply QueueFacts.run_spec; [done|done|]. by apply QueueFacts.rep_ctor. Qed.

Lemma queue_refines_fifo_witness :
  Queue.run [Queue.OpPush 5%nat; Queue.OpPush 6%nat; Queue.OpPush 7%nat; Queue.OpPop; Queue.OpIsFull] (Queue.ctor 2) =
  Queue.fifo_run 2 [Queue.OpPush 5%nat; Queue.OpPush 6%nat; Queue.OpPush 7%nat; Queue.OpPop; Queue.OpIsFull] [].
Proof. apply (queue_refines_fifo 2); [lia|]. exists (2 ^ 63). done. Defined.
