(* ===== verification/QueueConcurrency.v ===== *)
(** * QueueConcurrency: the queue under interleaving

    Every access of [PushBack] and [PopFront] to a shared member is one step.
    The server runs its requests on a single task (sa_server.c,
    [GetTaskConfig]), which is the producer; the engine worker is the consumer.
    With one producer the queue is a linearizable FIFO; with two it is not. *)

From Stdlib Require Import ZArith Lia.
From stdpp Require Import gmap list relations.
From S2P Require Import Prelude Protocol Queue.

Module QueueConc.
Import Queue.

Section system.
  Context {A : Type}.

(** Where a thread in [PushBack] is; [todo] are the messages it pushes next. *)
Inductive producer :=
  | PIdle (todo : list A)
  | PChecked (m : A) (todo : list A)           (** read [writeAbleCount_ != 0] *)
  | PReserved (m : A) (todo : list A)          (** after [--writeAbleCount_] *)
  | PPos (k : nat) (m : A) (todo : list A)     (** after [pushPos_++ % totalNum_] *)
  | PNode (k : nat) (m : A) (todo : list A)    (** after the write of the node *)
  | PFlag (k : nat) (m : A) (todo : list A)    (** after the write of the flag *).

Inductive consumer :=
  | CIdle
  | CChecked                             (** read [readAbleCount_ != 0] *)
  | CTaken                               (** after [--readAbleCount_] *)
  | CPos (k : nat)                       (** after [popPos_ % totalNum_] *)
  | CInvalid                             (** found the node empty *)
  | CFull (k : nat)                      (** found the node full *)
  | CPopped (k : nat)                    (** after [++popPos_] *)
  | CGot (k : nat) (m : option A)        (** after the read of the node *)
  | CCleared (m : option A)              (** after the write of the flag *).

Record sys := mk_sys {
  queue : @Queue.t A;
  producers : list producer;
  cons : consumer;
  sent : list A;           (** messages whose [PushBack] returned [RETCODE_SUCCESS] *)
  refused : list A;        (** messages whose [PushBack] returned [RETCODE_QUEUE_FULL] *)
  got : list (option A);   (** messages [PopFront] returned, in order *)
  invalid : nat;           (** calls of [PopFront] that returned [RETCODE_QUEUE_NODE_INVALID] *)
}.
#[global] Instance eta_sys : Eta sys := fun r =>
  mk_sys (queue r) (producers r) (cons r) (sent r) (refused r) (got r) (invalid r).

Definition set_prod (i : nat) (p : producer) (s : sys) : sys := s <| producers ::= <[i := p]> |>.

(** The next access of producer [i]. *)
Definition prod_step (i : nat) (s : sys) : option sys :=
  let q := queue s in
  match producers s !! i with
  | Some (PIdle (m :: todo)) =>
      if writeAbleCount_ q =? 0
      then Some (set_prod i (PIdle todo) s <| refused := refused s ++ [m] |>)
      else Some (set_prod i (PChecked m todo) s)
  | Some (PChecked m todo) => Some (set_prod i (PReserved m todo) s <| queue := dec_write q |>)
  | Some (PReserved m todo) =>
      Some (set_prod i (PPos (push_index q) m todo) s <| queue := inc_push q |>)
  | Some (PPos k m todo) =>
      Some (set_prod i (PNode k m todo) s <| queue := set_node k (Some m) q |>)
  | Some (PNode k m todo) =>
      Some (set_prod i (PFlag k m todo) s <| queue := set_empty k false q |>)
  | Some (PFlag k m todo) =>
      Some (set_prod i (PIdle todo) s <| queue := inc_read q |> <| sent := sent s ++ [m] |>)
  | _ => None
  end.

(** The next access of the consumer. *)
Definition cons_step (s : sys) : sys :=
  let q := queue s in
  match cons s with
  | CIdle => if readAbleCount_ q =? 0 then s else s <| cons := CChecked |>
  | CChecked => s <| cons := CTaken |> <| queue := dec_read q |>
  | CTaken => s <| cons := CPos (pop_index q) |>
  | CPos k => if default true (empty q !! k) then s <| cons := CInvalid |> else s <| cons := CFull k |>
  | CInvalid => s <| cons := CIdle |> <| queue := inc_read q |> <| invalid ::= S |>
  | CFull k => s <| cons := CPopped k |> <| queue := inc_pop q |>
  | CPopped k => s <| cons := CGot k (default None (node q !! k)) |>
  | CGot k m => s <| cons := CCleared m |> <| queue := set_empty k true q |>
  | CCleared m => s <| cons := CIdle |> <| queue := inc_write q |> <| got := got s ++ [m] |>
  end.

Inductive step : sys -> sys -> Prop :=
  | step_prod i s s' : prod_step i s = Some s' -> step s s'
  | step_cons s : step s (cons_step s).

Definition init (cap : Z) (msgs : list (list A)) : sys :=
  mk_sys (ctor cap) (PIdle <$> msgs) CIdle [] [] [] 0.

(** Follow a schedule: [Some i] is a step of producer [i], [None] of the consumer. *)
Fixpoint follow (sched : list (option nat)) (s : sys) : option sys :=
  match sched with
  | [] => Some s
  | Some i :: sched' => match prod_step i s with Some s' => follow sched' s' | None => None end
  | None :: sched' => follow sched' (cons_step s)
  end.

End system.
End QueueConc.

Module QueueConcFacts.
Import Queue QueueConc QueueFacts.

Section facts.
  Context {A : Type} (cap : Z).
  Context (Hcap : 0 < cap < 2 ^ 64) (Hdiv : (cap | 2 ^ 64)).
  Implicit Types (s : @QueueConc.sys A).

Definition reserved (p : @producer A) : Z :=
  match p with PReserved _ _ | PPos _ _ _ | PNode _ _ _ | PFlag _ _ _ => 1 | _ => 0 end.
Definition in_flight (p : @producer A) : Z :=
  match p with PPos _ _ _ | PNode _ _ _ | PFlag _ _ _ => 1 | _ => 0 end.
Definition taken (c : @consumer A) : Z :=
  match c with CIdle | CChecked => 0 | _ => 1 end.
Definition popped (c : @consumer A) : Z :=
  match c with CPopped _ | CGot _ _ | CCleared _ => 1 | _ => 0 end.
Definition cleared (c : @consumer A) : Z :=
  match c with CCleared _ => 1 | _ => 0 end.

(** What the local variables of the threads are worth. *)
Definition prod_ok (q : @Queue.t A) (n : Z) (p : producer) : Prop :=
  match p with
  | PIdle _ | PReserved _ _ => True
  | PChecked _ _ => True
  | PPos k m _ => k = index cap n
  | PNode k m _ => k = index cap n /\ node q !! k = Some (Some m)
  | PFlag k m _ => k = index cap n /\ node q !! k = Some (Some m) /\ empty q !! k = Some false
  end.
Definition cons_ok (l : list A) (n : Z) (c : @consumer A) : Prop :=
  match c with
  | CInvalid => False
  | CPos k | CFull k | CPopped k => k = index cap n
  | CGot k m => k = index cap n /\ m = l !! Z.to_nat n
  | CCleared m => m = l !! Z.to_nat n
  | _ => True
  end.

Record inv (s : sys) (p : producer) : Prop := {
  i_prod : producers s = [p];
  i_total : totalNum_ (queue s) = cap;
  i_empty : length (empty (queue s)) = Z.to_nat cap;
  i_node : length (node (queue s)) = Z.to_nat cap;
  i_inval : invalid s = 0%nat;
  i_write : writeAbleCount_ (queue s) =
            cap - Z.of_nat (length (sent s)) - reserved p + Z.of_nat (length (got s));
  i_write_pos : match p with PChecked _ _ => 1 | _ => 0 end <= writeAbleCount_ (queue s);
  i_read : readAbleCount_ (queue s) =
           Z.of_nat (length (sent s)) - Z.of_nat (length (got s)) - taken (cons s);
  i_read_pos : match cons s with CChecked => 1 | _ => 0 end <= readAbleCount_ (queue s);
  i_push : pushPos_ (queue s) = u64 (Z.of_nat (length (sent s)) + in_flight p);
  i_pop : popPos_ (queue s) = u64 (Z.of_nat (length (got s)) + popped (cons s));
  i_slots : forall i, Z.of_nat (length (got s)) + cleared (cons s) <= i < Z.of_nat (length (sent s)) ->
            empty (queue s) !! index cap i = Some false /\
            node (queue s) !! index cap i = Some (sent s !! Z.to_nat i);
  i_got : got s = Some <$> take (length (got s)) (sent s);
  i_p : prod_ok (queue s) (Z.of_nat (length (sent s))) p;
  i_c : cons_ok (sent s) (Z.of_nat (length (got s))) (cons s);
}.

Lemma inv_init msgs : inv (init cap [msgs]) (PIdle msgs).
Proof. split; cbn; rewrite ?length_replicate; try done; try lia. Qed.

Lemma index_ne i j lo : lo <= i < lo + cap -> lo <= j < lo + cap -> i <> j -> index cap i <> index cap j.
Proof.
  intros Hi Hj Hne E. apply Hne.
  replace i with (lo + (i - lo)) in E by lia. replace j with (lo + (j - lo)) in E by lia.
  apply (index_inj cap Hcap) in E; lia.
Qed.

(** Counters stay inside [size_t], so no decrement wraps. *)
Lemma inv_bounds s p : inv s p ->
  0 <= taken (cons s) <= 1 /\ 0 <= popped (cons s) <= 1 /\ 0 <= cleared (cons s) <= 1 /\
  0 <= writeAbleCount_ (queue s) <= cap /\ 0 <= readAbleCount_ (queue s) <= cap /\
  Z.of_nat (length (got s)) + taken (cons s) <= Z.of_nat (length (sent s)).
Proof.
  intros []. assert (0 <= taken (cons s) <= 1 /\ 0 <= popped (cons s) <= 1 /\ 0 <= cleared (cons s) <= 1)
    by (destruct (cons s); cbn; lia).
  assert (0 <= reserved p <= 1) by (destruct p; cbn; lia).
  destruct p, (cons s); cbn in *; lia.
Qed.

Ltac solve_inv :=
  split; cbn; rewrite ?length_insert; try done; try lia;
  try (rewrite wrap_u_small; lia).

Lemma prod_step_inv s p s' :
  inv s p -> prod_step 0 s = Some s' -> exists p', inv s' p'.
Proof.
  intros I E. pose proof (inv_bounds s p I) as (Ht1 & Hp1 & Hc1 & Hw1 & Hr1 & Hl1).
  destruct I as [Hp Ht He Hn Hi Hw Hwp Hr Hrp Hpu Hpo Hs Hg HP HC].
  unfold prod_step in E. rewrite Hp in E. cbn [lookup list_lookup] in E.
  destruct p as [[|m todo]|m todo|m todo|k m todo|k m todo|k m todo]; cbn in *; try done.
  - destruct (Z.eqb_spec (writeAbleCount_ (queue s)) 0); simplify_eq.
    + exists (PIdle todo). solve_inv. by rewrite Hp.
    + exists (PChecked m todo). solve_inv. by rewrite Hp.
  - simplify_eq. exists (PReserved m todo). solve_inv. by rewrite Hp.
  - simplify_eq. exists (PPos (push_index (queue s)) m todo). solve_inv; [by rewrite Hp| |].
    + rewrite Hpu. unfold wrap_u. rewrite Zplus_mod_idemp_l. f_equal. lia.
    + unfold push_index. rewrite Ht, Hpu. rewrite Z.add_0_r. by apply index_u64.
  - simplify_eq. exists (PNode (index cap (Z.of_nat (length (sent s)))) m todo).
    pose proof (index_lt cap Hcap (Z.of_nat (length (sent s)))).
    solve_inv; [by rewrite Hp| |].
    + intros i Hi'. destruct (Hs i Hi') as [? ?]. split; [done|].
      rewrite list_lookup_insert_ne; [done|]. apply (index_ne _ _ (Z.of_nat (length (got s)))); lia.
    + split; [done|]. rewrite list_lookup_insert_eq by lia. done.
  - destruct HP as [-> HP]. simplify_eq. exists (PFlag (index cap (Z.of_nat (length (sent s)))) m todo).
    pose proof (index_lt cap Hcap (Z.of_nat (length (sent s)))).
    solve_inv; [by rewrite Hp| |].
    + intros i Hi'. destruct (Hs i Hi') as [? ?]. split; [|done].
      rewrite list_lookup_insert_ne; [done|]. apply (index_ne _ _ (Z.of_nat (length (got s)))); lia.
    + split_and!; [done|done|]. rewrite list_lookup_insert_eq by lia. done.
  - destruct HP as (-> & HP1 & HP2). simplify_eq. exists (PIdle todo).
    assert (length (sent s ++ [m]) = S (length (sent s))) as HL by (rewrite length_app; cbn; lia).
    solve_inv; rewrite ?HL; [by rewrite Hp| | | |].
    + rewrite Hpu. f_equal. lia.
    + intros i Hi'. destruct (decide (i = Z.of_nat (length (sent s)))) as [->|Hne].
      * rewrite HP1, HP2. split; [done|]. rewrite lookup_app_r by lia.
        by replace (Z.to_nat (Z.of_nat (length (sent s))) - length (sent s))%nat with 0%nat by lia.
      * destruct (Hs i ltac:(lia)) as [? ?]. by rewrite lookup_app_l by lia.
    + rewrite take_app_le by lia. done.
    + destruct (cons s); cbn in *; try done; try (by rewrite lookup_app_l by lia).
Qed.

Lemma cons_step_inv s p : inv s p -> exists p', inv (cons_step s) p'.
Proof.
  intros I. exists p. pose proof (inv_bounds s p I) as (Ht1 & Hp1 & Hc1 & Hw1 & Hr1 & Hl1).
  destruct I as [Hp Ht He Hn Hi Hw Hwp Hr Hrp Hpu Hpo Hs Hg HP HC].
  assert (0 <= reserved p <= 1) by (destruct p; cbn; lia).
  unfold cons_step. destruct (cons s) as [| | |k| |k|k|k m|m] eqn:EC; cbn in *; try done.
  - destruct (Z.eqb_spec (readAbleCount_ (queue s)) 0); solve_inv; rewrite ?EC; cbn; try done; try lia.
  - solve_inv; by destruct p.
  - solve_inv. unfold pop_index. rewrite Ht, Hpo, Z.add_0_r. by apply index_u64.
  - subst k. destruct (Hs (Z.of_nat (length (got s))) ltac:(lia)) as [Hf _]. rewrite Hf. cbn. solve_inv.
  - solve_inv.
    + rewrite Hpo. unfold wrap_u. rewrite Zplus_mod_idemp_l. f_equal. lia.
  - subst k. destruct (Hs (Z.of_nat (length (got s))) ltac:(lia)) as [_ Hf]. rewrite Hf. cbn. solve_inv.
  - destruct HC as [-> ->]. solve_inv.
    + intros i Hi'. destruct (Hs i ltac:(lia)) as [? ?]. split; [|done].
      rewrite list_lookup_insert_ne; [done|]. apply (index_ne _ _ (Z.of_nat (length (got s)))); lia.
    + destruct p; cbn in *; try done. destruct HP as (-> & ? & ?). split_and!; [done|done|].
      rewrite list_lookup_insert_ne; [done|]. apply (index_ne _ _ (Z.of_nat (length (got s)))); lia.
  - rewrite Nat2Z.id in HC. destruct (lookup_lt_is_Some_2 (sent s) (length (got s))) as [a Ha]; [lia|].
    assert (length (got s ++ [m]) = S (length (got s))) as HL by (rewrite length_app; cbn; lia).
    solve_inv; rewrite ?HL; try lia.
    + rewrite Hpo. f_equal. lia.
    + intros i Hi'. apply Hs. lia.
    + rewrite (take_S_r _ _ _ Ha), fmap_app, <- Hg. cbn. by rewrite HC, Ha.
Qed.

Lemma reachable_inv s s' p : rtc step s s' -> inv s p -> exists p', inv s' p'.
Proof.
  intros H. revert p. induction H as [|s1 s2 s3 [i ? ? E|?] _ IH]; intros p I; [eauto| |].
  - destruct i as [|i].
    + destruct (prod_step_inv _ _ _ I E) as [p' I']. eauto.
    + unfold prod_step in E. rewrite (i_prod _ _ I) in E. done.
  - destruct (cons_step_inv _ _ I) as [p' I']. eauto.
Qed.

Lemma follow_rtc sched s s' : follow sched s = Some s' -> rtc step s s'.
Proof.
  revert s. induction sched as [|[i|] sched IH]; intros s E; cbn in E; [by simplify_eq|..].
  - destruct (prod_step i s) eqn:E1; [|done]. eapply rtc_l; [by eapply step_prod|]. eauto.
  - eapply rtc_l; [apply step_cons|]. eauto.
Qed.

End facts.
End QueueConcFacts.

(** C12. With one producer and one consumer, in every interleaving of their
    accesses: the messages received are the messages sent, in order, none lost,
    duplicated or torn; no pop finds an invalid node; neither counter leaves the
    range 0 to the capacity, so no decrement wraps. *)
Theorem queue_spsc_safe {A : Type} (cap : Z) (msgs : list A) s :
  0 < cap < 2 ^ 64 -> (cap | 2 ^ 64) ->
  rtc QueueConc.step (QueueConc.init cap [msgs]) s ->
  QueueConc.got s `prefix_of` (Some <$> QueueConc.sent s) /\
  QueueConc.invalid s = 0%nat /\
  0 <= Queue.writeAbleCount_ (QueueConc.queue s) <= cap /\
  0 <= Queue.readAbleCount_ (QueueConc.queue s) <= cap.
Proof.
  intros Hc Hd HR.
  destruct (QueueConcFacts.reachable_inv cap Hc Hd _ _ _ HR (QueueConcFacts.inv_init cap Hc msgs)) as [p I].
  pose proof (QueueConcFacts.inv_bounds cap Hc _ _ I) as (_ & _ & _ & ? & ? & _).
  split_and!; try lia; [|by apply (QueueConcFacts.i_inval _ _ _ I)].
  exists (Some <$> drop (length (QueueConc.got s)) (QueueConc.sent s)).
  rewrite (QueueConcFacts.i_got _ _ _ I) at 1. by rewrite <- fmap_app, take_drop.
Qed.

Definition spsc_schedule : list (option nat) :=
  [Some 0%nat; Some 0%nat; Some 0%nat; Some 0%nat; Some 0%nat; Some 0%nat; Some 0%nat;
   None; None; None; None; None; None; None; None; Some 0%nat; Some 0%nat].

Lemma queue_spsc_safe_witness :
  exists s, rtc QueueConc.step (QueueConc.init 2 [[7; 8; 9]]) s /\ QueueConc.got s = [Some 7] /\
    QueueConc.got s `prefix_of` (Some <$> QueueConc.sent s) /\ QueueConc.invalid s = 0%nat.
Proof.
  eexists. assert (rtc QueueConc.step (QueueConc.init 2 [[7; 8; 9]])
    (default (QueueConc.init 2 []) (QueueConc.follow spsc_schedule (QueueConc.init 2 [[7; 8; 9]])))) as HR
    by (by apply QueueConcFacts.follow_rtc with (sched := spsc_schedule); vm_compute).
  split; [exact HR|]. split; [by vm_compute|].
  pose proof (queue_spsc_safe 2 [7; 8; 9] _ ltac:(lia) ltac:(by exists (2 ^ 63)) HR) as (H1 & H2 & _). done.
Defined.

Definition race_schedule : list (option nat) :=
  (fun n => Some n) <$> [0; 1; 0; 1; 0; 0; 0; 0; 1; 1; 1; 1]%nat.

(** The check of the free space and its reservation are two accesses: with
    two producers and one free node both pass the check, the counter of free
    nodes wraps to 2^64 - 1 and the second message overwrites the first although
    both calls return [RETCODE_SUCCESS].  The queue needs the single task of the
    server. *)
Theorem queue_two_producers_overflow (a b : nat) :
  exists s, rtc QueueConc.step (QueueConc.init 1 [[a]; [b]]) s /\
    Queue.writeAbleCount_ (QueueConc.queue s) = 2 ^ 64 - 1 /\
    QueueConc.sent s = [a; b] /\ Queue.node (QueueConc.queue s) = [Some b].
Proof.
  assert (exists s, QueueConc.follow race_schedule (QueueConc.init 1 [[a]; [b]]) = Some s /\
    Queue.writeAbleCount_ (QueueConc.queue s) = 2 ^ 64 - 1 /\
    QueueConc.sent s = [a; b] /\ Queue.node (QueueConc.queue s) = [Some b]) as (s & Hs & H).
  { eexists. split; [vm_compute; reflexivity|]. by vm_compute. }
  exists s. split; [by eapply QueueConcFacts.follow_rtc|done].
Qed.
