(* ===== verification/Sync.v ===== *)
(** * Sync: locks, events and semaphores of services/common/platform

    Every critical section of these classes runs under one mutex, so it is one
    step.  A call that cannot return yet is a thread parked on a condition
    variable; [RwLock] is modelled with all of its threads, spurious wake-ups
    and the choice of [notify_one] included. *)

From Stdlib Require Import ZArith Lia.
From stdpp Require Import gmap list relations.
From S2P Require Import Prelude Protocol.

(** ** [Event] (event.cpp) *)

Module Event.
Record t := mk { flag_ : bool }.
#[global] Instance eta_event : Eta t := fun r => mk (flag_ r).

Definition ctor : t := mk false.

Definition Signal : ST t bool :=
  signalled ← gets flag_;
  modify (fun e => e <| flag_ := true |>) ;;
  mret (negb signalled).

Definition Reset : ST t bool :=
  signalled ← gets flag_;
  modify (fun e => e <| flag_ := false |>) ;;
  mret signalled.

Definition IsSet (e : t) : bool := flag_ e.

(** [IEvent::Wait(milliSeconds)]: the value returned, or [None] while the caller
    stays parked; [expired] says whether the time is up. *)
Definition Wait (milliSeconds : Z) (expired : bool) (e : t) : option bool :=
  if milliSeconds <=? 0 then (if flag_ e then Some true else None)
  else if flag_ e then Some true
  else if expired then Some false else None.
End Event.

(** ** [Semaphore] (semaphore.cpp) *)

Module Semaphore.
Record t := mk { count_ : Z }.
#[global] Instance eta_semaphore : Eta t := fun r => mk (count_ r).

Definition ctor (count : Z) : t := mk count.

Definition Signal : ST t unit := modify (fun s => s <| count_ ::= fun c => u32 (c + 1) |>).

(** [ISemaphore::Wait(milliSeconds)]; [None] while the caller stays parked. *)
Definition Wait (milliSeconds : Z) (expired : bool) (s : t) : option (bool * t) :=
  if 0 <? count_ s then Some (true, s <| count_ ::= fun c => u32 (c - 1) |>)
  else if milliSeconds <=? 0 then None
  else if expired then Some (false, s) else None.
End Semaphore.

(** ** [SimpleEventNotifier] (simple_event_notifier.inl): one slot for a value *)

Module SimpleEventNotifier.
Section notifier.
  Context {A : Type}.

Record t := mk { value_ : option A; producer_ : Semaphore.t }.
#[global] Instance eta_notifier : Eta t := fun r => mk (value_ r) (producer_ r).

Definition ctor : t := mk None (Semaphore.ctor 0).

Definition AddToBack (item : option A) : ST t unit :=
  modify (fun n => n <| value_ := item |>) ;;
  on_field producer_ Semaphore.Signal.

(** The result of [Wait], and the item when it is true. *)
Definition GetFromFront (timeOut : Z) (expired : bool) (n : t) : option ((bool * option A) * t) :=
  match Semaphore.Wait timeOut expired (producer_ n) with
  | None => None
  | Some (false, p) => Some ((false, None), n <| producer_ := p |>)
  | Some (true, p) => Some ((true, value_ n), n <| producer_ := p |> <| value_ := None |>)
  end.

(** [~SimpleEventNotifier()] destroys the value that was never taken. *)
Definition dtor (n : t) : option A := value_ n.

End notifier.
End SimpleEventNotifier.

(** ** [RwLock] (rw_lock.cpp) *)

Module RwLock.

(** A thread holds nothing, holds the lock, or is parked in [LockRead] or
    [LockWrite]; [woken] says that it was notified and will test its predicate
    again when it gets the mutex. *)
Inductive thread :=
  | Idle
  | Reading
  | Writing
  | WaitRead (woken : bool)
  | WaitWrite (woken : bool).

#[global] Instance thread_eq_dec : EqDecision thread.
Proof. solve_decision. Defined.

Record t := mk {
  readCnt_ : Z;
  writeCnt_ : Z;
  writeFlag_ : bool;
  threads : list thread;
}.
#[global] Instance eta_rw_lock : Eta t := fun r => mk (readCnt_ r) (writeCnt_ r) (writeFlag_ r) (threads r).

Definition ctor (n : nat) : t := mk 0 0 false (replicate n Idle).

Definition set_thread (i : nat) (th : thread) (s : t) : t := s <| threads ::= <[i := th]> |>.

Definition read_pred (s : t) : bool := writeCnt_ s =? 0.
Definition write_pred (s : t) : bool := (readCnt_ s =? 0) && negb (writeFlag_ s).

(** The end of [LockRead] and of [LockWrite]: test the predicate, take the lock
    or park. *)
Definition try_read (i : nat) (s : t) : t :=
  if read_pred s then set_thread i Reading s <| readCnt_ ::= fun c => u64 (c + 1) |>
  else set_thread i (WaitRead false) s.

Definition try_write (i : nat) (s : t) : t :=
  if write_pred s then set_thread i Writing s <| writeFlag_ := true |>
  else set_thread i (WaitWrite false) s.

Definition LockRead (i : nat) (s : t) : t := try_read i s.

Definition LockWrite (i : nat) (s : t) : t := try_write i (s <| writeCnt_ ::= fun c => u64 (c + 1) |>).

Definition wake_reader (th : thread) : thread :=
  match th with WaitRead _ => WaitRead true | th => th end.

(** [condWrite_.notify_one()]: wakes [k], or nobody when no writer sleeps. *)
Definition notify_writer (k : option nat) (s : t) : t :=
  match k with
  | Some k => set_thread k (WaitWrite true) s
  | None => s
  end.

(** [k] is a choice [notify_one] may make. *)
Definition may_notify (s : t) (k : option nat) : Prop :=
  match k with
  | Some k => threads s !! k = Some (WaitWrite false)
  | None => WaitWrite false ∉ threads s
  end.

Definition UnLockRead (i : nat) (k : option nat) (s : t) : t :=
  let s1 := set_thread i Idle s <| readCnt_ ::= fun c => u64 (c - 1) |> in
  if (readCnt_ s1 =? 0) && (0 <? writeCnt_ s1) then notify_writer k s1 else s1.

Definition UnLockWrite (i : nat) (k : option nat) (s : t) : t :=
  let s1 := set_thread i Idle s <| writeCnt_ ::= fun c => u64 (c - 1) |> in
  let s2 := if writeCnt_ s1 =? 0 then s1 <| threads ::= fmap wake_reader |>
            else notify_writer k s1 in
  s2 <| writeFlag_ := false |>.

Inductive step : t -> t -> Prop :=
  | step_lock_read i s : threads s !! i = Some Idle -> step s (LockRead i s)
  | step_lock_write i s : threads s !! i = Some Idle -> step s (LockWrite i s)
  | step_retry_read i s : threads s !! i = Some (WaitRead true) -> step s (try_read i s)
  | step_retry_write i s : threads s !! i = Some (WaitWrite true) -> step s (try_write i s)
  | step_unlock_read i k s : threads s !! i = Some Reading -> may_notify s k -> step s (UnLockRead i k s)
  | step_unlock_write i k s : threads s !! i = Some Writing -> may_notify s k -> step s (UnLockWrite i k s)
  | step_spurious_read i s : threads s !! i = Some (WaitRead false) -> step s (set_thread i (WaitRead true) s)
  | step_spurious_write i s : threads s !! i = Some (WaitWrite false) -> step s (set_thread i (WaitWrite true) s).

End RwLock.

(** ** Lemmas: counting threads *)

Module RwLockFacts.
Import RwLock.

Definition count (P : thread -> bool) (l : list thread) : Z := Z.of_nat (length (base.filter (fun th => P th = true) l)).

Definition is_reading th := match th with Reading => true | _ => false end.
Definition is_writing th := match th with Writing => true | _ => false end.
Definition is_writer th := match th with Writing | WaitWrite _ => true | _ => false end.
Definition is_woken th := match th with WaitWrite true => true | _ => false end.

Lemma count_cons P th l : count P (th :: l) = Z.b2z (P th) + count P l.
Proof. unfold count. rewrite filter_cons. destruct (P th) eqn:E; case_decide; cbn [length Z.b2z]; try done; lia. Qed.

Lemma count_insert P l i x y :
  l !! i = Some x -> count P (<[i := y]> l) = count P l - Z.b2z (P x) + Z.b2z (P y).
Proof.
  revert i. induction l as [|z l IH]; intros [|i] H; try done; cbn in H; simplify_eq.
  - cbn [insert list_insert]. rewrite !count_cons. lia.
  - change (<[S i := y]> (z :: l)) with (z :: <[i := y]> l). rewrite !count_cons, (IH i) by done. lia.
Qed.

Lemma count_fmap P f l : (forall th, P (f th) = P th) -> count P (f <$> l) = count P l.
Proof. intros Hf. induction l as [|z l IH]; [done|]. cbn [fmap list_fmap]. rewrite !count_cons, IH, Hf. done. Qed.

Lemma count_nonneg P l : 0 <= count P l <= Z.of_nat (length l).
Proof.
  unfold count. pose proof (length_filter (fun th => P th = true) l). lia.
Qed.

Lemma count_pos P l th : th ∈ l -> P th = true -> 0 < count P l.
Proof.
  intros Hin HP. induction Hin; rewrite count_cons; pose proof (count_nonneg P l); [rewrite HP; cbn [Z.b2z]; lia|].
  specialize (IHHin HP). destruct (P y); cbn [Z.b2z]; lia.
Qed.

Lemma count_zero P l th : count P l = 0 -> th ∈ l -> P th = false.
Proof. intros H Hin. destruct (P th) eqn:E; [|done]. pose proof (count_pos P l th Hin E). lia. Qed.

Lemma count_pos_inv P l : 0 < count P l -> exists th, th ∈ l /\ P th = true.
Proof.
  induction l as [|z l IH]; [done|]. rewrite count_cons. intros H.
  destruct (P z) eqn:E; [exists z; split; [by left|done]|].
  destruct IH as (th & ? & ?); [cbn [Z.b2z] in H; lia|]. exists th. split; [by right|done].
Qed.
(** The counters count, writers exclude everybody, and nobody who could go on
    sleeps: a reader sleeps only while a writer exists, and when no thread holds
    the lock one of the waiting writers has been woken. *)
Record inv (s : t) : Prop := {
  i_len : Z.of_nat (length (threads s)) < 2 ^ 64;
  i_read : readCnt_ s = count is_reading (threads s);
  i_write : writeCnt_ s = count is_writer (threads s);
  i_flag : Z.b2z (writeFlag_ s) = count is_writing (threads s);
  i_excl : 0 < count is_writing (threads s) -> count is_reading (threads s) = 0;
  i_sleep : WaitRead false ∈ threads s -> 0 < count is_writer (threads s);
  i_wake : 0 < count is_writer (threads s) ->
           0 < count is_reading (threads s) + count is_writing (threads s) + count is_woken (threads s);
}.

Lemma lock_inv_init n : Z.of_nat n < 2 ^ 64 -> inv (ctor n).
Proof.
  intros Hn. assert (forall P, P Idle = false -> count P (replicate n Idle) = 0) as HC.
  { intros P HP. destruct (decide (0 < count P (replicate n Idle))) as [H|H].
    - apply count_pos_inv in H as (th & Hin & HT). apply elem_of_replicate_inv in Hin. congruence.
    - pose proof (count_nonneg P (replicate n Idle)). lia. }
  split; cbn; rewrite ?HC, ?length_replicate by done; try done; try lia.
  intros Hin. apply elem_of_replicate_inv in Hin. done.
Qed.

Lemma sleeper_kept (l : list thread) i x y : <[i := x]> l !! i = Some x -> y <> x -> y ∈ <[i := x]> l -> y ∈ l.
Proof.
  intros Hi Hne Hin. apply list_elem_of_lookup in Hin as [j Hj].
  destruct (decide (i = j)) as [->|Hij]; [congruence|].
  rewrite list_lookup_insert_ne in Hj by done. by eapply list_elem_of_lookup_2.
Qed.

(** What a change of the state of one thread does to all counts. *)
Lemma set_thread_counts (ths : list thread) i x y :
  ths !! i = Some x ->
  let l := <[i := y]> ths in
  count is_reading l = count is_reading ths - Z.b2z (is_reading x) + Z.b2z (is_reading y) /\
  count is_writing l = count is_writing ths - Z.b2z (is_writing x) + Z.b2z (is_writing y) /\
  count is_writer l = count is_writer ths - Z.b2z (is_writer x) + Z.b2z (is_writer y) /\
  count is_woken l = count is_woken ths - Z.b2z (is_woken x) + Z.b2z (is_woken y) /\
  length l = length ths /\
  (0 <= count is_woken l /\ count is_reading l <= Z.of_nat (length ths) /\ count is_writer l <= Z.of_nat (length ths)) /\
  (WaitRead false ∈ l -> y = WaitRead false \/ WaitRead false ∈ ths).
Proof.
  intros Hx. cbn. pose proof (count_nonneg is_reading (<[i := y]> ths)) as B1.
  pose proof (count_nonneg is_writer (<[i := y]> ths)) as B2.
  pose proof (count_nonneg is_woken (<[i := y]> ths)) as B3. rewrite length_insert in *.
  rewrite !(count_insert _ _ _ _ _ Hx) in *. split_and!; try lia.
  intros Hin. destruct (decide (y = WaitRead false)); [by left|right].
  eapply (sleeper_kept _ i y); [|done|done]. apply list_lookup_insert_eq. by eapply lookup_lt_Some.
Qed.

Lemma holds_pos s i x P : threads s !! i = Some x -> P x = true -> 0 < count P (threads s).
Proof. intros Hx HP. eapply count_pos; [by eapply list_elem_of_lookup_2|done]. Qed.

Lemma count_le P Q l : (forall th, P th = true -> Q th = true) -> count P l <= count Q l.
Proof.
  intros H. induction l as [|z l IH]; [done|]. rewrite !count_cons. specialize (H z).
  destruct (P z), (Q z); cbn [Z.b2z]; try lia.
Qed.

Lemma count_facts s :
  0 <= count is_reading (threads s) /\ 0 <= count is_writing (threads s) <= count is_writer (threads s) /\
  0 <= count is_woken (threads s) /\ count is_reading (threads s) <= Z.of_nat (length (threads s)) /\
  count is_writer (threads s) <= Z.of_nat (length (threads s)).
Proof.
  pose proof (count_nonneg is_reading (threads s)). pose proof (count_nonneg is_writing (threads s)).
  pose proof (count_nonneg is_writer (threads s)). pose proof (count_nonneg is_woken (threads s)).
  assert (count is_writing (threads s) <= count is_writer (threads s)) by (apply count_le; by intros []).
  split_and!; lia.
Qed.

(** Bring the counts of the thread list after a step in terms of those before. *)
Ltac step_counts Hi y :=
  match type of Hi with
  | ?ths !! ?i = Some ?x =>
      let C1 := fresh "C" in let C2 := fresh "C" in let C3 := fresh "C" in
      let C4 := fresh "C" in let C5 := fresh "C" in let C6 := fresh "C" in
      pose proof (set_thread_counts ths i x y Hi) as (C1 & C2 & C3 & C4 & C5 & C6 & ?)
  end.

(** Close the invariant of the state after a step. *)
Ltac solve_counts I :=
  let ths := match type of I with inv ?s => constr:(threads s) end in
  match type of I with inv ?s => pose proof (count_facts s) end;
  let Hf := fresh "Hf" in let Hs := fresh "Hs" in destruct I as [? ? ? Hf ? Hs ?]; unfold set_thread in *;
  try match goal with H : writeFlag_ ?s = _ |- _ => rewrite H in Hf end;
  cbn [is_reading is_writing is_writer is_woken Z.b2z] in *;
  split; cbn; rewrite ?wrap_u_small by lia;
  try match goal with H : writeFlag_ ?s = _ |- context [writeFlag_] => rewrite H; cbn [Z.b2z] end;
  first [ lia
        | intros Hin; exfalso; naive_solver lia
        | intros Hin; cut (0 < count is_writer ths); [lia|apply Hs; naive_solver]
        | idtac ].

Lemma try_read_inv s i w :
  inv s -> threads s !! i = Some w -> w = Idle \/ w = WaitRead true -> inv (try_read i s).
Proof.
  intros I Hi Hw. unfold try_read, read_pred. destruct (Z.eqb_spec (writeCnt_ s) 0) as [E|E].
  - step_counts Hi Reading. destruct Hw as [-> | ->]; solve_counts I.
  - step_counts Hi (WaitRead false). destruct Hw as [-> | ->]; solve_counts I.
Qed.

Lemma LockWrite_inv s i : inv s -> threads s !! i = Some Idle -> inv (LockWrite i s).
Proof.
  intros I Hi. unfold LockWrite, try_write, write_pred. cbn.
  destruct (Z.eqb_spec (readCnt_ s) 0) as [E|E]; cbn [andb]; [destruct (writeFlag_ s) eqn:Ef; cbn [negb]|].
  - step_counts Hi (WaitWrite false). solve_counts I.
  - step_counts Hi Writing. solve_counts I.
  - step_counts Hi (WaitWrite false). solve_counts I.
Qed.

Lemma retry_write_inv s i : inv s -> threads s !! i = Some (WaitWrite true) -> inv (try_write i s).
Proof.
  intros I Hi. unfold try_write, write_pred.
  destruct (Z.eqb_spec (readCnt_ s) 0) as [E|E]; cbn [andb]; [destruct (writeFlag_ s) eqn:Ef; cbn [negb]|].
  - step_counts Hi (WaitWrite false). solve_counts I.
  - step_counts Hi Writing. solve_counts I.
  - step_counts Hi (WaitWrite false). solve_counts I.
Qed.

Lemma spurious_inv s i w :
  inv s -> threads s !! i = Some w -> w = WaitRead false \/ w = WaitWrite false ->
  inv (set_thread i (match w with WaitRead _ => WaitRead true | _ => WaitWrite true end) s).
Proof.
  intros I Hi Hw. destruct Hw as [-> | ->].
  - step_counts Hi (WaitRead true). solve_counts I.
  - step_counts Hi (WaitWrite true). solve_counts I.
Qed.

(** When no writer sleeps, every waiting writer has been woken. *)
Lemma no_sleeping_writer ths :
  WaitWrite false ∉ ths -> count is_writer ths = count is_writing ths + count is_woken ths.
Proof.
  induction ths as [|th ths IH]; [done|]. rewrite not_elem_of_cons, !count_cons.
  intros [Hne H]. rewrite IH by done. destruct th as [| | |[]|[]]; cbn [is_writer is_writing is_woken Z.b2z]; try lia. done.
Qed.

Lemma notify_threads s i k x :
  threads s !! i = Some x -> x <> WaitWrite false -> may_notify s k ->
  (exists k', k = Some k' /\ <[i := Idle]> (threads s) !! k' = Some (WaitWrite false)) \/
  (k = None /\ WaitWrite false ∉ <[i := Idle]> (threads s)).
Proof.
  intros Hi Hx Hk. destruct k as [k|]; cbn in Hk.
  - left. exists k. split; [done|]. rewrite list_lookup_insert_ne; [done|]. intros ->. congruence.
  - right. split; [done|]. intros Hin. apply Hk. eapply (sleeper_kept _ i Idle); [|done|done].
    apply list_lookup_insert_eq. by eapply lookup_lt_Some.
Qed.

Lemma UnLockRead_inv s i k :
  inv s -> threads s !! i = Some Reading -> may_notify s k -> inv (UnLockRead i k s).
Proof.
  intros I Hi Hk. pose proof (holds_pos s i Reading is_reading Hi eq_refl) as Hpos.
  unfold UnLockRead. cbn. step_counts Hi Idle.
  pose proof (i_read s I) as E1. pose proof (i_len s I) as E2.
  pose proof (count_facts s). rewrite wrap_u_small by lia.
  destruct (notify_threads s i k Reading Hi ltac:(done) Hk) as [(k' & -> & Hk')|[-> Hk']];
    destruct (Z.eqb_spec (readCnt_ s - 1) 0), (Z.ltb_spec 0 (writeCnt_ s)); cbn [andb notify_writer].
  all: try (step_counts Hk' (WaitWrite true)).
  all: try (pose proof (no_sleeping_writer _ Hk')).
  all: solve_counts I.
Qed.

Lemma wake_all_counts (ths : list thread) P :
  (forall b, P (WaitRead b) = P (WaitRead true)) -> count P (wake_reader <$> ths) = count P ths.
Proof. intros HP. apply count_fmap. intros []; cbn; by rewrite ?HP. Qed.

Lemma wake_all_awake (ths : list thread) : WaitRead false ∉ wake_reader <$> ths.
Proof. rewrite list_elem_of_fmap. intros ([| | |[]|[]] & ? & _); done. Qed.

Lemma UnLockWrite_inv s i k :
  inv s -> threads s !! i = Some Writing -> may_notify s k -> inv (UnLockWrite i k s).
Proof.
  intros I Hi Hk. pose proof (holds_pos s i Writing is_writing Hi eq_refl) as Hpos.
  unfold UnLockWrite. cbn. step_counts Hi Idle.
  pose proof (i_write s I) as E1. pose proof (i_len s I) as E2. pose proof (i_excl s I Hpos) as E4.
  assert (count is_writing (threads s) = 1) as E3
    by (pose proof (i_flag s I); destruct (writeFlag_ s); cbn [Z.b2z] in *; lia).
  pose proof (count_facts s). rewrite wrap_u_small by lia.
  destruct (Z.eqb_spec (writeCnt_ s - 1) 0).
  - pose proof (wake_all_awake (<[i := Idle]> (threads s))).
    solve_counts I; rewrite ?length_fmap, ?wake_all_counts by done; cbn [Z.b2z]; lia || done.
  - destruct (notify_threads s i k Writing Hi ltac:(done) Hk) as [(k' & -> & Hk')|[-> Hk']]; cbn [notify_writer].
    + step_counts Hk' (WaitWrite true). solve_counts I.
    + pose proof (no_sleeping_writer _ Hk'). solve_counts I.
Qed.

Lemma lock_step_inv s s' : step s s' -> inv s -> inv s'.
Proof.
  intros Hstep I. destruct Hstep.
  - by eapply try_read_inv; [|done|left].
  - by apply LockWrite_inv.
  - by eapply try_read_inv; [|done|right].
  - by apply retry_write_inv.
  - by apply UnLockRead_inv.
  - by apply UnLockWrite_inv.
  - by apply (spurious_inv s i (WaitRead false)); [| |left].
  - by apply (spurious_inv s i (WaitWrite false)); [| |right].
Qed.

Lemma lock_reachable_inv n s : Z.of_nat n < 2 ^ 64 -> rtc step (ctor n) s -> inv s.
Proof.
  intros Hn. apply (rtc_ind_r (fun s => inv s)); [by apply lock_inv_init|]. intros. by eapply lock_step_inv.
Qed.

Lemma writer_unique s i j :
  inv s -> threads s !! i = Some Writing -> threads s !! j = Some Writing -> i = j.
Proof.
  intros I Hi Hj. destruct (decide (i = j)) as [|Hne]; [done|].
  pose proof (count_insert is_writing _ i Writing Idle Hi) as C1.
  pose proof (count_insert is_writing (<[i := Idle]> (threads s)) j Writing Idle) as C2.
  rewrite list_lookup_insert_ne in C2 by done. specialize (C2 Hj).
  pose proof (count_nonneg is_writing (<[j := Idle]> (<[i := Idle]> (threads s)))).
  pose proof (i_flag s I). cbn [is_writing Z.b2z] in *. destruct (writeFlag_ s); cbn [Z.b2z] in *; lia.
Qed.

(** A writer that can go on exists when nobody holds the lock and a writer waits. *)
Lemma writer_goes_on s :
  inv s -> count is_reading (threads s) = 0 -> count is_writing (threads s) = 0 ->
  0 < count is_writer (threads s) ->
  exists j, threads s !! j = Some (WaitWrite true) /\ threads (try_write j s) !! j = Some Writing.
Proof.
  intros I H1 H2 H3. pose proof (i_wake s I H3) as Hw.
  destruct (count_pos_inv is_woken (threads s)) as (th & [j Hj]%list_elem_of_lookup & HT); [lia|].
  destruct th as [| | |[]|[]]; try done. exists j. split; [done|].
  unfold try_write, write_pred. rewrite (i_read s I), H1. pose proof (i_flag s I) as Hf. rewrite H2 in Hf.
  destruct (writeFlag_ s); [done|]. cbn. apply list_lookup_insert_eq. by eapply lookup_lt_Some.
Qed.

End RwLockFacts.

(** C22. Mutual exclusion: in every reachable state a thread that holds the lock
    for writing is the only thread that holds it. *)
Theorem rwlock_mutual_exclusion n s i j :
  Z.of_nat n < 2 ^ 64 -> rtc RwLock.step (RwLock.ctor n) s -> i <> j ->
  RwLock.threads s !! i = Some RwLock.Writing ->
  RwLock.threads s !! j <> Some RwLock.Writing /\ RwLock.threads s !! j <> Some RwLock.Reading.
Proof.
  intros Hn HR Hne Hi. pose proof (RwLockFacts.lock_reachable_inv n s Hn HR) as I. split; intros Hj.
  - by destruct Hne, (RwLockFacts.writer_unique s i j I Hi Hj).
  - pose proof (RwLockFacts.holds_pos s i _ RwLockFacts.is_writing Hi eq_refl) as H1.
    pose proof (RwLockFacts.holds_pos s j _ RwLockFacts.is_reading Hj eq_refl).
    pose proof (RwLockFacts.i_excl s I H1). lia.
Qed.

(** C23. No lost wake-up: in every reachable state in which a thread waits for the
    lock, a thread holds it or some waiting thread has been notified and gets the
    lock when it tests its predicate again.  Waiters cannot all sleep. *)
Theorem rwlock_no_lost_wakeup n s i b :
  Z.of_nat n < 2 ^ 64 -> rtc RwLock.step (RwLock.ctor n) s ->
  RwLock.threads s !! i = Some (RwLock.WaitRead b) \/ RwLock.threads s !! i = Some (RwLock.WaitWrite b) ->
  (exists j, RwLock.threads s !! j = Some RwLock.Reading \/ RwLock.threads s !! j = Some RwLock.Writing) \/
  (exists j, RwLock.threads s !! j = Some (RwLock.WaitRead true) /\
             RwLock.threads (RwLock.try_read j s) !! j = Some RwLock.Reading) \/
  (exists j, RwLock.threads s !! j = Some (RwLock.WaitWrite true) /\
             RwLock.threads (RwLock.try_write j s) !! j = Some RwLock.Writing).
Proof.
  intros Hn HR Hi. pose proof (RwLockFacts.lock_reachable_inv n s Hn HR) as I.
  pose proof (RwLockFacts.count_facts s) as HF.
  destruct (decide (0 < RwLockFacts.count RwLockFacts.is_reading (RwLock.threads s))) as [H|H1].
  { left. apply RwLockFacts.count_pos_inv in H as (th & [j Hj]%list_elem_of_lookup & HT).
    exists j. left. by destruct th. }
  destruct (decide (0 < RwLockFacts.count RwLockFacts.is_writing (RwLock.threads s))) as [H|H2].
  { left. apply RwLockFacts.count_pos_inv in H as (th & [j Hj]%list_elem_of_lookup & HT).
    exists j. right. by destruct th. }
  right. destruct (decide (0 < RwLockFacts.count RwLockFacts.is_writer (RwLock.threads s))) as [H|H3].
  { right. apply (RwLockFacts.writer_goes_on s I); [lia|lia|done]. }
  left. destruct Hi as [Hi|Hi].
  - destruct b.
    + exists i. split; [done|]. unfold RwLock.try_read, RwLock.read_pred.
      rewrite (RwLockFacts.i_write s I), (proj2 (Z.eqb_eq _ _)) by lia.
      cbn. apply list_lookup_insert_eq. by eapply lookup_lt_Some.
    + exfalso. apply H3, (RwLockFacts.i_sleep s I). by eapply list_elem_of_lookup_2.
  - exfalso. apply H3. by eapply (RwLockFacts.holds_pos s i (RwLock.WaitWrite b)).
Qed.

(** A run with a reader and a writer that waits for it. *)
Definition rw_example : RwLock.t := RwLock.LockWrite 1 (RwLock.LockRead 0 (RwLock.ctor 3)).

Lemma rw_example_reachable : rtc RwLock.step (RwLock.ctor 3) rw_example.
Proof.
  eapply rtc_l; [by apply (RwLock.step_lock_read 0)|].
  eapply rtc_l; [by apply (RwLock.step_lock_write 1)|]. apply rtc_refl.
Qed.

Lemma rwlock_no_lost_wakeup_witness :
  (exists j, RwLock.threads rw_example !! j = Some RwLock.Reading \/ RwLock.threads rw_example !! j = Some RwLock.Writing) \/
  (exists j, RwLock.threads rw_example !! j = Some (RwLock.WaitRead true) /\
             RwLock.threads (RwLock.try_read j rw_example) !! j = Some RwLock.Reading) \/
  (exists j, RwLock.threads rw_example !! j = Some (RwLock.WaitWrite true) /\
             RwLock.threads (RwLock.try_write j rw_example) !! j = Some RwLock.Writing).
Proof. apply (rwlock_no_lost_wakeup 3 rw_example 1 false); [done|apply rw_example_reachable|by right]. Defined.

Lemma rwlock_mutual_exclusion_witness :
  let s := RwLock.LockWrite 1 (RwLock.ctor 3) in
  RwLock.threads s !! 2%nat <> Some RwLock.Writing /\ RwLock.threads s !! 2%nat <> Some RwLock.Reading.
Proof.
  apply (rwlock_mutual_exclusion 3 _ 1 2); [done| |done|done].
  eapply rtc_l; [by apply (RwLock.step_lock_write 1)|]. apply rtc_refl.
Defined.
