(* ===== verification/Singleton.v ===== *)
(** * Singleton: the instances that the classes create on demand

    Ten classes of the engine keep one object behind [GetInstance], which tests
    the pointer, takes the class's mutex and tests again, and [ReleaseInstance].
    Here such a function is the list of its statements, and every statement of
    every thread is a step, so that all interleavings are covered. *)

From Stdlib Require Import Lia.
From stdpp Require Import gmap sets list relations functions.
From S2P Require Import Prelude Protocol.

Module Singleton.

(** ** Statements *)

Inductive stmt :=
  | CHK_RET_instance                  (** [CHK_RET(instance_ != nullptr, instance_)] *)
  | lock_guard                        (** [std::lock_guard<std::mutex> lock(mutex_)] *)
  | AIE_NEW_instance                  (** [AIE_NEW(instance_, T)] *)
  | AIE_NEW_temp                      (** [AIE_NEW(temp, T)] *)
  | CHK_RET_temp                      (** [CHK_RET(temp == nullptr, nullptr)] *)
  | Initialize_temp                   (** [if (temp->Initialize() != RETCODE_SUCCESS) {AIE_DELETE(temp); return nullptr;}] *)
  | store_temp                        (** [instance_ = temp] *)
  | other                             (** a statement on other members *)
  | return_instance                   (** [return instance_] *)
  | AIE_DELETE_instance               (** [AIE_DELETE(instance_)] *)
  | clear_instance                    (** the [p = nullptr] of that macro, after the object has been deleted *)
  | return_void.
#[global] Instance stmt_eq_dec : EqDecision stmt.
Proof. solve_decision. Defined.

(** The functions of a class. *)
Record class := Class { GetInstance : list stmt; ReleaseInstance : list stmt }.

Definition release : list stmt := [lock_guard; AIE_DELETE_instance; return_void].

Definition FutureFactory : class :=
  Class [CHK_RET_instance; lock_guard; CHK_RET_instance; AIE_NEW_instance; return_instance] release.
Definition ServerExecutor : class :=
  Class [CHK_RET_instance; lock_guard; CHK_RET_instance; AIE_NEW_temp; CHK_RET_temp; Initialize_temp; store_temp; return_instance]
    release.
(** It has no [ReleaseInstance]: [Destroy] deletes the manager it is called on. *)
Definition PluginManager : class :=
  Class [CHK_RET_instance; lock_guard; CHK_RET_instance; AIE_NEW_instance; return_instance] [].
Definition PluginLabel : class :=
  Class [CHK_RET_instance; lock_guard; CHK_RET_instance; AIE_NEW_temp; CHK_RET_temp; store_temp; return_instance] release.
(** The handler of the server, which is never released. *)
Definition ServerSaAsyncHandler : class :=
  Class [CHK_RET_instance; lock_guard; CHK_RET_instance; AIE_NEW_instance; return_instance] [].
Definition ThreadPool : class :=
  Class [CHK_RET_instance; lock_guard; CHK_RET_instance; AIE_NEW_instance; return_instance] release.
(** The capacity of the queues is set first. *)
Definition QueuePool : class :=
  Class [CHK_RET_instance; lock_guard; CHK_RET_instance; other; AIE_NEW_instance; return_instance] release.
Definition SaClient : class :=
  Class [CHK_RET_instance; lock_guard; CHK_RET_instance; AIE_NEW_temp; CHK_RET_temp; store_temp; return_instance] release.
(** The handler of the client. *)
Definition SaAsyncHandler : class :=
  Class [CHK_RET_instance; lock_guard; CHK_RET_instance; AIE_NEW_instance; return_instance] release.
Definition SaClientAdapter : class :=
  Class [CHK_RET_instance; lock_guard; CHK_RET_instance; AIE_NEW_instance; return_instance] release.

Definition classes : list class :=
  [FutureFactory; ServerExecutor; PluginManager; PluginLabel; ServerSaAsyncHandler; ThreadPool; QueuePool; SaClient;
   SaAsyncHandler; SaClientAdapter].

(** ** Execution *)

(** A thread inside one of the functions: what is left to do, and [temp]. *)
Record thread := Thread { code : list stmt; temp : option nat }.

Record t := mk {
  instance_ : option nat;             (** objects are numbered in the order of their creation *)
  mutex_ : option nat;                (** the thread that holds it *)
  next : nat;
  live : gset nat;
  ready : gset nat;                   (** objects that are constructed and initialised *)
  double_delete : bool;
  threads : gmap nat thread;
  returned : list (nat * option nat); (** by [GetInstance], with the thread *)
}.
#[global] Instance eta_singleton : Eta t := fun r =>
  mk (instance_ r) (mutex_ r) (next r) (live r) (ready r) (double_delete r) (threads r) (returned r).

Definition init : t := mk None None 0 ∅ ∅ false ∅ [].

Section execution.
  Context `{!Allocator}.
  Context (Initialize : nat -> bool).          (** the result of [Initialize] on an object *)

(** The constructor is all there is to initialise, unless the function calls
    [Initialize]. *)
Definition initialises (c : class) : bool := bool_decide (Initialize_temp ∈ GetInstance c).

Definition alloc (c : class) (s : t) : option nat * t :=
  let k := next s in
  if new_ok k then (Some k, s <| next := S k |> <| live := {[k]} ∪ live s |>
                              <| ready := if initialises c then ready s else {[k]} ∪ ready s |>)
  else (None, s <| next := S k |>).

Definition delete_object (k : nat) (s : t) : t :=
  s <| live := live s ∖ {[k]} |> <| double_delete := double_delete s || negb (bool_decide (k ∈ live s)) |>.

(** The function returns; its guard lets go of the mutex. *)
Definition leave (i : nat) (s : t) : t :=
  s <| threads ::= delete i |> <| mutex_ := if decide (mutex_ s = Some i) then None else mutex_ s |>.
Definition return_pointer (i : nat) (p : option nat) (s : t) : t :=
  leave i (s <| returned ::= fun l => l ++ [(i, p)] |>).

Definition goto (i : nat) (th : thread) (s : t) : t := s <| threads ::= <[i := th]> |>.

(** The next statement of thread [i]; [None] while it is blocked. *)
Definition exec (c : class) (i : nat) (th : thread) (s : t) : option t :=
  match code th with
  | [] => None
  | CHK_RET_instance :: rest =>
      (** the macro reads the pointer once for the test and once for the result *)
      match instance_ s with
      | Some _ => Some (goto i (Thread [return_instance] (temp th)) s)
      | None => Some (goto i (Thread rest (temp th)) s)
      end
  | lock_guard :: rest =>
      match mutex_ s with
      | Some _ => None
      | None => Some (goto i (Thread rest (temp th)) (s <| mutex_ := Some i |>))
      end
  | AIE_NEW_instance :: rest =>
      let '(p, s') := alloc c s in Some (goto i (Thread rest (temp th)) (s' <| instance_ := p |>))
  | AIE_NEW_temp :: rest =>
      let '(p, s') := alloc c s in Some (goto i (Thread rest p) s')
  | CHK_RET_temp :: rest =>
      match temp th with
      | None => Some (return_pointer i None s)
      | Some _ => Some (goto i (Thread rest (temp th)) s)
      end
  | Initialize_temp :: rest =>
      match temp th with
      | None => None
      | Some k => if Initialize k then Some (goto i (Thread rest (temp th)) (s <| ready := {[k]} ∪ ready s |>))
                  else Some (return_pointer i None (delete_object k s))
      end
  | store_temp :: rest => Some (goto i (Thread rest (temp th)) (s <| instance_ := temp th |>))
  | other :: rest => Some (goto i (Thread rest (temp th)) s)
  | return_instance :: _ => Some (return_pointer i (instance_ s) s)
  | AIE_DELETE_instance :: rest =>
      match instance_ s with
      | None => Some (goto i (Thread rest (temp th)) s)
      | Some k => Some (goto i (Thread (clear_instance :: rest) (temp th)) (delete_object k s))
      end
  | clear_instance :: rest => Some (goto i (Thread rest (temp th)) (s <| instance_ := None |>))
  | return_void :: _ => Some (leave i s)
  end.

(** [releasing]: whether [ReleaseInstance] is called too. *)
Inductive step (releasing : bool) (c : class) : t -> t -> Prop :=
  | step_get i s : threads s !! i = None -> step releasing c s (goto i (Thread (GetInstance c) None) s)
  | step_release i s : releasing = true -> threads s !! i = None -> ReleaseInstance c <> [] ->
      step releasing c s (goto i (Thread (ReleaseInstance c) None) s)
  | step_exec i th s s' : threads s !! i = Some th -> exec c i th s = Some s' -> step releasing c s s'.

(** A schedule: thread [i] calls a function or goes one statement further. *)
Inductive move := get (i : nat) | put (i : nat) | go (i : nat).

Definition run1 (c : class) (m : move) (s : t) : option t :=
  match m with
  | get i => match threads s !! i with None => Some (goto i (Thread (GetInstance c) None) s) | Some _ => None end
  | put i =>
      match threads s !! i, ReleaseInstance c with
      | None, _ :: _ => Some (goto i (Thread (ReleaseInstance c) None) s)
      | _, _ => None
      end
  | go i => match threads s !! i with None => None | Some th => exec c i th s end
  end.

Fixpoint run (c : class) (l : list move) (s : t) : option t :=
  match l with [] => Some s | m :: l => match run1 c m s with None => None | Some s' => run c l s' end end.

Definition releases (m : move) : bool := match m with put _ => true | _ => false end.

Lemma run_steps c l s s' : run c l s = Some s' -> rtc (step (existsb releases l) c) s s'.
Proof.
  set (b := existsb releases l). assert (Hb : forall m, m ∈ l -> releases m = true -> b = true).
  { intros m Hm Hr. apply existsb_exists. exists m. split; [by apply list_elem_of_In|done]. }
  clearbody b. revert s Hb. induction l as [|m l IH]; intros s Hb; simpl.
  - intros [= ->]. done.
  - destruct (run1 c m s) as [s1|] eqn:E; [|done]. intros Hrun.
    apply rtc_l with s1; [|apply IH; [intros m' Hm'; apply Hb; set_solver|done]].
    destruct m as [i|i|i]; simpl in E.
    + destruct (threads s !! i) eqn:Ei; [done|]. injection E as <-. by apply step_get.
    + destruct (threads s !! i) eqn:Ei; [done|]. destruct (ReleaseInstance c) eqn:Er; [done|]. injection E as <-.
      rewrite <- Er. apply step_release; [apply (Hb (put i)); set_solver|done|congruence].
    + destruct (threads s !! i) as [th|] eqn:Ei; [|done]. by eapply step_exec.
Qed.

(** An allocation that has been tried, or an [Initialize], has failed. *)
Definition failed (s : t) : Prop := exists k, (k < next s)%nat /\ (new_ok k = false \/ Initialize k = false).

End execution.

(** ** The pattern, checked

    What is known of a thread between two statements. *)

Inductive phase :=
  | Outside              (** without the mutex *)
  | Found                (** without it; the pointer was not null *)
  | Inside               (** with it *)
  | Missing              (** and there is no instance *)
  | Made                 (** [temp] has been allocated, or is null *)
  | Built                (** [temp] is an object that is not ready *)
  | Ready                (** and now it is *)
  | Deleted              (** the object is gone, the pointer not yet cleared *)
  | Over                 (** [instance_] may be returned *)
  | Released.            (** it has been released *)
#[global] Instance phase_eq_dec : EqDecision phase.
Proof. solve_decision. Defined.

(** The phase after a statement, where the pattern allows it there. *)
Definition after (inits : bool) (p : phase) (x : stmt) : option phase :=
  match p, x with
  | Outside, CHK_RET_instance => Some Outside
  | Outside, lock_guard => Some Inside
  | Inside, CHK_RET_instance => Some Missing
  | Inside, AIE_DELETE_instance => Some Released
  | Deleted, clear_instance => Some Released
  | Missing, other => Some Missing
  | Missing, AIE_NEW_instance => if inits then None else Some Over
  | Missing, AIE_NEW_temp => Some Made
  | Made, CHK_RET_temp => Some (if inits then Built else Ready)
  | Built, Initialize_temp => Some Ready
  | Ready, store_temp => Some Over
  | _, _ => None
  end.

Definition ends (p : phase) (x : stmt) : bool :=
  match p, x with
  | (Found | Over), return_instance => true
  | Released, return_void => true
  | _, _ => false
  end.

Fixpoint check (inits : bool) (p : phase) (l : list stmt) : bool :=
  match l with
  | [] => false
  | x :: l =>
      match l with
      | [] => ends p x
      | _ => match after inits p x with None => false | Some p' => check inits p' l end
      end
  end.

Definition deletes (x : stmt) : bool := bool_decide (x = AIE_DELETE_instance \/ x = clear_instance).

Definition class_ok (c : class) : bool :=
  check (initialises c) Outside (GetInstance c) && negb (existsb deletes (GetInstance c)) &&
  match ReleaseInstance c with [] => true | l => check (initialises c) Outside l end.

Lemma classes_ok c : c ∈ classes -> class_ok c = true.
Proof. assert (HF : Forall (fun c => class_ok c = true) classes) by repeat constructor. intros Hc. by apply (proj1 (list.Forall_forall _ _) HF). Qed.

(** ** The invariant *)

Definition locked (p : phase) : bool := match p with Outside | Found => false | _ => true end.

Definition pointee (p : option nat) : gset nat := match p with None => ∅ | Some k => {[k]} end.

(** The objects, when the thread that holds the mutex is in phase [p]. *)
Definition objects (inits : bool) (p : phase) (tmp : option nat) (s : t) : Prop :=
  match p with
  | Outside | Found | Inside | Over | Released => live s = pointee (instance_ s) /\ pointee (instance_ s) ⊆ ready s
  | Missing => instance_ s = None /\ live s = ∅
  | Made => instance_ s = None /\ live s = pointee tmp /\ (inits = false -> pointee tmp ⊆ ready s)
  | Built => instance_ s = None /\ exists k, tmp = Some k /\ live s = {[k]}
  | Ready => instance_ s = None /\ exists k, tmp = Some k /\ live s = {[k]} /\ k ∈ ready s
  | Deleted => exists k, instance_ s = Some k /\ live s = ∅ /\ k ∈ ready s
  end.

Lemma objects_size b p tmp s : objects b p tmp s -> (size (live s) <= 1)%nat.
Proof.
  intros Ho. assert (Hl : exists q, live s = pointee q).
  { destruct p; simpl in Ho; first
      [by exists (instance_ s); apply Ho | by exists tmp; apply Ho | by exists None; apply Ho
      | by destruct Ho as (_ & k & _ & ?); exists (Some k); intuition | by destruct Ho as (k & _ & ? & _); exists None]. }
  destruct Hl as [[k|] ->]; cbn [pointee]; [by rewrite size_singleton|by rewrite size_empty; lia].
Qed.

Lemma objects_ready b p tmp s k : objects b p tmp s -> instance_ s = Some k -> k ∈ ready s.
Proof.
  intros Ho Hk. destruct p; simpl in Ho; rewrite Hk in Ho; simpl in Ho; try (by destruct Ho);
    first [set_solver | by destruct Ho as (? & [= <-] & _ & ?)].
Qed.

(** What the phases of the threads say of the state. *)
Section invariant.
  Context `{!Allocator} (Initialize : nat -> bool) (releasing : bool) (c : class).
  Local Abbreviation inits := (initialises c).

(** Without [ReleaseInstance] the pointer stays once it is set. *)
Definition found (p : phase) (tmp : option nat) (s : t) : Prop :=
  match p with
  | Found => instance_ s <> None
  | Over => instance_ s <> None \/ failed Initialize s
  | Made => match tmp with None => failed Initialize s | Some k => (k < next s)%nat end
  | Built => match tmp with None => False | Some k => (k < next s)%nat end
  | _ => True
  end.

Record Inv (ph : nat -> phase) (s : t) : Prop := {
  inv_check i th : threads s !! i = Some th -> check inits (ph i) (code th) = true;
  inv_mutex i : is_Some (threads s !! i) -> mutex_ s = Some i <-> locked (ph i) = true;
  inv_objects : match mutex_ s with
                | None => objects inits Outside None s
                | Some i => exists th, threads s !! i = Some th /\ objects inits (ph i) (temp th) s
                end;
  inv_double : double_delete s = false;
  inv_found i th : releasing = false -> threads s !! i = Some th -> existsb deletes (code th) = false /\ found (ph i) (temp th) s;
  inv_returned i p : releasing = false -> (i, p) ∈ returned s ->
    p = instance_ s /\ p <> None \/ p = None /\ failed Initialize s;
}.

(** [s'] differs from [s] in the objects only, and keeps what the others know. *)
Record keeps (s s' : t) : Prop := {
  keeps_threads : threads s' = threads s;
  keeps_returned : returned s' = returned s;
  keeps_double : double_delete s = false -> double_delete s' = false;
  keeps_next : (next s <= next s')%nat;
  keeps_instance : releasing = false -> instance_ s <> None -> instance_ s' = instance_ s;
}.

Lemma keeps_failed s s' : keeps s s' -> failed Initialize s -> failed Initialize s'.
Proof. intros [] (k & Hk & Hf). exists k. split; [lia|done]. Qed.
Lemma keeps_found s s' p tmp : releasing = false -> keeps s s' -> found p tmp s -> found p tmp s'.
Proof.
  intros Hr Hk. pose proof (keeps_failed _ _ Hk). pose proof (keeps_next _ _ Hk).
  assert (Hn : instance_ s <> None -> instance_ s' <> None) by (intros Hn; by rewrite (keeps_instance _ _ Hk Hr Hn)).
  destruct p; simpl; auto; [destruct tmp; auto; lia..|intros []; auto].
Qed.
Lemma keeps_refl s : keeps s s.
Proof. by split. Qed.
Hint Resolve keeps_refl : core.

(** Thread [i] goes on, in phase [p]. *)
Lemma inv_goto ph s s' i th th' p :
  Inv ph s -> threads s !! i = Some th -> keeps s s' ->
  check inits p (code th') = true ->
  (if locked p then mutex_ s' = Some i /\ (forall j, mutex_ s = Some j -> j = i) /\ objects inits p (temp th') s'
   else s' = s /\ mutex_ s <> Some i) ->
  (releasing = false -> existsb deletes (code th') = false /\ found p (temp th') s') ->
  exists ph, Inv ph (goto i th' s').
Proof.
  intros HI Hi Hk Hc Hm Hf. exists (<[i := p]> ph). unfold goto. split; simpl; rewrite ?(keeps_threads _ _ Hk).
  - intros j thj. destruct (decide (j = i)) as [->|Hj].
    + rewrite lookup_insert_eq, fn_lookup_insert. by intros [= <-].
    + rewrite lookup_insert_ne, fn_lookup_insert_ne by done. apply (inv_check _ _ HI).
  - intros j. destruct (decide (j = i)) as [->|Hj].
    + rewrite fn_lookup_insert. intros _. destruct (locked p); [by destruct Hm as (-> & _)|].
      destruct Hm as [-> Hm]. done.
    + rewrite lookup_insert_ne, fn_lookup_insert_ne by done. intros Hs.
      destruct (locked p); [|destruct Hm as [-> _]; by apply (inv_mutex _ _ HI)].
      destruct Hm as (-> & Hm & _). rewrite <- (inv_mutex _ _ HI j Hs). split; [congruence|]. intros Hl. by destruct Hj; apply Hm.
  - destruct (locked p).
    + destruct Hm as (-> & _ & Ho). exists th'. rewrite lookup_insert_eq, fn_lookup_insert. destruct p; done.
    + destruct Hm as [-> Hm]. pose proof (inv_objects _ _ HI) as Ho. destruct (mutex_ s) as [j|]; [|done].
      destruct Ho as (thj & Hj & Ho). assert (j <> i) by congruence.
      exists thj. rewrite lookup_insert_ne, fn_lookup_insert_ne by done. split; [done|]. destruct (ph j); done.
  - apply (keeps_double _ _ Hk), (inv_double _ _ HI).
  - intros j thj Hr. destruct (decide (j = i)) as [->|Hj].
    + rewrite lookup_insert_eq, fn_lookup_insert. intros [= <-]. destruct (Hf Hr) as [? Hfp]. split; [done|]. destruct p; done.
    + rewrite lookup_insert_ne, fn_lookup_insert_ne by done. intros Hj'.
      destruct (inv_found _ _ HI j thj Hr Hj') as [? Hfj]. split; [done|].
      apply (keeps_found _ _ _ _ Hr Hk) in Hfj. destruct (ph j); done.
  - intros j q Hr. rewrite (keeps_returned _ _ Hk). intros Hq.
    destruct (inv_returned _ _ HI j q Hr Hq) as [[-> Hn]|[-> Hn]].
    + left. by rewrite (keeps_instance _ _ Hk Hr Hn).
    + right. split; [done|]. by apply (keeps_failed _ _ Hk).
Qed.

(** Thread [i] leaves the function, with [out] returned. *)
Lemma inv_leave ph s s' i th out :
  Inv ph s -> threads s !! i = Some th -> keeps s s' -> mutex_ s' = mutex_ s ->
  (if locked (ph i) then objects inits Outside None s' else s' = s) ->
  (forall p, out = Some p -> releasing = false -> p = instance_ s' /\ p <> None \/ p = None /\ failed Initialize s') ->
  exists ph, Inv ph (leave i (match out with None => s' | Some p => s' <| returned ::= fun l => l ++ [(i, p)] |> end)).
Proof.
  intros HI Hi Hk Hm Ho Hp. exists ph.
  assert (Hmi := inv_mutex _ _ HI i ltac:(eauto)).
  set (s1 := match out with None => _ | _ => _ end).
  assert (H1 : threads s1 = threads s /\ mutex_ s1 = mutex_ s /\ instance_ s1 = instance_ s' /\ live s1 = live s' /\
    ready s1 = ready s' /\ double_delete s1 = double_delete s' /\ next s1 = next s' /\
    returned s1 = returned s' ++ match out with None => [] | Some p => [(i, p)] end).
  { subst s1. rewrite <- (keeps_threads _ _ Hk), <- Hm. destruct out; simpl; rewrite ?app_nil_r; done. }
  destruct H1 as (H1 & H2 & H3 & H4 & H5 & H6 & H7 & H8). unfold leave. split; simpl; rewrite ?H1, ?H2.
  - intros j thj [? ?]%lookup_delete_Some. by apply (inv_check _ _ HI).
  - intros j [thj [Hj Hs]%lookup_delete_Some]. rewrite <- (inv_mutex _ _ HI j) by eauto. case_decide; [|done]. split; congruence.
  - destruct (locked (ph i)) eqn:El.
    + destruct Hmi as [_ Hmi]. rewrite (Hmi eq_refl), decide_True by done. simpl. by rewrite H3, H4, H5.
    + rewrite decide_False by (intros E; apply Hmi in E; congruence).
      pose proof (inv_objects _ _ HI) as Hj. destruct (mutex_ s) as [j|] eqn:Em; subst s'.
      * destruct Hj as (thj & Hj & Hobj). exists thj. assert (j <> i) by (intros ->; by discriminate (proj1 Hmi eq_refl)).
        rewrite lookup_delete_ne by done. split; [done|]. destruct (ph j); simpl in *; by rewrite ?H3, ?H4, ?H5.
      * simpl. by rewrite H3, H4, H5.
  - rewrite H6. apply (keeps_double _ _ Hk), (inv_double _ _ HI).
  - intros j thj Hr [? Hj]%lookup_delete_Some. destruct (inv_found _ _ HI j thj Hr Hj) as [? Hfj]. split; [done|].
    apply (keeps_found _ _ _ _ Hr Hk) in Hfj. destruct (ph j); simpl in *; unfold failed in *; simpl; rewrite ?H3, ?H7; done.
  - intros j q Hr. rewrite H8, H3. unfold failed. simpl. rewrite H7.
    rewrite (keeps_returned _ _ Hk). intros [Hq|Hq]%elem_of_app.
    + destruct (inv_returned _ _ HI j q Hr Hq) as [[-> Hn]|[-> Hn]].
      * left. by rewrite (keeps_instance _ _ Hk Hr Hn).
      * right. split; [done|]. by apply (keeps_failed _ _ Hk).
    + destruct out as [p|]; [|by apply elem_of_nil in Hq]. apply list_elem_of_singleton in Hq. injection Hq as -> ->.
      by apply Hp.
Qed.

Lemma check_cons b p x l : check b p (x :: l) = true ->
  l = [] /\ ends p x = true \/ exists p', after b p x = Some p' /\ check b p' l = true.
Proof. simpl. destruct l; [by left|]. destruct (after b p x) as [p'|]; [|done]. right. by exists p'. Qed.

Lemma inv_holder ph s i th : Inv ph s -> threads s !! i = Some th -> locked (ph i) = true ->
  mutex_ s = Some i /\ objects inits (ph i) (temp th) s.
Proof.
  intros HI Hi Hl. assert (Hm : mutex_ s = Some i) by (by apply (inv_mutex _ _ HI); eauto). split; [done|].
  pose proof (inv_objects _ _ HI) as Ho. rewrite Hm in Ho. destruct Ho as (? & ? & ?). by simplify_eq.
Qed.

(** A statement of a thread that holds the mutex and goes on holding it. *)
Lemma inv_on ph s s' i th th' p :
  Inv ph s -> threads s !! i = Some th -> locked (ph i) = true -> locked p = true -> keeps s s' -> mutex_ s' = mutex_ s ->
  check inits p (code th') = true -> objects inits p (temp th') s' ->
  (releasing = false -> existsb deletes (code th') = false /\ found p (temp th') s') ->
  exists ph, Inv ph (goto i th' s').
Proof.
  intros HI Hi Hl Hp Hk Hm Hc Ho Hf. destruct (inv_holder ph s i th HI Hi Hl) as [Hi' _].
  apply (inv_goto ph s s' i th th' p); [done..| |done]. rewrite Hp, Hm. split; [done|]. split; [congruence|done].
Qed.

Lemma alloc_keeps s : keeps s (alloc c s).2.
Proof. unfold alloc. destruct (new_ok _); split; simpl; auto with lia. Qed.

Lemma keeps_instance_set s v : (releasing = false -> instance_ s = None) -> keeps s (s <| instance_ := v |>).
Proof. intros Hn. split; simpl; try done. intros Hr Hs. by destruct Hs; apply Hn. Qed.

(** The statements of one thread, by phase. *)
Lemma exec_outside ph s i x l tmp s' p : Inv ph s -> threads s !! i = Some (Thread (x :: l) tmp) ->
  locked (ph i) = false -> after inits (ph i) x = Some p -> check inits p l = true ->
  exec Initialize c i (Thread (x :: l) tmp) s = Some s' -> exists ph, Inv ph s'.
Proof.
  intros HI Hi Hl Ha Hc. pose proof (inv_mutex _ _ HI i ltac:(eauto)) as Hm. rewrite Hl in Hm.
  pose proof (fun Hr => inv_found _ _ HI i _ Hr Hi) as Hf. simpl in Hf.
  assert (Hd : releasing = false -> existsb deletes l = false) by (intros Hr; destruct (Hf Hr) as [Hx _]; by apply orb_false_elim in Hx as []).
  destruct (ph i) eqn:Ep; try discriminate Hl; destruct x; try discriminate Ha; injection Ha as <-; unfold exec; simpl.
  - destruct (instance_ s) as [k|] eqn:Ei; intros [= <-].
    + apply (inv_goto ph s s i _ _ Found HI Hi); [done..| |]; [split; [done|naive_solver]|]. intros _. simpl. by rewrite Ei.
    + apply (inv_goto ph s s i _ _ Outside HI Hi); [done..| |]; [split; [done|naive_solver]|]. intros Hr. by auto.
  - destruct (mutex_ s) as [j|] eqn:Em; intros [= <-].
    apply (inv_goto ph s _ i _ _ Inside HI Hi); [by split|done| |by auto]. simpl. split; [done|].
    split; [by rewrite Em|]. pose proof (inv_objects _ _ HI) as Ho. by rewrite Em in Ho.
Qed.

Lemma exec_last ph s i x tmp s' : Inv ph s -> threads s !! i = Some (Thread [x] tmp) -> ends (ph i) x = true ->
  exec Initialize c i (Thread [x] tmp) s = Some s' -> exists ph, Inv ph s'.
Proof.
  intros HI Hi He. pose proof (inv_holder _ _ _ _ HI Hi) as Ho. pose proof (fun Hr => inv_found _ _ HI i _ Hr Hi) as Hf.
  assert (Hob : if locked (ph i) then objects inits Outside None s else s = s).
  { destruct (ph i), x; try discriminate He; try done; by apply Ho. }
  destruct x; try (destruct (ph i); discriminate He); unfold exec; simpl; intros [= <-].
  - apply (inv_leave ph s s i _ (Some (instance_ s)) HI Hi); [done..|]. intros q [= <-] Hr. destruct (Hf Hr) as [_ Hfd].
    destruct (ph i); try discriminate He; simpl in Hfd; [by left|]. destruct (instance_ s) eqn:Ei; [by left|].
    right. split; [done|]. by destruct Hfd.
  - apply (inv_leave ph s s i _ None HI Hi); done.
Qed.

(** What is known of a thread that holds the mutex and takes the step [x]. *)
Ltac inside_facts HI Hi Hl Hm Ho Hf Hd Hon Hleave :=
  match type of HI with Inv ?ph ?s => match type of Hi with threads _ !! ?i = Some (Thread (?x :: ?l) _) =>
    destruct (inv_holder _ _ _ _ HI Hi Hl) as [Hm Ho];
    pose proof (fun Hr => inv_found _ _ HI i _ Hr Hi) as Hf; simpl in Hf;
    assert (Hd : releasing = false -> deletes x = false /\ existsb deletes l = false)
      by (let Hr := fresh in let Hx := fresh in intros Hr; destruct (Hf Hr) as [Hx _]; by apply orb_false_elim in Hx);
    pose proof (fun s' th' q => inv_on ph s s' i _ th' q HI Hi Hl) as Hon;
    pose proof (fun s' out Hk => inv_leave ph s s' i _ out HI Hi Hk) as Hleave; rewrite Hl in Hleave
  end end.

Lemma exec_held ph s i x l tmp s' p : Inv ph s -> threads s !! i = Some (Thread (x :: l) tmp) ->
  ph i = Inside \/ ph i = Deleted -> after inits (ph i) x = Some p -> check inits p l = true ->
  exec Initialize c i (Thread (x :: l) tmp) s = Some s' -> exists ph, Inv ph s'.
Proof.
  intros HI Hi Hp Ha Hc. assert (Hl : locked (ph i) = true) by (clear - Hp; destruct (ph i); intuition discriminate).
  inside_facts HI Hi Hl Hm Ho Hf Hd Hon Hleave.
  destruct (ph i) eqn:Ep; try (exfalso; clear - Hp; intuition discriminate); clear Hp; destruct x; try discriminate Ha; unfold exec; simpl in *.
  - injection Ha as <-. destruct (instance_ s) as [k|] eqn:Ei; intros [= <-].
    + apply (Hon s _ Over); simpl; rewrite ?Ei; auto.
    + apply (Hon s _ Missing); simpl; rewrite ?Ei; naive_solver.
  - injection Ha as <-. destruct (instance_ s) as [k|] eqn:Ei; intros [= <-].
    + destruct Ho as [Hlv Hrd]. apply (Hon _ _ Deleted); simpl; auto.
      * split; simpl; auto. intros ->. rewrite Hlv. simpl. by rewrite bool_decide_true by set_solver.
      * by destruct l.
      * exists k. simpl in *. split; [done|]. set_solver.
    + apply (Hon s _ Released); simpl; rewrite ?Ei; naive_solver.
  - injection Ha as <-. destruct Ho as (k & Hn & Hlv & Hrd). intros [= <-]. apply (Hon _ _ Released); simpl; auto.
    + apply keeps_instance_set. intros Hr. destruct (Hd Hr) as [Hx _]. done.
    + by rewrite Hlv.
    + naive_solver.
Qed.

Lemma exec_missing ph s i x l tmp s' p : Inv ph s -> threads s !! i = Some (Thread (x :: l) tmp) ->
  ph i = Missing -> after inits (ph i) x = Some p -> check inits p l = true ->
  exec Initialize c i (Thread (x :: l) tmp) s = Some s' -> exists ph, Inv ph s'.
Proof.
  intros HI Hi Hp Ha Hc. assert (Hl : locked (ph i) = true) by (clear - Hp; destruct (ph i); intuition discriminate).
  inside_facts HI Hi Hl Hm Ho Hf Hd Hon Hleave.
  destruct (ph i) eqn:Ep; try (exfalso; clear - Hp; intuition discriminate); clear Hp; destruct x; try discriminate Ha; unfold exec; simpl in *.
  - destruct inits eqn:Eini; [discriminate Ha|]. injection Ha as <-. destruct Ho as [Hn Hlv].
    pose proof (alloc_keeps s) as Hk. unfold alloc in *. rewrite Eini in *.
    assert (Hk' : forall s' p, keeps s s' -> keeps s (s' <| instance_ := p |>)) by (intros ? ? []; split; simpl; auto; done).
    destruct (new_ok (next s)) eqn:En; simpl in *; intros [= <-]; apply (Hon _ _ Over); simpl; auto; rewrite ?Hlv.
    + set_solver.
    + naive_solver.
    + done.
    + intros Hr. split; [by apply Hd|]. right. exists (next s). simpl. split; [lia|by left].
  - injection Ha as <-. destruct Ho as [Hn Hlv]. pose proof (alloc_keeps s) as Hk. unfold alloc in *.
    destruct (new_ok (next s)) eqn:En; simpl in *; intros [= <-]; apply (Hon _ _ Made); simpl; auto; rewrite ?Hlv.
    + split; [done|]. split; [set_solver|]. intros ->. set_solver.
    + intros Hr. split; [by apply Hd|]. lia.
    + split; [done|]. split; [done|]. intros _. set_solver.
    + intros Hr. split; [by apply Hd|]. exists (next s). simpl. split; [lia|by left].
  - injection Ha as <-. intros [= <-]. apply (Hon s _ Missing); simpl; naive_solver.
Qed.

Lemma exec_temp ph s i x l tmp s' p : Inv ph s -> threads s !! i = Some (Thread (x :: l) tmp) ->
  ph i = Made \/ ph i = Built \/ ph i = Ready -> after inits (ph i) x = Some p -> check inits p l = true ->
  exec Initialize c i (Thread (x :: l) tmp) s = Some s' -> exists ph, Inv ph s'.
Proof.
  intros HI Hi Hp Ha Hc. assert (Hl : locked (ph i) = true) by (clear - Hp; destruct (ph i); intuition discriminate).
  inside_facts HI Hi Hl Hm Ho Hf Hd Hon Hleave.
  destruct (ph i) eqn:Ep; try (exfalso; clear - Hp; intuition discriminate); clear Hp; destruct x; try discriminate Ha; unfold exec; simpl in *.
  - injection Ha as <-. destruct Ho as (Hn & Hlv & Hrd). destruct tmp as [k|]; intros [= <-].
    + apply (Hon s _ (if inits then Built else Ready)); simpl; auto; destruct inits; simpl; auto.
      * split; [done|]. by exists k.
      * split; [done|]. exists k. split; [done|]. split; [done|]. specialize (Hrd eq_refl). set_solver.
      * naive_solver.
    + apply (Hleave s (Some None)); [done..| |].
      * rewrite Hn, Hlv. simpl. set_solver.
      * intros q [= <-] Hr. right. split; [done|]. by apply Hf.
  - injection Ha as <-. destruct Ho as (Hn & k & -> & Hlv). destruct (Initialize k) eqn:Eini; intros [= <-].
    + apply (Hon _ _ Ready); simpl; auto.
      * by split.
      * split; [done|]. exists k. set_solver.
      * naive_solver.
    + apply (Hleave _ (Some None)); simpl.
      * split; simpl; auto. intros ->. rewrite Hlv. by rewrite bool_decide_true by set_solver.
      * done.
      * rewrite Hn, Hlv. simpl. set_solver.
      * intros q [= <-] Hr. right. split; [done|]. exists k. simpl. split; [by apply Hf|by right].
  - injection Ha as <-. destruct Ho as (Hn & k & -> & Hlv & Hrd). intros [= <-]. apply (Hon _ _ Over); simpl; auto.
    + by apply keeps_instance_set.
    + rewrite Hlv. set_solver.
    + naive_solver.
Qed.

Lemma exec_keeps_inv ph s i th s' :
  Inv ph s -> threads s !! i = Some th -> exec Initialize c i th s = Some s' -> exists ph, Inv ph s'.
Proof.
  intros HI Hi He. pose proof (inv_check _ _ HI i th Hi) as Hc. destruct th as [[|x l] tmp]; [done|].
  simpl in Hc. apply check_cons in Hc as [[-> Hx]|(p & Ha & Hc)]; [by eapply exec_last|].
  destruct (locked (ph i)) eqn:El; [|by eapply exec_outside].
  destruct (ph i) eqn:Ep; try discriminate El; rewrite <- Ep in Ha;
    first [by apply (exec_held ph s i x l tmp s' p HI Hi); [rewrite Ep; auto|..] | by apply (exec_missing ph s i x l tmp s' p HI Hi)
          | by apply (exec_temp ph s i x l tmp s' p HI Hi); [rewrite Ep; auto|..] | by destruct x; rewrite Ep in Ha].
Qed.

Lemma singleton_inv_init : exists ph, Inv ph init.
Proof.
  exists (fun _ => Outside). split; simpl; try done; [intros i [? []]..|]. intros i p _ Hr. by apply elem_of_nil in Hr.
Qed.

(** A thread calls one of the functions. *)
Lemma inv_enter ph s i l : Inv ph s -> threads s !! i = None -> check inits Outside l = true ->
  (releasing = false -> existsb deletes l = false) -> exists ph, Inv ph (goto i (Thread l None) s).
Proof.
  intros HI Hi Hc Hd. exists (<[i := Outside]> ph).
  assert (Hm : mutex_ s <> Some i) by (intros Hm; pose proof (inv_objects _ _ HI) as Ho; rewrite Hm in Ho; naive_solver).
  unfold goto. split; simpl.
  - intros j thj. destruct (decide (j = i)) as [->|Hj].
    + rewrite lookup_insert_eq, fn_lookup_insert. by intros [= <-].
    + rewrite lookup_insert_ne, fn_lookup_insert_ne by done. apply (inv_check _ _ HI).
  - intros j. destruct (decide (j = i)) as [->|Hj].
    + by rewrite fn_lookup_insert.
    + rewrite lookup_insert_ne, fn_lookup_insert_ne by done. apply (inv_mutex _ _ HI).
  - pose proof (inv_objects _ _ HI) as Ho. destruct (mutex_ s) as [j|]; [|done].
    assert (j <> i) by congruence. by rewrite lookup_insert_ne, fn_lookup_insert_ne.
  - apply (inv_double _ _ HI).
  - intros j thj Hr. destruct (decide (j = i)) as [->|Hj].
    + rewrite lookup_insert_eq, fn_lookup_insert. intros [= <-]. simpl. by auto.
    + rewrite lookup_insert_ne, fn_lookup_insert_ne by done. apply (inv_found _ _ HI _ _ Hr).
  - apply (inv_returned _ _ HI).
Qed.

Lemma step_inv ph s s' : class_ok c = true -> Inv ph s -> step Initialize releasing c s s' -> exists ph, Inv ph s'.
Proof.
  unfold class_ok. intros [[Hg Hd%negb_true_iff]%andb_true_iff Hr]%andb_true_iff HI Hs.
  destruct Hs as [i s0 Hi|i s0 Hre Hi Hne|i th s0 s1 Hi He].
  - by apply (inv_enter ph).
  - apply (inv_enter ph); [done..| |congruence]. by destruct (ReleaseInstance c).
  - by eapply exec_keeps_inv.
Qed.

Lemma singleton_reachable_inv s : class_ok c = true -> rtc (step Initialize releasing c) init s -> exists ph, Inv ph s.
Proof.
  intros Hc. apply (rtc_ind_r (fun s => exists ph, Inv ph s)); [apply singleton_inv_init|].
  intros s1 s2 _ Hs [ph HI]. by eapply step_inv.
Qed.

(** The thread that holds the mutex is never blocked, and nobody is when it is free. *)
Lemma inv_progress ph s : Inv ph s -> threads s <> ∅ ->
  exists i th s', threads s !! i = Some th /\ exec Initialize c i th s = Some s'.
Proof.
  intros HI Hne.
  assert (Hrun : exists i th, threads s !! i = Some th /\ (mutex_ s = None \/ locked (ph i) = true)).
  { destruct (mutex_ s) as [i|] eqn:Em.
    - pose proof (inv_objects _ _ HI) as Ho. rewrite Em in Ho. destruct Ho as (th & Hi & _). exists i, th. split; [done|].
      right. apply (inv_mutex _ _ HI); eauto.
    - destruct (map_choose _ Hne) as (i & th & Hi). exists i, th. by auto. }
  destruct Hrun as (i & th & Hi & Hm). exists i, th. pose proof (inv_check _ _ HI i th Hi) as Hc.
  pose proof (inv_holder _ _ _ _ HI Hi) as Hh. destruct th as [[|x l] tmp]; [done|]. simpl in Hc. apply check_cons in Hc.
  unfold exec. simpl. destruct x; try (eexists; split; [done|]; reflexivity).
  - destruct (instance_ s); eauto.
  - destruct Hm as [->|Hl]; [eauto|]. destruct (ph i), Hc as [[_ ?]|(? & ? & _)]; done.
  - destruct (alloc c s). eauto.
  - destruct (alloc c s). eauto.
  - destruct tmp; eauto.
  - destruct Hc as [[_ Hx]|(p & Ha & _)]; destruct (ph i); try done. simpl in Hh. destruct (Hh eq_refl) as (_ & _ & k & -> & _).
    destruct (Initialize k); eauto.
  - destruct (instance_ s); eauto.
Qed.

End invariant.

(** ** What holds whatever the threads do *)

Section theorems.
  Context `{!Allocator}.

(** C24. For each of the ten classes, and for every interleaving of any number of
    threads inside [GetInstance] and [ReleaseInstance]: there is at most one object
    of the class, no object is deleted twice, the pointer [instance_] never names an
    object that is not fully constructed and initialised, nor, while the mutex is
    free, one that has been deleted; and some thread can always go on.  When nobody
    calls [ReleaseInstance], every call of [GetInstance] that has returned gave the
    one object that exists, or null because an allocation or [Initialize] failed. *)
Theorem one_instance_at_a_time (Initialize : nat -> bool) (releasing : bool) (c : class) (s : t) :
  c ∈ classes -> rtc (step Initialize releasing c) init s ->
  (size (live s) <= 1)%nat /\ double_delete s = false /\
  (forall k, instance_ s = Some k -> k ∈ ready s /\ (mutex_ s = None -> live s = {[k]})) /\
  (threads s <> ∅ -> exists i th s', threads s !! i = Some th /\ exec Initialize c i th s = Some s') /\
  (releasing = false -> forall i p, (i, p) ∈ returned s ->
     p = instance_ s /\ p <> None \/ p = None /\ failed Initialize s).
Proof.
  intros Hc%classes_ok Hs. destruct (singleton_reachable_inv Initialize releasing c s Hc Hs) as [ph HI].
  split; [|split; [apply (inv_double _ _ _ _ _ HI)|split; [|split; [by eapply inv_progress|]]]].
  - pose proof (inv_objects _ _ _ _ _ HI) as Ho. destruct (mutex_ s) as [i|].
    + destruct Ho as (th & _ & Ho). by eapply objects_size.
    + by eapply objects_size.
  - intros k Hk. pose proof (inv_objects _ _ _ _ _ HI) as Ho. destruct (mutex_ s) as [i|].
    + split; [|done]. destruct Ho as (th & _ & Ho). by eapply objects_ready.
    + split; [by eapply objects_ready|]. intros _. simpl in Ho. rewrite Hk in Ho. apply Ho.
  - intros Hr i p. by apply (inv_returned _ _ _ _ _ HI).
Qed.

End theorems.

(** ** Schedules *)

#[local] Existing Instance always_alloc.
Definition initialised (_ : nat) : bool := true.

(** Two threads pass the first test before either takes the mutex. *)
Definition race : list move := [get 0; get 1] ++ [go 0; go 1] ++ repeat (go 0) 7 ++ repeat (go 1) 3.

Definition race_state : t := mk (Some 0%nat) None 1 {[0%nat]} {[0%nat]} false ∅ [(0%nat, Some 0%nat); (1%nat, Some 0%nat)].

Example race_one_object : run initialised ServerExecutor race init = Some race_state.
Proof. vm_compute. reflexivity. Qed.

(** The witness of [one_instance_at_a_time]: the second thread got the object of the first. *)
Lemma one_instance_at_a_time_witness :
  ServerExecutor ∈ classes /\ rtc (step initialised false ServerExecutor) init race_state /\
  (size (live race_state) <= 1)%nat /\ ((1%nat, Some 0%nat) ∈ returned race_state).
Proof.
  assert (Hc : ServerExecutor ∈ classes) by (right; left).
  assert (Hs : rtc (step initialised false ServerExecutor) init race_state)
    by (apply (run_steps initialised ServerExecutor race); vm_compute; reflexivity).
  pose proof (one_instance_at_a_time initialised false ServerExecutor race_state Hc Hs) as (Hl & _).
  split; [exact Hc|]. split; [exact Hs|]. split; [exact Hl|]. right; left.
Defined.

(** [CHK_RET(instance_ != nullptr, instance_)] reads the pointer twice, without the mutex:
    when a release comes between, [GetInstance] returns null although nothing has failed. *)
Definition created : list move := get 0 :: repeat (go 0) 5.

Example release_between_the_reads :
  option_map returned (run initialised FutureFactory (created ++ [get 1; go 1; put 2] ++ repeat (go 2) 4 ++ [go 1]) init) =
    Some [(0%nat, Some 0%nat); (1%nat, None)].
Proof. vm_compute. reflexivity. Qed.

(** When it comes while the object is being deleted, the pointer it returns names no object. *)
Example get_while_deleting :
  option_map (fun s => (returned s, live s))
    (run initialised FutureFactory (created ++ [put 2; go 2; go 2; get 1; go 1; go 1]) init) =
    Some ([(0%nat, Some 0%nat); (1%nat, Some 0%nat)], ∅).
Proof. vm_compute. reflexivity. Qed.

End Singleton.
