(* ===== verification/Thread.v ===== *)
(** * Thread: a worker thread and its life cycle (threadpool/thread.cpp)

    [Thread] holds the members of the class and the calls that only touch them;
    pthread is the environment.  [Links] has the pointers between threads and
    their workers.  [ThreadLife] interleaves the thread that calls [StartThread]
    and both [StopThread]s with the thread that runs [Execute]. *)

From Stdlib Require Import ZArith Lia.
From stdpp Require Import gmap list relations.
From S2P Require Import Prelude Clock Protocol.

(** ** pthread (aie_thread_unix.cpp)

    Results of the system calls, by the number of calls made so far. *)
Class Pthread := {
  pthread_attr_init : nat -> Z;
  pthread_create : nat -> Z;
  pthread_handle : nat -> Z;     (** the handle of a created thread *)
  thread_exited : nat -> bool;   (** the thread has terminated, so [pthread_kill] gives [ESRCH] *)
}.

Class PthreadLaws `{Pthread} := pthread_handle_nonzero (n : nat) : pthread_handle n <> 0.

Definition THREAD_SCOPE_PROCESS : Z := 1.
Definition THREAD_SCOPE_SYSTEM : Z := 2.
Definition THREAD_DEFAULT_STACK_SIZE : Z := 0.
Definition THREAD_MIN_STACK_SIZE : Z := 1024 * 64.
Definition THREAD_MAX_STACK_SIZE : Z := 1024 * 1024 * 64.

Module PthreadAttr.
Record t := mk { stackSize : Z; scope : Z }.
#[global] Instance eta_attr : Eta t := fun r => mk (stackSize r) (scope r).
Definition InitThreadAttr : t := mk THREAD_DEFAULT_STACK_SIZE THREAD_SCOPE_SYSTEM.
Definition SetThreadAttrStackSize (size : Z) (a : t) : t := a <| stackSize := size |>.
Definition SetThreadAttrScope (sc : Z) (a : t) : t := a <| scope := sc |>.
End PthreadAttr.

(** What [pthread_create] is called with: the contention scope and the stack
    size, [None] when the default of the system is kept. *)
Definition pthread_request (attr : option PthreadAttr.t) : Z * option Z :=
  match attr with
  | None => (THREAD_SCOPE_SYSTEM, None)
  | Some a =>
      (if PthreadAttr.scope a =? THREAD_SCOPE_PROCESS then THREAD_SCOPE_PROCESS else THREAD_SCOPE_SYSTEM,
       if 0 <? PthreadAttr.stackSize a then Some (PthreadAttr.stackSize a) else None)
  end.

(** [CreateOneThread]: the code, the new handle and the request made. *)
Definition CreateOneThread `{!Pthread} (call : nat) (tr : Z) (attr : option PthreadAttr.t) :
  Z * Z * option (Z * option Z) :=
  if negb (pthread_attr_init call =? 0) then (pthread_attr_init call, tr, None)
  else (pthread_create call, if pthread_create call =? 0 then pthread_handle call else tr,
        Some (pthread_request attr)).

(** [WaitThread]: join unless the handle is 0; the handle is 0 afterwards. *)
Definition WaitThread (tr : Z) : bool * Z := (negb (tr =? 0), 0).

Module Thread.

Inductive ThreadStatus := PREPARED | RUNNING | STOPPED.
#[global] Instance status_eq_dec : EqDecision ThreadStatus.
Proof. solve_decision. Defined.

Record t := mk {
  running_ : bool;
  status_ : ThreadStatus;
  stackSize_ : Z;
  thread_ : Z;               (** the pthread handle, 0 for none *)
  worker_ : option nat;      (** the worker, by its identity *)
}.
#[global] Instance eta_thread : Eta t := fun r =>
  mk (running_ r) (status_ r) (stackSize_ r) (thread_ r) (worker_ r).

Definition ctor : t := mk false STOPPED THREAD_DEFAULT_STACK_SIZE 0 None.

Definition SetStackSize (size : Z) (th : t) : t := th <| stackSize_ := size |>.
Definition GetThreadId (th : t) : Z := thread_ th.

(** The attributes [StartThread] asks for. *)
Definition start_attr (workerStack : Z) (th : t) : option PthreadAttr.t :=
  let stackSize := if (bool_decide (is_Some (worker_ th))) && (0 <? workerStack) then workerStack
                   else stackSize_ th in
  if (THREAD_MIN_STACK_SIZE <=? stackSize) && (stackSize <? THREAD_MAX_STACK_SIZE)
  then Some (PthreadAttr.SetThreadAttrStackSize stackSize PthreadAttr.InitThreadAttr)
  else None.

(** [StartThread(pWorker)] up to the return from [CreateOneThread]. *)
Definition begin_start `{!Pthread} (call : nat) (workerStack : Z) (pWorker : option nat) (th : t) : bool * t :=
  if decide (status_ th = RUNNING) then (false, th) else
  match pWorker with
  | None => (false, th)
  | Some w =>
      let th1 := th <| worker_ := Some w |> <| status_ := PREPARED |> in
      let '(retCode, handle, _) := CreateOneThread call (thread_ th1) (start_attr workerStack th1) in
      if negb (retCode =? 0) then (false, th1 <| status_ := STOPPED |> <| thread_ := handle |>)
      else (true, th1 <| thread_ := handle |>)
  end.

(** [IsActive()]; [exited] is what [pthread_kill] finds out. *)
Definition IsActive (exited : bool) (th : t) : bool :=
  if decide (status_ th = RUNNING) then negb exited else false.

End Thread.

(** ** Workers and the threads they run on

    A [Thread] points to its worker and the worker to its thread.  [ub] records a
    use of a worker or thread that has been destroyed. *)

Module IWorker.

Inductive WorkerStatus := IDLE | BUSY.

Record t := mk { counter_ : Z; thread_ : option nat; status_ : WorkerStatus }.
#[global] Instance eta_worker : Eta t := fun r => mk (counter_ r) (thread_ r) (status_ r).

Definition ctor : t := mk 0 None IDLE.
Definition SetThread (thread : option nat) (k : t) : t := k <| thread_ := thread |>.
Definition Status (status : WorkerStatus) (k : t) : t := k <| status_ := status |>.
(** [++worker_->counter_] in [Run]. *)
Definition count (k : t) : t := k <| counter_ ::= fun n => wrap_s 32 (n + 1) |>.

End IWorker.

Module Links.

Record t := mk { threads : gmap nat Thread.t; workers : gmap nat IWorker.t; ub : bool }.
#[global] Instance eta_links : Eta t := fun r => mk (threads r) (workers r) (ub r).

(** [worker->SetThread(thread)]. *)
Definition SetThread (w : nat) (thread : option nat) (h : t) : t :=
  match workers h !! w with
  | Some k => h <| workers ::= <[w := IWorker.SetThread thread k]> |>
  | None => h <| ub := true |>
  end.

Definition with_worker (id : nat) (worker : option nat) (h : t) : t :=
  h <| threads ::= alter (fun th => th <| Thread.worker_ := worker |>) id |>.

Definition worker_of (id : nat) (h : t) : option nat := threads h !! id ≫= Thread.worker_.

(** [worker_->SetThread(nullptr)] unless there is no worker. *)
Definition unlink (id : nat) (h : t) : t :=
  match worker_of id h with Some w => SetThread w None h | None => h end.

Definition SetWorker (id : nat) (pWorker : option nat) (h : t) : t :=
  let h2 := with_worker id pWorker (unlink id h) in
  match pWorker with Some w => SetThread w (Some id) h2 | None => h2 end.

(** The pointers [StartThread(pWorker)] sets; it does not tell the old worker. *)
Definition start_links (id : nat) (w : nat) (h : t) : t :=
  SetThread w (Some id) (with_worker id (Some w) h).

(** [IWorker::GetThreadId()]. *)
Definition GetThreadId (w : nat) (h : t) : Z * t :=
  match workers h !! w with
  | None => (0, h <| ub := true |>)
  | Some k =>
      match IWorker.thread_ k with
      | None => (u64 RETCODE_FAILURE, h)
      | Some id => match threads h !! id with
                   | Some th => (Thread.GetThreadId th, h)
                   | None => (0, h <| ub := true |>)
                   end
      end
  end.

(** [delete worker]: the thread keeps its pointer. *)
Definition destroy_worker (w : nat) (h : t) : t := h <| workers ::= delete w |>.

(** [delete thread]. *)
Definition destroy_thread (id : nat) (h : t) : t := (unlink id h) <| threads ::= delete id |>.

(** No thread points to a worker that is gone. *)
Definition linked (h : t) : Prop :=
  forall id w, worker_of id h = Some w -> is_Some (workers h !! w).

End Links.

(** ** The life of one thread *)

Module ThreadLife.
Import Thread.

Inductive event := Initialize | OneAction | Uninitialize.
#[global] Instance event_eq_dec : EqDecision event.
Proof. solve_decision. Defined.

(** The thread that owns the [Thread] object: [StartThread], then calls of
    [StopThread()] and [StopThread(timeOut)]. *)
Inductive owner :=
  | Begin | WaitStarted | Started | StartFailed
  | StopFlagged         (** [StopThread]: [running_ = false] done, waiting for the status *)
  | TimedFlagged (timeOut : Z) (e : TimeElapser.t)  (** the same in [StopThread(timeOut)] *)
  | TimedLeft           (** the timed loop has been left, the status is tested once more *)
  | Joining
  | Requested           (** [StopThread(0)] has returned *)
  | TimedOut            (** [StopThread(timeOut)] has returned false *)
  | Stopped (joined : bool).

(** The owner is outside of a call and may stop the thread (again). *)
Definition idle (o : owner) : bool :=
  match o with Started | Requested | TimedOut => true | _ => false end.

(** A call of [StopThread] or [StopThread(timeOut)] is the last thing the owner
    did, and has returned. *)
Definition stop_returned (o : owner) : bool :=
  match o with Stopped _ | Requested | TimedOut => true | _ => false end.

(** The thread has been told to stop. *)
Definition asked (o : owner) : bool :=
  match o with StopFlagged | TimedFlagged _ _ | TimedLeft | Joining | Requested | TimedOut => true | _ => false end.

(** The thread in [Thread::Execute] and [Thread::Run]. *)
Inductive runner :=
  | NoRunner | Born | SetRunning | Running | InitFailed | Loop | Acting | Leaving | Leaving2 | Ending | Exited.

Record cfg := mk_cfg {
  th : Thread.t;
  own : owner;
  run : runner;
  log : list event;
}.
#[global] Instance eta_cfg : Eta cfg := fun r => mk_cfg (th r) (own r) (run r) (log r).

Section life.
  Context `{!Pthread} (w : nat) (workerStack : Z).

Definition init : cfg := mk_cfg ctor Begin NoRunner [].

Inductive step : cfg -> cfg -> Prop :=
  | s_start_ok c call th' :
      own c = Begin -> begin_start call workerStack (Some w) (th c) = (true, th') ->
      step c (c <| th := th' |> <| own := WaitStarted |> <| run := Born |>)
  | s_start_fail c call th' :
      own c = Begin -> begin_start call workerStack (Some w) (th c) = (false, th') ->
      step c (c <| th := th' |> <| own := StartFailed |>)
  | s_started c : own c = WaitStarted -> status_ (th c) <> PREPARED -> step c (c <| own := Started |>)
  | s_stop_inactive c exited :
      idle (own c) = true -> (exited = true -> run c = Exited) -> IsActive exited (th c) = false ->
      step c (c <| own := Stopped false |>)
  | s_stop_active c exited o :
      idle (own c) = true -> (exited = true -> run c = Exited) -> IsActive exited (th c) = true ->
      o = StopFlagged \/ o = Requested \/ (exists timeOut now, timeOut <> 0 /\ o = TimedFlagged timeOut (TimeElapser.ctor now)) ->
      step c (c <| th := (th c) <| running_ := false |> |> <| own := o |>)
  | s_timed_left c timeOut e now :
      own c = TimedFlagged timeOut e ->
      status_ (th c) <> RUNNING \/ timeOut <= TimeElapser.ElapseMilli32 now e ->
      step c (c <| own := TimedLeft |>)
  | s_timed_test c :
      own c = TimedLeft -> step c (c <| own := if decide (status_ (th c) = RUNNING) then TimedOut else Joining |>)
  | s_stop_seen c : own c = StopFlagged -> status_ (th c) <> RUNNING -> step c (c <| own := Joining |>)
  | s_join c :
      own c = Joining -> run c = Exited ->
      step c (c <| th := (th c) <| thread_ := snd (WaitThread (thread_ (th c))) |> |> <| own := Stopped true |>)
  | r_running c : run c = Born -> step c (c <| th := (th c) <| running_ := true |> |> <| run := SetRunning |>)
  | r_status c : run c = SetRunning -> step c (c <| th := (th c) <| status_ := RUNNING |> |> <| run := Running |>)
  | r_init c (ok : bool) :
      run c = Running -> step c (c <| log := log c ++ [Initialize] |> <| run := if ok then Loop else InitFailed |>)
  | r_init_failed c :
      run c = InitFailed -> step c (c <| log := log c ++ [Uninitialize] |> <| run := Ending |>)
  | r_loop c : run c = Loop -> step c (c <| run := if running_ (th c) then Acting else Leaving |>)
  | r_action c (ok : bool) :
      run c = Acting -> step c (c <| log := log c ++ [OneAction] |> <| run := if ok then Loop else Leaving |>)
  | r_leave c : run c = Leaving -> step c (c <| th := (th c) <| status_ := STOPPED |> |> <| run := Leaving2 |>)
  | r_uninit c : run c = Leaving2 -> step c (c <| log := log c ++ [Uninitialize] |> <| run := Ending |>)
  | r_end c : run c = Ending -> step c (c <| th := (th c) <| status_ := STOPPED |> |> <| run := Exited |>).

End life.
End ThreadLife.

Module LinksFacts.
Import Links.

Lemma SetThread_live w thread h : is_Some (workers h !! w) -> ub (SetThread w thread h) = ub h.
Proof. intros [k Hk]. unfold SetThread. by rewrite Hk. Qed.

Lemma SetThread_threads w thread h : threads (SetThread w thread h) = threads h.
Proof. unfold SetThread. by destruct (workers h !! w). Qed.

Lemma SetThread_workers w thread h w' : is_Some (workers (SetThread w thread h) !! w') <-> is_Some (workers h !! w').
Proof.
  unfold SetThread. destruct (workers h !! w) as [k|] eqn:E; [|done]. cbn. rewrite lookup_insert_is_Some.
  destruct (decide (w = w')) as [->|]; [|naive_solver]. by rewrite E; naive_solver.
Qed.

Lemma SetThread_linked w thread h : linked h -> linked (SetThread w thread h).
Proof.
  intros HL id w'. unfold worker_of. rewrite SetThread_threads. intros E. by apply SetThread_workers, (HL id).
Qed.

Lemma with_worker_linked id w h : is_Some (workers h !! w) -> linked h -> linked (with_worker id (Some w) h).
Proof.
  intros Hw HL id' w'. unfold worker_of, with_worker. cbn.
  destruct (decide (id' = id)) as [->|]; [|by rewrite lookup_alter_ne by done; apply HL].
  rewrite lookup_alter_eq. destruct (threads h !! id); cbn; [|done]. by intros [= ->].
Qed.

Lemma with_worker_none_linked id h : linked h -> linked (with_worker id None h).
Proof.
  intros HL id' w'. unfold worker_of, with_worker. cbn.
  destruct (decide (id' = id)) as [->|]; [|by rewrite lookup_alter_ne by done; apply HL].
  rewrite lookup_alter_eq. by destruct (threads h !! id).
Qed.

Lemma unlink_ok id h : linked h ->
  linked (unlink id h) /\ ub (unlink id h) = ub h /\
  (forall w, is_Some (workers (unlink id h) !! w) <-> is_Some (workers h !! w)).
Proof.
  intros HL. unfold unlink. destruct (worker_of id h) as [w|] eqn:E; [|done].
  split; [by apply SetThread_linked|]. split; [by apply SetThread_live, (HL id)|]. intros w'. apply SetThread_workers.
Qed.

End LinksFacts.

(** As long as no worker is deleted while a thread points to it, no call on
    threads and workers touches an object that is gone. *)
Theorem links_safe (id w : nat) (h : Links.t) :
  Links.linked h -> is_Some (Links.workers h !! w) ->
  (Links.linked (Links.SetWorker id (Some w) h) /\ Links.ub (Links.SetWorker id (Some w) h) = Links.ub h) /\
  (Links.linked (Links.start_links id w h) /\ Links.ub (Links.start_links id w h) = Links.ub h) /\
  (Links.linked (Links.SetWorker id None h) /\ Links.ub (Links.SetWorker id None h) = Links.ub h) /\
  (Links.linked (Links.destroy_thread id h) /\ Links.ub (Links.destroy_thread id h) = Links.ub h).
Proof.
  intros HL Hw. destruct (LinksFacts.unlink_ok id h HL) as (HU & Eu & Wu).
  assert (forall h1, Links.linked h1 -> is_Some (Links.workers h1 !! w) -> Links.ub h1 = Links.ub h ->
    Links.linked (Links.start_links id w h1) /\ Links.ub (Links.start_links id w h1) = Links.ub h) as HS.
  { intros h1 H1 Hw1 E1. unfold Links.start_links.
    split; [by apply LinksFacts.SetThread_linked, LinksFacts.with_worker_linked|by rewrite LinksFacts.SetThread_live]. }
  split; [by apply HS; [|apply Wu|]|]. split; [by apply HS|].
  split; [by split; [apply LinksFacts.with_worker_none_linked|apply Eu]|]. split; [|apply Eu].
  intros id' w'. unfold Links.worker_of, Links.destroy_thread. cbn.
  destruct (decide (id' = id)) as [->|]; [by rewrite lookup_delete_eq|]. rewrite lookup_delete_ne by done. apply HU.
Qed.

(** The thread of an engine outlives the engine's worker: [~Engine] pushes the
    thread into the pool and then its member [worker_] ends, to which the thread
    still points.  Deleting that thread writes to the worker that is gone. *)
Lemma engine_thread_keeps_its_worker :
  let h := Links.start_links 0 1 (Links.mk {[0%nat := Thread.ctor]} {[1%nat := IWorker.ctor]} false) in
  Links.worker_of 0 (Links.destroy_worker 1 h) = Some 1%nat /\
  Links.ub (Links.destroy_thread 0 (Links.destroy_worker 1 h)) = true.
Proof. by vm_compute. Qed.

Module ThreadLifeFacts.
Import Thread ThreadLife.

Section facts.
  Context `{!Pthread} (w : nat) (workerStack : Z).

(** The calls the worker has seen. *)
Definition log_ok (c : cfg) : Prop :=
  match run c with
  | NoRunner | Born | SetRunning | Running => log c = []
  | InitFailed => log c = [Initialize]
  | Loop | Acting | Leaving | Leaving2 => exists n, log c = Initialize :: replicate n OneAction
  | Ending | Exited => exists n, log c = Initialize :: replicate n OneAction ++ [Uninitialize]
  end.

Definition own_ok (c : cfg) : Prop :=
  match own c with
  | Begin => run c = NoRunner /\ status_ (th c) = STOPPED
  | StartFailed => run c = NoRunner /\ status_ (th c) <> PREPARED
  | WaitStarted => run c <> NoRunner
  | Stopped true => run c = Exited /\ thread_ (th c) = 0
  | Stopped false => run c = Leaving2 \/ run c = Ending \/ run c = Exited
  | _ => run c <> NoRunner /\ run c <> Born /\ run c <> SetRunning
  end.

(** A thread that has not reached [status_ = RUNNING] is [PREPARED]. *)
Definition status_ok (c : cfg) : Prop :=
  match run c with
  | Born | SetRunning => status_ (th c) = PREPARED
  | Running | InitFailed | Loop | Acting | Leaving => status_ (th c) = RUNNING
  | Leaving2 | Exited => status_ (th c) = STOPPED
  | Ending => status_ (th c) <> PREPARED
  | NoRunner => True
  end.

Lemma init_ok : log_ok init /\ own_ok init /\ status_ok init.
Proof. done. Qed.

Lemma log_snoc_action n : Initialize :: replicate n OneAction ++ [OneAction] = Initialize :: replicate (S n) OneAction.
Proof. f_equal. replace (S n) with (n + 1)%nat by lia. by rewrite replicate_add. Qed.

Lemma begin_start_status call pw th0 b th1 :
  begin_start call workerStack pw th0 = (b, th1) -> status_ th0 = STOPPED ->
  status_ th1 = if b then PREPARED else STOPPED.
Proof.
  unfold begin_start, CreateOneThread. intros E Hs. rewrite decide_False in E by congruence.
  destruct pw as [w'|]; [|by simplify_eq].
  destruct (negb (pthread_attr_init call =? 0)) eqn:E1; [|destruct (pthread_create call =? 0) eqn:E2];
    rewrite ?E1, ?E2 in E; cbn in E; by simplify_eq.
Qed.

Ltac use_phase :=
  repeat match goal with
  | H : own ?c = _ |- _ => rewrite H in *; clear H
  | H : run ?c = _ |- _ => rewrite H in *; clear H
  end; cbn in *.

Lemma step_ok c c' :
  step w workerStack c c' -> log_ok c /\ own_ok c /\ status_ok c -> log_ok c' /\ own_ok c' /\ status_ok c'.
Proof.
  intros Hs (HL & HO & HS). unfold log_ok, own_ok, status_ok in *.
  destruct Hs as [c call th' Ho E|c call th' Ho E|c Ho Hst|c exited Ho He Ha|c exited o Ho He Ha Hf
    |c timeOut e now Ho Hst|c Ho|c Ho Hst|c Ho Hr
    |c Hr|c Hr|c ok Hr|c Hr|c Hr|c ok Hr|c Hr|c Hr|c Hr]; cbn.
  - use_phase. destruct HO as [Hr Hst]. rewrite Hr in *. by rewrite (begin_start_status _ _ _ _ _ E Hst).
  - use_phase. destruct HO as [Hr Hst]. rewrite Hr in *. by rewrite (begin_start_status _ _ _ _ _ E Hst).
  - use_phase. split; [done|]. split; [|done]. destruct (run c); naive_solver.
  - split; [done|]. split; [|done].
    assert (run c <> NoRunner /\ run c <> Born /\ run c <> SetRunning) by by destruct (own c).
    assert (status_ (th c) <> RUNNING \/ run c = Exited) by (unfold IsActive in Ha; destruct exited; case_decide; naive_solver).
    destruct (run c); naive_solver.
  - split; [done|]. split; [|done]. destruct (own c); try done; destruct Hf as [->|[->|(? & ? & _ & ->)]]; done.
  - use_phase. naive_solver.
  - use_phase. case_decide; naive_solver.
  - use_phase. naive_solver.
  - use_phase. naive_solver.
  - destruct (own c) as [| | | | | | | | | |[]]; use_phase; naive_solver.
  - destruct (own c) as [| | | | | | | | | |[]]; use_phase; naive_solver.
  - assert (run (c <| run := if ok then Loop else InitFailed |>) <> Exited) by by destruct ok.
    split; [|destruct ok, (own c) as [| | | | | | | | | |[]]; use_phase; try rewrite HS; naive_solver].
    use_phase. rewrite HL. destruct ok; [|done]. by exists 0%nat.
  - split; [|destruct (own c) as [| | | | | | | | | |[]]; use_phase; try rewrite HS; naive_solver].
    use_phase. rewrite HL. by exists 0%nat.
  - split; [|destruct (running_ (th c)), (own c) as [| | | | | | | | | |[]]; use_phase; try rewrite HS; naive_solver].
    use_phase. by destruct (running_ (th c)).
  - split; [|destruct ok, (own c) as [| | | | | | | | | |[]]; use_phase; try rewrite HS; naive_solver].
    use_phase. destruct HL as [n ->].
    destruct ok; exists (S n); by rewrite <- (log_snoc_action n).
  - split; [|destruct (own c) as [| | | | | | | | | |[]]; use_phase; try rewrite HS; naive_solver]. by use_phase.
  - split; [|destruct (own c) as [| | | | | | | | | |[]]; use_phase; try rewrite HS; naive_solver].
    use_phase. destruct HL as [n ->]. by exists n.
  - split; [|destruct (own c) as [| | | | | | | | | |[]]; use_phase; try rewrite HS; naive_solver]. by use_phase.
Qed.

Lemma reachable_ok c : rtc (step w workerStack) init c -> log_ok c /\ own_ok c /\ status_ok c.
Proof.
  apply (rtc_ind_r (fun c => log_ok c /\ own_ok c /\ status_ok c)); [apply init_ok|].
  intros. by eapply step_ok.
Qed.

(** The calls of its worker that the thread still makes once [running_] is false. *)
Definition due (r : runner) : list event :=
  match r with
  | SetRunning | Running => [Initialize; Uninitialize]
  | Acting => [OneAction; Uninitialize]
  | InitFailed | Loop | Leaving | Leaving2 => [Uninitialize]
  | NoRunner | Born | Ending | Exited => []
  end.

(** Once [running_] has been cleared it stays so. *)
Definition stopping (c : cfg) : Prop :=
  running_ (th c) = false /\ match run c with NoRunner | Born => False | _ => True end.

(** The thread is past its loop. *)
Definition loop_over (c : cfg) : Prop := run c = Leaving2 \/ run c = Ending \/ run c = Exited.

Definition winding_up (c : cfg) : Prop := stopping c \/ loop_over c.

Lemma due_short r : due r `sublist_of` [Initialize; OneAction; Uninitialize].
Proof. destruct r; cbn; repeat constructor. Qed.

Ltac use_runner := match goal with H : run ?c = _ |- _ => rewrite H in *; clear H end.

(** From then on the calls that are due are made, in their order, and no other. *)
Lemma stopping_step c c' :
  step w workerStack c c' -> own_ok c -> stopping c ->
  stopping c' /\ log c' ++ due (run c') = log c ++ due (run c).
Proof.
  intros Hs HO [Hf Hr]. unfold stopping.
  destruct Hs; cbn;
    try (unfold own_ok in HO; use_phase; destruct HO as [HO _]; by rewrite HO in Hr);
    try use_runner; rewrite ?Hf, <- ?(assoc_L (++)); try done; by destruct ok.
Qed.

Lemma loop_over_step c c' :
  step w workerStack c c' -> own_ok c -> loop_over c ->
  loop_over c' /\ log c' ++ due (run c') = log c ++ due (run c).
Proof.
  intros Hs HO Hl. unfold loop_over in *.
  destruct Hs; cbn; try done; try use_runner; rewrite <- ?(assoc_L (++)); try naive_solver.
  all: unfold own_ok in HO; use_phase; destruct HO as [HO _]; rewrite HO in Hl; naive_solver.
Qed.

Lemma winding_up_steps c c' :
  rtc (step w workerStack) c c' -> log_ok c /\ own_ok c /\ status_ok c -> winding_up c ->
  log c' ++ due (run c') = log c ++ due (run c).
Proof.
  induction 1 as [c|c c1 c' H1 _ IH]; intros Hok HW; [done|].
  assert (winding_up c1 /\ log c1 ++ due (run c1) = log c ++ due (run c)) as [HW1 E1].
  { destruct HW as [HS|HL]; [destruct (stopping_step _ _ H1 (proj1 (proj2 Hok)) HS)
                            |destruct (loop_over_step _ _ H1 (proj1 (proj2 Hok)) HL)]; by split; [constructor|]. }
  rewrite (IH (step_ok _ _ H1 Hok) HW1). apply E1.
Qed.

Lemma stopping_steps c c' :
  rtc (step w workerStack) c c' -> log_ok c /\ own_ok c /\ status_ok c -> stopping c -> running_ (th c') = false.
Proof.
  intros Hs Hok HS. enough (stopping c' /\ log_ok c' /\ own_ok c' /\ status_ok c') as [[E _] _] by done.
  revert c' Hs. apply (rtc_ind_r (fun c' => stopping c' /\ log_ok c' /\ own_ok c' /\ status_ok c')); [done|].
  intros c1 c2 _ Hs [HS1 Hok1]. split; [by apply (stopping_step _ _ Hs (proj1 (proj2 Hok1)))|by eapply step_ok].
Qed.

(** A thread that has been joined is left alone. *)
Lemma joined_steps c c' : rtc (step w workerStack) c c' -> own c = Stopped true -> run c = Exited -> c' = c.
Proof.
  intros Hs Ho Hr. destruct (rtc_inv _ _ Hs) as [|(c1 & H1 & _)]; [done|]. exfalso.
  destruct H1; try congruence; match goal with E : idle _ = true |- _ => by rewrite Ho in E end.
Qed.

(** After [StopThread] has found the thread inactive it stays unjoined. *)
Lemma inactive_steps c c' :
  rtc (step w workerStack) c c' -> own c = Stopped false ->
  own c' = Stopped false /\ thread_ (th c') = thread_ (th c).
Proof.
  intros Hs Ho. revert c' Hs.
  apply (rtc_ind_r (fun c' => own c' = Stopped false /\ thread_ (th c') = thread_ (th c))); [done|].
  intros c1 c2 _ Hs [Ho1 E1]. destruct Hs; cbn; try done; try congruence;
    match goal with E : idle _ = true |- _ => by rewrite Ho1 in E end.
Qed.

Lemma asked_step c c' :
  step w workerStack c c' -> own_ok c -> status_ok c ->
  (asked (own c) = true -> stopping c) -> asked (own c') = true -> stopping c'.
Proof.
  intros Hs HO HS IH Ha. destruct (asked (own c)) eqn:Hc.
  - by apply (stopping_step _ _ Hs HO), IH.
  - destruct Hs; cbn in *; try congruence; try (match goal with E : own c = _ |- _ => by rewrite E in Hc end).
    split; [done|]. cbn. unfold own_ok in HO. destruct (own c); try done. destruct HO as (? & ? & ?). by destruct (run c).
Qed.

Lemma asked_stopping c : rtc (step w workerStack) init c -> asked (own c) = true -> stopping c.
Proof.
  intros HR. enough ((log_ok c /\ own_ok c /\ status_ok c) /\ (asked (own c) = true -> stopping c)) by tauto.
  revert c HR. apply (rtc_ind_r (fun c => (log_ok c /\ own_ok c /\ status_ok c) /\ (asked (own c) = true -> stopping c)));
    [by split; [apply init_ok|]|].
  intros c c' _ Hs [Hok IH]. split; [by eapply step_ok|]. destruct Hok as (_ & HO & HS). by eapply asked_step.
Qed.

(** The log only grows. *)
Lemma log_grows c c' : rtc (step w workerStack) c c' -> log c `prefix_of` log c'.
Proof.
  induction 1 as [|c c1 c' Hs _ IH]; [done|]. trans (log c1); [|done].
  destruct Hs; cbn; try done; apply prefix_app_r; done.
Qed.

(** Once a stop has been asked for, what the worker still sees is short and fixed. *)
Lemma asked_calls c c' :
  rtc (step w workerStack) init c -> asked (own c) = true -> rtc (step w workerStack) c c' ->
  running_ (th c') = false /\ exists calls, log c' = log c ++ calls /\ calls `prefix_of` due (run c).
Proof.
  intros HR Ha Hs. pose proof (asked_stopping _ HR Ha) as HS. pose proof (reachable_ok _ HR) as Hok.
  split; [by apply (stopping_steps c)|].
  pose proof (winding_up_steps _ _ Hs Hok (or_introl HS)) as E.
  assert (log c `prefix_of` log c') as [calls Ec] by (eapply log_grows; done).
  exists calls. split; [done|]. exists (due (run c')). rewrite Ec, <- (assoc_L (++)) in E. by simplify_eq.
Qed.

Lemma requested_calls c c' :
  rtc (step w workerStack) init c -> asked (own c) = true -> rtc (step w workerStack) c c' ->
  running_ (th c') = false /\
  exists calls, log c' = log c ++ calls /\ calls `sublist_of` [Initialize; OneAction; Uninitialize].
Proof.
  intros HR Ha Hs. destruct (asked_calls _ _ HR Ha Hs) as (Hf & calls & E & [rest Er]).
  split; [done|]. exists calls. split; [done|].
  trans (due (run c)); [|apply due_short]. rewrite Er. apply sublist_inserts_r. done.
Qed.

(** Past its loop the thread only has [Uninitialize] to call. *)
Lemma inactive_calls c c' :
  log_ok c /\ own_ok c /\ status_ok c -> own c = Stopped false -> rtc (step w workerStack) c c' ->
  exists n, Initialize :: replicate n OneAction `prefix_of` log c /\ log c `prefix_of` log c' /\
    log c' `prefix_of` Initialize :: replicate n OneAction ++ [Uninitialize].
Proof.
  intros Hok Ho Hs. pose proof Hok as (HL & HO & _). unfold log_ok, own_ok in HL, HO. rewrite Ho in HO.
  pose proof (winding_up_steps _ _ Hs Hok (or_intror HO)) as E.
  assert (exists n, Initialize :: replicate n OneAction `prefix_of` log c /\
    log c ++ due (run c) = Initialize :: replicate n OneAction ++ [Uninitialize]) as (n & Hn & En).
  { destruct HO as [Hr|[Hr|Hr]]; rewrite Hr in *; destruct HL as [n ->]; exists n; cbn; rewrite ?app_nil_r;
      (split; [|done]); try apply prefix_cons, prefix_app_r; done. }
  exists n. split; [done|]. split; [by apply log_grows|]. rewrite <- En, <- E. apply prefix_app_r. done.
Qed.

End facts.
End ThreadLifeFacts.

(** C34. Every return of [StopThread] and [StopThread(timeOut)], and what the
    thread does afterwards.  After the join the thread has ended: its worker was
    initialised once, ran some actions and was uninitialised once, as its last
    call; nothing runs any more.  When the thread was found inactive it has left
    its loop for good: no action runs any more, only an [Uninitialize] may be
    outstanding, and nobody joins the thread.  When the call did not wait, or its
    time ran out, the thread has been told to stop, and at most the calls
    [Initialize], [OneAction] in progress and [Uninitialize] are still made, each
    at most once. *)
Theorem thread_stop_outcomes `{!Pthread} w workerStack c c' :
  rtc (ThreadLife.step w workerStack) ThreadLife.init c ->
  ThreadLife.stop_returned (ThreadLife.own c) = true ->
  rtc (ThreadLife.step w workerStack) c c' ->
  match ThreadLife.own c with
  | ThreadLife.Stopped true =>
      c' = c /\ ThreadLife.run c = ThreadLife.Exited /\ Thread.thread_ (ThreadLife.th c) = 0 /\
      exists n, ThreadLife.log c =
        ThreadLife.Initialize :: replicate n ThreadLife.OneAction ++ [ThreadLife.Uninitialize]
  | ThreadLife.Stopped false =>
      ThreadLife.own c' = ThreadLife.Stopped false /\
      Thread.thread_ (ThreadLife.th c') = Thread.thread_ (ThreadLife.th c) /\
      exists n, ThreadLife.Initialize :: replicate n ThreadLife.OneAction `prefix_of` ThreadLife.log c /\
        ThreadLife.log c `prefix_of` ThreadLife.log c' /\
        ThreadLife.log c' `prefix_of`
          ThreadLife.Initialize :: replicate n ThreadLife.OneAction ++ [ThreadLife.Uninitialize]
  | _ =>
      Thread.running_ (ThreadLife.th c') = false /\
      exists calls, ThreadLife.log c' = ThreadLife.log c ++ calls /\
        calls `sublist_of` [ThreadLife.Initialize; ThreadLife.OneAction; ThreadLife.Uninitialize]
  end.
Proof.
  intros HR Hret Hs. pose proof (ThreadLifeFacts.reachable_ok _ _ _ HR) as Hok.
  destruct (ThreadLife.own c) as [| | | | | | | | | |[]] eqn:Ho; try done.
  - by eapply ThreadLifeFacts.requested_calls; rewrite ?Ho.
  - by eapply ThreadLifeFacts.requested_calls; rewrite ?Ho.
  - destruct Hok as (HL & HO & _). unfold ThreadLifeFacts.log_ok, ThreadLifeFacts.own_ok in *.
    rewrite Ho in HO. destruct HO as [Hr Ht]. rewrite Hr in HL.
    split; [by eapply ThreadLifeFacts.joined_steps|done].
  - destruct (ThreadLifeFacts.inactive_steps _ _ _ _ Hs Ho) as [Ho' Et].
    split; [done|]. split; [done|]. by eapply ThreadLifeFacts.inactive_calls.
Qed.

#[local] Instance sample_pthread : Pthread :=
  {| pthread_attr_init := fun _ => 0; pthread_create := fun _ => 0;
     pthread_handle := fun n => Z.of_nat n + 1; thread_exited := fun _ => false |}.

(** A whole life: start, one action, stop. *)
Definition sample_end : ThreadLife.cfg :=
  ThreadLife.mk_cfg (Thread.mk false Thread.STOPPED 0 0 (Some 4%nat)) (ThreadLife.Stopped true) ThreadLife.Exited
    [ThreadLife.Initialize; ThreadLife.OneAction; ThreadLife.Uninitialize].

Lemma sample_reachable : rtc (ThreadLife.step 4 0) ThreadLife.init sample_end.
Proof.
  eapply rtc_l; [by apply (ThreadLife.s_start_ok _ _ _ 0)|]. cbn.
  eapply rtc_l; [by apply ThreadLife.r_running|]. cbn.
  eapply rtc_l; [by apply ThreadLife.r_status|]. cbn.
  eapply rtc_l; [by apply ThreadLife.s_started|]. cbn.
  eapply rtc_l; [by apply (ThreadLife.r_init _ _ _ true)|]. cbn.
  eapply rtc_l; [by apply ThreadLife.r_loop|]. cbn.
  eapply rtc_l; [by apply (ThreadLife.r_action _ _ _ true)|]. cbn.
  eapply rtc_l; [by apply (ThreadLife.s_stop_active _ _ _ false ThreadLife.StopFlagged); [| | |left]|]. cbn.
  eapply rtc_l; [by apply ThreadLife.r_loop|]. cbn.
  eapply rtc_l; [by apply ThreadLife.r_leave|]. cbn.
  eapply rtc_l; [by apply ThreadLife.r_uninit|]. cbn.
  eapply rtc_l; [by apply ThreadLife.r_end|]. cbn.
  eapply rtc_l; [by apply ThreadLife.s_stop_seen|]. cbn.
  eapply rtc_l; [by apply ThreadLife.s_join|]. cbn.
  apply rtc_refl.
Qed.

(** A worker that leaves its loop by itself sets the status before it calls
    [Uninitialize]: [StopThread] finds the thread inactive and returns, without
    joining it, while [Uninitialize] has still to run. *)
Definition left_behind : ThreadLife.cfg :=
  ThreadLife.mk_cfg (Thread.mk true Thread.STOPPED 0 1 (Some 4%nat)) (ThreadLife.Stopped false) ThreadLife.Leaving2
    [ThreadLife.Initialize; ThreadLife.OneAction].

Lemma stop_before_uninitialize : rtc (ThreadLife.step 4 0) ThreadLife.init left_behind.
Proof.
  eapply rtc_l; [by apply (ThreadLife.s_start_ok _ _ _ 0)|]. cbn.
  eapply rtc_l; [by apply ThreadLife.r_running|]. cbn.
  eapply rtc_l; [by apply ThreadLife.r_status|]. cbn.
  eapply rtc_l; [by apply ThreadLife.s_started|]. cbn.
  eapply rtc_l; [by apply (ThreadLife.r_init _ _ _ true)|]. cbn.
  eapply rtc_l; [by apply ThreadLife.r_loop|]. cbn.
  eapply rtc_l; [by apply (ThreadLife.r_action _ _ _ false)|]. cbn.
  eapply rtc_l; [by apply ThreadLife.r_leave|]. cbn.
  eapply rtc_l; [by apply (ThreadLife.s_stop_inactive _ _ _ false)|]. cbn.
  apply rtc_refl.
Qed.

(** The same a little later, when [Uninitialize] has run. *)
Definition left_behind_later : ThreadLife.cfg :=
  left_behind <| ThreadLife.log ::= fun l => l ++ [ThreadLife.Uninitialize] |> <| ThreadLife.run := ThreadLife.Ending |>.

Lemma left_behind_goes_on : rtc (ThreadLife.step 4 0) left_behind left_behind_later.
Proof. eapply rtc_l; [by apply ThreadLife.r_uninit|]. apply rtc_refl. Qed.

(** [StopThread(0)] during an action. *)
Definition stop_requested : ThreadLife.cfg :=
  ThreadLife.mk_cfg (Thread.mk false Thread.RUNNING 0 1 (Some 4%nat)) ThreadLife.Requested ThreadLife.Acting
    [ThreadLife.Initialize].

Definition stop_requested_later : ThreadLife.cfg :=
  ThreadLife.mk_cfg (Thread.mk false Thread.STOPPED 0 1 (Some 4%nat)) ThreadLife.Requested ThreadLife.Ending
    [ThreadLife.Initialize; ThreadLife.OneAction; ThreadLife.Uninitialize].

Lemma stop_requested_reachable : rtc (ThreadLife.step 4 0) ThreadLife.init stop_requested.
Proof.
  eapply rtc_l; [by apply (ThreadLife.s_start_ok _ _ _ 0)|]. cbn.
  eapply rtc_l; [by apply ThreadLife.r_running|]. cbn.
  eapply rtc_l; [by apply ThreadLife.r_status|]. cbn.
  eapply rtc_l; [by apply ThreadLife.s_started|]. cbn.
  eapply rtc_l; [by apply (ThreadLife.r_init _ _ _ true)|]. cbn.
  eapply rtc_l; [by apply ThreadLife.r_loop|]. cbn.
  eapply rtc_l; [by apply (ThreadLife.s_stop_active _ _ _ false ThreadLife.Requested); [| | |right; left]|]. cbn.
  apply rtc_refl.
Qed.

Lemma stop_requested_goes_on : rtc (ThreadLife.step 4 0) stop_requested stop_requested_later.
Proof.
  eapply rtc_l; [by apply (ThreadLife.r_action _ _ _ true)|]. cbn.
  eapply rtc_l; [by apply ThreadLife.r_loop|]. cbn.
  eapply rtc_l; [by apply ThreadLife.r_leave|]. cbn.
  eapply rtc_l; [by apply ThreadLife.r_uninit|]. cbn.
  apply rtc_refl.
Qed.

Lemma thread_stop_outcomes_witness :
  (ThreadLife.run sample_end = ThreadLife.Exited /\ Thread.thread_ (ThreadLife.th sample_end) = 0) /\
  (exists n, ThreadLife.log left_behind `prefix_of` ThreadLife.log left_behind_later /\
    ThreadLife.log left_behind_later `prefix_of`
      ThreadLife.Initialize :: replicate n ThreadLife.OneAction ++ [ThreadLife.Uninitialize]) /\
  exists calls, ThreadLife.log stop_requested_later = ThreadLife.log stop_requested ++ calls /\
    calls `sublist_of` [ThreadLife.Initialize; ThreadLife.OneAction; ThreadLife.Uninitialize].
Proof.
  split; [|split].
  - destruct (thread_stop_outcomes 4 0 sample_end sample_end sample_reachable eq_refl (rtc_refl _ _)) as (_ & Hr & Ht & _).
    done.
  - destruct (thread_stop_outcomes 4 0 left_behind left_behind_later stop_before_uninitialize eq_refl left_behind_goes_on)
      as (_ & _ & n & _ & H1 & H2). by exists n.
  - by apply (thread_stop_outcomes 4 0 stop_requested stop_requested_later stop_requested_reachable eq_refl
      stop_requested_goes_on).
Defined.
