(* ===== verification/Pools.v ===== *)
(** * Pools: the pools of queues and of threads

    [QueuePool] (queue_pool.inl) and [ThreadPool] (thread_pool.cpp) hand out
    shared objects.  The objects live in a store and the pools hold their
    identities, because the same object can be in a pool twice or in a pool and
    in use. *)

From Stdlib Require Import ZArith Lia.
From stdpp Require Import gmap list relations.
From S2P Require Import Prelude Protocol Queue Thread.

Module QueuePool.

Definition MAX_QUEUE_LENGTH : Z := 1024.
Definition MAX_QUEUE_COUNT : Z := 10.

Section pool.
  Context {A : Type}.

Record t := mk {
  store : gmap nat (@Queue.t A);   (** the queues created so far *)
  next : nat;
  queues_ : list nat;
  busyQueueNum_ : Z;
}.
#[global] Instance eta_queue_pool : Eta t := fun r => mk (store r) (next r) (queues_ r) (busyQueueNum_ r).

Definition ctor : t := mk ∅ 0 [] 0.

(** The static members. *)
Record statics := mk_statics { instance_ : option t; singleQueueCapacity_ : Z }.

Definition statics0 : statics := mk_statics None MAX_QUEUE_LENGTH.

(** [GetInstance(singleQueueCapacity)]: the capacity counts only for the call
    that creates the pool; [new_ok] is the outcome of its allocation. *)
Definition GetInstance (singleQueueCapacity : Z) (new_ok : bool) (s : statics) : option t * statics :=
  match instance_ s with
  | Some p => (Some p, s)
  | None => let p := if new_ok then Some ctor else None in
            (p, mk_statics p singleQueueCapacity)
  end.

Definition ReleaseInstance (s : statics) : statics := mk_statics None (singleQueueCapacity_ s).

(** [Pop()]; the two flags are the outcomes of the allocation of the queue object
    and of its nodes. *)
Definition Pop (capacity : Z) (object_ok nodes_ok : bool) : ST t (option nat) :=
  busy ← gets busyQueueNum_;
  if MAX_QUEUE_COUNT <=? busy then mret None else
  modify (fun p => p <| busyQueueNum_ ::= fun n => u64 (n + 1) |>) ;;
  queues ← gets queues_;
  match queues with
  | [] =>
      if negb object_ok then mret None else
      id ← gets next;
      let q := if nodes_ok then Queue.ctor capacity
               else Queue.mk 0 0 capacity capacity 0 [] [] in
      modify (fun p => p <| store ::= <[id := q]> |> <| next ::= S |>) ;;
      mret (Some id)
  | id :: rest => modify (fun p => p <| queues_ := rest |>) ;; mret (Some id)
  end.

Definition Push (id : nat) : ST t unit :=
  busy ← gets busyQueueNum_;
  if busy <=? 0 then mret tt else
  modify (fun p => p <| busyQueueNum_ ::= fun n => u64 (n - 1) |>) ;;
  modify (fun p => p <| store ::= alter (fun q => snd (Queue.Reset q)) id |>) ;;
  modify (fun p => p <| queues_ ::= fun l => l ++ [id] |>).

Definition BusyQueueNum (p : t) : Z := busyQueueNum_ p.

(** Clients that push only queues they hold, each once. *)
Inductive step (capacity : Z) : t * list nat -> t * list nat -> Prop :=
  | step_pop o n p p' id held :
      Pop capacity o n p = (Some id, p') -> step capacity (p, held) (p', id :: held)
  | step_pop_none o n p p' held :
      Pop capacity o n p = (None, p') -> step capacity (p, held) (p', held)
  | step_push id h1 h2 p :
      step capacity (p, h1 ++ id :: h2) (snd (Push id p), h1 ++ h2).

End pool.
End QueuePool.

Module ThreadPool.

Definition THREAD_STOP_TIMEOUT : Z := 3600 * 24 * 1000.

Record t := mk {
  store : gmap nat Thread.t;
  next : nat;
  stackSize_ : Z;
  busyThreads_ : list nat;
  idleThreads_ : list nat;
}.
#[global] Instance eta_thread_pool : Eta t := fun r =>
  mk (store r) (next r) (stackSize_ r) (busyThreads_ r) (idleThreads_ r).

Definition ctor : t := mk ∅ 0 THREAD_DEFAULT_STACK_SIZE [] [].
Definition SetStackSize (size : Z) (p : t) : t := p <| stackSize_ := size |>.
Definition getStackSize (p : t) : Z := wrap_s 32 (stackSize_ p).

Definition thread_of (p : t) (id : nat) : Thread.t := default Thread.ctor (store p !! id).

Definition Pop (new_ok : bool) : ST t (option nat) :=
  idle ← gets idleThreads_;
  match idle with
  | [] =>
      if negb new_ok then mret None else
      id ← gets next;
      modify (fun p => p <| store ::= <[id := Thread.SetStackSize (stackSize_ p) Thread.ctor]> |> <| next ::= S |>) ;;
      modify (fun p => p <| busyThreads_ ::= fun l => l ++ [id] |>) ;;
      mret (Some id)
  | id :: rest =>
      modify (fun p => p <| idleThreads_ := rest |>) ;;
      modify (fun p => p <| busyThreads_ ::= fun l => l ++ [id] |>) ;;
      mret (Some id)
  end.

(** The object after [StopThread()] returned ([ThreadLife] has the interleaving):
    an active thread has been told to stop, has stopped and is joined. *)
Definition StopThread (exited : bool) (th : Thread.t) : Thread.t :=
  if Thread.IsActive exited th
  then th <| Thread.running_ := false |> <| Thread.status_ := Thread.STOPPED |>
          <| Thread.thread_ := snd (WaitThread (Thread.thread_ th)) |>
  else th.

(** [for (iter...) if (iter->GetThreadId() == tid) { erase; break; }] *)
Fixpoint erase_first (p : t) (tid : Z) (l : list nat) : list nat :=
  match l with
  | [] => []
  | id :: l' => if Thread.GetThreadId (thread_of p id) =? tid then l' else id :: erase_first p tid l'
  end.

Definition Push (exited : bool) (id : nat) : ST t unit :=
  modify (fun p => p <| store ::= alter (StopThread exited) id |>) ;;
  modify (fun p => p <| busyThreads_ := erase_first p (Thread.GetThreadId (thread_of p id)) (busyThreads_ p) |>) ;;
  modify (fun p => p <| idleThreads_ ::= fun l => l ++ [id] |>).

(** What the polling loop of [StopThreads] observes at its [k]-th round. *)
Class Polling := {
  elapsed : nat -> Z;
  exited_at : nat -> nat -> bool;
  hung : nat -> bool;
}.

(** One round over the busy threads: [None] when an active thread hangs, else
    the number of active threads. *)
Fixpoint count_active `{!Polling} (k : nat) (p : t) (l : list nat) : option nat :=
  match l with
  | [] => Some 0%nat
  | id :: l' =>
      if Thread.IsActive (exited_at k id) (thread_of p id)
      then if hung id then None else S <$> count_active k p l'
      else count_active k p l'
  end.

Fixpoint poll `{!Polling} (fuel k : nat) (timeOut : Z) (p : t) : option bool :=
  match fuel with
  | O => None
  | S fuel' =>
      if timeOut <? elapsed k then Some false else
      match count_active k p (busyThreads_ p) with
      | None => Some false
      | Some O => Some true
      | Some _ => poll fuel' (S k) timeOut p
      end
  end.

(** [StopThreads(timeOut)]: [None] when the fuel runs out. *)
Definition StopThreads `{!Polling} (fuel : nat) (timeOut : Z) (p : t) : option (bool * t) :=
  let p1 := p <| store := foldr (alter (fun th => th <| Thread.running_ := false |>)) (store p) (busyThreads_ p) |> in
  match poll fuel 0 timeOut p1 with
  | None => None
  | Some false => Some (false, p1)
  | Some true =>
      Some (true, p1 <| store := foldr (alter (fun th => th <| Thread.thread_ := 0 |>)) (store p1) (busyThreads_ p1) |>
                     <| idleThreads_ ::= fun l => l ++ busyThreads_ p1 |> <| busyThreads_ := [] |>)
  end.

End ThreadPool.

(** ** Lemmas *)

Module QueuePoolFacts.
Import QueuePool.

Section facts.
  Context {A : Type} (capacity : Z).
  Implicit Types (p : @QueuePool.t A).

Record inv (s : @QueuePool.t A * list nat) : Prop := {
  i_nodup : NoDup (queues_ s.1 ++ s.2);
  i_fresh : forall id, id ∈ queues_ s.1 ++ s.2 -> (id < next s.1)%nat;
  i_busy : Z.of_nat (length s.2) <= busyQueueNum_ s.1 <= MAX_QUEUE_COUNT;
}.

Lemma pool_step_inv (s s' : @QueuePool.t A * list nat) : step capacity s s' -> inv s -> inv s'.
Proof.
  intros Hs [HN HF HB]. unfold MAX_QUEUE_COUNT in *. destruct Hs as [o n p p' id held E|o n p p' held E|id h1 h2 p]; cbn in *.
  - unfold Pop in E. cbv [mbind ST_bind gets modify mret ST_ret] in E.
    destruct (MAX_QUEUE_COUNT <=? busyQueueNum_ p) eqn:EB; [done|]. unfold MAX_QUEUE_COUNT in *. boolify.
    cbn in E. destruct (queues_ p) as [|id' rest] eqn:EQ.
    + destruct (negb o); [done|]. cbn in E. simplify_eq. split; cbn; rewrite ?EQ; cbn in *.
      * constructor; [|done]. intros ?%HF. lia.
      * intros id [->|?%HF]%elem_of_cons; lia.
      * rewrite wrap_u_small by lia. unfold MAX_QUEUE_COUNT. lia.
    + cbn in E. simplify_eq. split; cbn in *.
      * rewrite <- Permutation_middle. done.
      * intros id' Hin. apply HF. rewrite <- Permutation_middle in Hin. done.
      * rewrite wrap_u_small by lia. unfold MAX_QUEUE_COUNT. lia.
  - unfold Pop in E. cbv [mbind ST_bind gets modify mret ST_ret] in E.
    destruct (MAX_QUEUE_COUNT <=? busyQueueNum_ p) eqn:EB; [by simplify_eq; split|].
    unfold MAX_QUEUE_COUNT in *. boolify.
    cbn in E. destruct (queues_ p) as [|id' rest] eqn:EQ; [|done].
    destruct (negb o); [|done]. cbn in E. simplify_eq. split; cbn; rewrite ?EQ; [done|done|].
    rewrite wrap_u_small by lia. unfold MAX_QUEUE_COUNT. lia.
  - assert (0 < busyQueueNum_ p) as Hb by (rewrite length_app in HB; cbn in HB; lia).
    unfold Push. cbv [mbind ST_bind gets modify mret ST_ret]. rewrite (proj2 (Z.leb_gt _ _)) by lia. cbn.
    assert (queues_ p ++ h1 ++ id :: h2 ≡ₚ (queues_ p ++ [id]) ++ h1 ++ h2) as HP by solve_Permutation.
    split; cbn.
    + by rewrite <- HP.
    + intros id'. rewrite <- HP. apply HF.
    + rewrite wrap_u_small by lia. rewrite length_app in *. cbn in HB. unfold MAX_QUEUE_COUNT. lia.
Qed.

Lemma pool_reachable_inv s : rtc (step capacity) (ctor, []) s -> inv s.
Proof.
  apply (rtc_ind_r (fun s => inv s)); [|intros; by eapply pool_step_inv].
  split; cbn; [constructor|set_solver|unfold MAX_QUEUE_COUNT; lia].
Qed.

End facts.
End QueuePoolFacts.

Module StopThreadsFacts.
Import ThreadPool.

Section facts.
  Context `{!Polling} (timeOut : Z) (p : t).

Lemma count_active_some k l : (forall id, id ∈ l -> hung id = false) -> exists n, count_active k p l = Some n.
Proof.
  induction l as [|id l IH]; intros Hh; [by exists 0%nat|]. cbn.
  destruct IH as [n ->]; [intros id' Hi; apply Hh; by right|].
  rewrite (Hh id) by by left. case_match; eauto.
Qed.

Lemma count_active_exited k l : (forall id, id ∈ l -> exited_at k id = true) -> count_active k p l = Some 0%nat.
Proof.
  induction l as [|id l IH]; intros He; [done|]. cbn. rewrite (He id) by by left.
  unfold Thread.IsActive. rewrite IH by (intros id' Hi; apply He; by right). by case_decide.
Qed.

(** The time is up at round [last]. *)
Lemma poll_ends fuel : forall k last, timeOut < elapsed last -> (k <= last < k + fuel)%nat ->
  exists b, poll fuel k timeOut p = Some b.
Proof.
  induction fuel as [|fuel IH]; intros k last Hl Hk; [lia|]. cbn [poll].
  destruct (Z.ltb_spec timeOut (elapsed k)); [by exists false|].
  destruct (count_active k p (busyThreads_ p)) as [[|n]|]; [by exists true| |by exists false].
  apply (IH (S k) last); [done|]. destruct (decide (k = last)) as [->|]; lia.
Qed.

Lemma poll_true fuel : forall k j, (k <= j < k + fuel)%nat ->
  (forall i, (k <= i <= j)%nat -> elapsed i <= timeOut) ->
  (forall id, id ∈ busyThreads_ p -> hung id = false /\ exited_at j id = true) ->
  poll fuel k timeOut p = Some true.
Proof.
  induction fuel as [|fuel IH]; intros k j Hk He Hb; [lia|]. cbn [poll].
  destruct (Z.ltb_spec timeOut (elapsed k)) as [Hl|]; [specialize (He k); lia|].
  destruct (count_active_some k (busyThreads_ p)) as [n En]; [naive_solver|].
  rewrite En. destruct n as [|n]; [done|]. apply (IH (S k) j); [|intros i Hi; apply He; lia|done].
  destruct (decide (k = j)) as [->|]; [|lia].
  rewrite count_active_exited in En by naive_solver. done.
Qed.

End facts.

(** A change of every thread of a list. *)
Lemma foldr_alter_lookup (f : Thread.t -> Thread.t) (m : gmap nat Thread.t) l id :
  (forall th, f (f th) = f th) ->
  foldr (alter f) m l !! id = if decide (id ∈ l) then f <$> m !! id else m !! id.
Proof.
  intros Hf. induction l as [|x l IH]; cbn; [by rewrite decide_False by apply not_elem_of_nil|].
  destruct (decide (id = x)) as [->|Hne].
  - rewrite lookup_alter_eq, IH, (decide_True (P := x ∈ x :: l)) by by left. destruct (decide (x ∈ l)), (m !! x); cbn; by rewrite ?Hf.
  - rewrite lookup_alter_ne, IH by done. apply decide_ext. set_solver.
Qed.

End StopThreadsFacts.

(** C35. Clients that return each queue once never share a queue, a queue in the
    pool is held by nobody, and at most ten queues are in use. *)
Theorem queue_pool_exclusive {A : Type} capacity (p : @QueuePool.t A) held :
  rtc (QueuePool.step capacity) (QueuePool.ctor, []) (p, held) ->
  NoDup held /\ (forall id, id ∈ held -> id ∉ QueuePool.queues_ p) /\ (length held <= 10)%nat.
Proof.
  intros HR. destruct (QueuePoolFacts.pool_reachable_inv capacity _ HR) as [HN HF HB]. cbn in *.
  apply NoDup_app in HN as (HN1 & HN2 & HN3). unfold QueuePool.MAX_QUEUE_COUNT in *.
  split_and!; [done| |lia]. intros id H1 H2. by eapply HN2.
Qed.

Lemma queue_pool_exclusive_witness :
  exists (p : @QueuePool.t nat) held, length held = 2%nat /\ NoDup held /\
    (forall id, id ∈ held -> id ∉ QueuePool.queues_ p) /\ (length held <= 10)%nat.
Proof.
  exists (snd (QueuePool.Pop 1024 true true (snd (QueuePool.Pop 1024 true true QueuePool.ctor)))), [1%nat; 0%nat].
  split; [done|]. apply (queue_pool_exclusive 1024).
  apply rtc_l with (snd (QueuePool.Pop 1024 true true QueuePool.ctor), [0%nat]);
    [by apply (QueuePool.step_pop _ true true)|].
  apply rtc_once. by apply (QueuePool.step_pop _ true true).
Defined.

(** [Push] does not notice that a queue is already in the pool: after two
    queues are taken and one of them is returned twice, the pool hands the same
    queue to the next two clients. *)
Theorem queue_pool_double_push {A : Type} capacity :
  let p1 := snd (QueuePool.Pop capacity true true (@QueuePool.ctor A)) in
  let p2 := snd (QueuePool.Pop capacity true true p1) in
  let p3 := snd (QueuePool.Push 0 (snd (QueuePool.Push 0 p2))) in
  let '(r1, p4) := QueuePool.Pop capacity true true p3 in
  let '(r2, p5) := QueuePool.Pop capacity true true p4 in
  r1 = Some 0%nat /\ r2 = Some 0%nat.
Proof. done. Qed.

(** [ThreadPool::Push] looks for the entry to remove by pthread handle, and a
    stopped thread has handle 0 like one that was never started: returning a
    stopped thread removes the first such entry of the list, so a thread that
    was just handed out disappears from the busy list while the stopped one is
    busy and idle at once. *)
Theorem thread_pool_push_erases_other h :
  0 < h ->
  let p1 := snd (ThreadPool.Pop true ThreadPool.ctor) in
  let p2 := snd (ThreadPool.Pop true p1) in
  let started := fun th => th <| Thread.status_ := Thread.RUNNING |> <| Thread.running_ := true |>
                              <| Thread.thread_ := h |> in
  let p3 := p2 <| ThreadPool.store ::= alter started 1%nat |> in
  let p4 := snd (ThreadPool.Push false 1 p3) in
  ThreadPool.busyThreads_ p4 = [1%nat] /\ ThreadPool.idleThreads_ p4 = [1%nat].
Proof. done. Qed.

Lemma thread_pool_push_erases_other_witness :
  let p1 := snd (ThreadPool.Pop true ThreadPool.ctor) in
  let p2 := snd (ThreadPool.Pop true p1) in
  let started := fun th => th <| Thread.status_ := Thread.RUNNING |> <| Thread.running_ := true |>
                              <| Thread.thread_ := 77 |> in
  let p3 := p2 <| ThreadPool.store ::= alter started 1%nat |> in
  let p4 := snd (ThreadPool.Push false 1 p3) in
  ThreadPool.busyThreads_ p4 = [1%nat] /\ ThreadPool.idleThreads_ p4 = [1%nat].
Proof. apply thread_pool_push_erases_other. lia. Defined.

(** [StopThreads] returns: when its time is up, at the latest.  It reports success
    when every busy thread has left its loop before that and none of them hangs;
    then all of them are joined and idle.  When it reports failure the threads
    have been told to stop and are busy still. *)
Theorem stop_threads_returns `{!ThreadPool.Polling} (timeOut : Z) (p : ThreadPool.t) (last : nat) :
  timeOut < ThreadPool.elapsed last ->
  exists b p', ThreadPool.StopThreads (S last) timeOut p = Some (b, p') /\
    (forall id, id ∈ ThreadPool.busyThreads_ p -> is_Some (ThreadPool.store p !! id) ->
       Thread.running_ (ThreadPool.thread_of p' id) = false /\
       (b = true -> Thread.GetThreadId (ThreadPool.thread_of p' id) = 0)) /\
    (if b then ThreadPool.busyThreads_ p' = [] /\
               ThreadPool.idleThreads_ p' = ThreadPool.idleThreads_ p ++ ThreadPool.busyThreads_ p
     else ThreadPool.busyThreads_ p' = ThreadPool.busyThreads_ p /\
          ThreadPool.idleThreads_ p' = ThreadPool.idleThreads_ p) /\
    (forall j, (j <= last)%nat -> (forall i, (i <= j)%nat -> ThreadPool.elapsed i <= timeOut) ->
       (forall id, id ∈ ThreadPool.busyThreads_ p ->
          ThreadPool.hung id = false /\ ThreadPool.exited_at j id = true) -> b = true).
Proof.
  intros Hl. unfold ThreadPool.StopThreads. set (p1 := p <| ThreadPool.store := _ |>).
  destruct (StopThreadsFacts.poll_ends timeOut p1 (S last) 0 last Hl ltac:(lia)) as [b Eb]. rewrite Eb.
  assert (forall id, id ∈ ThreadPool.busyThreads_ p -> is_Some (ThreadPool.store p !! id) ->
    exists th, ThreadPool.store p1 !! id = Some th /\ Thread.running_ th = false) as H1.
  { intros id Hi [th Eth]. unfold p1. cbn. rewrite StopThreadsFacts.foldr_alter_lookup by done.
    rewrite decide_True, Eth by done. by eexists. }
  assert (forall j, (j <= last)%nat -> (forall i, (i <= j)%nat -> ThreadPool.elapsed i <= timeOut) ->
       (forall id, id ∈ ThreadPool.busyThreads_ p ->
          ThreadPool.hung id = false /\ ThreadPool.exited_at j id = true) -> b = true) as Ht.
  { intros j Hj He Hb. rewrite (StopThreadsFacts.poll_true timeOut p1 (S last) 0 j) in Eb; [by simplify_eq|lia| |done].
    intros i Hi. apply He. lia. }
  destruct b; do 2 eexists; (split; [done|]); (split; [|split; [done|exact Ht]]).
  - intros id Hi Hs. destruct (H1 id Hi Hs) as (th & Eth & Hr). unfold ThreadPool.thread_of. cbn.
    rewrite StopThreadsFacts.foldr_alter_lookup by done. rewrite decide_True by done.
    change (foldr _ _ _ !! id) with (ThreadPool.store p1 !! id). rewrite Eth. done.
  - intros id Hi Hs. destruct (H1 id Hi Hs) as (th & Eth & Hr). unfold ThreadPool.thread_of. rewrite Eth. done.
Qed.

(** One thread that runs until the third round. *)
#[local] Instance three_rounds : ThreadPool.Polling :=
  {| ThreadPool.elapsed := fun k => 10 * Z.of_nat k; ThreadPool.exited_at := fun k _ => (2 <=? k)%nat;
     ThreadPool.hung := fun _ => false |}.

Definition running_pool : ThreadPool.t :=
  (snd (ThreadPool.Pop true ThreadPool.ctor))
    <| ThreadPool.store ::= alter (fun th => th <| Thread.status_ := Thread.RUNNING |> <| Thread.thread_ := 77 |>) 0%nat |>.

Lemma stop_threads_returns_witness :
  exists b p', ThreadPool.StopThreads 11 95 running_pool = Some (b, p') /\ b = true.
Proof.
  destruct (stop_threads_returns 95 running_pool 10) as (b & p' & E & _ & _ & Hb); [by vm_compute|].
  exists b, p'. split; [exact E|]. apply (Hb 2%nat); [lia|intros i Hi; cbn; lia|by intros].
Defined.
