(* ===== verification/PluginManager.v ===== *)
(** * PluginManager: finding, loading and sharing algorithm plugins

    aie_plugin_info, plugin_label.cpp, plugin.cpp, plugin_manager.cpp and
    aie_dl_operation.cpp.  Plugins are shared objects: [users] lists the
    [std::shared_ptr]s held outside the manager's map, and a plugin is destroyed
    with its last reference.  [open] and [algorithms] are the libraries and the
    plugin objects of third-party code that exist; [label] is the [PluginLabel]
    that makes the paths, which goes with every plugin that is destroyed. *)

From Stdlib Require Import ZArith Lia Ascii String.
From stdpp Require Import gmap strings list pretty.
From S2P Require Import Prelude Protocol.

#[local] Open Scope string_scope.
#[local] Open Scope Z_scope.

(** ** Algorithm identifiers (aie_plugin_info) *)

Definition ALGORITHM_ID_SAMPLE_1 := "sample_plugin_1".
Definition ALGORITHM_ID_SAMPLE_2 := "sample_plugin_2".
Definition ALGORITHM_ID_KWS := "asr_keyword_spotting".
Definition ALGORITHM_ID_IC := "cv_image_classification".
Definition ALGORITHM_ID_RC := "cv_card_rectification".
Definition ALGORITHM_ID_INVALID := "invalid algorithm id".

Definition ALGORITHM_TYPE_ID_LIST : list string :=
  [ALGORITHM_ID_SAMPLE_1; ALGORITHM_ID_SAMPLE_2; ALGORITHM_ID_KWS; ALGORITHM_ID_IC; ALGORITHM_ID_RC].

Definition GetAlgorithmIdByType (type : Z) : string :=
  if (Z.of_nat (length ALGORITHM_TYPE_ID_LIST) <=? type) || (type <? 0) then ALGORITHM_ID_INVALID
  else default "" (ALGORITHM_TYPE_ID_LIST !! Z.to_nat type).

(** ** [PluginLabel::GetLibPath] *)

Module PluginLabel.
Definition PLUS := "+".

(** The code and [libPath]. *)
Definition GetLibPath (aid : string) (version : Z) : Z * string :=
  let label := aid +:+ PLUS +:+ pretty version in
  let libPath :=
    if String.eqb label "cv_card_rectification+20001001" then "/usr/lib/libcv_card_rectification.so"
    else if String.eqb label "sample_plugin_1+1" then "/usr/lib/libsample_plugin_1.so"
    else if String.eqb label "sample_plugin_2+1" then "/usr/lib/libsample_plugin_2.so"
    else if String.eqb label "asr_keyword_spotting+20001002" then "/usr/lib/libasr_keyword_spotting.so"
    else if String.eqb label "cv_image_classification+20001001" then "/usr/lib/libcv_image_classification.so"
    else "" in
  if String.eqb libPath "" then (RETCODE_FAILURE, libPath) else (RETCODE_SUCCESS, libPath).
End PluginLabel.

(** ** The dynamic linker

    [dlopen n path] opens a library at the [n]-th attempt, [has_interface] says
    whether it exports [PLUGIN_INTERFACE], [make_plugin] whether that function
    returns an object, and [new_label n] whether there is memory for the
    [PluginLabel] at the [n]-th attempt to create it. *)
Class DynLib := {
  realpath : string -> option string;
  dlopen : nat -> string -> bool;
  has_interface : string -> bool;
  make_plugin : nat -> string -> bool;
  new_label : nat -> bool;
}.

Definition LIB_PATH := "/usr/".

(** [PluginKey] and the order of the [std::map]. *)
Module PluginKey.
Record t := mk { aid : string; version : Z }.
Definition ltb (k another : t) : bool :=
  if String.ltb (aid k) (aid another) then true
  else if String.eqb (aid k) (aid another) && (version k <? version another) then true
  else false.
End PluginKey.

Module Plugin.
(** [pluginAlgorithm_] and [handle_] are identities of objects outside. *)
Record t := mk { pluginAlgorithm_ : option nat; aid_ : string; version_ : Z; handle_ : option nat }.
#[global] Instance eta_plugin : Eta t := fun r => mk (pluginAlgorithm_ r) (aid_ r) (version_ r) (handle_ r).
Definition ctor (aid : string) (version : Z) : t := mk None aid version None.
End Plugin.

Module PluginManager.

Record t := mk {
  pluginMap_ : gmap (string * Z) nat;
  plugins : gmap nat Plugin.t;     (** the live [Plugin] objects *)
  users : list nat;                (** the references held outside the map *)
  next : nat;
  tick : nat;                      (** calls of the dynamic linker so far *)
  open : gset nat;                 (** open library handles *)
  algorithms : gset nat;           (** live plugin algorithms *)
  bad : bool;                      (** closed or deleted twice, or deleted after its library was closed *)
  label : bool;                    (** [PluginLabel::instance_] is set *)
  labels : nat;                    (** attempts to create it so far *)
}.
#[global] Instance eta_plugin_manager : Eta t := fun r =>
  mk (pluginMap_ r) (plugins r) (users r) (next r) (tick r) (open r) (algorithms r) (bad r) (label r) (labels r).

Definition ctor : t := mk ∅ ∅ [] 0 0 ∅ ∅ false false 0.

Section operations.
  Context `{!DynLib}.

(** [PluginLabel::GetInstance()]: whether it returns the instance. *)
Definition GetPluginLabel : ST t bool :=
  l ← gets label;
  if (l : bool) then mret true else
  n ← gets labels;
  modify (fun s => s <| labels ::= S |>) ;;
  if new_label n then modify (fun s => s <| label := true |>) ;; mret true else mret false.

Definition ReleasePluginLabel : ST t unit := modify (fun s => s <| label := false |>).

(** [AieDlopen(libName)]: only libraries below /usr/. *)
Definition AieDlopen (libName : string) : ST t (option nat) :=
  if (String.length libName <? String.length LIB_PATH)%nat then mret None else
  match realpath libName with
  | None => mret None
  | Some realLibPath =>
      if negb (String.prefix LIB_PATH realLibPath) then mret None else
      n ← gets tick;
      modify (fun s => s <| tick ::= S |>) ;;
      if dlopen n realLibPath
      then h ← gets next;
           modify (fun s => s <| next ::= S |> <| open ::= union {[h]} |>) ;; mret (Some h)
      else mret None
  end.

Definition AieDlclose (h : nat) : ST t unit := fun s =>
  (tt, if decide (h ∈ open s) then s <| open ::= fun o => o ∖ {[h]} |> else s <| bad := true |>).

(** [delete pluginAlgorithm_]: runs the destructor in the library of [h]. *)
Definition delete_algorithm (a : nat) (h : option nat) : ST t unit := fun s =>
  (tt, if decide (a ∈ algorithms s) then
         match h with
         | Some h => if decide (h ∈ open s) then s <| algorithms ::= fun o => o ∖ {[a]} |> else s <| bad := true |>
         | None => s <| algorithms ::= fun o => o ∖ {[a]} |>
         end
       else s <| bad := true |>).

(** [Plugin::LoadPluginAlgorithm()] on the object [p]; the guard closes the
    library on every early return. *)
Definition LoadPluginAlgorithm (p : Plugin.t) : ST t (Z * Plugin.t) :=
  pluginLabel ← GetPluginLabel;
  if negb pluginLabel then mret (RETCODE_FAILURE, p) else
  let '(retCode, libPath) := PluginLabel.GetLibPath (Plugin.aid_ p) (Plugin.version_ p) in
  if negb (retCode =? RETCODE_SUCCESS) then mret (retCode, p) else
  handle ← AieDlopen libPath;
  match handle with
  | None => mret (RETCODE_OPEN_SO_FAILED, p)
  | Some h =>
      if negb (has_interface libPath) then AieDlclose h ;; mret (RETCODE_SO_LACK_SYMBOL, p) else
      n ← gets tick;
      modify (fun s => s <| tick ::= S |>) ;;
      if negb (make_plugin n libPath) then AieDlclose h ;; mret (RETCODE_NULL_PARAM, p) else
      a ← gets next;
      modify (fun s => s <| next ::= S |> <| algorithms ::= union {[a]} |>) ;;
      mret (RETCODE_SUCCESS, p <| Plugin.pluginAlgorithm_ := Some a |> <| Plugin.handle_ := Some h |>)
  end.

(** [Plugin::UnloadPluginAlgorithm()] *)
Definition UnloadPluginAlgorithm (p : Plugin.t) : ST t unit :=
  match Plugin.pluginAlgorithm_ p with
  | None => mret tt
  | Some a => delete_algorithm a (Plugin.handle_ p)
  end ;;
  match Plugin.handle_ p with
  | None => mret tt
  | Some h => AieDlclose h
  end.

(** [~Plugin()]: the label goes with every plugin, if necessary it is created to
    be released. *)
Definition dtor (p : Plugin.t) : ST t unit :=
  UnloadPluginAlgorithm p ;;
  pluginLabel ← GetPluginLabel;
  if (pluginLabel : bool) then ReleasePluginLabel else mret tt.

Definition referenced (id : nat) (s : t) : bool :=
  bool_decide (id ∈ users s) || bool_decide (map_Exists (fun _ id' => id' = id) (pluginMap_ s)).

(** What the end of the life of a [std::shared_ptr] does. *)
Definition collect (id : nat) : ST t unit :=
  r ← gets (referenced id);
  if (r : bool) then mret tt else
  p ← gets (fun s => plugins s !! id);
  match p with
  | None => mret tt
  | Some p => modify (fun s => s <| plugins ::= delete id |>) ;; dtor p
  end.

(** A holder outside the manager drops its reference. *)
Fixpoint remove_one (id : nat) (l : list nat) : list nat :=
  match l with
  | [] => []
  | x :: l' => if decide (x = id) then l' else x :: remove_one id l'
  end.

Definition release (id : nat) : ST t unit :=
  modify (fun s => s <| users ::= remove_one id |>) ;; collect id.

Definition FindPlugin (key : string * Z) : ST t (option nat) :=
  gets (fun s => pluginMap_ s !! key).

Definition AddPlugin (key : string * Z) (id : nat) : ST t unit :=
  modify (fun s => s <| pluginMap_ ::= <[key := id]> |>).

Definition DelPlugin (key : string * Z) : ST t unit :=
  modify (fun s => s <| pluginMap_ ::= delete key |>).

(** [LoadPlugin]: the shared object is a copy of a temporary, which dies first; a
    plugin that fails to load dies with the local pointer. *)
Definition LoadPlugin (aid : string) (version : Z) : ST t (Z * option nat) :=
  dtor (Plugin.ctor aid version) ;;
  r ← LoadPluginAlgorithm (Plugin.ctor aid version);
  let '(ret, p) := r in
  if negb (ret =? RETCODE_SUCCESS) then dtor p ;; mret (ret, None) else
  id ← gets next;
  modify (fun s => s <| next ::= S |> <| plugins ::= <[id := p]> |>) ;;
  AddPlugin (aid, version) id ;;
  modify (fun s => s <| users ::= cons id |>) ;;
  mret (RETCODE_SUCCESS, Some id).

(** [GetPlugin]: the reference returned is one of [users]. *)
Definition GetPlugin (aid : string) (version : Z) : ST t (Z * option nat) :=
  found ← FindPlugin (aid, version);
  match found with
  | Some id => modify (fun s => s <| users ::= cons id |>) ;; mret (RETCODE_SUCCESS, Some id)
  | None => LoadPlugin aid version
  end.

Definition UnloadPlugin (aid : string) (version : Z) : ST t unit :=
  found ← FindPlugin (aid, version);
  match found with
  | Some id => DelPlugin (aid, version) ;; collect id
  | None => mret tt
  end.

(** [DelPluginByAID]: every version of the algorithm. *)
Definition DelPluginByAID (aid : string) : ST t unit :=
  keys ← gets (fun s => base.filter (fun k => k.1 = aid) ((map_to_list (pluginMap_ s)).*1));
  for_each (fun k => UnloadPlugin k.1 k.2) keys.

Inductive op :=
  | OpGet (aid : string) (version : Z)
  | OpUnload (aid : string) (version : Z)
  | OpRelease (id : nat).

Definition exec (o : op) : ST t unit :=
  match o with
  | OpGet aid version => GetPlugin aid version ;; mret tt
  | OpUnload aid version => UnloadPlugin aid version
  | OpRelease id => release id
  end.

End operations.
End PluginManager.

(** ** Lemmas: no library and no plugin object is lost *)

Module PluginManagerFacts.
Import PluginManager.

Section facts.
  Context `{!DynLib}.

(** Every live plugin owns one open library and one algorithm object, nobody
    else owns one, and every reference is to a live plugin.  [x] is a plugin
    whose last reference may just have been dropped. *)
Record inv_except (x : option nat) (s : t) : Prop := {
  i_bad : bad s = false;
  i_live id p : plugins s !! id = Some p ->
    (Some id = x \/ referenced id s = true) /\ (id < next s)%nat /\
    exists a h, Plugin.pluginAlgorithm_ p = Some a /\ Plugin.handle_ p = Some h /\
                a ∈ algorithms s /\ h ∈ open s;
  i_users id : id ∈ users s -> is_Some (plugins s !! id);
  i_map k id : pluginMap_ s !! k = Some id ->
    exists p, plugins s !! id = Some p /\ k = (Plugin.aid_ p, Plugin.version_ p);
  i_open h : h ∈ open s -> (h < next s)%nat /\
    exists id p, plugins s !! id = Some p /\ Plugin.handle_ p = Some h;
  i_algo a : a ∈ algorithms s -> (a < next s)%nat /\
    exists id p, plugins s !! id = Some p /\ Plugin.pluginAlgorithm_ p = Some a;
  i_inj id1 id2 p1 p2 : plugins s !! id1 = Some p1 -> plugins s !! id2 = Some p2 -> id1 <> id2 ->
    Plugin.handle_ p1 <> Plugin.handle_ p2 /\ Plugin.pluginAlgorithm_ p1 <> Plugin.pluginAlgorithm_ p2;
  i_label : label s = true -> plugins s <> ∅;
}.

Definition inv : t -> Prop := inv_except None.

Lemma pm_inv_ctor : inv ctor.
Proof. split; cbn; try done; set_solver. Qed.

Lemma referenced_true id s :
  referenced id s = true <-> id ∈ users s \/ exists k, pluginMap_ s !! k = Some id.
Proof.
  unfold referenced. rewrite orb_true_iff, !bool_decide_eq_true. unfold map_Exists. naive_solver.
Qed.

(** The members an operation that only talks to the linker leaves alone. *)
Definition same_refs (s s' : t) : Prop :=
  pluginMap_ s' = pluginMap_ s /\ plugins s' = plugins s /\ users s' = users s /\ bad s' = bad s.

Lemma GetPluginLabel_spec s : wp GetPluginLabel (fun r s' => exists n, s' = s <| label := r |> <| labels := n |>) s.
Proof.
  unfold GetPluginLabel. do 2 wp_step. destruct (label s) eqn:E.
  - wp_step. exists (labels s). destruct s. cbn in *. by subst.
  - do 4 wp_step. destruct (new_label _); repeat wp_step; eexists; [done|]. by destruct s; cbn in *; subst.
Qed.

(** Whatever a plugin gives back, the label is gone afterwards. *)
Lemma dtor_releases p (P : t -> Prop) s :
  wp (UnloadPluginAlgorithm p) (fun _ => P) s ->
  wp (dtor p) (fun _ s' => exists s1 n, P s1 /\ s' = s1 <| label := false |> <| labels := n |>) s.
Proof.
  intros HU. unfold dtor. wp_step. eapply wp_mono; [exact HU|]. intros ? s1 HP. cbn beta in HP. wp_step.
  eapply wp_mono; [apply GetPluginLabel_spec|]. intros r ? [n ->]. destruct r.
  - apply wp_modify. by exists s1, n.
  - apply wp_ret. by exists s1, n.
Qed.

Lemma AieDlopen_spec path s :
  wp (AieDlopen path) (fun r s' => same_refs s s' /\ algorithms s' = algorithms s /\ (next s <= next s')%nat /\
    match r with
    | None => open s' = open s
    | Some h => (next s <= h < next s')%nat /\ open s' = {[h]} ∪ open s
    end) s.
Proof.
  unfold AieDlopen, same_refs.
  destruct (String.length path <? String.length LIB_PATH)%nat; [by apply wp_ret|].
  destruct (realpath path) as [rp|]; [|by apply wp_ret].
  destruct (negb _); [by apply wp_ret|]. do 4 wp_step. destruct (dlopen _ _).
  - repeat wp_step. cbn. split_and!; try done; lia.
  - wp_step. done.
Qed.

Lemma AieDlclose_spec h s : h ∈ open s ->
  wp (AieDlclose h) (fun _ s' => s' = s <| open ::= fun o => o ∖ {[h]} |>) s.
Proof. intros. unfold AieDlclose, wp. cbn. by rewrite decide_True. Qed.

Lemma LoadPluginAlgorithm_spec p s :
  (forall h, h ∈ open s -> (h < next s)%nat) ->
  wp (LoadPluginAlgorithm p) (fun r s' => same_refs s s' /\ (next s <= next s')%nat /\
    (if decide (r.1 = RETCODE_SUCCESS) then
       exists a h, r.2 = p <| Plugin.pluginAlgorithm_ := Some a |> <| Plugin.handle_ := Some h |> /\
         (next s <= h < next s')%nat /\ (next s <= a < next s')%nat /\
         open s' = {[h]} ∪ open s /\ algorithms s' = {[a]} ∪ algorithms s
     else r.2 = p /\ open s' = open s /\ algorithms s' = algorithms s)) s.
Proof.
  intros Hlt. unfold LoadPluginAlgorithm. wp_step. eapply wp_mono; [apply GetPluginLabel_spec|]. intros r s0 [n ->].
  destruct r; cbn [negb]; [|by apply wp_ret; unfold same_refs; cbn].
  destruct (PluginLabel.GetLibPath _ _) as [ret path].
  destruct (ret =? RETCODE_SUCCESS) eqn:E; cbn [negb]; boolify.
  2: { apply wp_ret. cbn. by rewrite decide_False. }
  wp_step. eapply wp_mono; [apply AieDlopen_spec|]. intros [h|] s1 ((E1 & E2 & E3 & E4) & Ha & Hn & Ho);
    cbn in E1, E2, E3, E4, Ha, Hn, Ho.
  2: { apply wp_ret. cbn. unfold same_refs. done. }
  destruct Ho as [Hh Ho]. assert (h ∈ open s1) as Hin by set_solver.
  assert (({[h]} ∪ open s) ∖ {[h]} = open s) as Hback.
  { apply set_eq. intros x. rewrite elem_of_difference, elem_of_union, elem_of_singleton.
    split; [naive_solver|]. intros Hx. split; [by right|]. intros ->. apply Hlt in Hx. lia. }
  destruct (has_interface path); cbn [negb].
  2: { wp_step. eapply wp_mono; [by apply AieDlclose_spec|]. intros _ s2 ->. wp_step. cbn.
       unfold same_refs. cbn. rewrite Ho, Hback. split_and!; try done; lia. }
  do 4 wp_step. destruct (make_plugin _ _); cbn [negb].
  2: { wp_step. eapply wp_mono; [by apply AieDlclose_spec|]. intros _ s2 ->. wp_step. cbn.
       unfold same_refs. cbn. rewrite Ho, Hback. split_and!; try done; lia. }
  repeat wp_step. cbn. unfold same_refs. cbn. split_and!; try done; [lia|].
  exists (next s1), h. rewrite Ho, Ha. split_and!; try done; lia.
Qed.

(** A destroyed plugin gives back its library and its algorithm. *)
Lemma Unload_spec p a h s :
  Plugin.pluginAlgorithm_ p = Some a -> Plugin.handle_ p = Some h -> a ∈ algorithms s -> h ∈ open s ->
  wp (UnloadPluginAlgorithm p) (fun _ s' =>
    s' = s <| algorithms ::= fun o => o ∖ {[a]} |> <| open ::= fun o => o ∖ {[h]} |>) s.
Proof.
  intros Hpa Hph Ha Hh. unfold UnloadPluginAlgorithm. rewrite Hpa, Hph. wp_step.
  unfold wp at 1, delete_algorithm. cbn. rewrite !decide_True by done. by apply AieDlclose_spec.
Qed.

Lemma inv_weaken x s : inv s -> inv_except x s.
Proof. intros []. split; try done. intros id p Hp. destruct (i_live0 id p Hp) as ([|] & ?); [done|]. auto. Qed.

Lemma collect_spec id s : inv_except (Some id) s -> wp (collect id) (fun _ => inv) s.
Proof.
  intros I. unfold collect. do 2 wp_step. destruct (referenced id s) eqn:ER.
  { wp_step. destruct I. split; try done. intros id' p Hp.
    destruct (i_live0 id' p Hp) as (HR & ?). split; [|done]. right. naive_solver. }
  do 2 wp_step. destruct (plugins s !! id) as [p|] eqn:Ep.
  2: { wp_step. destruct I. split; try done. intros id' p' Hp.
       destruct (i_live0 id' p' Hp) as ([?|HR] & ?); [congruence|]. split; [by right|done]. }
  destruct (i_live _ _ I id p Ep) as (_ & Hlt & a & h & Hpa & Hph & Ha & Hh).
  do 2 wp_step. eapply wp_mono; [eapply dtor_releases; by apply (Unload_spec p a h)|]. cbn. intros _ s' (s1 & n & -> & ->).
  assert (forall x, x ∈ users s -> x <> id) as Hu.
  { intros x Hx ->. apply not_true_iff_false in ER. apply ER, referenced_true. by left. }
  assert (forall k x, pluginMap_ s !! k = Some x -> x <> id) as Hm.
  { intros k x Hx ->. apply not_true_iff_false in ER. apply ER, referenced_true. by right; eexists. }
  destruct I as [Ibad Il Iu Im Io Ia Ii Ilab]. split; cbn.
  - done.
  - intros id' p' Hp'. apply lookup_delete_Some in Hp' as [Hne Hp'].
    destruct (Il id' p' Hp') as (HR & Hlt' & a' & h' & ? & ? & ? & ?).
    destruct (Ii id id' p p' Ep Hp' Hne) as [N1 N2].
    split; [right; destruct HR; [congruence|done]|]. split; [done|]. exists a', h'.
    rewrite !elem_of_difference, !elem_of_singleton. split_and!; try done; congruence.
  - intros x Hx. rewrite lookup_delete_ne by (intros <-; by eapply Hu). by apply Iu.
  - intros k x Hk. destruct (Im k x Hk) as (p' & ? & ?). exists p'.
    rewrite lookup_delete_ne by (intros <-; by eapply Hm). done.
  - intros h' [Hin Hne]%elem_of_difference. destruct (Io h' Hin) as (? & id' & p' & Hp' & Hh').
    split; [done|]. exists id', p'. rewrite lookup_delete_ne; [done|]. intros <-. set_solver.
  - intros a' [Hin Hne]%elem_of_difference. destruct (Ia a' Hin) as (? & id' & p' & Hp' & Ha').
    split; [done|]. exists id', p'. rewrite lookup_delete_ne; [done|]. intros <-. set_solver.
  - intros id1 id2 p1 p2 [_ H1]%lookup_delete_Some [_ H2]%lookup_delete_Some. by apply Ii.
  - done.
Qed.

Lemma remove_one_sub id x l : x ∈ remove_one id l -> x ∈ l.
Proof.
  induction l as [|y l IH]; cbn; [done|]. case_decide; intros Hx; [by right|].
  apply elem_of_cons in Hx as [->|Hx]; [by left|right; auto].
Qed.

Lemma remove_one_other id x l : x <> id -> x ∈ l -> x ∈ remove_one id l.
Proof.
  intros Hne. induction l as [|y l IH]; cbn; [done|]. intros [->|Hx]%elem_of_cons; case_decide.
  - congruence. - by left. - done. - right; auto.
Qed.

Lemma release_inv id s : inv s -> wp (release id) (fun _ => inv) s.
Proof.
  intros I. unfold release. do 2 wp_step. apply collect_spec. destruct I as [Ibad Il Iu Im Io Ia Ii Ilab].
  split; cbn; try done.
  - intros id' p Hp. destruct (Il id' p Hp) as ([?|HR] & ?); [done|]. split; [|done].
    destruct (decide (id' = id)) as [->|Hne]; [by left|right]. rewrite referenced_true in *. cbn.
    destruct HR; [left; by apply remove_one_other|by right].
  - intros x Hx. apply Iu. by eapply remove_one_sub.
Qed.

Lemma UnloadPlugin_inv aid version s : inv s -> wp (UnloadPlugin aid version) (fun _ => inv) s.
Proof.
  intros I. unfold UnloadPlugin, FindPlugin, DelPlugin. do 2 wp_step.
  destruct (pluginMap_ s !! (aid, version)) as [id|] eqn:Ek; [|by wp_step].
  do 2 wp_step. apply collect_spec. destruct I as [Ibad Il Iu Im Io Ia Ii Ilab]. split; cbn; try done.
  - intros id' p Hp. destruct (Il id' p Hp) as ([?|HR] & ?); [done|]. split; [|done].
    destruct (decide (id' = id)) as [->|Hne]; [by left|right]. rewrite referenced_true in *. cbn.
    destruct HR as [|[k Hk]]; [by left|right]. exists k.
    rewrite lookup_delete_ne; [done|]. intros <-. congruence.
  - intros k x [_ Hk]%lookup_delete_Some. by apply Im.
Qed.

Lemma add_user_inv id s : inv s -> is_Some (plugins s !! id) -> inv (s <| users ::= cons id |>).
Proof.
  intros [Ibad Il Iu Im Io Ia Ii Ilab] Hid. split; cbn; try done.
  - intros id' p Hp. destruct (Il id' p Hp) as ([?|HR] & ?); [done|]. split; [|done]. right.
    rewrite referenced_true in *. cbn. destruct HR; [left; by right|by right].
  - intros x [->|Hx]%elem_of_cons; [done|auto].
Qed.

(** A plugin that is not loaded has nothing to give back. *)
Lemma Unload_nothing aid version s : wp (UnloadPluginAlgorithm (Plugin.ctor aid version)) (fun _ s' => s' = s) s.
Proof. unfold UnloadPluginAlgorithm. cbn. wp_step. by do 2 apply wp_ret. Qed.

(** Without the label everything is as before. *)
Lemma label_inv n s : inv s -> inv (s <| label := false |> <| labels := n |>).
Proof. intros []. by split. Qed.

(** A plugin that fails to load leaves nothing behind. *)
Lemma load_failed_inv s s1 n :
  inv s -> same_refs s s1 -> (next s <= next s1)%nat -> open s1 = open s -> algorithms s1 = algorithms s ->
  inv (s1 <| label := false |> <| labels := n |>).
Proof.
  intros [Ibad Il Iu Im Io Ia Ii Ilab] (E1 & E2 & E3 & E4) Hn Ho Ha.
  split; cbn; rewrite ?E1, ?E2, ?E3, ?E4, ?Ho, ?Ha; try done.
  - intros id p Hp. destruct (Il id p Hp) as ([?|HR] & ? & ?); [done|]. split_and!; [right|lia|done].
    revert HR. rewrite !referenced_true. cbn. by rewrite E1, E3.
  - intros h Hh. destruct (Io h Hh). split; [lia|done].
  - intros h Hh. destruct (Ia h Hh). split; [lia|done].
Qed.

Lemma LoadPlugin_inv aid version s :
  inv s -> pluginMap_ s !! (aid, version) = None -> wp (LoadPlugin aid version) (fun _ => inv) s.
Proof.
  intros I Hk. unfold LoadPlugin. wp_step. eapply wp_mono; [eapply dtor_releases; apply Unload_nothing; done|].
  intros _ s0 (? & n & -> & ->). apply (label_inv n) in I. set (s0 := s <| label := false |> <| labels := n |>) in *.
  change (pluginMap_ s0 !! (aid, version) = None) in Hk. clearbody s0. clear s. rename s0 into s.
  wp_step. pose proof I as [Ibad Il Iu Im Io Ia Ii Ilab].
  eapply wp_mono; [apply LoadPluginAlgorithm_spec; intros h Hh; by apply Io|].
  intros [ret p] s1 ((E1 & E2 & E3 & E4) & Hn & Hres). cbn [fst snd] in *.
  destruct (ret =? RETCODE_SUCCESS) eqn:E; cbn [negb]; boolify; case_decide; try done.
  2: { destruct Hres as (-> & Ho & Ha). wp_step. eapply wp_mono; [eapply dtor_releases; apply Unload_nothing|].
       intros _ s2 (? & n2 & -> & ->). wp_step. by apply (load_failed_inv s). }
  destruct Hres as (a & h & -> & Hh & Ha & Ho & Hal). unfold AddPlugin. repeat wp_step. cbn.
  assert (plugins s !! next s1 = None) as Hfresh.
  { destruct (plugins s !! next s1) as [p|] eqn:Ep; [|done]. destruct (Il _ _ Ep) as (_ & ? & _). lia. }
  split; cbn; rewrite ?E1, ?E2, ?E3, ?E4, ?Ho, ?Hal; try done.
  - intros id p [[<- <-]|[Hne Hp]]%lookup_insert_Some; cbn.
    + split; [right; apply referenced_true; left; cbn; by left|]. split; [lia|]. exists a, h. set_solver.
    + destruct (Il id p Hp) as ([?|HR] & ? & a' & h' & ? & ? & ? & ?); [done|]. split; [right|].
      * rewrite referenced_true in *. cbn. rewrite E1, E3. destruct HR as [|[k Hk']]; [left; by right|right].
        exists k. rewrite lookup_insert_ne; [done|]. intros <-. congruence.
      * split; [lia|]. exists a', h'. set_solver.
  - intros x [->|Hx]%elem_of_cons; [rewrite lookup_insert_eq; by eexists|].
    destruct (Iu x Hx) as [p Hp]. exists p. rewrite lookup_insert_ne; [done|]. intros E'. congruence.
  - intros k id [[<- <-]|[Hne Hk']]%lookup_insert_Some.
    + eexists. rewrite lookup_insert_eq. split; [done|done].
    + destruct (Im k id Hk') as (p & Hp & ?). exists p. rewrite lookup_insert_ne; [done|]. intros <-. congruence.
  - intros x [->%elem_of_singleton|Hx]%elem_of_union.
    + split; [lia|]. eexists _, _. rewrite lookup_insert_eq. done.
    + destruct (Io x Hx) as (? & id & p & Hp & ?). split; [lia|]. exists id, p.
      rewrite lookup_insert_ne; [done|]. intros <-. congruence.
  - intros x [->%elem_of_singleton|Hx]%elem_of_union.
    + split; [lia|]. eexists _, _. rewrite lookup_insert_eq. done.
    + destruct (Ia x Hx) as (? & id & p & Hp & ?). split; [lia|]. exists id, p.
      rewrite lookup_insert_ne; [done|]. intros <-. congruence.
  - assert (forall id p, plugins s !! id = Some p -> Plugin.handle_ p <> Some h /\ Plugin.pluginAlgorithm_ p <> Some a) as Hnew.
    { intros id p Hp. destruct (Il id p Hp) as (_ & _ & a' & h' & -> & -> & Ha' & Hh').
      apply Io in Hh' as [? _]. apply Ia in Ha' as [? _]. split; intros ?; simplify_eq; lia. }
    intros id1 id2 p1 p2 [[<- <-]|[N1 H1]]%lookup_insert_Some [[<- <-]|[N2 H2]]%lookup_insert_Some Hne; cbn; try done.
    + destruct (Hnew _ _ H2). split; congruence.
    + by apply (Hnew _ _ H1).
    + by eapply Ii.
  - intros _. apply insert_non_empty.
Qed.

Lemma exec_inv o s : inv s -> wp (exec o) (fun _ => inv) s.
Proof.
  intros I. destruct o as [aid version|aid version|id]; cbn.
  - unfold GetPlugin, FindPlugin. do 3 wp_step. destruct (pluginMap_ s !! (aid, version)) as [id|] eqn:Ek.
    + repeat wp_step. apply add_user_inv; [done|]. destruct (i_map _ _ I _ _ Ek) as (p & -> & _). by eexists.
    + eapply wp_mono; [by apply LoadPlugin_inv|]. intros ? s' ?. by wp_step.
  - by apply UnloadPlugin_inv.
  - by apply release_inv.
Qed.

Lemma run_inv ops : inv (snd (for_each exec ops ctor)).
Proof. apply (wp_for_each inv); [apply pm_inv_ctor|]. intros. by apply exec_inv. Qed.

End facts.
End PluginManagerFacts.

(** The order of strings. *)
Module PluginKeyFacts.

Lemma ltb_lt a b : String.ltb a b = true <-> String.compare a b = Lt.
Proof. unfold String.ltb. by destruct (String.compare a b). Qed.

Lemma compare_refl a : String.compare a a = Eq.
Proof.
  induction a as [|c a IH]; [done|]. cbn. unfold Ascii.compare. by rewrite N.compare_refl.
Qed.

Lemma ltb_irrefl a : String.ltb a a = false.
Proof. unfold String.ltb. by rewrite compare_refl. Qed.

Lemma compare_trans a b c :
  String.compare a b = Lt -> String.compare b c = Lt -> String.compare a c = Lt.
Proof.
  revert b c. induction a as [|x a IH]; intros [|y b] [|z c]; try done; cbn.
  unfold Ascii.compare. intros H1 H2.
  destruct (N.compare_spec (Ascii.N_of_ascii x) (Ascii.N_of_ascii y)) as [E1|L1|G1]; [| |done];
    destruct (N.compare_spec (Ascii.N_of_ascii y) (Ascii.N_of_ascii z)) as [E2|L2|G2]; try done;
    destruct (N.compare_spec (Ascii.N_of_ascii x) (Ascii.N_of_ascii z)) as [E3|L3|G3]; try done; try lia.
  by eapply IH.
Qed.

Lemma ltb_trans a b c : String.ltb a b = true -> String.ltb b c = true -> String.ltb a c = true.
Proof. rewrite !ltb_lt. apply compare_trans. Qed.

Lemma ltb_total a b : String.ltb a b = false -> String.ltb b a = false -> a = b.
Proof.
  unfold String.ltb. rewrite (String.compare_antisym b a). intros H1 H2.
  destruct (String.compare a b) eqn:E; try done. by apply String.compare_eq_iff.
Qed.

End PluginKeyFacts.

(** C13. For every sequence of requests, releases and unloads and every outcome of
    the dynamic linker: the open libraries and the plugin objects are exactly
    those of the live plugins, a plugin is alive exactly while something refers
    to it, nothing is closed or deleted twice, and no object is deleted after its
    library was closed.  A plugin that fails to load leaves nothing behind, and
    the label is there only while a plugin is. *)
Theorem plugin_manager_no_leak `{!DynLib} ops :
  let s := snd (for_each PluginManager.exec ops PluginManager.ctor) in
  PluginManager.bad s = false /\
  (forall h, h ∈ PluginManager.open s <->
     exists id p, PluginManager.plugins s !! id = Some p /\ Plugin.handle_ p = Some h) /\
  (forall a, a ∈ PluginManager.algorithms s <->
     exists id p, PluginManager.plugins s !! id = Some p /\ Plugin.pluginAlgorithm_ p = Some a) /\
  (forall id, is_Some (PluginManager.plugins s !! id) <-> PluginManager.referenced id s = true) /\
  (PluginManager.label s = true -> PluginManager.plugins s <> ∅).
Proof.
  intros s. pose proof (PluginManagerFacts.run_inv ops) as I. fold s in I.
  destruct I as [Ibad Il Iu Im Io Ia Ii Ilab]. split_and!; [done| | | |done].
  - intros h. split; [intros Hh; by apply Io|]. intros (id & p & Hp & Hh).
    destruct (Il id p Hp) as (_ & _ & a & h' & ? & ? & ? & ?). congruence.
  - intros a. split; [intros Ha; by apply Ia|]. intros (id & p & Hp & Ha).
    destruct (Il id p Hp) as (_ & _ & a' & h & ? & ? & ? & ?). congruence.
  - intros id. split.
    + intros [p Hp]. by destruct (Il id p Hp) as ([?|?] & _).
    + rewrite PluginManagerFacts.referenced_true. intros [Hu|[k Hk]]; [by apply Iu|].
      destruct (Im k id Hk) as (p & -> & _). by eexists.
Qed.

(** A plugin is loaded once: after [GetPlugin] returned a plugin, asking for
    the same algorithm and version gives the same object without another call of
    the dynamic linker. *)
Lemma plugin_manager_shares `{!DynLib} aid version s id s1 :
  PluginManager.GetPlugin aid version s = ((RETCODE_SUCCESS, Some id), s1) ->
  PluginManager.GetPlugin aid version s1 =
    ((RETCODE_SUCCESS, Some id), s1 <| PluginManager.users ::= cons id |>).
Proof.
  intros E.
  assert (wp (PluginManager.GetPlugin aid version)
    (fun r s' => r.1 = RETCODE_SUCCESS -> PluginManager.pluginMap_ s' !! (aid, version) = r.2) s) as H'.
  { unfold PluginManager.GetPlugin, PluginManager.FindPlugin. do 2 wp_step.
    destruct (PluginManager.pluginMap_ s !! (aid, version)) eqn:Ek; [by repeat wp_step|].
    unfold PluginManager.LoadPlugin. wp_step. unfold wp at 1. wp_step.
    unfold wp at 1. destruct (PluginManager.LoadPluginAlgorithm _ _) as [[ret p] s2]. cbn [fst snd].
    destruct (ret =? RETCODE_SUCCESS) eqn:Er; cbn [negb]; boolify.
    - unfold PluginManager.AddPlugin. repeat wp_step. intros _. cbn. apply lookup_insert_eq.
    - wp_step. unfold wp at 1. by wp_step. }
  apply (wp_run _ _ _ _ _ E) in H'. specialize (H' eq_refl). cbn in H'.
  unfold PluginManager.GetPlugin, PluginManager.FindPlugin. cbv [mbind ST_bind gets]. by rewrite H'.
Qed.

Definition sample_lib : DynLib :=
  {| realpath := Some; dlopen := fun _ _ => true; has_interface := fun _ => true; make_plugin := fun _ _ => true;
     new_label := fun _ => true |}.

Lemma plugin_manager_shares_witness :
  let '(r, s1) := @PluginManager.GetPlugin sample_lib ALGORITHM_ID_KWS 20001002 PluginManager.ctor in
  r = (RETCODE_SUCCESS, Some 2%nat) /\
  @PluginManager.GetPlugin sample_lib ALGORITHM_ID_KWS 20001002 s1 =
    ((RETCODE_SUCCESS, Some 2%nat), s1 <| PluginManager.users ::= cons 2%nat |>).
Proof.
  destruct (@PluginManager.GetPlugin sample_lib ALGORITHM_ID_KWS 20001002 PluginManager.ctor) as [r s1] eqn:E.
  assert (r = (RETCODE_SUCCESS, Some 2%nat)) as ->.
  { change r with (fst (r, s1)). rewrite <- E. by vm_compute. }
  split; [done|]. by eapply plugin_manager_shares.
Defined.

(** The order of the plugin map is a strict total order, as [std::map] needs:
    no two keys are identified and none is lost. *)
Theorem plugin_key_order (a b c : PluginKey.t) :
  PluginKey.ltb a a = false /\
  (PluginKey.ltb a b = true -> PluginKey.ltb b c = true -> PluginKey.ltb a c = true) /\
  (PluginKey.ltb a b = false -> PluginKey.ltb b a = false -> a = b).
Proof.
  destruct a as [s1 v1], b as [s2 v2], c as [s3 v3]. unfold PluginKey.ltb. cbn. split_and!.
  - by rewrite PluginKeyFacts.ltb_irrefl, Z.ltb_irrefl, andb_false_r.
  - intros H1 H2. destruct (String.ltb s1 s2) eqn:L1, (String.ltb s2 s3) eqn:L2; try done.
    + by rewrite (PluginKeyFacts.ltb_trans _ _ _ L1 L2).
    + destruct (String.eqb_spec s2 s3) as [->|]; [|done]. by rewrite L1.
    + destruct (String.eqb_spec s1 s2) as [->|]; [|done]. by rewrite L2.
    + destruct (String.eqb_spec s1 s2) as [->|]; [|done]. destruct (String.eqb_spec s2 s3) as [->|]; [|done].
      rewrite ?String.eqb_refl. cbn in *. repeat case_match; try done; boolify; lia.
  - intros H1 H2. destruct (String.ltb s1 s2) eqn:L1, (String.ltb s2 s1) eqn:L2; try done.
    pose proof (PluginKeyFacts.ltb_total _ _ L1 L2) as ->. rewrite String.eqb_refl in *. cbn in *.
    f_equal. repeat case_match; try done; boolify; lia.
Qed.
