(* ===== verification/FutureFactory.v ===== *)
(** * FutureFactory: answers of asynchronous tasks on their way to the client

    [Future] (future.cpp) and [FutureFactory] (future_factory.cpp).  A listener is
    an object of the communication adapter; [OnReply] is its virtual method and
    acts on the state [X] of the listeners.  [instance_] says whether the factory
    exists; GetInstance may fail to allocate it. *)

From Stdlib Require Import ZArith Lia.
From stdpp Require Import gmap list.
From S2P Require Import Prelude Protocol Sync.

Module Future.

Inductive FutureStatus := FUTURE_OK | FUTURE_ERROR.
Inductive PluginEvent := ON_PLUGIN_SUCCEED | ON_PLUGIN_FAIL.

Record t := mk {
  sequenceId_ : Z;
  transactionId_ : Z;
  createTime_ : Z;
  request_ : option Request.t;
  response_ : option Response.t;
  status_ : FutureStatus;
  semaphore_ : Semaphore.t;
}.
#[global] Instance eta_future : Eta t := fun r =>
  mk (sequenceId_ r) (transactionId_ r) (createTime_ r) (request_ r) (response_ r) (status_ r) (semaphore_ r).

(** [Future(request, sequenceId, transactionId)]; [now] is [GetCurTimeSec()]. *)
Definition ctor (now : Z) (request : option Request.t) (sequenceId transactionId : Z) : t :=
  mk sequenceId transactionId now request None FUTURE_OK (Semaphore.ctor 0).

(** [~Future()]: the request is not owned, the response is. *)
Definition dtor (f : t) : ST Mem.t unit := Response.Destroy (response_ f).

(** [GetResponse(timeOut)]; [None] while the caller stays parked. *)
Definition GetResponse (timeOut : Z) (expired : bool) (f : t) : option (option Response.t * t) :=
  match Semaphore.Wait timeOut expired (semaphore_ f) with
  | None => None
  | Some (_, s) => Some (response_ f, f <| semaphore_ := s |>)
  end.

Definition ConvertPluginStatus (event : PluginEvent) : FutureStatus :=
  match event with ON_PLUGIN_SUCCEED => FUTURE_OK | ON_PLUGIN_FAIL => FUTURE_ERROR end.

Definition DetachResponse (f : t) : t := f <| response_ := None |>.

(** [SetResponse(status, response)]: an earlier response is destroyed. *)
Definition SetResponse (status : FutureStatus) (response : option Response.t) (f : t) : ST Mem.t t :=
  Response.Destroy (response_ f) ;;
  mret (f <| status_ := status |> <| response_ := response |>
          <| semaphore_ := snd (Semaphore.Signal (semaphore_ f)) |>).

End Future.

Module FutureFactory.

Definition MAX_NUM_FUTURES : Z := 1024.
Definition INVALID_SEQUENCE_ID : Z := -1.
Definition MIN_SEQUENCE_ID : Z := 1.

Section factory.
  Context {X : Type}.

(** [ext] is the state of the listeners, [listeners_] holds their identities. *)
Record t := mk {
  mem : Mem.t;
  ext : X;
  futures_ : gmap Z Future.t;
  sequenceId_ : Z;
  listeners_ : gmap Z nat;
  freed_listeners : list nat;
  instance_ : bool;            (** [FutureFactory::instance_] is set *)
}.
#[global] Instance eta_factory : Eta t := fun r =>
  mk (mem r) (ext r) (futures_ r) (sequenceId_ r) (listeners_ r) (freed_listeners r) (instance_ r).

Definition ctor (m : Mem.t) (x : X) : t := mk m x ∅ 0 ∅ [] false.

Definition used (s : t) (id : Z) : bool := bool_decide (is_Some (futures_ s !! id)).

(** [FindSequenceId()].  The loop gets as much fuel as there are futures, plus
    one; [FindSequenceId_spec] shows that it never runs out. *)
Definition FindSequenceId : ST t Z := fun s =>
  if Z.of_nat (size (futures_ s)) >? MAX_NUM_FUTURES then (INVALID_SEQUENCE_ID, s) else
  match bump_while 64 MIN_SEQUENCE_ID (used s) (S (size (futures_ s))) (sequenceId_ s) with
  | Some id => (id, s <| sequenceId_ := id |>)
  | None => (INVALID_SEQUENCE_ID, s)
  end.

Definition AddFuture (sequenceId : Z) (f : Future.t) : ST t unit :=
  modify (fun s => s <| futures_ ::= <[sequenceId := f]> |>).

Definition DeleteFuture (sequenceId : Z) : ST t unit :=
  f ← gets (fun s => futures_ s !! sequenceId);
  match f with
  | None => mret tt
  | Some f => on_field mem (Future.dtor f) ;; modify (fun s => s <| futures_ ::= delete sequenceId |>)
  end.

Definition Release (sequenceId : Z) : ST t unit := DeleteFuture sequenceId.

Section allocating.
  Context `{!Allocator}.

(** [GetInstance()]: whether there is a factory. *)
Definition GetInstance : ST t bool :=
  i ← gets instance_;
  if (i : bool) then mret true else
  ok ← on_field mem AIE_NEW;
  if (ok : bool) then modify (fun s => s <| instance_ := true |>) ;; mret true else mret false.

(** [CreateFuture(request)]: the code, and the request with its sequence id. *)
Definition CreateFuture (now : Z) (request : option Request.t) : ST t (Z * option Request.t) :=
  sequenceId ← FindSequenceId;
  if sequenceId =? INVALID_SEQUENCE_ID then mret (RETCODE_NULL_PARAM, request) else
  match request with
  | None => mret (RETCODE_NULL_PARAM, None)
  | Some req =>
      let req := Request.SetInnerSequenceId sequenceId req in
      ok ← on_field mem AIE_NEW;
      if negb ok then mret (RETCODE_OUT_OF_MEMORY, Some req) else
      AddFuture sequenceId (Future.ctor now (Some req) sequenceId (Request.transactionId req)) ;;
      mret (RETCODE_SUCCESS, Some req)
  end.

End allocating.

Definition RegisterListener (listener : nat) (transactionId : Z) : ST t unit :=
  modify (fun s => s <| listeners_ ::= <[transactionId := listener]> |>).

Definition UnregisterListener (transactionId : Z) : ST t unit :=
  l ← gets (fun s => listeners_ s !! transactionId);
  match l with
  | None => mret tt
  | Some l => modify (fun s => s <| freed_listeners ::= cons l |> <| listeners_ ::= delete transactionId |>)
  end.

Definition FetchFuture (response : Response.t) : ST t (option Future.t) :=
  gets (fun s => futures_ s !! Response.innerSequenceId response).

Definition FindListener (transactionId : Z) : ST t (option nat) :=
  gets (fun s => listeners_ s !! transactionId).

Section replying.
  Context (OnReply : nat -> Future.t -> ST X unit).

Definition ProcessResponse (event : Future.PluginEvent) (response : option Response.t) : ST t Z :=
  match response with
  | None => mret RETCODE_NULL_PARAM
  | Some response =>
      future ← FetchFuture response;
      match future with
      | None => mret RETCODE_NULL_PARAM
      | Some f =>
          f ← on_field mem (Future.SetResponse (Future.ConvertPluginStatus event) (Some response) f);
          AddFuture (Response.innerSequenceId response) f ;;
          listener ← FindListener (Response.transactionId response);
          match listener with
          | None => mret RETCODE_NO_LISTENER_FOUND
          | Some l =>
              on_field ext (OnReply l f) ;;
              AddFuture (Response.innerSequenceId response) (Future.DetachResponse f) ;;
              DeleteFuture (Future.sequenceId_ f) ;;
              mret RETCODE_SUCCESS
          end
      end
  end.

End replying.

(** [~FutureFactory()] *)
Definition dtor : ST t unit :=
  modify (fun s => s <| freed_listeners ::= app (map_to_list (listeners_ s)).*2 |> <| listeners_ := ∅ |>) ;;
  fs ← gets (fun s => map_to_list (futures_ s));
  for_each (fun kf => on_field mem (Future.dtor kf.2)) fs ;;
  modify (fun s => s <| futures_ := ∅ |>).

(** [ReleaseInstance()]: the next factory starts empty and counts from 0.  (While
    there is no factory it is as the next one will start.) *)
Definition ReleaseInstance : ST t unit :=
  dtor ;; modify (fun s => s <| sequenceId_ := 0 |> <| instance_ := false |>).

End factory.
End FutureFactory.

(** ** Lemmas *)

Module FutureFactoryFacts.
Import FutureFactory.

Section facts.
  Context {X : Type}.
  Implicit Types (s : @FutureFactory.t X).

(** While memory lasts there is a factory. *)
Lemma GetInstance_spec `{!Allocator} s : (forall k, new_ok k = true) ->
  wp GetInstance (fun ok s' => ok = true /\ exists m, s' = s <| mem := m |> <| instance_ := true |>) s.
Proof.
  intros Hn. unfold GetInstance. do 2 wp_step. destruct (instance_ s) eqn:E.
  - wp_step. split; [done|]. exists (mem s). destruct s. cbn in *. by subst.
  - wp_step. apply wp_on_field. unfold wp at 1, AIE_NEW. rewrite Hn. cbn [fst snd]. do 2 wp_step. by wp_step; split; [|eexists].
Qed.

(** Futures are filed under their own sequence id. *)
Definition filed s : Prop := forall id f, futures_ s !! id = Some f -> Future.sequenceId_ f = id.

Lemma FindSequenceId_spec s :
  0 <= sequenceId_ s <= LLONG_MAX ->
  if Z.of_nat (size (futures_ s)) <=? MAX_NUM_FUTURES then
    exists id, FindSequenceId s = (id, s <| sequenceId_ := id |>) /\
               MIN_SEQUENCE_ID <= id <= LLONG_MAX /\ futures_ s !! id = None
  else FindSequenceId s = (INVALID_SEQUENCE_ID, s).
Proof.
  intros Hseq. unfold FindSequenceId. rewrite Z.gtb_ltb, Z.ltb_antisym.
  destruct (Z.leb_spec (Z.of_nat (size (futures_ s))) MAX_NUM_FUTURES) as [Hle|Hgt]; cbn [negb]; [|done].
  unfold MAX_NUM_FUTURES, MIN_SEQUENCE_ID, LLONG_MAX in *.
  assert (- 2 ^ (64 - 1) < 1 <= 2 ^ (64 - 1) - 1) as Hlo by done.
  change (2 ^ 63 - 1) with (2 ^ (64 - 1) - 1) in *.
  assert (1024 < 2 ^ (64 - 1) - 1 - 1 + 1) as Hbig by done.
  destruct (bump_while_total 64 1 ltac:(done) Hlo (used s) (dom (futures_ s)) (S (size (futures_ s))) (sequenceId_ s))
    as [id Hid]; rewrite ?size_dom; try lia.
  - intros y. unfold used. rewrite bool_decide_eq_true. by rewrite elem_of_dom.
  - rewrite Hid. exists id. split; [done|].
    destruct (bump_while_some 64 1 ltac:(done) Hlo _ _ (sequenceId_ s) id ltac:(lia) Hid) as [? Hu].
    split; [lia|]. unfold used in Hu. apply bool_decide_eq_false, eq_None_not_Some in Hu. done.
Qed.

End facts.
End FutureFactoryFacts.

(** C36. Sequence ids: as long as at most 1024 futures exist (so up to 1025 are
    admitted) the search ends with a positive id that no pending future has, also
    when the 64-bit counter overflows; beyond that it refuses and changes
    nothing. *)
Theorem find_sequence_id_fresh {X : Type} (s : @FutureFactory.t X) :
  0 <= FutureFactory.sequenceId_ s <= LLONG_MAX ->
  if Z.of_nat (size (FutureFactory.futures_ s)) <=? FutureFactory.MAX_NUM_FUTURES then
    exists id, FutureFactory.FindSequenceId s = (id, s <| FutureFactory.sequenceId_ := id |>) /\
               FutureFactory.MIN_SEQUENCE_ID <= id <= LLONG_MAX /\ FutureFactory.futures_ s !! id = None
  else FutureFactory.FindSequenceId s = (FutureFactory.INVALID_SEQUENCE_ID, s).
Proof. apply FutureFactoryFacts.FindSequenceId_spec. Qed.

(** A factory whose counter is about to overflow while id 1 is taken. *)
Definition wrapping_factory : @FutureFactory.t nat :=
  FutureFactory.mk Mem.empty 0%nat {[1 := Future.ctor 0 None 1 9]} LLONG_MAX ∅ [] true.

Lemma find_sequence_id_fresh_witness :
  FutureFactory.FindSequenceId wrapping_factory = (2, wrapping_factory <| FutureFactory.sequenceId_ := 2 |>) /\
  if Z.of_nat (size (FutureFactory.futures_ wrapping_factory)) <=? FutureFactory.MAX_NUM_FUTURES then
    exists id, FutureFactory.FindSequenceId wrapping_factory = (id, wrapping_factory <| FutureFactory.sequenceId_ := id |>) /\
               FutureFactory.MIN_SEQUENCE_ID <= id <= LLONG_MAX /\ FutureFactory.futures_ wrapping_factory !! id = None
  else FutureFactory.FindSequenceId wrapping_factory = (FutureFactory.INVALID_SEQUENCE_ID, wrapping_factory).
Proof. split; [by vm_compute|]. apply find_sequence_id_fresh. by vm_compute. Defined.

(** C18. One answer per future.  The answer to a pending future with a listener
    is given to that listener exactly once, with the status of the event, and the
    future is gone afterwards, so a second answer is refused.  The answer itself
    is not freed: it belongs to the listener.  Without a listener the answer is
    kept in the future, which stays in the table. *)
Theorem process_response_once {X : Type} (OnReply : nat -> Future.t -> ST X unit) (s : @FutureFactory.t X) event r f :
  FutureFactoryFacts.filed s ->
  FutureFactory.futures_ s !! Response.innerSequenceId r = Some f -> Future.response_ f = None ->
  let '(code, s') := FutureFactory.ProcessResponse OnReply event (Some r) s in
  FutureFactory.mem s' = FutureFactory.mem s /\
  match FutureFactory.listeners_ s !! Response.transactionId r with
  | Some l =>
      code = RETCODE_SUCCESS /\
      FutureFactory.futures_ s' = delete (Response.innerSequenceId r) (FutureFactory.futures_ s) /\
      (exists f', Future.response_ f' = Some r /\ Future.status_ f' = Future.ConvertPluginStatus event /\
                  FutureFactory.ext s' = snd (OnReply l f' (FutureFactory.ext s))) /\
      FutureFactory.ProcessResponse OnReply event (Some r) s' = (RETCODE_NULL_PARAM, s')
  | None =>
      code = RETCODE_NO_LISTENER_FOUND /\
      FutureFactory.ext s' = FutureFactory.ext s /\
      dom (FutureFactory.futures_ s') = dom (FutureFactory.futures_ s) /\
      exists f', FutureFactory.futures_ s' !! Response.innerSequenceId r = Some f' /\ Future.response_ f' = Some r
  end.
Proof.
  intros Hfiled Hf Hr. unfold FutureFactory.ProcessResponse, FutureFactory.FetchFuture, FutureFactory.FindListener,
    FutureFactory.AddFuture, FutureFactory.DeleteFuture, Future.SetResponse.
  cbv [mbind ST_bind gets modify mret ST_ret on_field]. rewrite Hf, Hr. cbn.
  rewrite (Hfiled _ _ Hf). destruct (FutureFactory.listeners_ s !! Response.transactionId r) as [l|]; cbn.
  - destruct (OnReply l _ _) as [u x] eqn:EO. cbn. rewrite lookup_insert_eq. cbn.
    split_and!; try done.
    + by rewrite insert_insert_eq, delete_insert_eq.
    + eexists. rewrite EO. split_and!; [done|done|done].
    + rewrite insert_insert_eq, delete_insert_eq, lookup_delete_eq. done.
  - split_and!; try done.
    + rewrite dom_insert_L. apply elem_of_dom_2 in Hf. set_solver.
    + eexists. rewrite lookup_insert_eq. done.
Qed.

Definition sample_response : Response.t := Response.SetTransactionId 9 (Response.SetInnerSequenceId 3 (Response.ctor None)).
Definition sample_reply (l : nat) (f : Future.t) : ST (list nat) unit := modify (cons l).
Definition waiting_factory : @FutureFactory.t (list nat) :=
  FutureFactory.mk Mem.empty [] {[3 := Future.ctor 0 None 3 9]} 3 {[9 := 5%nat]} [] true.

Lemma process_response_once_witness :
  let '(code, s') := FutureFactory.ProcessResponse sample_reply Future.ON_PLUGIN_SUCCEED (Some sample_response) waiting_factory in
  FutureFactory.mem s' = Mem.empty /\ code = RETCODE_SUCCESS /\ FutureFactory.ext s' = [5%nat].
Proof.
  pose proof (process_response_once sample_reply waiting_factory Future.ON_PLUGIN_SUCCEED sample_response
    (Future.ctor 0 None 3 9)) as H.
  destruct (FutureFactory.ProcessResponse _ _ _ _) as [code s'].
  destruct H as (Hm & Hc & _ & (f & _ & _ & He) & _).
  - intros id f. unfold waiting_factory. cbn. intros [<- <-]%lookup_singleton_Some. done.
  - done.
  - done.
  - split_and!; [exact Hm|exact Hc|exact He].
Defined.
