(* ===== verification/Executor.v ===== *)
(** * Executor: engines, their workers and the engine manager

    services/server/server_executor: the message handlers, [EngineWorker],
    [Engine], [EngineManager] and [ServerExecutor] over one [world] with the
    pools, the plugin manager and the futures they share.  The algorithm in a
    plugin is third-party code behind [IPlugin]. *)

From Stdlib Require Import ZArith Lia Ascii String.
From stdpp Require Import gmap strings list.
From S2P Require Import Prelude Protocol Sync Queue Thread Pools PluginManager FutureFactory.

#[local] Open Scope string_scope.
#[local] Open Scope Z_scope.

(** ** The algorithm of a plugin (i_plugin.h), by the identity of its object

    [algorithms] are the states of all such objects. *)
Class Algorithm := {
  algorithms : Type;
  no_algorithms : algorithms;
  infer_mode : nat -> option string;
  sync_process : nat -> Request.t -> ST (algorithms * Mem.t) (Z * option Response.t);
  (** the code and the callbacks it makes *)
  async_process : nat -> Request.t -> ST (algorithms * Mem.t) (Z * list (Future.PluginEvent * option Response.t));
  prepare : nat -> Z -> DataInfo.t -> ST (algorithms * Mem.t) (Z * DataInfo.t);
  release_algorithm : nat -> bool -> Z -> DataInfo.t -> ST (algorithms * Mem.t) Z;
  set_option : nat -> Z -> DataInfo.t -> ST (algorithms * Mem.t) Z;
  get_option : nat -> Z -> DataInfo.t -> ST (algorithms * Mem.t) (Z * DataInfo.t);
}.

Definition MAX_SYNC_MSG_NUM : Z := 64.
Definition MAX_ASYNC_MSG_NUM : Z := 64.
Definition SYNC_MSG_TIMEOUT : Z := -1.
Definition PLUGIN_SYNC_INFER := "SYNC".
Definition PLUGIN_NUM_FOR_UNLOAD : Z := 1.

(** [SyncMsgHandler] or [AsyncMsgHandler]: the class of the object decides which
    [Process] the worker calls. *)
Module Handler.
Inductive kind := Sync | Async.
Record t := mk { cls : kind; queue_ : nat; pluginAlgorithm_ : option nat }.
End Handler.

Module Task.
Record t := mk { handler : option Handler.t; request : option Request.t; notifier : option nat }.
Definition empty : t := mk None None None.
End Task.

Module Engine.
Record t := mk {
  refCount_ : Z;
  plugin_ : nat;
  thread_ : option nat;
  queue_ : nat;
  msgHandler_ : option Handler.t;
}.
#[global] Instance eta_engine : Eta t := fun r => mk (refCount_ r) (plugin_ r) (thread_ r) (queue_ r) (msgHandler_ r).
Definition ctor (plugin thread queue : nat) : t := mk 0 plugin (Some thread) queue None.
End Engine.

Module Executor.

Section executor.
  Context {X : Type} `{!Allocator, !DynLib, !Pthread, !Algorithm}.
  Context (OnReply : nat -> Future.t -> ST X unit).

Record world := mk_world {
  futures : @FutureFactory.t X;                    (** with the C heap and the listeners *)
  notifiers : gmap nat (@SimpleEventNotifier.t Response.t);
  next_notifier : nat;
  queuePool : @QueuePool.statics Task.t;
  threadPool : option ThreadPool.t;
  pluginManager : option PluginManager.t;
  objects : gmap nat Engine.t;                     (** the live [Engine] objects *)
  next_engine : nat;
  engines_ : gmap (string * Z) nat;
  clientEngines_ : gmap Z nat;
  pthreads : nat;                                  (** calls of [pthread_create] so far *)
  plugin_states : algorithms;                      (** the objects behind [IPlugin] *)
}.

#[global] Instance eta_world : Eta world := fun r =>
  mk_world (futures r) (notifiers r) (next_notifier r) (queuePool r) (threadPool r) (pluginManager r)
    (objects r) (next_engine r) (engines_ r) (clientEngines_ r) (pthreads r) (plugin_states r).

Definition init (m : Mem.t) (x : X) : world :=
  mk_world (FutureFactory.ctor m x) ∅ 0 QueuePool.statics0 None None ∅ 0 ∅ ∅ 0 no_algorithms.

Definition mem (w : world) : Mem.t := FutureFactory.mem (futures w).

Definition on_mem {A} (m : ST Mem.t A) : ST world A := on_field futures (on_field FutureFactory.mem m).

(** Run an operation of an algorithm on its object and the heap. *)
Definition on_algorithm {A} (m : ST (algorithms * Mem.t) A) : ST world A := fun w =>
  let '(a, (g, h)) := m (plugin_states w, mem w) in
  (a, w <| plugin_states := g |> <| futures ::= fun f => f <| FutureFactory.mem := h |> |>).

(** Run an operation of a pool or manager that exists. *)
Definition on_queue_pool {A} (none : A) (m : ST (@QueuePool.t Task.t) A) : ST world A := fun w =>
  match QueuePool.instance_ (queuePool w) with
  | None => (none, w)
  | Some p => let '(a, p') := m p in
              (a, w <| queuePool := QueuePool.mk_statics (Some p') (QueuePool.singleQueueCapacity_ (queuePool w)) |>)
  end.
Definition on_thread_pool {A} (none : A) (m : ST ThreadPool.t A) : ST world A := fun w =>
  match threadPool w with
  | None => (none, w)
  | Some p => let '(a, p') := m p in (a, w <| threadPool := Some p' |>)
  end.
Definition on_plugins {A} (none : A) (m : ST PluginManager.t A) : ST world A := fun w =>
  match pluginManager w with
  | None => (none, w)
  | Some p => let '(a, p') := m p in (a, w <| pluginManager := Some p' |>)
  end.

(** The [GetInstance] of the singletons; false when the allocation fails. *)
Definition GetQueuePool (capacity : Z) : ST world bool :=
  i ← gets (fun w => QueuePool.instance_ (queuePool w));
  match i with
  | Some _ => mret true
  | None => ok ← on_mem AIE_NEW;
            modify (fun w => w <| queuePool ::= fun s => snd (QueuePool.GetInstance capacity ok s) |>) ;; mret ok
  end.
Definition GetThreadPool : ST world bool :=
  i ← gets threadPool;
  match i with
  | Some _ => mret true
  | None => ok ← on_mem AIE_NEW;
            if (ok : bool) then modify (fun w => w <| threadPool := Some ThreadPool.ctor |>) ;; mret true else mret false
  end.
Definition GetPluginManager : ST world bool :=
  i ← gets pluginManager;
  match i with
  | Some _ => mret true
  | None => ok ← on_mem AIE_NEW;
            if (ok : bool) then modify (fun w => w <| pluginManager := Some PluginManager.ctor |>) ;; mret true else mret false
  end.

(** The queue with identity [qid]. *)
Definition queue_of (qid : nat) (w : world) : @Queue.t Task.t :=
  match QueuePool.instance_ (queuePool w) with
  | None => Queue.ctor 0
  | Some p => default (Queue.ctor 0) (QueuePool.store p !! qid)
  end.
Definition on_queue {A} (none : A) (qid : nat) (m : ST (@Queue.t Task.t) A) : ST world A :=
  on_queue_pool none (fun p =>
    match QueuePool.store p !! qid with
    | None => (none, p)
    | Some q => let '(a, q') := m q in (a, p <| QueuePool.store ::= <[qid := q']> |>)
    end).

Definition algorithm_of (plugin : nat) (w : world) : option nat :=
  p ← pluginManager w; p ← PluginManager.plugins p !! plugin; Plugin.pluginAlgorithm_ p.

(** ** The message handlers *)

(** [SyncMsgHandler::Process] *)
Definition SyncProcess (h : Handler.t) (task : Task.t) : ST world Z :=
  match Handler.pluginAlgorithm_ h with
  | None => mret RETCODE_PLUGIN_LOAD_FAILED
  | Some algo =>
      match Task.request task with
      | None => mret RETCODE_NULL_PARAM
      | Some request =>
          r ← on_algorithm (sync_process algo request);
          let '(processRetCode, response) := r in
          response ← match response with
                     | Some response => mret (Some response)
                     | None => on_mem (Response.Create (Some request))
                     end;
          match response with
          | None => mret RETCODE_OUT_OF_MEMORY
          | Some response =>
              let response := Response.SetRetCode
                (if negb (processRetCode =? RETCODE_SUCCESS) then RETCODE_ALGORITHM_PROCESS_ERROR else RETCODE_SUCCESS)
                response in
              match Task.notifier task with
              | Some n =>
                  modify (fun w => w <| notifiers ::=
                            alter (fun x => snd (SimpleEventNotifier.AddToBack (Some response) x)) n |>)
              | None => on_mem (Response.Destroy (Some response))
              end ;;
              mret processRetCode
          end
      end
  end.

(** [AsyncMsgHandler::OnEvent] *)
Definition OnEvent (event : Future.PluginEvent) (response : option Response.t) : ST world Z :=
  match response with
  | None => mret RETCODE_NULL_PARAM
  | Some _ =>
      ok ← on_field futures FutureFactory.GetInstance;
      if negb ok then mret RETCODE_NULL_PARAM else
      on_field futures (FutureFactory.ProcessResponse OnReply event response)
  end.

(** [AsyncMsgHandler::Process]: the guard destroys the request on return. *)
Definition AsyncProcess (h : Handler.t) (task : Task.t) : ST world Z :=
  match Handler.pluginAlgorithm_ h with
  | None => mret RETCODE_PLUGIN_LOAD_FAILED
  | Some algo =>
      match Task.request task with
      | None => mret RETCODE_NULL_PARAM
      | Some request =>
          r ← on_algorithm (async_process algo request);
          for_each (fun er => OnEvent er.1 er.2 ;; mret tt) (snd r) ;;
          on_mem (Request.Destroy (Some request)) ;;
          mret (fst r)
      end
  end.

(** The virtual call [task.handler->Process(task)]. *)
Definition Process (h : Handler.t) (task : Task.t) : ST world Z :=
  match Handler.cls h with
  | Handler.Sync => SyncProcess h task
  | Handler.Async => AsyncProcess h task
  end.

(** [SyncMsgHandler::SendRequest], called on the object [h] *)
Definition SyncSendRequest (h : Handler.t) (request : option Request.t) (notifier : nat) : ST world Z :=
  match request with
  | None => mret RETCODE_NULL_PARAM
  | Some _ =>
      n ← gets (fun w => Queue.Count (queue_of (Handler.queue_ h) w));
      if MAX_SYNC_MSG_NUM <=? n then mret RETCODE_QUEUE_FULL else
      on_queue RETCODE_QUEUE_FULL (Handler.queue_ h) (Queue.PushBack (Task.mk (Some h) request (Some notifier)))
  end.

(** [SyncMsgHandler::ReceiveResponse]; [None] while the caller stays parked. *)
Definition ReceiveResponse (timeOut : Z) (expired : bool) (notifier : nat) : ST world (option (Z * option Response.t)) := fun w =>
  match notifiers w !! notifier with
  | None => (None, w)
  | Some n =>
      match SimpleEventNotifier.GetFromFront timeOut expired n with
      | None => (None, w)
      | Some ((false, _), n') => (Some (RETCODE_SYNC_MSG_TIMEOUT, None), w <| notifiers ::= <[notifier := n']> |>)
      | Some ((true, r), n') => (Some (RETCODE_SUCCESS, r), w <| notifiers ::= <[notifier := n']> |>)
      end
  end.

(** [AsyncMsgHandler::SendRequest], called on the object [h] *)
Definition AsyncSendRequest (h : Handler.t) (now : Z) (request : option Request.t) : ST world Z :=
  match request with
  | None => mret RETCODE_NULL_PARAM
  | Some _ =>
      n ← gets (fun w => Queue.Count (queue_of (Handler.queue_ h) w));
      if MAX_ASYNC_MSG_NUM <=? n then mret RETCODE_QUEUE_FULL else
      ok ← on_field futures FutureFactory.GetInstance;
      if negb ok then mret RETCODE_NULL_PARAM else
      r ← on_field futures (FutureFactory.CreateFuture now request);
      if negb (fst r =? RETCODE_SUCCESS) then mret (fst r) else
      on_queue RETCODE_QUEUE_FULL (Handler.queue_ h) (Queue.PushBack (Task.mk (Some h) (snd r) None))
  end.

(** ** [EngineWorker] *)

(** [OneAction()]: the thread goes on in every case. *)
Definition OneAction (qid : nat) : ST world bool :=
  e ← gets (fun w => Queue.IsEmpty (queue_of qid w));
  if (e : bool) then mret true else
  r ← on_queue (RETCODE_QUEUE_EMPTY, None) qid Queue.PopFront;
  if negb (fst r =? RETCODE_SUCCESS) then mret true else
  let task := default Task.empty (snd r) in
  match Task.handler task with
  | None => mret true
  | Some h => Process h task ;; mret true
  end.

Fixpoint run_worker (fuel : nat) (qid : nat) : ST world unit :=
  match fuel with
  | O => mret tt
  | S fuel' => OneAction qid ;; run_worker fuel' qid
  end.

(** [ClearQueue]: at most [size] messages, until one cannot be popped. *)
Fixpoint clear_loop (size : nat) (qid : nat) : ST world unit :=
  match size with
  | O => mret tt
  | S size' =>
      r ← on_queue (RETCODE_QUEUE_EMPTY, None) qid Queue.PopFront;
      if negb (fst r =? RETCODE_SUCCESS) then mret tt else
      on_mem (Request.Destroy (Task.request (default Task.empty (snd r)))) ;;
      clear_loop size' qid
  end.

Definition ClearQueue (qid : nat) : ST world unit :=
  n ← gets (fun w => Queue.Count (queue_of qid w));
  clear_loop (Z.to_nat n) qid.

(** ** [Engine] *)

Definition IsSyncMode (algo : nat) : bool :=
  match infer_mode algo with
  | None => false
  | Some m => String.eqb PLUGIN_SYNC_INFER m
  end.

Definition engine_of (eid : nat) (w : world) : option Engine.t := objects w !! eid.
Definition upd_engine (eid : nat) (f : Engine.t -> Engine.t) : ST world unit :=
  modify (fun w => w <| objects ::= alter f eid |>).

(** [thread->StartThread(&worker_)]: the worker has no stack size of its own and
    its [Initialize] succeeds, so the caller sees the thread running. *)
Definition StartThread (tid eid : nat) : ST world bool :=
  call ← gets pthreads;
  modify (fun w => w <| pthreads ::= S |>) ;;
  on_thread_pool false (fun p =>
    let '(ok, th) := Thread.begin_start call 0 (Some eid) (ThreadPool.thread_of p tid) in
    let th' := if (ok : bool) then th <| Thread.running_ := true |> <| Thread.status_ := Thread.RUNNING |> else th in
    (ok, p <| ThreadPool.store ::= <[tid := th']> |>)).

Definition Initialize (eid : nat) : ST world Z :=
  e ← gets (engine_of eid);
  match e with
  | None => mret RETCODE_NULL_PARAM
  | Some e =>
      a ← gets (algorithm_of (Engine.plugin_ e));
      match a with
      | None => mret RETCODE_NULL_PARAM
      | Some algo =>
          ok ← on_mem AIE_NEW;
          if negb ok then mret RETCODE_OUT_OF_MEMORY else
          let h := Handler.mk (if IsSyncMode algo then Handler.Sync else Handler.Async) (Engine.queue_ e) (Some algo) in
          upd_engine eid (fun e => e <| Engine.msgHandler_ := Some h |>) ;;
          started ← match Engine.thread_ e with
                    | Some tid => StartThread tid eid
                    | None => mret false
                    end;
          if negb started then
            upd_engine eid (fun e => e <| Engine.msgHandler_ := None |>) ;; mret RETCODE_START_THREAD_FAILED
          else mret RETCODE_SUCCESS
      end
  end.

(** [thread->StopThread()]: an active thread runs the worker's [Uninitialize]
    before it ends. *)
Definition StopThread (tid qid : nat) : ST world unit :=
  active ← gets (fun w => match threadPool w with
                          | None => false
                          | Some p => Thread.IsActive false (ThreadPool.thread_of p tid)
                          end);
  (if (active : bool) then ClearQueue qid else mret tt) ;;
  on_thread_pool tt (modify (fun p => p <| ThreadPool.store ::= alter (ThreadPool.StopThread false) tid |>)).

(** [Engine::Uninitialize()] *)
Definition Uninitialize (eid : nat) : ST world unit :=
  e ← gets (engine_of eid);
  match e with
  | None => mret tt
  | Some e =>
      ok ← match Engine.thread_ e with
           | None => mret true
           | Some tid =>
               StopThread tid (Engine.queue_ e) ;;
               ok ← GetThreadPool;
               if negb ok then mret false else
               on_thread_pool tt (ThreadPool.Push false tid) ;;
               upd_engine eid (fun e => e <| Engine.thread_ := None |>) ;; mret true
           end;
      if negb ok then mret tt else
      ok ← GetQueuePool QueuePool.MAX_QUEUE_LENGTH;
      if negb ok then mret tt else
      on_queue_pool tt (QueuePool.Push (Engine.queue_ e)) ;;
      upd_engine eid (fun e => e <| Engine.msgHandler_ := None |>)
  end.

(** [~Engine()], then the members: the reference to the plugin goes last. *)
Definition delete_engine (eid : nat) : ST world unit :=
  e ← gets (engine_of eid);
  Uninitialize eid ;;
  modify (fun w => w <| objects ::= delete eid |>) ;;
  match e with
  | None => mret tt
  | Some e => on_plugins tt (PluginManager.release (Engine.plugin_ e))
  end.

(** A [std::shared_ptr<Engine>] ends. *)
Definition engine_referenced (eid : nat) (w : world) : bool :=
  bool_decide (map_Exists (fun _ e => e = eid) (engines_ w)) ||
  bool_decide (map_Exists (fun _ e => e = eid) (clientEngines_ w)).
Definition drop_engine (eid : nat) : ST world unit :=
  r ← gets (engine_referenced eid);
  if (r : bool) then mret tt else delete_engine eid.

(** [Engine::SyncExecute] up to the wait: the code, or the notifier to wait on. *)
Definition SyncExecute_send (eid : nat) (request : option Request.t) : ST world (Z + nat) :=
  e ← gets (engine_of eid);
  match (e ← e; Engine.msgHandler_ e) with
  | None => mret (inl RETCODE_NULL_PARAM)
  | Some h =>
      match request with
      | None => mret (inl RETCODE_NULL_PARAM)
      | Some _ =>
          n ← gets next_notifier;
          modify (fun w => w <| next_notifier ::= S |> <| notifiers ::= <[n := SimpleEventNotifier.ctor]> |>) ;;
          c ← SyncSendRequest h request n;
          if negb (c =? RETCODE_SUCCESS)
          then modify (fun w => w <| notifiers ::= delete n |>) ;; mret (inl c)
          else mret (inr n)
      end
  end.

(** The wait and the return; [None] while no answer has come.  A handler only
    hands over responses that exist, so the null case of the code is never met. *)
Definition SyncExecute_receive (n : nat) : ST world (option (Z * option Response.t)) :=
  r ← ReceiveResponse SYNC_MSG_TIMEOUT false n;
  match r with
  | None => mret None
  | Some (c, response) =>
      modify (fun w => w <| notifiers ::= delete n |>) ;;
      if negb (c =? RETCODE_SUCCESS) then mret (Some (c, None)) else
      match response with
      | None => mret (Some (RETCODE_FAILURE, None))
      | Some r => mret (Some (Response.retCode r, Some r))
      end
  end.

(** [SyncExecute] with the worker running [fuel] actions meanwhile. *)
Definition SyncExecute (fuel : nat) (eid : nat) (request : option Request.t) :
    ST world (option (Z * option Response.t)) :=
  s ← SyncExecute_send eid request;
  match s with
  | inl c => mret (Some (c, None))
  | inr n =>
      e ← gets (engine_of eid);
      match e with
      | None => mret None
      | Some e => run_worker fuel (Engine.queue_ e) ;; SyncExecute_receive n
      end
  end.

(** [Engine::AsyncExecute] *)
Definition AsyncExecute (eid : nat) (now : Z) (request : option Request.t) : ST world Z :=
  e ← gets (engine_of eid);
  match (e ← e; Engine.msgHandler_ e) with
  | None => mret RETCODE_NULL_PARAM
  | Some h => AsyncSendRequest h now request
  end.

(** ** [EngineManager] *)

Definition FindEngineByKey (key : string * Z) : ST world (option nat) := gets (fun w => engines_ w !! key).
Definition FindEngine (transactionId : Z) : ST world (option nat) := gets (fun w => clientEngines_ w !! transactionId).
(** An engine that loses its entry here still has the one in [engines_]: it is
    taken out there only when its last client leaves. *)
Definition RecordClient (transactionId : Z) (eid : nat) : ST world unit :=
  modify (fun w => w <| clientEngines_ ::= <[transactionId := eid]> |>).
Definition UnRecordClient (transactionId : Z) : ST world unit :=
  modify (fun w => w <| clientEngines_ ::= delete transactionId |>).
Definition DelEngine (key : string * Z) : ST world unit :=
  modify (fun w => w <| engines_ ::= delete key |>).

(** [CreateEngine]: the code and the engine in the caller's pointer, which is set
    also when [Initialize] fails. *)
Definition CreateEngine (key : string * Z) : ST world (Z * option nat) :=
  ok ← GetPluginManager;
  if negb ok then mret (RETCODE_NULL_PARAM, None) else
  r ← on_plugins (RETCODE_FAILURE, None) (PluginManager.GetPlugin key.1 key.2);
  match r with
  | (retCode, None) => mret (retCode, None)
  | (_, Some plugin) =>
      let drop_plugin : ST world unit := on_plugins tt (PluginManager.release plugin) in
      ok ← GetThreadPool;
      if negb ok then drop_plugin ;; mret (RETCODE_OUT_OF_MEMORY, None) else
      t_ok ← on_mem AIE_NEW;
      thread ← on_thread_pool None (ThreadPool.Pop t_ok);
      match thread with
      | None => drop_plugin ;; mret (RETCODE_OUT_OF_MEMORY, None)
      | Some thread =>
          ok ← GetQueuePool MAX_SYNC_MSG_NUM;
          if negb ok then drop_plugin ;; mret (RETCODE_OUT_OF_MEMORY, None) else
          q_ok ← on_mem AIE_NEW;
          n_ok ← on_mem AIE_NEW;
          capacity ← gets (fun w => QueuePool.singleQueueCapacity_ (queuePool w));
          queue ← on_queue_pool None (QueuePool.Pop capacity q_ok n_ok);
          match queue with
          | None =>
              on_thread_pool tt (ThreadPool.Push false thread) ;; drop_plugin ;;
              mret (RETCODE_OUT_OF_MEMORY, None)
          | Some queue =>
              ok ← on_mem AIE_NEW;
              if negb ok then
                on_queue_pool tt (QueuePool.Push queue) ;;
                on_thread_pool tt (ThreadPool.Push false thread) ;; drop_plugin ;;
                mret (RETCODE_ENGINE_NOT_EXIST, None)
              else
              eid ← gets next_engine;
              modify (fun w => w <| next_engine ::= S |> <| objects ::= <[eid := Engine.ctor plugin thread queue]> |>) ;;
              retCode ← Initialize eid;
              if negb (retCode =? RETCODE_SUCCESS) then
                on_queue_pool tt (QueuePool.Push queue) ;;
                on_thread_pool tt (ThreadPool.Push false thread) ;;
                mret (retCode, Some eid)
              else mret (RETCODE_SUCCESS, Some eid)
          end
      end
  end.

Definition CreateEngineWithCheck (key : string * Z) : ST world (Z * option nat) :=
  found ← FindEngineByKey key;
  match found with
  | Some eid => mret (RETCODE_SUCCESS, Some eid)
  | None =>
      r ← CreateEngine key;
      match r with
      | (retCode, Some eid) =>
          if negb (retCode =? RETCODE_SUCCESS) then mret r else
          modify (fun w => w <| engines_ ::= <[key := eid]> |>) ;; mret r
      | _ => mret r
      end
  end.

Definition StartEngine (transactionId : Z) (algoInfo : AlgorithmInfo.t) (inputInfo : DataInfo.t) :
    ST world (Z * DataInfo.t) :=
  let aid := GetAlgorithmIdByType (AlgorithmInfo.algorithmType algoInfo) in
  if String.eqb aid ALGORITHM_ID_INVALID then mret (RETCODE_ALGORITHM_ID_INVALID, DataInfo.null) else
  let key := (aid, AlgorithmInfo.algorithmVersion algoInfo) in
  found ← FindEngineByKey key;
  r ← match found with
      | Some eid => mret (RETCODE_SUCCESS, Some eid)
      | None => CreateEngineWithCheck key
      end;
  match r with
  | (retCode, None) => mret (retCode, DataInfo.null)
  | (retCode, Some eid) =>
      if negb (retCode =? RETCODE_SUCCESS) then drop_engine eid ;; mret (retCode, DataInfo.null) else
      a ← gets (fun w => e ← engine_of eid w; algorithm_of (Engine.plugin_ e) w);
      match a with
      | None => mret (RETCODE_FAILURE, DataInfo.null)
      | Some algo =>
          p ← on_algorithm (prepare algo transactionId inputInfo);
          if negb (fst p =? RETCODE_SUCCESS) then mret p else
          upd_engine eid (fun e => e <| Engine.refCount_ ::= fun n => s32 (n + 1) |>) ;;
          RecordClient transactionId eid ;;
          mret (RETCODE_SUCCESS, snd p)
      end
  end.

Definition StopEngine (transactionId : Z) (inputInfo : DataInfo.t) : ST world Z :=
  found ← FindEngine transactionId;
  match found with
  | None => mret RETCODE_SA_SERVICE_EXCEPTION
  | Some eid =>
      e ← gets (engine_of eid);
      match e with
      | None => mret RETCODE_SA_SERVICE_EXCEPTION
      | Some e =>
          a ← gets (algorithm_of (Engine.plugin_ e));
          match a with
          | None => mret RETCODE_SA_SERVICE_EXCEPTION
          | Some algo =>
              let isFullUnload := Engine.refCount_ e =? PLUGIN_NUM_FOR_UNLOAD in
              retCode ← on_algorithm (release_algorithm algo isFullUnload transactionId inputInfo);
              if negb (retCode =? RETCODE_SUCCESS) then mret retCode else
              upd_engine eid (fun e => e <| Engine.refCount_ ::= fun n => s32 (n - 1) |>) ;;
              n ← gets (fun w => Engine.refCount_ <$> engine_of eid w);
              (if bool_decide (n = Some 0) then
                 p ← gets (fun w => p ← pluginManager w; PluginManager.plugins p !! Engine.plugin_ e);
                 match p with
                 | None => mret tt
                 | Some p =>
                     let key := (Plugin.aid_ p, Plugin.version_ p) in
                     on_plugins tt (PluginManager.UnloadPlugin key.1 key.2) ;; DelEngine key
                 end
               else mret tt) ;;
              UnRecordClient transactionId ;;
              drop_engine eid ;;
              mret RETCODE_SUCCESS
          end
      end
  end.

Definition SetOption (transactionId optionType : Z) (inputInfo : DataInfo.t) : ST world Z :=
  found ← FindEngine transactionId;
  a ← gets (fun w => eid ← found; e ← engine_of eid w; algorithm_of (Engine.plugin_ e) w);
  match a with
  | None => mret RETCODE_SA_SERVICE_EXCEPTION
  | Some algo => on_algorithm (set_option algo optionType inputInfo)
  end.

Definition GetOption (transactionId optionType : Z) (inputInfo : DataInfo.t) : ST world (Z * DataInfo.t) :=
  found ← FindEngine transactionId;
  a ← gets (fun w => eid ← found; e ← engine_of eid w; algorithm_of (Engine.plugin_ e) w);
  match a with
  | None => mret (RETCODE_SA_SERVICE_EXCEPTION, DataInfo.null)
  | Some algo => on_algorithm (get_option algo optionType inputInfo)
  end.

(** ** [ServerExecutor]: the manager exists while the executor does *)

Definition ServerSyncExecute (fuel : nat) (request : option Request.t) : ST world (option (Z * option Response.t)) :=
  match request with
  | None => mret (Some (RETCODE_NULL_PARAM, None))
  | Some r =>
      found ← FindEngine (Request.transactionId r);
      match found with
      | None => mret (Some (RETCODE_ENGINE_NOT_EXIST, None))
      | Some eid => SyncExecute fuel eid request
      end
  end.

Definition ServerAsyncExecute (now : Z) (request : option Request.t) : ST world Z :=
  match request with
  | None => mret RETCODE_NULL_PARAM
  | Some r =>
      found ← FindEngine (Request.transactionId r);
      match found with
      | None => mret RETCODE_ENGINE_NOT_EXIST
      | Some eid => AsyncExecute eid now request
      end
  end.

Definition RegisterListener (listener : nat) (transactionId : Z) : ST world Z :=
  ok ← on_field futures FutureFactory.GetInstance;
  if negb ok then mret RETCODE_NULL_PARAM else
  on_field futures (FutureFactory.RegisterListener listener transactionId) ;; mret RETCODE_SUCCESS.
Definition UnRegisterListener (transactionId : Z) : ST world Z :=
  ok ← on_field futures FutureFactory.GetInstance;
  if negb ok then mret RETCODE_NULL_PARAM else
  on_field futures (FutureFactory.UnregisterListener transactionId) ;; mret RETCODE_SUCCESS.

End executor.
End Executor.

(** ** An environment for concrete runs: every algorithm has the given mode and
    answers with the request's message. *)
Module ExecSample.

Definition echo (mode : string) : Algorithm := {|
  algorithms := unit;
  no_algorithms := tt;
  infer_mode := fun _ => Some mode;
  sync_process := fun _ r m => ((RETCODE_SUCCESS, Some (Response.SetResult (Request.msg r) (Response.ctor (Some r)))), m);
  async_process := fun _ r m => ((RETCODE_SUCCESS, [(Future.ON_PLUGIN_SUCCEED, Some (Response.ctor (Some r)))]), m);
  prepare := fun _ _ _ m => ((RETCODE_SUCCESS, DataInfo.null), m);
  release_algorithm := fun _ _ _ _ m => (RETCODE_SUCCESS, m);
  set_option := fun _ _ _ m => (RETCODE_SUCCESS, m);
  get_option := fun _ _ _ m => ((RETCODE_SUCCESS, DataInfo.null), m);
|}.

#[export] Instance libs : DynLib := {|
  realpath := fun p => Some p; dlopen := fun _ _ => true; has_interface := fun _ => true; make_plugin := fun _ _ => true;
  new_label := fun _ => true |}.

#[export] Instance threads : Pthread := {|
  pthread_attr_init := fun _ => 0; pthread_create := fun _ => 0; thread_exited := fun _ => false;
  pthread_handle := fun n => Z.of_nat n + 1 |}.

End ExecSample.
