(* ===== verification/ServerExecutor.v ===== *)
(** * ServerExecutor: the executor as an object, from its creation to its end

    services/server/server_executor/source/server_executor.cpp and the end of
    engine_manager.cpp: the executor owns the engine manager; its destructor
    deletes the manager, which drops every engine and destroys the plugin
    manager, and then releases the future factory. *)

From Stdlib Require Import ZArith Lia String.
From stdpp Require Import gmap strings list.
From S2P Require Import Prelude Protocol Sync Queue Thread Pools PluginManager FutureFactory Executor.

#[local] Open Scope Z_scope.

(** ** [PluginManager::Destroy], before the manager deletes itself *)

Module PluginManagerEnd.
Import PluginManager.

(** [pluginMap_.clear()]: the entries go one after the other. *)
Definition clear_map `{!DynLib} : ST t unit :=
  keys ← gets (fun s => (map_to_list (pluginMap_ s)).*1);
  for_each (fun key => UnloadPlugin key.1 key.2) keys.

End PluginManagerEnd.

(** ** [EngineManager] *)

Module EngineManagerEnd.
Import Executor.

Section manager.
  Context {X : Type} `{!Allocator, !DynLib, !Pthread, !Algorithm}.

(** [engines_.clear()] *)
Definition clear_engine (key : string * Z) : ST (@world X _) unit :=
  found ← FindEngineByKey key;
  DelEngine key ;;
  match found with None => mret tt | Some eid => drop_engine eid end.
Definition clear_engines : ST (@world X _) unit :=
  keys ← gets (fun w => (map_to_list (engines_ w)).*1);
  for_each clear_engine keys.

(** [clientEngines_.clear()] *)
Definition clear_client (transactionId : Z) : ST (@world X _) unit :=
  found ← FindEngine transactionId;
  UnRecordClient transactionId ;;
  match found with None => mret tt | Some eid => drop_engine eid end.
Definition clear_clients : ST (@world X _) unit :=
  ids ← gets (fun w => (map_to_list (clientEngines_ w)).*1);
  for_each clear_client ids.

(** [EngineManager::Uninitialize()] up to the deletion of the plugin manager. *)
Definition Uninitialize : ST (@world X _) unit :=
  clear_engines ;; clear_clients ;;
  ok ← GetPluginManager;
  if negb ok then mret tt else on_plugins tt PluginManagerEnd.clear_map.

End manager.
End EngineManagerEnd.

(** ** [ServerExecutor] *)

Module ServerExecutor.

Section executor.
  Context {X : Type} `{!Allocator, !DynLib, !Pthread, !Algorithm}.
  Context (OnReply : nat -> Future.t -> ST X unit).

Record t := mk {
  engineMgr_ : bool;                       (** not null *)
  world : @Executor.world X _;
  retired : list PluginManager.t;          (** the plugin managers that have been deleted, as they were then *)
}.
#[global] Instance eta_executor : Eta t := fun r => mk (engineMgr_ r) (world r) (retired r).

Definition ctor (w : @Executor.world X _) : t := mk false w [].

Definition on_world {A} (m : ST (@Executor.world X _) A) : ST t A := on_field world m.

(** [Initialize()]; that of the engine manager always succeeds. *)
Definition Initialize : ST t Z :=
  ok ← on_world (Executor.on_mem AIE_NEW);
  if negb ok then mret RETCODE_OUT_OF_MEMORY else
  modify (fun s => s <| engineMgr_ := true |>) ;; mret RETCODE_SUCCESS.

(** [AIE_DELETE(instance_)] of the plugin manager. *)
Definition delete_plugin_manager : ST t unit := modify (fun s =>
  match Executor.pluginManager (world s) with
  | None => s
  | Some p => s <| retired ::= cons p |> <| world ::= fun w => w <| Executor.pluginManager := None |> |>
  end).

(** [AIE_DELETE(engineMgr_)] with [~EngineManager()]. *)
Definition delete_manager : ST t unit :=
  on_world EngineManagerEnd.Uninitialize ;; delete_plugin_manager ;;
  modify (fun s => s <| engineMgr_ := false |>).

(** [FutureFactory::ReleaseInstance()] *)
Definition ReleaseFutureFactory : ST t unit := on_world (on_field Executor.futures FutureFactory.ReleaseInstance).

(** [Uninitialize()] *)
Definition Uninitialize : ST t unit :=
  m ← gets engineMgr_;
  (if (m : bool) then delete_manager else mret tt) ;;
  ReleaseFutureFactory.

(** [CHK_RET(engineMgr_ == nullptr, RETCODE_ENGINE_MANAGER_NOT_INIT)], then the call. *)
Definition with_manager {A} (none : A) (m : ST (@Executor.world X _) A) : ST t A :=
  e ← gets engineMgr_;
  if negb e then mret none else on_world m.

Definition StartEngine (transactionId : Z) (algoInfo : AlgorithmInfo.t) (inputInfo : DataInfo.t) : ST t (Z * DataInfo.t) :=
  with_manager (RETCODE_ENGINE_MANAGER_NOT_INIT, DataInfo.null) (Executor.StartEngine transactionId algoInfo inputInfo).
Definition StopEngine (transactionId : Z) (inputInfo : DataInfo.t) : ST t Z :=
  with_manager RETCODE_ENGINE_MANAGER_NOT_INIT (Executor.StopEngine transactionId inputInfo).
Definition SetOption (transactionId optionType : Z) (inputInfo : DataInfo.t) : ST t Z :=
  with_manager RETCODE_ENGINE_MANAGER_NOT_INIT (Executor.SetOption transactionId optionType inputInfo).
Definition GetOption (transactionId optionType : Z) (inputInfo : DataInfo.t) : ST t (Z * DataInfo.t) :=
  with_manager (RETCODE_ENGINE_MANAGER_NOT_INIT, DataInfo.null) (Executor.GetOption transactionId optionType inputInfo).
Definition SyncExecute (fuel : nat) (request : option Request.t) : ST t (option (Z * option Response.t)) :=
  with_manager (Some (RETCODE_ENGINE_MANAGER_NOT_INIT, None)) (Executor.ServerSyncExecute OnReply fuel request).
Definition AsyncExecute (now : Z) (request : option Request.t) : ST t Z :=
  with_manager RETCODE_ENGINE_MANAGER_NOT_INIT (Executor.ServerAsyncExecute now request).

(** The factory exists without the manager. *)
Definition RegisterListener (listener : nat) (transactionId : Z) : ST t Z :=
  on_world (Executor.RegisterListener listener transactionId).
Definition UnRegisterListener (transactionId : Z) : ST t Z :=
  on_world (Executor.UnRegisterListener transactionId).

End executor.
End ServerExecutor.
