(* ===== verification/ExecutorProps.v ===== *)
(** * ExecutorProps: properties of engines, handlers and the engine manager

    A synchronous request is answered with the algorithm's own response behind
    whatever is queued before it, the cases in which no answer ever comes, and
    the reference counts of engines. *)

From Stdlib Require Import ZArith Lia String.
From stdpp Require Import gmap strings list.
From S2P Require Import Prelude Protocol Sync Queue Thread Pools PluginManager FutureFactory Executor.

#[local] Open Scope Z_scope.

Module ExecutorFacts.
Import Executor.

Section facts.
  Context {X : Type} `{!Allocator, !DynLib, !Pthread, !Algorithm} (OnReply : nat -> Future.t -> ST X unit).
  Implicit Types (w : @world X _) (h : Handler.t) (task : Task.t).

(** ** What the worker leaves alone *)

(** Processing a message wakes at most the notifier [n]. *)
Record quiet (n : option nat) w w' : Prop := {
  q_queues : queuePool w' = queuePool w;
  q_objects : objects w' = objects w;
  q_next : next_notifier w' = next_notifier w;
  q_notifiers : forall k, Some k <> n -> notifiers w' !! k = notifiers w !! k;
}.

Lemma quiet_refl n w : quiet n w w.
Proof. done. Qed.

Lemma quiet_trans n w1 w2 w3 : quiet n w1 w2 -> quiet n w2 w3 -> quiet n w1 w3.
Proof. intros [] []. split; try congruence. intros k Hk. rewrite q_notifiers1, q_notifiers0; done. Qed.

Lemma quiet_futures {A} n (m : ST (@FutureFactory.t X) A) w : wp (on_field futures m) (fun _ => quiet n w) w.
Proof. apply wp_on_field. unfold wp. done. Qed.

Lemma quiet_mem {A} n (m : ST Mem.t A) w : wp (on_mem m) (fun _ => quiet n w) w.
Proof. apply quiet_futures. Qed.

Lemma quiet_algorithm {A} n (m : ST (algorithms * Mem.t) A) w : wp (on_algorithm m) (fun _ => quiet n w) w.
Proof. unfold wp, on_algorithm. by destruct (m _) as [a [g h]]. Qed.

Lemma OnEvent_quiet n e r w : wp (OnEvent OnReply e r) (fun _ => quiet n w) w.
Proof.
  unfold OnEvent. destruct r; [|by apply wp_ret]. apply wp_bind. eapply wp_mono; [apply (quiet_futures n)|].
  intros [] w1 Q1; cbn [negb]; [|by apply wp_ret]. eapply wp_mono; [apply (quiet_futures n)|]. intros ? w2. by apply quiet_trans.
Qed.

Lemma Process_quiet h task w : wp (Process OnReply h task) (fun _ => quiet (Task.notifier task) w) w.
Proof.
  unfold Process, SyncProcess, AsyncProcess.
  destruct (Handler.cls h), (Handler.pluginAlgorithm_ h) as [algo|], (Task.request task) as [req|];
    try (by apply wp_ret); apply wp_bind; (eapply wp_mono; [apply (quiet_algorithm (Task.notifier task))|]); intros r w1 Q1; cbn beta in Q1.
  - destruct r as [code response]. apply wp_bind.
    eapply wp_mono; [instantiate (1 := fun _ => quiet (Task.notifier task) w)|].
    + destruct response; [by apply wp_ret|]. eapply wp_mono; [apply (quiet_mem (Task.notifier task))|]. intros ? w2 Q2. by eapply quiet_trans.
    + intros [resp|] w2 Q2; [|by apply wp_ret]. apply wp_bind. destruct (Task.notifier task) as [n|] eqn:E.
      * apply wp_modify, wp_ret. destruct Q2 as [? ? ? Q2]. split; try done. intros k Hk. cbn.
        rewrite lookup_alter_ne by congruence. by apply Q2.
      * eapply wp_mono; [apply (quiet_mem None)|]. intros ? w3 Q3. apply wp_ret. exact (quiet_trans _ _ _ _ Q2 Q3).
  - apply wp_bind. eapply wp_mono; [apply (wp_for_each (fun w' => quiet (Task.notifier task) w w')); [done|]|].
    + intros x w2 _ Q2. apply wp_bind. eapply wp_mono; [apply (OnEvent_quiet (Task.notifier task))|]. intros ? w3 Q3. apply wp_ret.
      exact (quiet_trans _ _ _ _ Q2 Q3).
    + intros ? w2 Q2. apply wp_bind. eapply wp_mono; [apply (quiet_mem (Task.notifier task))|]. intros ? w3 Q3. apply wp_ret.
      exact (quiet_trans _ _ _ _ Q2 Q3).
Qed.

(** ** The queue of an engine *)

Definition has_queue (cap : Z) (qid : nat) (l : list Task.t) w : Prop :=
  exists p q, QueuePool.instance_ (queuePool w) = Some p /\ QueuePool.store p !! qid = Some q /\ QueueFacts.rep cap q l.

Context (cap : Z) (Hcap : 0 < cap < 2 ^ 64) (Hdiv : (cap | 2 ^ 64)).

Lemma has_queue_quiet n qid l w w' : quiet n w w' -> has_queue cap qid l w -> has_queue cap qid l w'.
Proof. intros [] (p & q & ?). exists p, q. by rewrite q_queues0. Qed.

Lemma has_queue_of qid l w : has_queue cap qid l w -> QueueFacts.rep cap (queue_of qid w) l.
Proof. intros (p & q & Ep & Eq & R). unfold queue_of. by rewrite Ep, Eq. Qed.

(** An operation of the queue reaches it, and nothing else changes. *)
Lemma on_queue_spec {A} (none : A) qid (m : ST (@Queue.t Task.t) A) l w (P : A -> list Task.t -> Prop) :
  has_queue cap qid l w ->
  (forall q, QueueFacts.rep cap q l -> wp m (fun a q' => exists l', P a l' /\ QueueFacts.rep cap q' l') q) ->
  wp (on_queue none qid m) (fun a w' => exists l', P a l' /\ has_queue cap qid l' w' /\
    objects w' = objects w /\ notifiers w' = notifiers w /\ next_notifier w' = next_notifier w /\
    exists pool, w' = w <| queuePool := pool |>) w.
Proof.
  intros (p & q & Ep & Eq & R) Hm. unfold wp, on_queue, on_queue_pool. rewrite Ep, Eq.
  specialize (Hm q R). unfold wp in Hm. destruct (m q) as [a q']. destruct Hm as (l' & HP & R'). cbn in *.
  exists l'. split_and!; try done; [|by eexists].
  eexists _, q'. split_and!; [reflexivity| |done]. cbn. by rewrite lookup_insert_eq.
Qed.

Lemma push_spec qid task l w :
  has_queue cap qid l w -> Z.of_nat (length l) < cap ->
  wp (on_queue RETCODE_QUEUE_FULL qid (Queue.PushBack task)) (fun c w' => c = RETCODE_SUCCESS /\
    has_queue cap qid (l ++ [task]) w' /\ objects w' = objects w /\ notifiers w' = notifiers w /\
    next_notifier w' = next_notifier w /\ exists pool, w' = w <| queuePool := pool |>) w.
Proof.
  intros Hq Hl. eapply wp_mono.
  - apply (on_queue_spec _ _ _ l _ (fun c l' => c = RETCODE_SUCCESS /\ l' = l ++ [task])); [done|].
    intros q R. eapply wp_mono; [by apply (QueueFacts.PushBack_spec cap Hcap Hdiv)|].
    intros c q' (l' & E & R'). exists l'. split; [|done]. unfold Queue.fifo_push in E.
    rewrite (proj2 (Z.eqb_neq _ _)) in E by lia. by simplify_eq.
  - by intros c w' (l' & [-> ->] & ?).
Qed.

Lemma pop_spec qid t l w :
  has_queue cap qid (t :: l) w ->
  wp (on_queue (RETCODE_QUEUE_EMPTY, None) qid Queue.PopFront) (fun r w' => r = (RETCODE_SUCCESS, Some t) /\
    has_queue cap qid l w' /\ objects w' = objects w /\ notifiers w' = notifiers w /\
    next_notifier w' = next_notifier w /\ exists pool, w' = w <| queuePool := pool |>) w.
Proof.
  intros Hq. eapply wp_mono.
  - apply (on_queue_spec _ _ _ (t :: l) _ (fun r l' => r = (RETCODE_SUCCESS, Some t) /\ l' = l)); [done|].
    intros q R. eapply wp_mono; [by apply (QueueFacts.PopFront_spec cap Hcap Hdiv)|].
    intros r q' (l' & E & R'). exists l'. cbn in E. by simplify_eq.
  - by intros r w' (l' & [-> ->] & ?).
Qed.

Lemma queue_count qid l w : has_queue cap qid l w -> Queue.Count (queue_of qid w) = Z.of_nat (length l).
Proof. intros Hq. apply (QueueFacts.rep_read _ _ _ (has_queue_of _ _ _ Hq)). Qed.

(** ** The worker *)

(** One action takes one message and disturbs only its notifier. *)
Lemma OneAction_spec qid t l w :
  has_queue cap qid (t :: l) w ->
  wp (OneAction OnReply qid) (fun _ w' => has_queue cap qid l w' /\ objects w' = objects w /\
    forall k, Some k <> Task.notifier t -> notifiers w' !! k = notifiers w !! k) w.
Proof.
  intros Hq. unfold OneAction. apply wp_bind, wp_gets. unfold Queue.IsEmpty.
  change (Queue.readAbleCount_ ?q) with (Queue.Count q). rewrite (queue_count _ _ _ Hq). cbn -[Z.of_nat].
  rewrite (proj2 (Z.eqb_neq _ _)) by lia. apply wp_bind.
  eapply wp_mono; [by apply pop_spec|]. intros r w1 (-> & Hq1 & O1 & N1 & _). cbn.
  destruct (Task.handler t) as [h|]; [|apply wp_ret; split_and!; [done|done|by rewrite N1]].
  apply wp_bind. eapply wp_mono; [apply Process_quiet|]. intros ? w2 Q2. apply wp_ret.
  split_and!; [exact (has_queue_quiet _ _ _ _ _ Q2 Hq1)|by rewrite (q_objects _ _ _ Q2)|].
  intros k Hk. by rewrite (q_notifiers _ _ _ Q2), N1.
Qed.

Lemma OneAction_idle qid w : has_queue cap qid [] w -> OneAction OnReply qid w = (true, w).
Proof.
  intros Hq. unfold OneAction, mbind, ST_bind, gets, Queue.IsEmpty.
  change (Queue.readAbleCount_ ?q) with (Queue.Count q). by rewrite (queue_count _ _ _ Hq).
Qed.

Lemma run_worker_idle fuel qid w : has_queue cap qid [] w -> run_worker OnReply fuel qid w = (tt, w).
Proof.
  intros Hq. induction fuel as [|fuel IH]; [done|]. cbn. unfold mbind, ST_bind at 1. by rewrite OneAction_idle.
Qed.

(** What every message on the queue keeps, the worker keeps. *)
Lemma run_worker_inv (P : Task.t -> Prop) (I : world -> Prop) qid :
  (forall h t w, P t -> Task.handler t = Some h -> I w -> wp (Process OnReply h t) (fun _ => I) w) ->
  (forall w pool, I w -> I (w <| queuePool := pool |>)) ->
  forall fuel l w, Forall P l -> has_queue cap qid l w -> I w -> wp (run_worker OnReply fuel qid) (fun _ => I) w.
Proof.
  intros HP HI fuel. induction fuel as [|fuel IH]; intros l w Hl Hq Hw; [done|].
  destruct l as [|t l]; [unfold wp; by rewrite run_worker_idle|]. cbn [run_worker]. apply wp_bind.
  inversion Hl as [|? ? Ht Hl']; subst.
  assert (wp (OneAction OnReply qid) (fun _ => I) w) as A.
  { unfold OneAction. apply wp_bind, wp_gets. destruct (Queue.IsEmpty _); [by apply wp_ret|].
    apply wp_bind. eapply wp_mono; [exact (pop_spec _ _ _ _ Hq)|]. intros r w1 (-> & _ & _ & _ & _ & pool & ->). cbn.
    destruct (Task.handler t) as [h|] eqn:Eh; [|by apply wp_ret, HI].
    apply wp_bind. eapply wp_mono; [by apply HP; [| |apply HI]|]. by intros; apply wp_ret. }
  pose proof (OneAction_spec _ _ _ _ Hq) as B. unfold wp in A, B. unfold wp at 1.
  destruct (OneAction OnReply qid w) as [b w']. destruct B as (B & _). by apply (IH l).
Qed.

Lemma AsyncProcess_quiet h task w :
  Handler.cls h = Handler.Async -> wp (Process OnReply h task) (fun _ => quiet None w) w.
Proof.
  intros Hc. unfold Process. rewrite Hc.
  assert (Process OnReply (Handler.mk Handler.Async (Handler.queue_ h) (Handler.pluginAlgorithm_ h))
    (Task.mk None (Task.request task) None) = AsyncProcess OnReply h task) as <- by (by destruct h).
  apply (Process_quiet _ (Task.mk None (Task.request task) None)).
Qed.

(** Synchronous handlers do not look at the futures. *)
Definition same_futures w w' : Prop :=
  FutureFactory.futures_ (futures w') = FutureFactory.futures_ (futures w) /\
  FutureFactory.ext (futures w') = FutureFactory.ext (futures w).

Lemma mem_futures {A} (m : ST Mem.t A) w : wp (on_mem m) (fun _ => same_futures w) w.
Proof. unfold on_mem. do 2 apply wp_on_field. unfold wp. done. Qed.

Lemma algorithm_futures {A} (m : ST (algorithms * Mem.t) A) w : wp (on_algorithm m) (fun _ => same_futures w) w.
Proof. unfold wp, on_algorithm. by destruct (m _) as [a [g h]]. Qed.

Lemma SyncProcess_futures h task w :
  Handler.cls h = Handler.Sync -> wp (Process OnReply h task) (fun _ => same_futures w) w.
Proof.
  intros Hc. unfold Process, SyncProcess. rewrite Hc.
  destruct (Handler.pluginAlgorithm_ h) as [algo|], (Task.request task) as [req|]; try (by apply wp_ret).
  apply wp_bind. eapply wp_mono; [apply algorithm_futures|]. intros [code response] w1 [F1 E1]. apply wp_bind.
  eapply wp_mono; [instantiate (1 := fun _ => same_futures w)|].
  - destruct response; [by apply wp_ret|]. eapply wp_mono; [apply mem_futures|].
    intros ? w2 [F2 E2]. split; congruence.
  - intros [resp|] w2 [F2 E2]; [|by apply wp_ret]. apply wp_bind. destruct (Task.notifier task) as [n|].
    + by apply wp_modify, wp_ret.
    + eapply wp_mono; [apply mem_futures|]. intros ? w3 [F3 E3]. apply wp_ret. split; congruence.
Qed.

(** What the algorithm made of the request, as the caller is told. *)
Definition answer (algo : nat) (r : Request.t) (x : Response.t) : Prop :=
  exists m code resp m', sync_process algo r m = ((code, resp), m') /\
    Response.retCode x = (if code =? RETCODE_SUCCESS then RETCODE_SUCCESS else RETCODE_ALGORITHM_PROCESS_ERROR) /\
    (forall y, resp = Some y -> x = Response.SetRetCode (Response.retCode x) y).

Definition answered (n : nat) (algo : nat) (r : Request.t) w : Prop :=
  exists x, answer algo r x /\ notifiers w !! n = Some (SimpleEventNotifier.mk (Some x) (Semaphore.mk 1)).

Definition answers (algo : nat) (r : Request.t) : Prop :=
  (forall m, is_Some (sync_process algo r m).1.2) \/ (forall k, new_ok k = true).

Definition sync_handler (qid algo : nat) : Handler.t := Handler.mk Handler.Sync qid (Some algo).

Lemma SyncProcess_spec qid algo r n w :
  answers algo r -> notifiers w !! n = Some SimpleEventNotifier.ctor ->
  wp (SyncProcess (sync_handler qid algo) (Task.mk (Some (sync_handler qid algo)) (Some r) (Some n)))
    (fun _ => answered n algo r) w.
Proof.
  intros Hans Hn. unfold SyncProcess. cbn [Handler.pluginAlgorithm_ sync_handler Task.request Task.notifier].
  apply wp_bind. unfold on_algorithm, wp at 1.
  set (m := (_, _)). destruct (sync_process algo r m) as [[code resp] [g h]] eqn:E. cbn [fst snd].
  set (w1 := _ <| futures ::= _ |>). assert (notifiers w1 !! n = Some SimpleEventNotifier.ctor) as N1 by done. clearbody w1.
  apply wp_bind.
  eapply wp_mono; [instantiate (1 := fun y w' => (exists x, y = Some x /\ forall z, resp = Some z -> x = z) /\
    notifiers w' !! n = Some SimpleEventNotifier.ctor)|].
  - destruct resp as [y|]; [apply wp_ret; split; [exists y; split; [done|congruence]|done]|].
    destruct Hans as [Ha|Hnew]; [specialize (Ha m); rewrite E in Ha; by destruct Ha|].
    unfold Response.Create, on_mem. do 2 apply wp_on_field. unfold wp, mbind, ST_bind, AIE_NEW. cbn.
    rewrite Hnew. cbn. split; [by eexists|done].
  - intros y w2 [(x & -> & Hx) N2]. apply wp_bind, wp_modify, wp_ret. unfold answered.
    set (code' := if negb _ then _ else _). exists (Response.SetRetCode code' x). split.
    + exists m, code, resp, (g, h). split; [done|]. split; [unfold code'; cbn; by destruct (code =? _)|].
      intros z Hz. by rewrite (Hx z Hz).
    + cbn. rewrite lookup_alter_eq, N2. done.
Qed.

Definition sync_task (qid algo : nat) (r : Request.t) (n : nat) : Task.t :=
  Task.mk (Some (sync_handler qid algo)) (Some r) (Some n).

(** The worker comes to the last message of the queue and answers it. *)
Lemma run_worker_spec qid algo r n l : answers algo r -> forall fuel w,
  has_queue cap qid (l ++ [sync_task qid algo r n]) w -> notifiers w !! n = Some SimpleEventNotifier.ctor ->
  (forall t, t ∈ l -> Task.notifier t <> Some n) -> (length l < fuel)%nat ->
  wp (run_worker OnReply fuel qid) (fun _ w' => answered n algo r w' /\ has_queue cap qid [] w') w.
Proof.
  intros Hans. induction l as [|t l IH]; intros [|fuel] w Hq Hn Hl Hf; cbn in Hf; try lia; cbn [run_worker]; apply wp_bind.
  - assert (Q : wp (OneAction OnReply qid) (fun _ w' => has_queue cap qid [] w') w)
      by (eapply wp_mono; [exact (OneAction_spec _ _ _ _ Hq)|by intros ? ? (? & _)]).
    assert (A : wp (OneAction OnReply qid) (fun _ w' => answered n algo r w') w).
    { unfold OneAction. apply wp_bind, wp_gets. unfold Queue.IsEmpty.
      change (Queue.readAbleCount_ ?q) with (Queue.Count q). rewrite (queue_count _ _ _ Hq). cbn -[Z.of_nat].
      apply wp_bind. eapply wp_mono; [by apply pop_spec|]. intros x w1 (-> & _ & _ & N1 & _). cbn.
      apply wp_bind. eapply wp_mono; [apply (SyncProcess_spec qid); [done|by rewrite N1]|]. intros ? w2 A. by apply wp_ret. }
    unfold wp in *. destruct (OneAction OnReply qid w) as [b w']. cbn in *. by rewrite run_worker_idle.
  - eapply wp_mono; [exact (OneAction_spec _ _ _ _ Hq)|]. intros b w1 (Hq1 & _ & N1).
    apply IH; [done| |set_solver|lia]. rewrite N1; [done|]. intros E. by apply (Hl t); [set_solver|].
Qed.

(** ** [Engine::SyncExecute] *)

(** The engine [e] runs with the handler [h]. *)
Record runs (eid : nat) (h : Handler.t) (e : Engine.t) w : Prop := {
  r_engine : engine_of eid w = Some e;
  r_handler : Engine.msgHandler_ e = Some h;
  r_queue : Handler.queue_ h = Engine.queue_ e;
}.

Lemma SyncExecute_send_spec eid h e r l w :
  runs eid h e w -> has_queue cap (Engine.queue_ e) l w ->
  Z.of_nat (length l) < MAX_SYNC_MSG_NUM -> MAX_SYNC_MSG_NUM <= cap ->
  wp (SyncExecute_send eid (Some r)) (fun x w' => x = inr (next_notifier w) /\ engine_of eid w' = Some e /\
    has_queue cap (Engine.queue_ e) (l ++ [Task.mk (Some h) (Some r) (Some (next_notifier w))]) w' /\
    notifiers w' = <[next_notifier w := SimpleEventNotifier.ctor]> (notifiers w)) w.
Proof.
  intros [Ee Eh Eq] Hq Hl Hc. unfold SyncExecute_send. apply wp_bind, wp_gets. rewrite Ee. cbn. rewrite Eh.
  apply wp_bind, wp_gets, wp_bind, wp_modify.
  set (w1 := _ <| notifiers ::= _ |>). assert (has_queue cap (Engine.queue_ e) l w1) as Hq1 by done.
  apply wp_bind. unfold SyncSendRequest. apply wp_bind, wp_gets. cbn beta. rewrite Eq.
  rewrite (queue_count _ _ _ Hq1), (proj2 (Z.leb_gt _ _)) by done.
  eapply wp_mono; [apply (push_spec _ _ l); [done|lia]|]. intros c w2 (-> & Hq2 & O2 & N2 & _). cbn. apply wp_ret.
  split_and!; [done|unfold engine_of; by rewrite O2|done|by rewrite N2].
Qed.

Lemma SyncExecute_receive_spec n x w :
  notifiers w !! n = Some (SimpleEventNotifier.mk (Some x) (Semaphore.mk 1)) ->
  SyncExecute_receive n w = (Some (Response.retCode x, Some x), w <| notifiers ::= fun ns => delete n ns |>).
Proof.
  intros E. unfold SyncExecute_receive, ReceiveResponse, mbind, ST_bind. rewrite E. cbn.
  unfold set_field at 1. f_equal. unfold set_field. cbn. f_equal. by rewrite delete_insert_eq.
Qed.

Lemma AsyncExecute_spec eid h e now r l w :
  runs eid h e w -> has_queue cap (Engine.queue_ e) l w ->
  Z.of_nat (length l) < MAX_ASYNC_MSG_NUM -> MAX_ASYNC_MSG_NUM <= cap -> (forall k, new_ok k = true) ->
  Z.of_nat (size (FutureFactory.futures_ (futures w))) <= FutureFactory.MAX_NUM_FUTURES ->
  0 <= FutureFactory.sequenceId_ (futures w) <= LLONG_MAX ->
  wp (AsyncExecute eid now (Some r)) (fun c w' => c = RETCODE_SUCCESS /\ exists id,
    let r' := Request.SetInnerSequenceId id r in
    FutureFactory.futures_ (futures w) !! id = None /\
    FutureFactory.futures_ (futures w') =
      <[id := Future.ctor now (Some r') id (Request.transactionId r)]> (FutureFactory.futures_ (futures w)) /\
    FutureFactory.ext (futures w') = FutureFactory.ext (futures w) /\
    has_queue cap (Engine.queue_ e) (l ++ [Task.mk (Some h) (Some r') None]) w') w.
Proof.
  intros [Ee Eh Eq] Hq Hl Hc Hnew Hsize Hseq. unfold AsyncExecute. apply wp_bind, wp_gets. rewrite Ee. cbn. rewrite Eh.
  unfold AsyncSendRequest. apply wp_bind, wp_gets. cbn beta. rewrite Eq.
  rewrite (queue_count _ _ _ Hq), (proj2 (Z.leb_gt _ _)) by done. apply wp_bind, wp_on_field.
  eapply wp_mono; [by apply FutureFactoryFacts.GetInstance_spec|]. intros ? f (-> & m & ->). cbn [negb]. apply wp_bind, wp_on_field.
  match goal with |- wp _ _ (futures ?x) => set (w0 := x) end.
  assert (has_queue cap (Engine.queue_ e) l w0) as Hq0 by done.
  pose proof (FutureFactoryFacts.FindSequenceId_spec (futures w0) Hseq) as F.
  rewrite (proj2 (Z.leb_le _ _)) in F by done. destruct F as (id & F & Hid & Hn).
  unfold FutureFactory.CreateFuture, wp at 1, mbind, ST_bind. rewrite F.
  rewrite (proj2 (Z.eqb_neq id FutureFactory.INVALID_SEQUENCE_ID)) by (unfold FutureFactory.INVALID_SEQUENCE_ID, FutureFactory.MIN_SEQUENCE_ID in *; lia).
  unfold on_field, AIE_NEW. cbn. rewrite Hnew. cbn.
  match goal with |- wp _ _ ?x => set (w1 := x) end. assert (has_queue cap (Engine.queue_ e) l w1) as Hq1 by done.
  eapply wp_mono; [apply (push_spec _ _ l); [done|lia]|]. intros c w2 (-> & Hq2 & _ & _ & _ & pool & ->).
  split; [done|]. exists id. split_and!; done.
Qed.

Definition handled_by (k : Handler.kind) (t : Task.t) : Prop := forall h, Task.handler t = Some h -> Handler.cls h = k.

End facts.
End ExecutorFacts.

(** ** Synchronous requests *)

(** C17. A synchronous request to a synchronous engine is answered: with any 63 or
    fewer messages before it, once the worker has run as many actions as there are
    messages, the caller has the algorithm's own response to this request, marked
    with success or with ALGORITHM_PROCESS_ERROR as the algorithm's code says. *)
Theorem sync_execute_completes
    {X : Type} `{!Allocator, !DynLib, !Pthread, !Algorithm} (OnReply : nat -> Future.t -> ST X unit)
    (cap : Z) (eid algo fuel : nat) (e : Engine.t) (r : Request.t) (l : list Task.t) (w : @Executor.world X _) :
  MAX_SYNC_MSG_NUM <= cap < 2 ^ 64 -> (cap | 2 ^ 64) ->
  ExecutorFacts.runs eid (ExecutorFacts.sync_handler (Engine.queue_ e) algo) e w -> ExecutorFacts.has_queue cap (Engine.queue_ e) l w ->
  Z.of_nat (length l) < MAX_SYNC_MSG_NUM -> (length l < fuel)%nat ->
  (forall t n, t ∈ l -> Task.notifier t = Some n -> (n < Executor.next_notifier w)%nat) ->
  ExecutorFacts.answers algo r ->
  exists x w', Executor.SyncExecute OnReply fuel eid (Some r) w = (Some (Response.retCode x, Some x), w') /\
    ExecutorFacts.answer algo r x /\
    (Response.retCode x = RETCODE_SUCCESS \/ Response.retCode x = RETCODE_ALGORITHM_PROCESS_ERROR) /\
    ExecutorFacts.has_queue cap (Engine.queue_ e) [] w' /\
    Executor.notifiers w' !! Executor.next_notifier w = None.
Proof.
  intros Hc Hdiv He Hq Hl Hf Hn Hans. unfold MAX_SYNC_MSG_NUM in Hc.
  assert (wp (Executor.SyncExecute OnReply fuel eid (Some r)) (fun o w' => exists x,
    o = Some (Response.retCode x, Some x) /\ ExecutorFacts.answer algo r x /\
    ExecutorFacts.has_queue cap (Engine.queue_ e) [] w' /\ Executor.notifiers w' !! Executor.next_notifier w = None) w) as U.
  { unfold Executor.SyncExecute. apply wp_bind.
    eapply wp_mono; [eapply (ExecutorFacts.SyncExecute_send_spec cap); try done; unfold MAX_SYNC_MSG_NUM; lia|].
    intros y w1 (-> & E1 & Q1 & N1). apply wp_bind, wp_gets. rewrite E1. apply wp_bind.
    eapply wp_mono; [apply (ExecutorFacts.run_worker_spec OnReply cap ltac:(lia) Hdiv _ algo r (Executor.next_notifier w) l); try done|].
    - by rewrite N1, lookup_insert_eq.
    - intros t Ht E. specialize (Hn t _ Ht E). lia.
    - intros ? w2 [(x & Hx & N2) Q2]. unfold wp. rewrite (ExecutorFacts.SyncExecute_receive_spec _ x) by done.
      exists x. split_and!; [done|done|done|]. cbn. by rewrite lookup_delete_eq. }
  unfold wp in U. destruct (Executor.SyncExecute OnReply fuel eid (Some r) w) as [o w'].
  destruct U as (x & E & Hx & Q & N). cbn in E. subst o. exists x, w'. split_and!; try done.
  destruct Hx as (? & code & ? & ? & _ & -> & _). destruct (code =? RETCODE_SUCCESS); [by left|by right].
Qed.

(** A synchronous request to an asynchronous engine is accepted and its caller
    never returns, whatever the worker does: the handler of an asynchronous engine
    answers no notifier, and the wait has no time limit. *)
Theorem sync_request_on_async_engine_parks
    {X : Type} `{!Allocator, !DynLib, !Pthread, !Algorithm} (OnReply : nat -> Future.t -> ST X unit)
    (cap : Z) (eid fuel : nat) (h : Handler.t) (e : Engine.t) (r : Request.t) (l : list Task.t) (w : @Executor.world X _) :
  MAX_SYNC_MSG_NUM <= cap < 2 ^ 64 -> (cap | 2 ^ 64) ->
  ExecutorFacts.runs eid h e w -> Handler.cls h = Handler.Async ->
  ExecutorFacts.has_queue cap (Engine.queue_ e) l w -> Z.of_nat (length l) < MAX_SYNC_MSG_NUM ->
  Forall (ExecutorFacts.handled_by Handler.Async) l ->
  (Executor.SyncExecute OnReply fuel eid (Some r) w).1 = None.
Proof.
  intros Hc Hdiv He Ha Hq Hl Hall. unfold MAX_SYNC_MSG_NUM in Hc. set (n := Executor.next_notifier w).
  change (wp (Executor.SyncExecute OnReply fuel eid (Some r)) (fun o _ => o = None) w).
  unfold Executor.SyncExecute. apply wp_bind.
  eapply wp_mono; [eapply (ExecutorFacts.SyncExecute_send_spec cap); try done; unfold MAX_SYNC_MSG_NUM; lia|].
  intros y w1 (-> & E1 & Q1 & N1). apply wp_bind, wp_gets. rewrite E1. apply wp_bind. fold n in Q1, N1.
  eapply wp_mono; [apply (ExecutorFacts.run_worker_inv OnReply cap ltac:(lia) Hdiv (ExecutorFacts.handled_by Handler.Async)
    (fun w' => Executor.notifiers w' !! n = Some SimpleEventNotifier.ctor)) with (4 := Q1)|]; [|done| | |].
  - intros h' t w' Ht Eh N. specialize (Ht _ Eh). eapply wp_mono; [by apply ExecutorFacts.AsyncProcess_quiet|].
    intros ? w2 Q. by rewrite (ExecutorFacts.q_notifiers _ _ _ Q).
  - apply Forall_app. split; [done|]. constructor; [|done]. intros h' Eh. cbn in Eh. by simplify_eq.
  - by rewrite N1, lookup_insert_eq.
  - intros ? w2 N. unfold Executor.SyncExecute_receive. apply wp_bind. unfold Executor.ReceiveResponse, wp at 1.
    cbn in N |- *. subst n. by rewrite N.
Qed.

(** An asynchronous request to a synchronous engine is accepted, and its
    future is never completed: whatever the worker does the future stays in the
    table and no listener hears of it. *)
Lemma async_request_on_sync_engine_never_completes
    {X : Type} `{!Allocator, !DynLib, !Pthread, !Algorithm} (OnReply : nat -> Future.t -> ST X unit)
    (cap now : Z) (eid : nat) (h : Handler.t) (e : Engine.t) (r : Request.t) (l : list Task.t) (w : @Executor.world X _) :
  MAX_ASYNC_MSG_NUM <= cap < 2 ^ 64 -> (cap | 2 ^ 64) ->
  ExecutorFacts.runs eid h e w -> Handler.cls h = Handler.Sync ->
  ExecutorFacts.has_queue cap (Engine.queue_ e) l w -> Z.of_nat (length l) < MAX_ASYNC_MSG_NUM ->
  Forall (ExecutorFacts.handled_by Handler.Sync) l -> (forall k, new_ok k = true) ->
  Z.of_nat (size (FutureFactory.futures_ (Executor.futures w))) <= FutureFactory.MAX_NUM_FUTURES ->
  0 <= FutureFactory.sequenceId_ (Executor.futures w) <= LLONG_MAX ->
  let '(c, w1) := Executor.AsyncExecute eid now (Some r) w in
  c = RETCODE_SUCCESS /\ exists id,
  FutureFactory.futures_ (Executor.futures w) !! id = None /\ forall fuel,
  let w2 := (Executor.run_worker OnReply fuel (Engine.queue_ e) w1).2 in
  is_Some (FutureFactory.futures_ (Executor.futures w2) !! id) /\
  FutureFactory.ext (Executor.futures w2) = FutureFactory.ext (Executor.futures w).
Proof.
  intros Hc Hdiv He Hs Hq Hl Hall Hnew Hsize Hseq. unfold MAX_ASYNC_MSG_NUM in Hc.
  pose proof (ExecutorFacts.AsyncExecute_spec cap ltac:(lia) Hdiv eid h e now r l w He Hq Hl ltac:(unfold MAX_ASYNC_MSG_NUM; lia) Hnew Hsize Hseq) as U.
  unfold wp in U. destruct (Executor.AsyncExecute eid now (Some r) w) as [c w1].
  cbn [fst snd] in U. destruct U as (-> & id & Hid & F & E & Q1). split; [done|]. exists id. split; [done|]. intros fuel.
  assert (wp (Executor.run_worker OnReply fuel (Engine.queue_ e)) (fun _ => ExecutorFacts.same_futures w1) w1) as R.
  { apply (ExecutorFacts.run_worker_inv OnReply cap ltac:(lia) Hdiv (ExecutorFacts.handled_by Handler.Sync)) with (4 := Q1).
    - intros h' t w' Ht Eh [F' E']. eapply wp_mono; [apply ExecutorFacts.SyncProcess_futures, (Ht _ Eh)|].
      intros ? w2 [F2 E2]. split; congruence.
    - done.
    - apply Forall_app. split; [done|]. constructor; [|done]. intros h' Eh. cbn in Eh. by simplify_eq.
    - done. }
  destruct R as [F2 E2]. cbn. rewrite F2, E2, F, E. split; [|done]. rewrite lookup_insert_eq. by eexists.
Qed.

(** ** Witnesses: an engine started by the manager *)

Import ExecSample.
#[local] Existing Instance always_alloc.

Definition sample_reply (listener : nat) (f : Future.t) : ST unit unit := mret tt.
Definition sample_info : AlgorithmInfo.t := AlgorithmInfo.mk 1 false 1 1 false 0 0 0 None.

Definition started (mode : string) : @Executor.world unit (echo mode) :=
  (@Executor.StartEngine unit _ _ _ (echo mode) 7 sample_info DataInfo.null (Executor.init Mem.empty tt)).2.
Definition started_handler (k : Handler.kind) : Handler.t := Handler.mk k 0 (Some 1%nat).
Definition started_engine (k : Handler.kind) : Engine.t := Engine.mk 1 2 (Some 0%nat) 0 (Some (started_handler k)).

Lemma started_queue mode : (mode = "SYNC" \/ mode = "ASYNC")%string -> ExecutorFacts.has_queue 64 0 [] (started mode).
Proof.
  intros [-> | ->]; eexists _, _; (split_and!; [vm_compute; reflexivity|vm_compute; reflexivity|]);
    apply (QueueFacts.rep_ctor 64); lia.
Qed.
Lemma started_sync : ExecutorFacts.runs 0 (started_handler Handler.Sync) (started_engine Handler.Sync) (started "SYNC").
Proof. split; vm_compute; reflexivity. Qed.
Lemma started_async : ExecutorFacts.runs 0 (started_handler Handler.Async) (started_engine Handler.Async) (started "ASYNC").
Proof. split; vm_compute; reflexivity. Qed.
Lemma divides_64 : (64 | 2 ^ 64).
Proof. exists (2 ^ 58). reflexivity. Qed.

Lemma sync_execute_completes_witness :
  let w := started "SYNC" in
  exists x w', @Executor.SyncExecute unit _ (echo "SYNC") sample_reply 1 0 (Some Request.ctor) w =
      (Some (Response.retCode x, Some x), w') /\
    @ExecutorFacts.answer (echo "SYNC") 1 Request.ctor x /\
    (Response.retCode x = RETCODE_SUCCESS \/ Response.retCode x = RETCODE_ALGORITHM_PROCESS_ERROR) /\
    ExecutorFacts.has_queue 64 0 [] w' /\ Executor.notifiers w' !! Executor.next_notifier w = None.
Proof.
  intros w. apply (@sync_execute_completes unit always_alloc libs threads (echo "SYNC") sample_reply
    64 0 1 1 (started_engine Handler.Sync) Request.ctor [] w);
    [unfold MAX_SYNC_MSG_NUM; lia|apply divides_64|apply started_sync|apply started_queue; by left
    |done|cbn; lia|by intros ? ? ?%not_elem_of_nil|left; intros m; by eexists].
Defined.

Lemma sync_request_on_async_engine_parks_witness :
  (@Executor.SyncExecute unit _ (echo "ASYNC") sample_reply 5 0 (Some Request.ctor) (started "ASYNC")).1 = None.
Proof.
  apply (@sync_request_on_async_engine_parks unit always_alloc libs threads (echo "ASYNC") sample_reply
    64 0 5 (started_handler Handler.Async) (started_engine Handler.Async) Request.ctor [] (started "ASYNC"));
    [unfold MAX_SYNC_MSG_NUM; lia|apply divides_64|apply started_async|done|apply started_queue; by right|done|done].
Defined.

Lemma async_request_on_sync_engine_never_completes_witness :
  let w := started "SYNC" in
  let '(c, w1) := @Executor.AsyncExecute unit _ (echo "SYNC") 0 5 (Some Request.ctor) w in
  c = RETCODE_SUCCESS /\ exists id,
  FutureFactory.futures_ (Executor.futures w) !! id = None /\ forall fuel,
  let w2 := (@Executor.run_worker unit _ (echo "SYNC") sample_reply fuel 0 w1).2 in
  is_Some (FutureFactory.futures_ (Executor.futures w2) !! id) /\
  FutureFactory.ext (Executor.futures w2) = FutureFactory.ext (Executor.futures w).
Proof.
  intros w. apply (@async_request_on_sync_engine_never_completes unit always_alloc libs threads (echo "SYNC") sample_reply
    64 5 0 (started_handler Handler.Sync) (started_engine Handler.Sync) Request.ctor [] w);
    [unfold MAX_ASYNC_MSG_NUM; lia|apply divides_64|apply started_sync|done|apply started_queue; by left|done|done|done
    |vm_compute; discriminate|vm_compute; split; discriminate].
Defined.
