(* ===== verification/EngineProps.v ===== *)
(** * EngineProps: the reference counts of engines

    The engine manager counts the clients of each engine and decides by the count
    whether a release is a full unload.  The count is exact over every history in
    which no transaction is started twice, and drifts when one is. *)

From Stdlib Require Import ZArith Lia String.
From stdpp Require Import gmap strings list.
From S2P Require Import Prelude Protocol Sync Queue Thread Pools PluginManager FutureFactory Executor ExecutorProps.

#[local] Open Scope Z_scope.

Module EngineFacts.
Import Executor.

(** ** Counting the transactions of an engine *)

Definition count_of (eid : nat) (m : gmap Z nat) : nat := size (filter (fun kv : Z * nat => kv.2 = eid) m).

Lemma count_of_insert eid t e m :
  m !! t = None -> count_of eid (<[t := e]> m) = (count_of eid m + if decide (e = eid) then 1 else 0)%nat.
Proof.
  intros Hn. unfold count_of. destruct (decide (e = eid)) as [->|Hne].
  - rewrite map_filter_insert_True by done. rewrite map_size_insert_None; [lia|].
    apply map_lookup_filter_None. by left.
  - rewrite map_filter_insert_False by done. rewrite delete_id by done. lia.
Qed.

Lemma count_of_delete eid t e m :
  m !! t = Some e -> count_of eid m = (count_of eid (delete t m) + if decide (e = eid) then 1 else 0)%nat.
Proof.
  intros Hs. rewrite <- (insert_delete_id m t e Hs) at 1. apply count_of_insert, lookup_delete_eq.
Qed.

Lemma count_of_le eid m : (count_of eid m <= size m)%nat.
Proof. apply map_subseteq_size, map_filter_subseteq. Qed.

Section facts.
  Context {X : Type} `{!Allocator, !DynLib, !Pthread, !Algorithm} (OnReply : nat -> Future.t -> ST X unit).
  Implicit Types (w : @world X _).

(** ** The tables of the manager *)

Definition refs w : gmap nat Z := Engine.refCount_ <$> objects w.

(** Everything that the counting is about stays as it is. *)
Record same_tables w w' : Prop := {
  st_refs : refs w' = refs w;
  st_engines : engines_ w' = engines_ w;
  st_clients : clientEngines_ w' = clientEngines_ w;
  st_next : next_engine w' = next_engine w;
}.

Lemma same_tables_refl w : same_tables w w.
Proof. done. Qed.
Lemma same_tables_trans w1 w2 w3 : same_tables w1 w2 -> same_tables w2 w3 -> same_tables w1 w3.
Proof. intros [] []. split; congruence. Qed.

Definition keeps {A} (m : ST world A) : Prop := forall w, wp m (fun _ => same_tables w) w.

Lemma keeps_ret {A} (a : A) : keeps (mret a).
Proof. done. Qed.
Lemma keeps_gets {A} (f : world -> A) : keeps (gets f).
Proof. done. Qed.
Lemma keeps_bind {A B} (m : ST world A) (k : A -> ST world B) : keeps m -> (forall a, keeps (k a)) -> keeps (m ≫= k).
Proof.
  intros Hm Hk w. apply wp_bind. eapply wp_mono; [apply Hm|]. intros a w1 E1. eapply wp_mono; [apply Hk|].
  intros ? w2 E2. exact (same_tables_trans _ _ _ E1 E2).
Qed.
Lemma keeps_for_each {A} (body : A -> ST world unit) xs : (forall x, keeps (body x)) -> keeps (for_each body xs).
Proof.
  intros Hb w. apply (wp_for_each (same_tables w)); [done|]. intros x w1 _ E1.
  eapply wp_mono; [apply Hb|]. intros ? w2 E2. exact (same_tables_trans _ _ _ E1 E2).
Qed.
Lemma keeps_futures {A} (m : ST (@FutureFactory.t X) A) : keeps (on_field futures m).
Proof. intros w. apply wp_on_field. unfold wp. done. Qed.
Lemma keeps_mem {A} (m : ST Mem.t A) : keeps (on_mem m).
Proof. apply keeps_futures. Qed.
Lemma keeps_algorithm {A} (m : ST (algorithms * Mem.t) A) : keeps (on_algorithm m).
Proof. intros w. unfold wp, on_algorithm. by destruct (m _) as [a [g h]]. Qed.
Lemma keeps_queue_pool {A} none (m : ST _ A) : keeps (on_queue_pool none m).
Proof. intros w. unfold wp, on_queue_pool. destruct (QueuePool.instance_ _) as [p|]; [|done]. by destruct (m p). Qed.
Lemma keeps_queue {A} none qid (m : ST _ A) : keeps (on_queue none qid m).
Proof. apply keeps_queue_pool. Qed.
Lemma keeps_thread_pool {A} none (m : ST _ A) : keeps (on_thread_pool none m).
Proof. intros w. unfold wp, on_thread_pool. destruct (threadPool w) as [p|]; [|done]. by destruct (m p). Qed.
Lemma keeps_plugins {A} none (m : ST _ A) : keeps (on_plugins none m).
Proof. intros w. unfold wp, on_plugins. destruct (pluginManager w) as [p|]; [|done]. by destruct (m p). Qed.
Lemma keeps_modify (f : world -> world) :
  (forall w, objects (f w) = objects w) -> (forall w, engines_ (f w) = engines_ w) ->
  (forall w, clientEngines_ (f w) = clientEngines_ w) -> (forall w, next_engine (f w) = next_engine w) -> keeps (modify f).
Proof. intros Ho He Hc Hn w. apply wp_modify. split; unfold refs; by rewrite ?Ho, ?He, ?Hc, ?Hn. Qed.
Lemma keeps_upd eid (f : Engine.t -> Engine.t) :
  (forall e, Engine.refCount_ (f e) = Engine.refCount_ e) -> keeps (upd_engine eid f).
Proof.
  intros Hf w. apply wp_modify. split; try done. unfold refs. cbn. apply map_eq. intros i. rewrite !lookup_fmap.
  destruct (decide (i = eid)) as [->|Hne]; [rewrite lookup_alter_eq|by rewrite lookup_alter_ne].
  destruct (objects w !! eid); cbn; by rewrite ?Hf.
Qed.

Ltac keep_step :=
  lazymatch goal with
  | |- keeps (mbind _ _) => apply keeps_bind; [|intros ?]
  | |- keeps (mret _) => apply keeps_ret
  | |- keeps (gets _) => apply keeps_gets
  | |- keeps (on_mem _) => apply keeps_mem
  | |- keeps (on_algorithm _) => apply keeps_algorithm
  | |- keeps (on_queue_pool _ _) => apply keeps_queue_pool
  | |- keeps (on_queue _ _ _) => apply keeps_queue
  | |- keeps (on_thread_pool _ _) => apply keeps_thread_pool
  | |- keeps (on_plugins _ _) => apply keeps_plugins
  | |- keeps (on_field futures _) => apply keeps_futures
  | |- keeps (upd_engine _ _) => by apply keeps_upd
  | |- keeps (modify _) => by apply keeps_modify
  | |- keeps (for_each _ _) => apply keeps_for_each; intros ?
  | |- keeps (match ?x with _ => _ end) => destruct x
  end.
Ltac keep := repeat (cbn beta iota; keep_step).

Lemma keeps_GetQueuePool c : keeps (GetQueuePool c).
Proof. unfold GetQueuePool. keep. Qed.
Lemma keeps_GetThreadPool : keeps GetThreadPool.
Proof. unfold GetThreadPool. keep. Qed.
Lemma keeps_GetPluginManager : keeps GetPluginManager.
Proof. unfold GetPluginManager. keep. Qed.
Lemma keeps_StartThread tid eid : keeps (StartThread tid eid).
Proof. unfold StartThread. keep. Qed.
Lemma keeps_Initialize eid : keeps (Initialize eid).
Proof. unfold Initialize. keep; apply keeps_StartThread. Qed.

Lemma keeps_clear_loop n qid : keeps (clear_loop n qid).
Proof. induction n as [|n IH]; cbn [clear_loop]; keep. exact IH. Qed.
Lemma keeps_ClearQueue qid : keeps (ClearQueue qid).
Proof. unfold ClearQueue. keep. apply keeps_clear_loop. Qed.
Lemma keeps_StopThread tid qid : keeps (StopThread tid qid).
Proof. unfold StopThread. keep. apply keeps_ClearQueue. Qed.
Lemma keeps_Uninitialize eid : keeps (Uninitialize eid).
Proof.
  unfold Uninitialize. keep; first [apply keeps_StopThread|apply keeps_GetThreadPool|apply keeps_GetQueuePool].
Qed.

Lemma keeps_Process h task : keeps (Process OnReply h task).
Proof. unfold Process, SyncProcess, AsyncProcess, OnEvent. keep. Qed.
Lemma keeps_OneAction qid : keeps (OneAction OnReply qid).
Proof. unfold OneAction. keep. apply keeps_Process. Qed.
Lemma keeps_run_worker n qid : keeps (run_worker OnReply n qid).
Proof. induction n as [|n IH]; cbn [run_worker]; keep; [apply keeps_OneAction|exact IH]. Qed.

Lemma keeps_SyncExecute fuel eid r : keeps (SyncExecute OnReply fuel eid r).
Proof.
  unfold SyncExecute, SyncExecute_send, SyncSendRequest, SyncExecute_receive. keep; try apply keeps_run_worker.
  unfold ReceiveResponse. intros w. unfold wp.
  repeat (case_match; simplify_eq; try done).
Qed.
Lemma keeps_AsyncExecute eid now r : keeps (AsyncExecute eid now r).
Proof. unfold AsyncExecute, AsyncSendRequest. keep. Qed.

(** ** The invariant *)

(** The transactions served by an engine. *)
Definition clients_of (eid : nat) w : nat := count_of eid (clientEngines_ w).

Record counted w : Prop := {
  c_count : forall eid n, refs w !! eid = Some n -> n = Z.of_nat (clients_of eid w);
  c_clients : forall t eid, clientEngines_ w !! t = Some eid -> is_Some (refs w !! eid);
  c_engines : forall k eid, engines_ w !! k = Some eid -> is_Some (refs w !! eid);
  c_next : forall eid, (next_engine w <= eid)%nat -> refs w !! eid = None;
  c_size : Z.of_nat (size (clientEngines_ w)) <= INT_MAX;
}.

Lemma counted_same w w' : same_tables w w' -> counted w -> counted w'.
Proof.
  intros [Hr He Hc Hn] [C1 C2 C3 C4 C5]. unfold clients_of in C1.
  split; unfold clients_of; rewrite ?Hr, ?He, ?Hc, ?Hn; done.
Qed.

Lemma no_clients eid w : counted w -> refs w !! eid = None -> clients_of eid w = 0%nat.
Proof.
  intros C Hn. unfold clients_of, count_of. apply map_size_empty_iff, map_empty_filter_2. intros t e Ht Ee. cbn in Ee. subst.
  destruct (c_clients _ C _ _ Ht) as [? E]. by rewrite Hn in E.
Qed.

(** ** The end of a reference *)

Lemma delete_engine_spec eid w :
  wp (delete_engine eid) (fun _ w' => refs w' = delete eid (refs w) /\ engines_ w' = engines_ w /\
    clientEngines_ w' = clientEngines_ w /\ next_engine w' = next_engine w) w.
Proof.
  unfold delete_engine. apply wp_bind, wp_gets, wp_bind.
  eapply wp_mono; [apply keeps_Uninitialize|]. intros ? w1 [R1 E1 C1 N1]. apply wp_bind, wp_modify.
  set (w2 := _ <| objects ::= _ |>).
  assert (refs w2 = delete eid (refs w)) as R2 by (unfold refs; cbn; rewrite fmap_delete; unfold refs in R1; by rewrite R1).
  assert (engines_ w2 = engines_ w /\ clientEngines_ w2 = clientEngines_ w /\ next_engine w2 = next_engine w) as T2 by done.
  clearbody w2. cbn beta. destruct (engine_of eid w) as [e|]; [|by apply wp_ret].
  eapply wp_mono; [apply keeps_plugins|]. intros ? w3 [R3 E3 C3 N3]. destruct T2 as (? & ? & ?). split_and!; congruence.
Qed.

Lemma drop_engine_spec eid w : counted w -> wp (drop_engine eid) (fun _ w' => counted w' /\
  clientEngines_ w' = clientEngines_ w) w.
Proof.
  intros C. unfold drop_engine. apply wp_bind, wp_gets. destruct (engine_referenced eid w) eqn:Er; [by apply wp_ret|].
  unfold engine_referenced in Er. apply orb_false_iff in Er as [He Hc].
  apply bool_decide_eq_false in He, Hc.
  eapply wp_mono; [apply delete_engine_spec|]. intros ? w' (R & E & Cl & N). cbn beta in *. split; [|done].
  destruct C as [C1 C2 C3 C4 C5]. split; unfold clients_of; rewrite ?R, ?E, ?Cl, ?N.
  - intros i n. rewrite lookup_delete_Some. intros [_ ?]. by apply C1.
  - intros t i Ht. rewrite lookup_delete_ne; [by eapply C2|]. intros ->. apply Hc. by exists t, i.
  - intros k i Hk. rewrite lookup_delete_ne; [by eapply C3|]. intros ->. apply He. by exists k, i.
  - intros i Hi. apply lookup_delete_None. right. by apply C4.
  - done.
Qed.

(** ** [StartEngine] *)

(** A computation that keeps the tables, then the rest. *)
Lemma wp_keeps {A B} (m : ST world A) (k : A -> ST world B) Q w0 w :
  same_tables w0 w -> keeps m -> (forall a w', same_tables w0 w' -> wp (k a) Q w') -> wp (m ≫= k) Q w.
Proof.
  intros T Hm Hk. apply wp_bind. eapply wp_mono; [apply Hm|]. intros a w' T'. apply Hk.
  exact (same_tables_trans _ _ _ T T').
Qed.

Ltac keep_all :=
  keep; first [apply keeps_GetQueuePool|apply keeps_GetThreadPool|apply keeps_GetPluginManager
              |apply keeps_Initialize|apply keeps_Process|apply keeps_run_worker|idtac].
Ltac walk T :=
  eapply wp_keeps; [exact T|solve [keep_all]|]; clear T; intros ? ? T; cbn beta iota.

(** A new engine has no reference yet. *)
Definition created w (r : Z * option nat) w' : Prop :=
  (r.2 = None /\ same_tables w w') \/
  (r.2 = Some (next_engine w) /\ refs w' = <[next_engine w := 0]> (refs w) /\ engines_ w' = engines_ w /\
   clientEngines_ w' = clientEngines_ w /\ next_engine w' = S (next_engine w)).

Lemma created_none w c w' : same_tables w w' -> created w (c, None) w'.
Proof. by left. Qed.

Lemma created_keeps w (r : Z * option nat) w1 w2 : created w r w1 -> same_tables w1 w2 -> created w r w2.
Proof.
  intros [[? T]|(? & R & E & C & N)] [R2 E2 C2 N2]; [left|right]; split_and!; try done; try congruence.
  destruct T. split; congruence.
Qed.

(** The engine object and its initialization. *)
Lemma new_engine_spec w0 w plugin thread queue :
  same_tables w0 w ->
  wp (eid ← gets next_engine;
      modify (fun w => w <| next_engine ::= S |> <| objects ::= <[eid := Engine.ctor plugin thread queue]> |>) ;;
      retCode ← Initialize eid;
      if negb (retCode =? RETCODE_SUCCESS) then
        on_queue_pool tt (QueuePool.Push queue) ;; on_thread_pool tt (ThreadPool.Push false thread) ;;
        mret (retCode, Some eid)
      else mret (RETCODE_SUCCESS, Some eid)) (created w0) w.
Proof.
  intros [R E C N]. apply wp_bind, wp_gets, wp_bind, wp_modify.
  set (w1 := _ <| objects ::= _ |>). assert (forall c, created w0 (c, Some (next_engine w)) w1) as Hc.
  { intros c. right. cbn [fst snd]. unfold refs. cbn. rewrite fmap_insert. unfold refs in R. rewrite R, N. done. }
  assert (same_tables w1 w1) as T by apply same_tables_refl. generalize dependent (next_engine w). intros eid.
  intros. clearbody w1. walk T.
  destruct (negb _); [walk T; walk T|]; apply wp_ret; exact (created_keeps _ _ _ _ (Hc _) T).
Qed.

Lemma CreateEngine_spec key w : wp (CreateEngine key) (created w) w.
Proof.
  pose proof (same_tables_refl w) as T. unfold CreateEngine.
  walk T. destruct (negb _); [by apply created_none|].
  walk T. destruct a0 as [retCode [plugin|]]; [|by apply created_none].
  walk T. destruct (negb _); [walk T; by apply created_none|].
  walk T. walk T. destruct a2 as [thread|]; [|walk T; by apply created_none].
  walk T. destruct (negb _); [walk T; by apply created_none|].
  walk T. walk T. walk T. walk T. destruct a6 as [queue|]; [|walk T; walk T; by apply created_none].
  walk T. destruct (negb _); [walk T; walk T; walk T; by apply created_none|].
  by apply new_engine_spec.
Qed.

(** What [StartEngine] has in hand after the lookup or the creation. *)
Definition found w (r : Z * option nat) w' : Prop :=
  counted w' /\ clientEngines_ w' = clientEngines_ w /\ forall eid, r.2 = Some eid -> is_Some (refs w' !! eid).

Lemma created_found w r w' : counted w -> created w r w' -> found w r w'.
Proof.
  intros C [[Hr T]|(Hr & R & E & Cl & N)].
  - split_and!; [by eapply counted_same|by destruct T|]. intros eid. by rewrite Hr.
  - split_and!; [|done|].
    + pose proof C as [C1 C2 C3 C4 C5].
      assert (refs w !! next_engine w = None) as Hfresh by (by apply C4).
      pose proof (no_clients (next_engine w) w ltac:(done) Hfresh) as H0c. unfold clients_of in H0c.
      split; unfold clients_of; rewrite ?R, ?E, ?Cl, ?N.
      * intros eid n. rewrite lookup_insert_Some. intros [[<- <-]|[_ Hn]]; [|by apply C1]. by rewrite H0c.
      * intros t eid Ht. apply lookup_insert_is_Some'. right. by eapply C2.
      * intros k eid Hk. apply lookup_insert_is_Some'. right. by eapply C3.
      * intros eid Hn. rewrite lookup_insert_ne by lia. apply C4. lia.
      * done.
    + intros eid. rewrite Hr. intros [= <-]. rewrite R, lookup_insert_eq. by eexists.
Qed.

Lemma CreateEngineWithCheck_spec key w : counted w -> wp (CreateEngineWithCheck key) (found w) w.
Proof.
  intros C. unfold CreateEngineWithCheck. apply wp_bind, wp_gets.
  destruct (engines_ w !! key) as [eid|] eqn:E.
  - apply wp_ret. split_and!; [done|done|]. intros i [= <-]. by eapply c_engines.
  - apply wp_bind. eapply wp_mono; [apply CreateEngine_spec|]. intros r w1 H'%(created_found _ _ _ C).
    destruct r as [code [eid|]]; [|by apply wp_ret].
    destruct (negb _); [by apply wp_ret|]. apply wp_bind, wp_modify, wp_ret.
    destruct H' as ([C1 C2 C3 C4 C5] & Cl & Hi). split_and!; [|done|done]. split; try done.
    intros k i. cbn. rewrite lookup_insert_Some. intros [[_ <-]|[_ Hk]]; [by apply Hi|by eapply C3].
Qed.

Lemma refs_upd f g eid w :
  (forall e, Engine.refCount_ (f e) = g (Engine.refCount_ e)) ->
  refs (w <| objects ::= alter f eid |>) = alter g eid (refs w).
Proof.
  intros Hf. unfold refs. cbn. apply map_eq. intros i. rewrite lookup_fmap.
  destruct (decide (i = eid)) as [->|Hne].
  - rewrite !lookup_alter_eq, lookup_fmap. destruct (objects w !! eid); cbn; by rewrite ?Hf.
  - by rewrite !lookup_alter_ne, lookup_fmap by done.
Qed.

(** One more client of [eid]. *)
Lemma counted_start eid t w :
  counted w -> clientEngines_ w !! t = None -> is_Some (refs w !! eid) -> Z.of_nat (size (clientEngines_ w)) < INT_MAX ->
  counted (w <| objects ::= alter (fun e => e <| Engine.refCount_ ::= fun n => s32 (n + 1) |>) eid |>
             <| clientEngines_ ::= <[t := eid]> |>).
Proof.
  intros [C1 C2 C3 C4 C5] Ht [n Hn] Hsize. set (w' := _ <| clientEngines_ ::= _ |>).
  assert (refs w' = alter (fun n => s32 (n + 1)) eid (refs w)) as R by (by apply refs_upd).
  assert (n = Z.of_nat (clients_of eid w)) as En by (by apply C1).
  pose proof (count_of_le eid (clientEngines_ w)) as Hle. unfold clients_of in *. unfold INT_MAX in Hsize.
  split; unfold clients_of; rewrite ?R; change (clientEngines_ w') with (<[t := eid]> (clientEngines_ w)).
  - intros i k. rewrite count_of_insert by done. destruct (decide (eid = i)) as [<-|Hne].
    + rewrite lookup_alter_eq, Hn. intros [= <-]. rewrite wrap_s_small by lia. lia.
    + rewrite lookup_alter_ne by done. intros Hk. rewrite (C1 _ _ Hk). lia.
  - intros t' i. rewrite lookup_alter_is_Some, lookup_insert_Some. intros [[_ <-]|[_ ?]]; [by exists n|by eapply C2].
  - intros k i Hk. rewrite lookup_alter_is_Some. by eapply C3.
  - intros i Hi. rewrite lookup_alter_None. by apply C4.
  - rewrite map_size_insert_None by done. unfold INT_MAX. lia.
Qed.

Lemma StartEngine_spec t a d w :
  counted w -> clientEngines_ w !! t = None -> Z.of_nat (size (clientEngines_ w)) < INT_MAX ->
  wp (StartEngine t a d) (fun _ w' => counted w') w.
Proof.
  intros C Ht Hsize. unfold StartEngine. destruct (String.eqb _ _); [by apply wp_ret|].
  set (key := (GetAlgorithmIdByType _, AlgorithmInfo.algorithmVersion a)). apply wp_bind, wp_gets, wp_bind.
  eapply wp_mono; [instantiate (1 := found w)|].
  - destruct (engines_ w !! key) as [eid|] eqn:E; [|by apply CreateEngineWithCheck_spec].
    apply wp_ret. split_and!; [done|done|]. intros i [= <-]. by eapply c_engines.
  - intros [code [eid|]] w1 (C1 & Cl1 & Hi); [|by apply wp_ret]. specialize (Hi eid eq_refl).
    destruct (negb _).
    { apply wp_bind. eapply wp_mono; [by apply drop_engine_spec|]. intros ? w2 [C2 _]. by apply wp_ret. }
    apply wp_bind, wp_gets. cbn beta. destruct (eid ← _; _) as [algo|]; [|by apply wp_ret].
    apply wp_bind. eapply wp_mono; [apply keeps_algorithm|]. intros p w2 T2. destruct (negb _); [exact (counted_same _ _ T2 C1)|].
    apply wp_bind, wp_modify, wp_bind, wp_modify, wp_ret. pose proof (counted_same _ _ T2 C1) as C2.
    destruct T2 as [R2 _ Cl2 _]. by apply counted_start; rewrite ?Cl2, ?Cl1, ?R2.
Qed.

(** ** [StopEngine] *)

Lemma counted_stop eid t w w' :
  counted w -> clientEngines_ w !! t = Some eid ->
  refs w' = alter (fun n => s32 (n - 1)) eid (refs w) -> (forall k i, engines_ w' !! k = Some i -> engines_ w !! k = Some i) ->
  clientEngines_ w' = delete t (clientEngines_ w) -> next_engine w' = next_engine w -> counted w'.
Proof.
  intros [C1 C2 C3 C4 C5] Ht R E Cl N. destruct (C2 _ _ Ht) as [n Hn].
  assert (n = Z.of_nat (clients_of eid w)) as En by (by apply C1).
  pose proof (count_of_le eid (clientEngines_ w)) as Hle. unfold clients_of in *. unfold INT_MAX in *.
  split; unfold clients_of; rewrite ?R, ?Cl, ?N.
  - intros i k. pose proof (count_of_delete i _ _ _ Ht) as Hd. destruct (decide (eid = i)) as [<-|Hne].
    + rewrite lookup_alter_eq, Hn. intros [= <-]. rewrite wrap_s_small by lia. lia.
    + rewrite lookup_alter_ne by done. intros Hk. rewrite (C1 _ _ Hk). lia.
  - intros t' i. rewrite lookup_alter_is_Some, lookup_delete_Some. intros [_ ?]. by eapply C2.
  - intros k i Hk. rewrite lookup_alter_is_Some. by eapply C3, E.
  - intros i Hi. rewrite lookup_alter_None. by apply C4.
  - rewrite map_size_delete_Some by (by eexists). unfold INT_MAX. lia.
Qed.

(** The last client takes the plugin and the engine out of their tables. *)
Definition unload_last (eid : nat) (e : Engine.t) : ST world unit :=
  n ← gets (fun w => Engine.refCount_ <$> engine_of eid w);
  if bool_decide (n = Some 0) then
    p ← gets (fun w => p ← pluginManager w; PluginManager.plugins p !! Engine.plugin_ e);
    match p with
    | None => mret tt
    | Some p =>
        let key := (Plugin.aid_ p, Plugin.version_ p) in
        on_plugins tt (PluginManager.UnloadPlugin key.1 key.2) ;; DelEngine key
    end
  else mret tt.

Lemma unload_last_spec eid e w :
  wp (unload_last eid e) (fun _ w' => refs w' = refs w /\ clientEngines_ w' = clientEngines_ w /\
    next_engine w' = next_engine w /\ forall k i, engines_ w' !! k = Some i -> engines_ w !! k = Some i) w.
Proof.
  unfold unload_last. apply wp_bind, wp_gets. destruct (bool_decide _); [|by apply wp_ret]. apply wp_bind, wp_gets.
  cbn beta. destruct (p ← _; _) as [p|]; [|by apply wp_ret]. apply wp_bind.
  eapply wp_mono; [apply keeps_plugins|]. intros ? w1 [R E C N]. apply wp_modify. split_and!; try done.
  intros k i. cbn. rewrite lookup_delete_Some, E. by intros [_ ?].
Qed.

Lemma StopEngine_spec t d w : counted w -> wp (StopEngine t d) (fun _ w' => counted w') w.
Proof.
  intros C. unfold StopEngine. apply wp_bind, wp_gets. destruct (clientEngines_ w !! t) as [eid|] eqn:Ht; [|by apply wp_ret].
  apply wp_bind, wp_gets. destruct (engine_of eid w) as [e|]; [|by apply wp_ret].
  apply wp_bind, wp_gets. destruct (algorithm_of _ w) as [algo|]; [|by apply wp_ret].
  apply wp_bind. eapply wp_mono; [apply keeps_algorithm|]. intros c w1 T1. pose proof (counted_same _ _ T1 C) as C1.
  destruct (negb _); [done|]. apply wp_bind, wp_modify. destruct T1 as [_ _ Cl1 _].
  set (w2 := _ <| objects ::= _ |>). assert (refs w2 = alter (fun n => s32 (n - 1)) eid (refs w1)) as R2 by (by apply refs_upd).
  assert (engines_ w2 = engines_ w1 /\ clientEngines_ w2 = clientEngines_ w1 /\ next_engine w2 = next_engine w1)
    as (E2 & Cl2 & N2) by done. clearbody w2.
  change (wp (unload_last eid e ;; UnRecordClient t ;; drop_engine eid ;; mret RETCODE_SUCCESS) (fun _ w' => counted w') w2).
  apply wp_bind. eapply wp_mono; [apply unload_last_spec|]. intros ? w3 (R3 & Cl3 & N3 & E3). apply wp_bind, wp_modify, wp_bind.
  eapply wp_mono; [apply drop_engine_spec|by intros ? w4 [C4 _]].
  apply (counted_stop eid t w1); [done|congruence|cbn; by rewrite <- R2, <- R3|..].
  - intros k i Hk. rewrite <- E2. by apply E3.
  - cbn. by rewrite Cl3, Cl2.
  - cbn. by rewrite N3, N2.
Qed.

(** ** Histories *)

(** Everything that clients ask of the manager and all that workers do; a
    transaction is started only while it has no engine. *)
Inductive reachable : world -> Prop :=
  | r_init m x : reachable (init m x)
  | r_start t a d w :
      reachable w -> clientEngines_ w !! t = None -> Z.of_nat (size (clientEngines_ w)) < INT_MAX ->
      reachable (StartEngine t a d w).2
  | r_stop t d w : reachable w -> reachable (StopEngine t d w).2
  | r_sync fuel r w : reachable w -> reachable (ServerSyncExecute OnReply fuel r w).2
  | r_async now r w : reachable w -> reachable (ServerAsyncExecute now r w).2
  | r_work n qid w : reachable w -> reachable (run_worker OnReply n qid w).2
  | r_set t ty d w : reachable w -> reachable (SetOption t ty d w).2
  | r_get t ty d w : reachable w -> reachable (GetOption t ty d w).2
  | r_listen l t w : reachable w -> reachable (RegisterListener l t w).2
  | r_unlisten t w : reachable w -> reachable (UnRegisterListener t w).2.

Lemma counted_keeps {A} (m : ST world A) w : keeps m -> counted w -> counted (m w).2.
Proof. intros K C. exact (counted_same _ _ (K w) C). Qed.

Lemma reachable_counted w : reachable w -> counted w.
Proof.
  induction 1 as [m x|t a d w _ IH Ht Hs|t d w _ IH|fuel r w _ IH|now r w _ IH|n qid w _ IH|t ty d w _ IH|t ty d w _ IH
    |l t w _ IH|t w _ IH].
  - by split.
  - by apply StartEngine_spec.
  - by apply StopEngine_spec.
  - apply counted_keeps; [|done]. unfold ServerSyncExecute, FindEngine. keep; apply keeps_SyncExecute.
  - apply counted_keeps; [|done]. unfold ServerAsyncExecute, FindEngine. keep; apply keeps_AsyncExecute.
  - apply counted_keeps; [apply keeps_run_worker|done].
  - apply counted_keeps; [|done]. unfold SetOption, FindEngine. keep.
  - apply counted_keeps; [|done]. unfold GetOption, FindEngine. keep.
  - apply counted_keeps; [|done]. unfold RegisterListener. keep.
  - apply counted_keeps; [|done]. unfold UnRegisterListener. keep.
Qed.

End facts.
End EngineFacts.

(** ** Properties *)

(** C14. Whatever clients ask and workers do, as long as no transaction is started
    twice: the count of an engine is the number of transactions it serves, which
    [StopEngine] takes for "last client"; and the engine of every transaction is alive. *)
Theorem engine_refcounts
    {X : Type} `{!Allocator, !DynLib, !Pthread, !Algorithm} (OnReply : nat -> Future.t -> ST X unit) (w : @Executor.world X _) :
  EngineFacts.reachable OnReply w ->
  (forall eid e, Executor.engine_of eid w = Some e -> Engine.refCount_ e = Z.of_nat (EngineFacts.clients_of eid w)) /\
  (forall t eid, Executor.clientEngines_ w !! t = Some eid -> is_Some (Executor.engine_of eid w)).
Proof.
  intros [C1 C2 _ _ _]%EngineFacts.reachable_counted. unfold EngineFacts.refs, Executor.engine_of in *. split.
  - intros eid e He. apply C1. by rewrite lookup_fmap, He.
  - intros t eid Ht. specialize (C2 _ _ Ht). rewrite lookup_fmap in C2. by destruct (Executor.objects w !! eid), C2.
Qed.

(** Starting a transaction that has its engine already succeeds and counts it
    again, so the count exceeds the number of transactions by one: the engine is
    never unloaded. *)
Theorem double_start_leaks_engine
    {X : Type} `{!Allocator, !DynLib, !Pthread, !Algorithm} (OnReply : nat -> Future.t -> ST X unit)
    (w : @Executor.world X _) (t : Z) (a : AlgorithmInfo.t) (d : DataInfo.t) (eid algo : nat) (e : Engine.t) :
  EngineFacts.reachable OnReply w -> Z.of_nat (size (Executor.clientEngines_ w)) < INT_MAX ->
  let aid := GetAlgorithmIdByType (AlgorithmInfo.algorithmType a) in
  String.eqb aid ALGORITHM_ID_INVALID = false ->
  Executor.engines_ w !! (aid, AlgorithmInfo.algorithmVersion a) = Some eid ->
  Executor.clientEngines_ w !! t = Some eid ->
  Executor.engine_of eid w = Some e -> Executor.algorithm_of (Engine.plugin_ e) w = Some algo ->
  (forall m, (prepare algo t d m).1.1 = RETCODE_SUCCESS) ->
  let '((code, _), w') := Executor.StartEngine t a d w in
  code = RETCODE_SUCCESS /\ Executor.clientEngines_ w' = Executor.clientEngines_ w /\
  Engine.refCount_ <$> Executor.engine_of eid w' = Some (Z.of_nat (EngineFacts.clients_of eid w') + 1).
Proof.
  intros HR Hsize aid Haid Hkey Ht He Ha Hp.
  pose proof (EngineFacts.reachable_counted _ _ HR) as [C1 _ _ _ _].
  assert (Engine.refCount_ e = Z.of_nat (EngineFacts.clients_of eid w)) as En.
  { apply C1. unfold EngineFacts.refs, Executor.engine_of in *. by rewrite lookup_fmap, He. }
  pose proof (EngineFacts.count_of_le eid (Executor.clientEngines_ w)) as Hle. unfold EngineFacts.clients_of, INT_MAX in *.
  unfold Executor.StartEngine. fold aid. rewrite Haid.
  unfold mbind, ST_bind, Executor.FindEngineByKey, gets. rewrite Hkey. cbn [mret ST_ret].
  rewrite Z.eqb_refl. cbn [negb]. rewrite He. cbn [option_bind]. rewrite Ha. cbn.
  unfold Executor.on_algorithm. specialize (Hp (Executor.plugin_states w, Executor.mem w)).
  destruct (prepare algo t d _) as [[code out] [g h]]. cbn in Hp |- *. subst code. cbn.
  rewrite (insert_id _ _ _ Ht). split_and!; [done|done|]. unfold Executor.engine_of in *. cbn.
  rewrite lookup_alter_eq, He. cbn. f_equal. rewrite wrap_s_small by lia. lia.
Qed.

(** ** Witnesses *)

Import ExecSample.
#[local] Existing Instance always_alloc.

Lemma started_reachable : @EngineFacts.reachable unit _ _ _ (echo "SYNC") sample_reply (started "SYNC").
Proof.
  unfold started.
  apply (@EngineFacts.r_start unit always_alloc libs threads (echo "SYNC") sample_reply 7 sample_info DataInfo.null
    (Executor.init Mem.empty tt)); [apply EngineFacts.r_init|done|done].
Qed.

Lemma engine_refcounts_witness :
  let w := started "SYNC" in
  (forall eid e, Executor.engine_of eid w = Some e -> Engine.refCount_ e = Z.of_nat (EngineFacts.clients_of eid w)) /\
  (forall t eid, Executor.clientEngines_ w !! t = Some eid -> is_Some (Executor.engine_of eid w)).
Proof. apply (@engine_refcounts unit _ _ _ (echo "SYNC") sample_reply (started "SYNC")), started_reachable. Defined.

Lemma double_start_leaks_engine_witness :
  let w := started "SYNC" in
  let '((code, _), w') := @Executor.StartEngine unit _ _ _ (echo "SYNC") 7 sample_info DataInfo.null w in
  code = RETCODE_SUCCESS /\ Executor.clientEngines_ w' = Executor.clientEngines_ w /\
  Engine.refCount_ <$> Executor.engine_of 0 w' = Some (Z.of_nat (EngineFacts.clients_of 0 w') + 1).
Proof.
  intros w. apply (@double_start_leaks_engine unit _ _ _ (echo "SYNC") sample_reply w 7 sample_info DataInfo.null 0 1
    (started_engine Handler.Sync)); [apply started_reachable|vm_compute; reflexivity..|intros m; reflexivity].
Defined.

