(* ===== verification/ServerExecutorProps.v ===== *)
(** * ServerExecutorProps: engines hold their plugins, and nothing is left at the end

    The references to plugins are exactly those of the live engines, each filed
    under the key of its plugin; so the code an engine runs stays loaded, and the
    end of the executor closes and deletes everything. *)

From Stdlib Require Import ZArith Lia String.
From stdpp Require Import gmap strings list.
From S2P Require Import Prelude Protocol Sync Queue Thread Pools PluginManager FutureFactory Executor ExecutorProps EngineProps ServerExecutor.

#[local] Open Scope Z_scope.

(** ** Lemmas: what a reference to a plugin keeps alive *)

Module PluginUse.
Import PluginManager PluginManagerFacts.

Section facts.
  Context `{!DynLib}.

(** The plugins that [s] refers to are still there in [s']. *)
Definition keeps_users (s s' : t) : Prop :=
  forall id pl, id ∈ users s' -> plugins s !! id = Some pl -> plugins s' !! id = Some pl.

Lemma keeps_users_refl s s' : plugins s' = plugins s -> keeps_users s s'.
Proof. intros E id pl _. by rewrite E. Qed.
Hint Resolve keeps_users_refl : core.

Lemma dtor_keeps p s :
  wp (dtor p) (fun _ s' => users s' = users s /\ pluginMap_ s' = pluginMap_ s /\ plugins s' = plugins s) s.
Proof.
  eapply wp_mono; [apply (dtor_releases p (fun s' => users s' = users s /\ pluginMap_ s' = pluginMap_ s /\ plugins s' = plugins s))
    |by intros ? ? (? & ? & ? & ->)].
  unfold UnloadPluginAlgorithm. wp_step. eapply wp_mono with (P := fun _ s' => users s' = users s /\ pluginMap_ s' = pluginMap_ s /\ plugins s' = plugins s).
  - destruct (Plugin.pluginAlgorithm_ p) as [a|]; [|by apply wp_ret].
    unfold wp, delete_algorithm. repeat case_match; repeat case_decide; done.
  - intros ? s' (<- & <- & <-). destruct (Plugin.handle_ p); [|by apply wp_ret]. unfold wp, AieDlclose. cbn. by case_decide.
Qed.

Lemma collect_keeps id s : wp (collect id) (fun _ s' => users s' = users s /\ pluginMap_ s' = pluginMap_ s /\ keeps_users s s') s.
Proof.
  unfold collect. do 2 wp_step. destruct (referenced id s) eqn:Er; [wp_step; auto|]. do 2 wp_step.
  destruct (plugins s !! id) as [p|] eqn:Ep; [|wp_step; auto]. do 2 wp_step.
  eapply wp_mono; [apply dtor_keeps|]. intros ? s' (E1 & E2 & E3). split; [done|]. split; [done|].
  intros i pl. rewrite E1, E3. cbn. intros Hi Hp. rewrite lookup_delete_ne; [done|]. intros <-.
  apply not_true_iff_false in Er. apply Er, referenced_true. by left.
Qed.

Lemma release_keeps id s : wp (release id) (fun _ s' => users s' = remove_one id (users s) /\ keeps_users s s') s.
Proof.
  unfold release. do 2 wp_step. eapply wp_mono; [apply collect_keeps|]. intros ? s' (E & _ & K). done.
Qed.

Lemma UnloadPlugin_keeps aid version s :
  wp (UnloadPlugin aid version) (fun _ s' => users s' = users s /\ pluginMap_ s' = delete (aid, version) (pluginMap_ s) /\
    keeps_users s s') s.
Proof.
  unfold UnloadPlugin, FindPlugin, DelPlugin. do 2 wp_step. destruct (pluginMap_ s !! (aid, version)) as [id|] eqn:E.
  - do 2 wp_step. eapply wp_mono; [apply collect_keeps|]. intros ? s' (E1 & E2 & K). done.
  - wp_step. split; [done|]. split; [by rewrite delete_id|auto].
Qed.

(** What [GetPlugin] returns, and that it is in use now. *)
Definition got (key : string * Z) (s : t) (r : Z * option nat) (s' : t) : Prop :=
  inv s' /\ keeps_users s s' /\
  match r.2 with
  | None => users s' = users s
  | Some id => users s' = id :: users s /\
      exists pl, plugins s' !! id = Some pl /\ (Plugin.aid_ pl, Plugin.version_ pl) = key
  end.

Lemma GetPlugin_got aid version s : inv s -> wp (GetPlugin aid version) (got (aid, version) s) s.
Proof.
  intros I. assert (Hi : wp (GetPlugin aid version) (fun _ => inv) s).
  { pose proof (exec_inv (OpGet aid version) s I) as Hx. unfold wp in *. cbn in Hx. unfold mbind, ST_bind in Hx.
    by destruct (GetPlugin aid version s). }
  assert (Hk : wp (GetPlugin aid version) (fun r s' => inv s' -> got (aid, version) s r s') s);
    [|unfold wp in *; by apply Hk]. clear Hi.
  unfold GetPlugin, FindPlugin. do 2 wp_step. destruct (pluginMap_ s !! (aid, version)) as [id|] eqn:Ek.
  - do 3 wp_step. intros I'. split; [done|]. split; [auto|]. split; [done|].
    destruct (i_map _ _ I _ _ Ek) as (pl & Hp & E). by exists pl.
  - unfold LoadPlugin. wp_step. eapply wp_mono; [eapply dtor_releases; by apply Unload_nothing|]. intros _ ? (? & n & -> & ->).
    wp_step. eapply wp_mono; [apply LoadPluginAlgorithm_spec; intros h Hh; by apply (i_open _ _ I)|].
    intros [ret p] s1 ((E1 & E2 & E3 & E4) & Hn & Hres). cbn in E1, E2, E3, E4, Hn. cbn [fst snd] in *.
    destruct (ret =? RETCODE_SUCCESS) eqn:E; cbn [negb]; boolify; case_decide; try done.
    + destruct Hres as (a & h & -> & _). unfold AddPlugin. repeat wp_step. intros I'. split; [done|]. cbn. split.
      * intros i pl _ Hp. cbn. rewrite lookup_insert_ne, E2; [done|]. intros <-.
        destruct (i_live _ _ I _ _ Hp) as (_ & Hlt & _). lia.
      * split; [by rewrite E3|]. eexists. by rewrite lookup_insert_eq.
    + destruct Hres as (-> & _). wp_step. eapply wp_mono; [apply dtor_keeps|].
      intros ? s2 (F1 & F2 & F3). wp_step. intros I'. split; [done|]. split; [|cbn; by rewrite F1].
      apply keeps_users_refl. by rewrite F3.
Qed.

End facts.
End PluginUse.

(** ** Lemmas: engines and the plugins they hold *)

Module EngineHolds.
Import Executor.

Lemma remove_one_perm id (l l' : list nat) : l ≡ₚ id :: l' -> PluginManager.remove_one id l ≡ₚ l'.
Proof.
  intros Hp. apply (Permutation.Permutation_cons_inv (a := id)). rewrite <- Hp.
  assert (Hin : id ∈ l) by (rewrite Hp; left). clear Hp. induction l as [|x l IH]; [by apply elem_of_nil in Hin|].
  cbn. case_decide as E; [by subst|]. apply elem_of_cons in Hin as [->|Hin]; [done|].
  rewrite Permutation.perm_swap. by rewrite (IH Hin).
Qed.

Section facts.
  Context {X : Type} `{!Allocator, !DynLib, !Pthread, !Algorithm} (OnReply : nat -> Future.t -> ST X unit).
  Implicit Types (w : @world X _).

(** The plugin of each live engine. *)
Definition used w : gmap nat nat := Engine.plugin_ <$> objects w.
Definition uses w : list nat := (map_to_list (used w)).*2.

(** The key of a live plugin. *)
Definition key_of w (id : nat) : option (string * Z) :=
  p ← pluginManager w; pl ← PluginManager.plugins p !! id; Some (Plugin.aid_ pl, Plugin.version_ pl).

(** The references to plugins outside their manager are those of the engines, and [x]. *)
Definition owns (x : list nat) w : Prop :=
  match pluginManager w with
  | None => x = [] /\ used w = ∅
  | Some p => PluginManagerFacts.inv p /\ PluginManager.users p ≡ₚ x ++ uses w
  end.

(** Every engine is filed under the key of its plugin; [y] is one that may not be. *)
Record holds (x : list nat) (y : option (nat * (string * Z))) w : Prop := {
  h_owns : owns x w;
  h_live eid id : used w !! eid = Some id ->
    exists k, key_of w id = Some k /\ (y = Some (eid, k) \/ engines_ w !! k = Some eid);
  h_filed k eid : engines_ w !! k = Some eid -> exists id, used w !! eid = Some id /\ key_of w id = Some k;
}.

(** *** Computations that leave engines and plugins alone *)

Record still w w' : Prop := {
  s_used : used w' = used w;
  s_manager : pluginManager w' = pluginManager w;
  s_engines : engines_ w' = engines_ w;
  s_next : next_engine w' = next_engine w;
}.

Lemma still_trans w1 w2 w3 : still w1 w2 -> still w2 w3 -> still w1 w3.
Proof. intros [] []. split; congruence. Qed.

Lemma owns_still x w w' : still w w' -> owns x w -> owns x w'.
Proof. intros [Hu Hm _ _]. unfold owns, uses. by rewrite Hm, Hu. Qed.

Lemma holds_still x y w w' : still w w' -> holds x y w -> holds x y w'.
Proof.
  intros S [Ho Hl Hf]. pose proof (owns_still x _ _ S Ho) as Ho'. destruct S as [Hu Hm He _].
  split; unfold key_of; rewrite ?Hu, ?Hm, ?He; done.
Qed.

Definition stays {A} (m : ST world A) : Prop := forall w, wp m (fun _ => still w) w.

Lemma stays_ret {A} (a : A) : stays (mret a).
Proof. done. Qed.
Lemma stays_gets {A} (f : world -> A) : stays (gets f).
Proof. done. Qed.
Lemma stays_bind {A B} (m : ST world A) (k : A -> ST world B) : stays m -> (forall a, stays (k a)) -> stays (m ≫= k).
Proof.
  intros Hm Hk w. apply wp_bind. eapply wp_mono; [apply Hm|]. intros a w1 S1. eapply wp_mono; [apply Hk|].
  intros ? w2 S2. exact (still_trans _ _ _ S1 S2).
Qed.
Lemma stays_for_each {A} (body : A -> ST world unit) xs : (forall x, stays (body x)) -> stays (for_each body xs).
Proof.
  intros Hb w. apply (wp_for_each (still w)); [done|]. intros x w1 _ S1.
  eapply wp_mono; [apply Hb|]. intros ? w2 S2. exact (still_trans _ _ _ S1 S2).
Qed.
Lemma stays_futures {A} (m : ST (@FutureFactory.t X) A) : stays (on_field futures m).
Proof. intros w. apply wp_on_field. unfold wp. done. Qed.
Lemma stays_mem {A} (m : ST Mem.t A) : stays (on_mem m).
Proof. apply stays_futures. Qed.
Lemma stays_algorithm {A} (m : ST (algorithms * Mem.t) A) : stays (on_algorithm m).
Proof. intros w. unfold wp, on_algorithm. by destruct (m _) as [a [g h]]. Qed.
Lemma stays_queue_pool {A} none (m : ST _ A) : stays (on_queue_pool none m).
Proof. intros w. unfold wp, on_queue_pool. destruct (QueuePool.instance_ _) as [p|]; [|done]. by destruct (m p). Qed.
Lemma stays_queue {A} none qid (m : ST _ A) : stays (on_queue none qid m).
Proof. apply stays_queue_pool. Qed.
Lemma stays_thread_pool {A} none (m : ST _ A) : stays (on_thread_pool none m).
Proof. intros w. unfold wp, on_thread_pool. destruct (threadPool w) as [p|]; [|done]. by destruct (m p). Qed.
Lemma stays_modify (f : world -> world) :
  (forall w, objects (f w) = objects w) -> (forall w, pluginManager (f w) = pluginManager w) ->
  (forall w, engines_ (f w) = engines_ w) -> (forall w, next_engine (f w) = next_engine w) -> stays (modify f).
Proof. intros Ho Hp He Hn w. apply wp_modify. split; unfold used; by rewrite ?Ho, ?Hp, ?He, ?Hn. Qed.
Lemma stays_upd eid (f : Engine.t -> Engine.t) :
  (forall e, Engine.plugin_ (f e) = Engine.plugin_ e) -> stays (upd_engine eid f).
Proof.
  intros Hf w. apply wp_modify. split; try done. unfold used. cbn. apply map_eq. intros i. rewrite !lookup_fmap.
  destruct (decide (i = eid)) as [->|Hne]; [rewrite lookup_alter_eq|by rewrite lookup_alter_ne].
  destruct (objects w !! eid); cbn; by rewrite ?Hf.
Qed.

Ltac stay_step :=
  lazymatch goal with
  | |- stays (mbind _ _) => apply stays_bind; [|intros ?]
  | |- stays (mret _) => apply stays_ret
  | |- stays (gets _) => apply stays_gets
  | |- stays (on_mem _) => apply stays_mem
  | |- stays (on_algorithm _) => apply stays_algorithm
  | |- stays (on_queue_pool _ _) => apply stays_queue_pool
  | |- stays (on_queue _ _ _) => apply stays_queue
  | |- stays (on_thread_pool _ _) => apply stays_thread_pool
  | |- stays (on_field futures _) => apply stays_futures
  | |- stays (upd_engine _ _) => by apply stays_upd
  | |- stays (modify _) => by apply stays_modify
  | |- stays (for_each _ _) => apply stays_for_each; intros ?
  | |- stays (match ?x with _ => _ end) => destruct x
  end.
Ltac stay := repeat (cbn beta iota; stay_step).

Lemma stays_GetQueuePool c : stays (GetQueuePool c).
Proof. unfold GetQueuePool. stay. Qed.
Lemma stays_GetThreadPool : stays GetThreadPool.
Proof. unfold GetThreadPool. stay. Qed.
Lemma stays_StartThread tid eid : stays (StartThread tid eid).
Proof. unfold StartThread. stay. Qed.
Lemma stays_Initialize eid : stays (Initialize eid).
Proof. unfold Initialize. stay; apply stays_StartThread. Qed.
Lemma stays_clear_loop n qid : stays (clear_loop n qid).
Proof. induction n as [|n IH]; cbn [clear_loop]; stay. exact IH. Qed.
Lemma stays_StopThread tid qid : stays (StopThread tid qid).
Proof. unfold StopThread, ClearQueue. stay. apply stays_clear_loop. Qed.
Lemma stays_Uninitialize eid : stays (Uninitialize eid).
Proof. unfold Uninitialize. stay; first [apply stays_StopThread|apply stays_GetThreadPool|apply stays_GetQueuePool]. Qed.
Lemma stays_run_worker n qid : stays (run_worker OnReply n qid).
Proof.
  induction n as [|n IH]; cbn [run_worker]; stay; [|exact IH].
  unfold OneAction, Process, SyncProcess, AsyncProcess, OnEvent. stay.
Qed.
Lemma stays_SyncExecute fuel eid r : stays (SyncExecute OnReply fuel eid r).
Proof.
  unfold SyncExecute, SyncExecute_send, SyncSendRequest, SyncExecute_receive. stay; try apply stays_run_worker.
  unfold ReceiveResponse. intros w. unfold wp. repeat (case_match; simplify_eq; try done).
Qed.
Lemma stays_AsyncExecute eid now r : stays (AsyncExecute eid now r).
Proof. unfold AsyncExecute, AsyncSendRequest. stay. Qed.

(** *** References to plugins *)

Lemma uses_used w eid id : used w !! eid = Some id -> id ∈ uses w.
Proof. intros Hu. unfold uses. apply list_elem_of_fmap. exists (eid, id). split; [done|]. by apply elem_of_map_to_list. Qed.

(** The manager goes on with the references [x'] and those of the engines. *)
Lemma holds_plugins x x' y w p p' :
  pluginManager w = Some p -> holds x y w -> PluginManagerFacts.inv p' -> PluginUse.keeps_users p p' ->
  PluginManager.users p' ≡ₚ x' ++ uses w -> holds x' y (w <| pluginManager := Some p' |>).
Proof.
  intros Hp [Ho Hl Hf] I K Hu.
  assert (Hkey : forall eid id k, used w !! eid = Some id -> key_of w id = Some k ->
    key_of (w <| pluginManager := Some p' |>) id = Some k).
  { intros eid id k Hid. unfold key_of. rewrite Hp. cbn. destruct (PluginManager.plugins p !! id) as [pl|] eqn:E; [|done].
    rewrite (K id pl); [done| |done]. rewrite Hu. apply elem_of_app. right. by eapply uses_used. }
  split.
  - unfold owns. cbn. done.
  - intros eid id Hid. destruct (Hl _ _ Hid) as (k & Hk & Hy). exists k. split; [by eapply Hkey|done].
  - intros k eid Hk. destruct (Hf _ _ Hk) as (id & Hid & Hki). exists id. split; [done|by eapply Hkey].
Qed.

Lemma wp_on_plugins {A} (none : A) (m : ST PluginManager.t A) Q w p :
  pluginManager w = Some p -> wp m (fun a p' => Q a (w <| pluginManager := Some p' |>)) p -> wp (on_plugins none m) Q w.
Proof. intros E. unfold wp, on_plugins. rewrite E. by destruct (m p). Qed.

Lemma owns_manager id x w : owns (id :: x) w -> exists p, pluginManager w = Some p /\
  PluginManagerFacts.inv p /\ PluginManager.users p ≡ₚ id :: x ++ uses w.
Proof. unfold owns. destruct (pluginManager w) as [p|]; [intros []; by exists p|by intros []]. Qed.

(** A reference outside the engines ends. *)
Lemma release_holds id x y w :
  holds (id :: x) y w -> wp (on_plugins tt (PluginManager.release id)) (fun _ w' => holds x y w' /\
    used w' = used w /\ engines_ w' = engines_ w) w.
Proof.
  intros Hw. destruct (owns_manager _ _ _ (h_owns _ _ _ Hw)) as (p & Hp & I & Hu). apply (wp_on_plugins _ _ _ _ p Hp).
  pose proof (PluginManagerFacts.release_inv id p I) as Hi. pose proof (PluginUse.release_keeps id p) as Hk.
  unfold wp in *. destruct (PluginManager.release id p) as [[] p']. cbn in *. destruct Hk as (E & K).
  split; [|done]. apply (holds_plugins (id :: x) x y w p p'); [done..|]. rewrite E. by apply remove_one_perm.
Qed.

(** *** The end of an engine *)

Lemma wp_stays {A B} (m : ST world A) (k : A -> ST world B) Q w :
  stays m -> (forall a w', still w w' -> wp (k a) Q w') -> wp (m ≫= k) Q w.
Proof. intros Hm Hk. apply wp_bind. eapply wp_mono; [apply Hm|]. intros a w' S. by apply Hk. Qed.

Lemma delete_engine_holds eid id k x y w :
  holds x y w -> used w !! eid = Some id -> (forall k, engines_ w !! k <> Some eid) -> y = None \/ y = Some (eid, k) ->
  wp (delete_engine eid) (fun _ => holds x None) w.
Proof.
  intros Hw Hid Hne Hy. unfold delete_engine. apply wp_bind, wp_gets. apply wp_stays; [apply stays_Uninitialize|].
  intros [] w1 S. pose proof (holds_still _ _ _ _ S Hw) as HH1. destruct S as [Su _ Se _]. rewrite <- Su in Hid. rewrite <- Se in Hne.
  assert (He : exists e, engine_of eid w = Some e /\ Engine.plugin_ e = id).
  { rewrite Su in Hid. unfold used in Hid. rewrite lookup_fmap in Hid. unfold engine_of.
    destruct (objects w !! eid) as [e|]; [|done]. injection Hid as <-. by exists e. }
  destruct He as (e & -> & <-). clear Hw Su Se. apply wp_bind, wp_modify. set (w2 := _ <| objects ::= _ |>).
  assert (Hu2 : used w2 = delete eid (used w1)) by (unfold used; cbn; apply fmap_delete).
  assert (HH2 : holds (Engine.plugin_ e :: x) None w2).
  { destruct HH1 as [Ho Hl Hf]. split.
    - unfold owns in *. cbn. destruct (pluginManager w1) as [p|]; [|destruct Ho as [_ E]; by rewrite E in Hid].
      destruct Ho as [I Hu]. split; [done|]. rewrite Hu. unfold uses. rewrite Hu2.
      rewrite <- (insert_delete_id _ _ _ Hid) at 1. rewrite map_to_list_insert by apply lookup_delete_eq. cbn.
      symmetry. apply Permutation.Permutation_middle.
    - intros i j. rewrite Hu2. intros [Hi Hj]%lookup_delete_Some. destruct (Hl _ _ Hj) as (k' & Hk & [->|Hk']).
      + destruct Hy as [?|[= Ei _]]; [done|]. by destruct Hi.
      + exists k'. split; [done|]. by right.
    - intros k' i Hk. destruct (Hf k' i Hk) as (j & Hj & Hkj). exists j. split; [|done].
      rewrite Hu2, lookup_delete_ne; [done|]. intros ->. by eapply Hne. }
  eapply wp_mono; [by apply release_holds|]. intros ? w3 (HH3 & _). exact HH3.
Qed.

(** [drop_engine] of an engine that is filed, or has gone already. *)
Lemma drop_engine_holds eid w : holds [] None w -> wp (drop_engine eid) (fun _ => holds [] None) w.
Proof.
  intros Hw. unfold drop_engine. apply wp_bind, wp_gets. destruct (engine_referenced eid w) eqn:Er; [by apply wp_ret|].
  unfold engine_referenced in Er. apply orb_false_iff in Er as [He _]. apply bool_decide_eq_false in He.
  destruct (used w !! eid) as [id|] eqn:Hid.
  - destruct (h_live _ _ _ Hw _ _ Hid) as (k & _ & [?|Hk]); [done|]. destruct He. by exists k, eid.
  - unfold delete_engine. apply wp_bind, wp_gets. apply wp_stays; [apply stays_Uninitialize|].
    intros [] w1 S. pose proof (holds_still _ _ _ _ S Hw) as HH1. apply wp_bind, wp_modify.
    unfold used in Hid. rewrite lookup_fmap in Hid. unfold engine_of. destruct (objects w !! eid) eqn:Eo; [done|]. apply wp_ret.
    destruct S as [Su _ _ _]. eapply holds_still; [|exact HH1]. split; try done. unfold used in *. cbn. rewrite fmap_delete, Su.
    apply delete_id. by rewrite lookup_fmap, Eo.
Qed.

(** [drop_engine] of the engine that is not filed and serves nobody. *)
Lemma drop_unfiled eid id k w : holds [] (Some (eid, k)) w -> used w !! eid = Some id ->
  (forall k, engines_ w !! k <> Some eid) -> (forall t, clientEngines_ w !! t <> Some eid) ->
  wp (drop_engine eid) (fun _ => holds [] None) w.
Proof.
  intros Hw Hid He Hc. unfold drop_engine. apply wp_bind, wp_gets. destruct (engine_referenced eid w) eqn:Er.
  - unfold engine_referenced in Er. apply orb_true_iff in Er as [Hx|Hx]; apply bool_decide_eq_true in Hx as (? & ? & Hx & ->).
    + by destruct (He _ Hx).
    + by destruct (Hc _ Hx).
  - apply (delete_engine_holds eid id k [] (Some (eid, k))); [done..|]. by right.
Qed.


(** *** [StartEngine] *)

(** The tables other than the one of the plugins. *)
Definition same_engines w w' : Prop :=
  used w' = used w /\ engines_ w' = engines_ w /\ next_engine w' = next_engine w.

Lemma GetPluginManager_holds w : holds [] None w ->
  wp GetPluginManager (fun ok w' => holds [] None w' /\ same_engines w w' /\
    if ok then exists p, pluginManager w' = Some p /\ PluginManagerFacts.inv p /\ PluginManager.users p ≡ₚ uses w'
    else pluginManager w' = None) w.
Proof.
  intros Hw. unfold GetPluginManager. apply wp_bind, wp_gets. destruct (pluginManager w) as [p|] eqn:Hp.
  - apply wp_ret. split; [done|]. split; [done|]. exists p. split; [done|].
    pose proof (h_owns _ _ _ Hw) as Ho. unfold owns in Ho. by rewrite Hp in Ho.
  - apply wp_stays; [apply stays_mem|]. intros ok w1 S. pose proof (holds_still _ _ _ _ S Hw) as HH1.
    destruct S as [Su Sm Se Sn]. rewrite Hp in Sm. destruct ok; [|by apply wp_ret].
    apply wp_bind, wp_modify, wp_ret. destruct HH1 as [Ho Hl Hf]. unfold owns in Ho. rewrite Sm in Ho. destruct Ho as [_ Hu].
    set (w2 := _ <| pluginManager := _ |>). assert (Hu2 : used w2 = ∅) by done.
    assert (Ho2 : PluginManagerFacts.inv PluginManager.ctor /\ PluginManager.users PluginManager.ctor ≡ₚ uses w2).
    { split; [apply PluginManagerFacts.pm_inv_ctor|]. unfold uses. by rewrite Hu2, map_to_list_empty. }
    split; [split|split; [done|by eexists]].
    + done.
    + intros eid id. by rewrite Hu2.
    + intros k eid Hk. destruct (Hf k eid Hk) as (id & Hid & _). by rewrite Hu in Hid.
Qed.

Lemma holds_new_engine plugin thread queue key w :
  holds [plugin] None w -> key_of w plugin = Some key -> used w !! next_engine w = None ->
  let w' := w <| next_engine ::= S |> <| objects ::= <[next_engine w := Engine.ctor plugin thread queue]> |> in
  holds [] (Some (next_engine w, key)) w' /\ used w' !! next_engine w = Some plugin /\ key_of w' plugin = Some key.
Proof.
  intros [Ho Hl Hf] Hk Hn w'. assert (Hu : used w' = <[next_engine w := plugin]> (used w)) by (unfold used; cbn; apply fmap_insert).
  rewrite Hu, lookup_insert_eq. split; [|done]. split.
  - unfold owns in *. cbn. destruct (pluginManager w) as [p|]; [|by destruct Ho]. destruct Ho as [I Hp]. split; [done|].
    rewrite Hp. unfold uses. rewrite Hu, map_to_list_insert by done. done.
  - intros eid id. rewrite Hu. intros [[<- <-]|[Hne Hid]]%lookup_insert_Some.
    + exists key. split; [done|by left].
    + destruct (Hl _ _ Hid) as (k & Hki & [?|He]); [done|]. exists k. split; [done|by right].
  - intros k eid He. destruct (Hf k eid He) as (id & Hid & Hki). exists id. split; [|done].
    rewrite Hu, lookup_insert_ne; [done|]. intros <-. by rewrite Hn in Hid.
Qed.

(** A reference that the caller holds when the creation of an engine fails. *)
Lemma fail_holds plugin c w0 w : holds [plugin] None w0 -> still w0 w ->
  wp (on_plugins tt (PluginManager.release plugin) ;; mret (c, @None nat)) (fun (r : Z * option nat) w' => r.2 = None /\ holds [] None w') w.
Proof.
  intros Hw S. apply wp_bind. eapply wp_mono; [apply release_holds, (holds_still _ _ _ _ S Hw)|].
  intros ? w1 (HH1 & _). by apply wp_ret.
Qed.

(** What [CreateEngine] leaves: no engine, or one that is not filed yet. *)
Definition unfiled (key : string * Z) (eid : nat) w : Prop :=
  holds [] (Some (eid, key)) w /\ exists id, used w !! eid = Some id /\ key_of w id = Some key.
Definition made (key : string * Z) (r : Z * option nat) w : Prop :=
  match r.2 with None => holds [] None w | Some eid => unfiled key eid w end.

Lemma unfiled_still key eid w w' : still w w' -> unfiled key eid w -> unfiled key eid w'.
Proof.
  intros S [Hw (id & Hid & Hk)]. split; [by eapply holds_still|]. exists id. destruct S as [Su Sm _ _].
  unfold key_of in *. by rewrite Su, Sm.
Qed.

Ltac go S := apply wp_stays; [stay; first [apply stays_GetThreadPool|apply stays_GetQueuePool|apply stays_Initialize|idtac]|];
  let S' := fresh "S'" in intros ? ? S'; first [pose proof (still_trans _ _ _ S S') as S''; clear S S'; rename S'' into S | idtac]; cbn beta iota.
Ltac fails Hw S := eapply wp_mono; [by apply (fail_holds _ _ _ _ Hw S)|]; intros [? ?] ? [E ?]; cbn in E; subst; done.

Lemma CreateEngine_holds key w : holds [] None w -> used w !! next_engine w = None ->
  wp (CreateEngine key) (made key) w.
Proof.
  intros Hw Hn. unfold CreateEngine. apply wp_bind. eapply wp_mono; [by apply GetPluginManager_holds|].
  intros ok w1 (HH1 & (Su & Se & Sn) & Hok). rewrite <- Su, <- Sn in Hn. clear Hw Su Se Sn.
  destruct ok; [|by apply wp_ret]. destruct Hok as (p & Hp & I & Hu). cbn [negb]. apply wp_bind.
  apply (wp_on_plugins _ _ _ _ p Hp). eapply wp_mono; [by apply PluginUse.GetPlugin_got|].
  intros [code [plugin|]] p' (I' & K & G); cbn [snd] in G.
  2: { apply wp_ret. unfold made. cbn. apply (holds_plugins [] [] None w1 p p'); [done..|]. by rewrite G, Hu. }
  destruct G as (Hu' & pl & Hpl & Hkey). set (w2 := _ <| pluginManager := _ |>).
  assert (HH2 : holds [plugin] None w2) by (apply (holds_plugins [] [plugin] None w1 p p'); [done..|]; rewrite Hu', Hu; done).
  assert (Hk2 : key_of w2 plugin = Some key) by (unfold key_of; cbn; rewrite Hpl; cbn; by rewrite Hkey, <- surjective_pairing).
  assert (Hn2 : used w2 !! next_engine w2 = None) by done. assert (S : still w2 w2) by done. clearbody w2. clear - HH2 Hk2 Hn2 S.
  go S. destruct (negb _); [fails HH2 S|]. go S. go S. destruct a1 as [thread|]; [|fails HH2 S].
  go S. destruct (negb _); [fails HH2 S|]. go S. go S. go S. go S. destruct a5 as [queue|]; [|go S; fails HH2 S].
  go S. destruct (negb _); [go S; go S; fails HH2 S|].
  pose proof (holds_still _ _ _ _ S HH2) as HH3. apply wp_bind, wp_gets, wp_bind, wp_modify.
  match goal with |- wp _ _ (?w3 <| next_engine ::= _ |> <| objects ::= _ |>) =>
    destruct (holds_new_engine plugin thread queue key w3 HH3) as (HH4 & Hi4 & Hk4);
      [destruct S as [_ Sm _ _]; unfold key_of in *; by rewrite Sm | destruct S as [Su _ _ Sn]; by rewrite Su, Sn|];
      generalize dependent (next_engine w3); set (w4 := w3 <| next_engine ::= _ |>); intros
  end.
  set (w5 := w4 <| objects ::= _ |>) in *. assert (Hf : unfiled key n w5) by (split; [done|by exists plugin]).
  apply wp_stays; [apply stays_Initialize|]. intros c w6 S6. apply (unfiled_still _ _ _ _ S6) in Hf.
  destruct (negb _); [|by apply wp_ret].
  apply wp_stays; [stay|]. intros ? w7 S7. apply (unfiled_still _ _ _ _ S7) in Hf.
  apply wp_stays; [stay|]. intros ? w8 S8. apply (unfiled_still _ _ _ _ S8) in Hf. by apply wp_ret.
Qed.

Lemma used_refs eid w : used w !! eid = None <-> EngineFacts.refs w !! eid = None.
Proof. unfold used, EngineFacts.refs. rewrite !lookup_fmap. by destruct (objects w !! eid). Qed.

(** What [StartEngine] has in hand: an engine that is filed, or one that could not be initialised. *)
Definition checked (key : string * Z) (r : Z * option nat) w : Prop :=
  match r with
  | (_, None) => holds [] None w
  | (c, Some eid) =>
      if c =? RETCODE_SUCCESS then holds [] None w
      else unfiled key eid w /\ (forall k, engines_ w !! k <> Some eid) /\ (forall t, clientEngines_ w !! t <> Some eid)
  end.

Lemma CreateEngineWithCheck_holds key w : holds [] None w -> EngineFacts.counted w -> wp (CreateEngineWithCheck key) (checked key) w.
Proof.
  intros Hw C. unfold CreateEngineWithCheck. apply wp_bind, wp_gets. destruct (engines_ w !! key) as [eid|] eqn:Ek; [by apply wp_ret|].
  assert (Hr : EngineFacts.refs w !! next_engine w = None) by (by apply (EngineFacts.c_next _ C)).
  pose proof (CreateEngine_holds key w Hw (proj2 (used_refs _ _) Hr)) as Hm. pose proof (EngineFacts.CreateEngine_spec key w) as Hc.
  apply wp_bind. unfold wp in Hm, Hc. unfold wp at 1. destruct (CreateEngine key w) as [[c r] w1]. cbn [fst snd] in *.
  destruct r as [eid|]; [|by apply wp_ret].
  destruct Hc as [[? _]|([= ->] & _ & Ee & Ec & _)]; [done|].
  assert (Hne : forall k, engines_ w1 !! k <> Some (next_engine w)).
  { intros k. rewrite Ee. intros Hk. destruct (EngineFacts.c_engines _ C _ _ Hk) as [? E]. by rewrite Hr in E. }
  assert (Hnc : forall t, clientEngines_ w1 !! t <> Some (next_engine w)).
  { intros t. rewrite Ec. intros Ht. destruct (EngineFacts.c_clients _ C _ _ Ht) as [? E]. by rewrite Hr in E. }
  rewrite <- Ee in Ek. unfold made in Hm. cbn [snd] in Hm.
  destruct (c =? RETCODE_SUCCESS) eqn:Es; cbn [negb]; [|apply wp_ret; unfold checked; rewrite Es; done].
  apply wp_bind, wp_modify, wp_ret. unfold checked. rewrite Es. destruct Hm as [[Ho Hl Hf] (id & Hid & Hk)]. split.
  - done.
  - intros i j Hj. destruct (Hl i j Hj) as (k & Hkj & Hy). exists k. split; [done|]. right. cbn. rewrite lookup_insert_Some.
    destruct Hy as [[= -> ->]|Hy]; [by left|]. destruct (decide (key = k)) as [->|Hne']; [by rewrite Ek in Hy|by right].
  - intros k i. cbn. rewrite lookup_insert_Some. intros [[<- <-]|[_ Hk']]; [by exists id|by apply Hf].
Qed.

Lemma holds_stays {A} x y (m : ST world A) w : stays m -> holds x y w -> wp m (fun _ => holds x y) w.
Proof. intros Hm Hw. eapply wp_mono; [apply Hm|]. intros ? w' S. exact (holds_still _ _ _ _ S Hw). Qed.

Lemma StartEngine_holds t a d w : holds [] None w -> EngineFacts.counted w -> wp (StartEngine t a d) (fun _ => holds [] None) w.
Proof.
  intros Hw C. unfold StartEngine. destruct (String.eqb _ _); [by apply wp_ret|].
  set (key := (GetAlgorithmIdByType _, AlgorithmInfo.algorithmVersion a)). apply wp_bind, wp_gets, wp_bind.
  eapply wp_mono; [instantiate (1 := checked key)|].
  - destruct (engines_ w !! key) as [eid|]; [|by apply CreateEngineWithCheck_holds]. apply wp_ret. done.
  - intros [c [eid|]] w1 Hc; cbn in Hc; [|by apply wp_ret]. destruct (c =? RETCODE_SUCCESS); cbn [negb].
    + apply wp_bind, wp_gets. cbn beta. destruct (eid ← _; _) as [algo|]; [|by apply wp_ret].
      apply holds_stays; [unfold RecordClient; stay|done].
    + destruct Hc as ([Hu (id & Hid & _)] & He & Hn). apply wp_bind.
      eapply wp_mono; [by apply (drop_unfiled eid id key)|]. intros ? w2 HH2. by apply wp_ret.
Qed.

(** *** [StopEngine] *)


(** The last client takes plugin and engine out of their tables: the engine is not filed any more. *)
Lemma unload_last_holds eid e w : holds [] None w -> engine_of eid w = Some e ->
  wp (EngineFacts.unload_last eid e) (fun _ w' =>
    if bool_decide (Engine.refCount_ e = 0)
    then exists k, holds [] (Some (eid, k)) w' /\ used w' !! eid = Some (Engine.plugin_ e) /\
         forall k, engines_ w' !! k <> Some eid
    else holds [] None w') w.
Proof.
  intros Hw He. unfold EngineFacts.unload_last. apply wp_bind, wp_gets. rewrite He. cbn [fmap option_fmap option_map].
  rewrite (bool_decide_ext _ (Engine.refCount_ e = 0)) by (split; [by intros [= ->]|by intros ->]).
  case_bool_decide as E0; [|by apply wp_ret]. apply wp_bind, wp_gets.
  assert (Hid : used w !! eid = Some (Engine.plugin_ e)) by (unfold used, engine_of in *; by rewrite lookup_fmap, He).
  destruct (h_live _ _ _ Hw _ _ Hid) as (k & Hk & [?|Hek]); [done|]. unfold key_of in Hk.
  destruct (pluginManager w) as [p|] eqn:Hp; [|done]. cbn in Hk |- *.
  destruct (PluginManager.plugins p !! Engine.plugin_ e) as [pl|] eqn:Hpl; [|done]. injection Hk as <-. cbn.
  apply wp_bind, (wp_on_plugins _ _ _ _ p Hp).
  pose proof (h_owns _ _ _ Hw) as Ho. unfold owns in Ho. rewrite Hp in Ho. destruct Ho as [I Hu].
  pose proof (PluginManagerFacts.UnloadPlugin_inv (Plugin.aid_ pl) (Plugin.version_ pl) p I) as Hi.
  pose proof (PluginUse.UnloadPlugin_keeps (Plugin.aid_ pl) (Plugin.version_ pl) p) as Hk. unfold wp in Hi, Hk. unfold wp at 1.
  destruct (PluginManager.UnloadPlugin _ _ p) as [[] p']. cbn [fst snd] in *. destruct Hk as (Eu & _ & K). apply wp_modify.
  set (key := (Plugin.aid_ pl, Plugin.version_ pl)) in *.
  assert (HH1 : holds [] None (w <| pluginManager := Some p' |>)) by (apply (holds_plugins [] [] None w p p'); [done..|]; by rewrite Eu).
  assert (Hkey : key_of (w <| pluginManager := Some p' |>) (Engine.plugin_ e) = Some key).
  { destruct (h_live _ _ _ HH1 eid _ Hid) as (k & Hk & [?|Hek']); [done|]. rewrite Hk. f_equal.
    destruct (h_filed _ _ _ HH1 key eid Hek) as (id & Hid' & Hk'). change (used w !! eid = Some id) in Hid'. congruence. }
  exists key. destruct HH1 as [Ho1 Hl1 Hf1]. split; [split|split; [done|]].
  - done.
  - intros i j Hj. destruct (Hl1 i j Hj) as (k & Hkj & [?|Hek']); [done|]. exists k. split; [done|].
    destruct (decide (i = eid)) as [->|Hne].
    + left. do 2 f_equal. change (used w !! eid = Some j) in Hj. congruence.
    + right. cbn. rewrite lookup_delete_ne; [done|]. intros <-. cbn in Hek'. congruence.
  - intros k i. cbn. intros [_ Hk]%lookup_delete_Some. by apply Hf1.
  - intros k. cbn. intros [Hne Hk]%lookup_delete_Some. destruct (Hf1 k eid Hk) as (id & Hid' & Hk').
    change (used w !! eid = Some id) in Hid'. congruence.
Qed.

(** When the count falls to zero nobody else is served. *)
Lemma last_client t t' eid e w : EngineFacts.counted w -> clientEngines_ w !! t = Some eid -> objects w !! eid = Some e ->
  s32 (Engine.refCount_ e - 1) = 0 -> delete t (clientEngines_ w) !! t' <> Some eid.
Proof.
  intros C Ht He E0 Ht'.
  assert (En : Engine.refCount_ e = Z.of_nat (EngineFacts.clients_of eid w)).
  { apply (EngineFacts.c_count _ C). unfold EngineFacts.refs. by rewrite lookup_fmap, He. }
  pose proof (EngineFacts.c_size _ C) as Hsz. pose proof (EngineFacts.count_of_le eid (clientEngines_ w)) as Hle.
  unfold EngineFacts.clients_of in En. rewrite (EngineFacts.count_of_delete eid t eid _ Ht) in En, Hle.
  rewrite decide_True in En, Hle by done. rewrite (EngineFacts.count_of_delete eid t' eid _ Ht') in En, Hle.
  rewrite decide_True in En, Hle by done. rewrite En in E0. unfold INT_MAX in Hsz. rewrite wrap_s_small in E0 by lia. lia.
Qed.

Lemma StopEngine_holds t d w : holds [] None w -> EngineFacts.counted w -> wp (StopEngine t d) (fun _ => holds [] None) w.
Proof.
  intros Hw C. unfold StopEngine. apply wp_bind, wp_gets. destruct (clientEngines_ w !! t) as [eid|] eqn:Ht; [|by apply wp_ret].
  apply wp_bind, wp_gets. destruct (engine_of eid w) as [e|] eqn:He; [|by apply wp_ret].
  apply wp_bind, wp_gets. destruct (algorithm_of _ w) as [algo|]; [|by apply wp_ret].
  apply wp_bind. pose proof (stays_algorithm (release_algorithm algo (Engine.refCount_ e =? PLUGIN_NUM_FOR_UNLOAD) t d) w) as S.
  pose proof (EngineFacts.keeps_algorithm (release_algorithm algo (Engine.refCount_ e =? PLUGIN_NUM_FOR_UNLOAD) t d) w) as T.
  assert (Hobj : objects (on_algorithm (release_algorithm algo (Engine.refCount_ e =? PLUGIN_NUM_FOR_UNLOAD) t d) w).2 = objects w).
  { unfold on_algorithm. by destruct (release_algorithm _ _ _ _ _) as [? []]. }
  unfold wp in S, T. unfold wp at 1. destruct (on_algorithm _ w) as [c w1]. cbn [fst snd] in *.
  pose proof (holds_still _ _ _ _ S Hw) as HH1. pose proof (EngineFacts.counted_same _ _ T C) as C1.
  destruct T as [_ _ Cl _]. rewrite <- Cl in Ht. unfold engine_of in He. rewrite <- Hobj in He. clear S Cl Hobj Hw C.
  destruct (negb _); [by apply wp_ret|]. apply wp_bind.
  match goal with |- wp (upd_engine eid ?f) _ _ =>
    pose proof (holds_still _ _ _ _ (stays_upd eid f (fun _ => eq_refl) w1) HH1) as HH2; set (e' := f e)
  end.
  apply wp_modify. unfold upd_engine, modify in HH2. cbn [snd] in HH2. set (w2 := w1 <| objects ::= _ |>) in *.
  assert (He2 : engine_of eid w2 = Some e') by (unfold engine_of; cbn; by rewrite lookup_alter_eq, He).
  change (wp (EngineFacts.unload_last eid e' ;; UnRecordClient t ;; drop_engine eid ;; mret RETCODE_SUCCESS)
    (fun _ => holds [] None) w2).
  apply wp_bind. pose proof (unload_last_holds eid e' w2 HH2 He2) as Hun. pose proof (EngineFacts.unload_last_spec eid e' w2) as Hcl.
  unfold wp in Hun, Hcl. unfold wp at 1. destruct (EngineFacts.unload_last eid e' w2) as [[] w3]. cbn [fst snd] in *.
  destruct Hcl as (_ & Hcl & _). change (clientEngines_ w2) with (clientEngines_ w1) in Hcl.
  apply wp_bind, wp_modify. set (w4 := w3 <| clientEngines_ ::= _ |>). apply wp_bind.
  assert (Hdrop : wp (drop_engine eid) (fun _ => holds [] None) w4);
    [|eapply wp_mono; [exact Hdrop|]; intros; by apply wp_ret].
  case_bool_decide as E0.
  - destruct Hun as (k & HH3 & Hid & Hne). apply (drop_unfiled eid (Engine.plugin_ e') k); [by apply (holds_still _ _ w3)|done..|].
    intros t' Ht'. cbn in Ht'. rewrite Hcl in Ht'. by apply (last_client t t' eid e w1).
  - apply drop_engine_holds. by apply (holds_still _ _ w3).
Qed.


(** *** Histories *)

Lemma reachable_holds w : EngineFacts.reachable OnReply w -> holds [] None w.
Proof.
  intros R. assert (Hk : EngineFacts.counted w) by (by eapply EngineFacts.reachable_counted).
  clear Hk. induction R as [m x|t a d w R IH Ht Hs|t d w R IH|fuel r w R IH|now r w R IH|n qid w R IH|t ty d w R IH|t ty d w R IH
    |l t w R IH|t w R IH].
  - by split.
  - apply StartEngine_holds; [done|]. by eapply EngineFacts.reachable_counted.
  - apply StopEngine_holds; [done|]. by eapply EngineFacts.reachable_counted.
  - apply (holds_stays [] None (ServerSyncExecute OnReply fuel r)); [|done]. unfold ServerSyncExecute, FindEngine. stay; apply stays_SyncExecute.
  - apply (holds_stays [] None (ServerAsyncExecute now r)); [|done]. unfold ServerAsyncExecute, FindEngine. stay; apply stays_AsyncExecute.
  - apply (holds_stays [] None (run_worker OnReply n qid)); [apply stays_run_worker|done].
  - apply (holds_stays [] None (SetOption t ty d)); [|done]. unfold SetOption, FindEngine. stay.
  - apply (holds_stays [] None (GetOption t ty d)); [|done]. unfold GetOption, FindEngine. stay.
  - apply (holds_stays [] None (RegisterListener l t)); [|done]. unfold RegisterListener. stay.
  - apply (holds_stays [] None (UnRegisterListener t)); [|done]. unfold UnRegisterListener. stay.
Qed.

(** *** The end of the manager *)

(** While the tables are emptied: every live engine is still in one of them.
    [b]: the plugin manager exists. *)
Record closing (b : bool) w : Prop := {
  cl_owns : owns [] w;
  cl_manager : b = true -> is_Some (pluginManager w);
  cl_filed eid : is_Some (used w !! eid) ->
    (exists k, engines_ w !! k = Some eid) \/ (exists t, clientEngines_ w !! t = Some eid);
}.

Lemma holds_closing w : holds [] None w -> closing (bool_decide (is_Some (pluginManager w))) w.
Proof.
  intros [Ho Hl Hf]. split; [done|by intros ?%bool_decide_eq_true|]. intros eid [id Hid]. destruct (Hl _ _ Hid) as (k & _ & [?|Hk]); [done|]. left. by exists k.
Qed.

Lemma owns_plugins x w p' : PluginManagerFacts.inv p' -> PluginManager.users p' ≡ₚ x ++ uses w ->
  owns x (w <| pluginManager := Some p' |>).
Proof. done. Qed.

Lemma release_owns id x w : owns (id :: x) w ->
  wp (on_plugins tt (PluginManager.release id)) (fun _ w' => owns x w' /\ used w' = used w /\ is_Some (pluginManager w')) w.
Proof.
  intros Ho. destruct (owns_manager _ _ _ Ho) as (p & Hp & I & Hu). apply (wp_on_plugins _ _ _ _ p Hp).
  pose proof (PluginManagerFacts.release_inv id p I) as Hi. pose proof (PluginUse.release_keeps id p) as Hk.
  unfold wp in *. destruct (PluginManager.release id p) as [[] p']. cbn in *. destruct Hk as (E & _).
  split; [|split; [done|by eexists]]. apply owns_plugins; [done|]. rewrite E. by apply remove_one_perm.
Qed.

Lemma owns_delete eid id x w : owns x w -> used w !! eid = Some id -> owns (id :: x) (w <| objects ::= delete eid |>).
Proof.
  intros Ho Hid. unfold owns in *. cbn. destruct (pluginManager w) as [p|]; [|destruct Ho as [_ E]; by rewrite E in Hid].
  destruct Ho as [I Hu]. split; [done|]. rewrite Hu. unfold uses, used. cbn. rewrite fmap_delete. fold (used w).
  rewrite <- (insert_delete_id _ _ _ Hid) at 1. rewrite map_to_list_insert by apply lookup_delete_eq. cbn.
  symmetry. apply Permutation.Permutation_middle.
Qed.

Lemma delete_engine_owns eid x w : owns x w ->
  wp (delete_engine eid) (fun _ w' => owns x w' /\ used w' = delete eid (used w) /\
    (is_Some (pluginManager w) -> is_Some (pluginManager w'))) w.
Proof.
  intros Ho. unfold delete_engine. apply wp_bind, wp_gets. apply wp_stays; [apply stays_Uninitialize|].
  intros [] w1 S. pose proof (owns_still _ _ _ S Ho) as HH1. apply wp_bind, wp_modify.
  assert (Hu : used (w1 <| objects ::= delete eid |>) = delete eid (used w1)) by (unfold used; cbn; apply fmap_delete).
  destruct S as [Su Sm _ _]. rewrite <- Su. unfold engine_of. destruct (objects w !! eid) as [e|] eqn:He.
  - eapply wp_mono; [apply release_owns, owns_delete; [done|]|].
    + rewrite Su. unfold used. by rewrite lookup_fmap, He.
    + intros [] w2 (HH2 & E2 & Hm). split; [done|]. by rewrite E2.
  - apply wp_ret. split; [|split; [done|cbn; by rewrite Sm]]. apply (owns_still _ w1); [|done]. split; try done. rewrite Hu. apply delete_id.
    rewrite Su. unfold used. by rewrite lookup_fmap, He.
Qed.

(** An engine may go whose last entry has been taken out. *)
Lemma drop_engine_closing b eid w : owns [] w -> (b = true -> is_Some (pluginManager w)) ->
  (forall i, i <> eid -> is_Some (used w !! i) -> (exists k, engines_ w !! k = Some i) \/ (exists t, clientEngines_ w !! t = Some i)) ->
  wp (drop_engine eid) (fun _ w' => closing b w' /\ engines_ w' = engines_ w /\ clientEngines_ w' = clientEngines_ w) w.
Proof.
  intros Ho Hb Hf. unfold drop_engine. apply wp_bind, wp_gets. destruct (engine_referenced eid w) eqn:Er.
  - apply wp_ret. split; [|done]. split; [done..|]. intros i Hi. destruct (decide (i = eid)) as [->|Hne]; [|by apply Hf].
    unfold engine_referenced in Er. apply orb_true_iff in Er as [Hx|Hx]; apply bool_decide_eq_true in Hx as (k & ? & Hx & ->);
      [left|right]; by exists k.
  - destruct (EngineFacts.delete_engine_spec eid w) as (_ & Ee & Ec & _).
    destruct (delete_engine_owns eid [] w Ho) as (Ho' & Hu & Hm). unfold wp. split; [|done]. split; [done|auto|].
    intros i. rewrite Hu, Ee, Ec. intros [id [Hne Hi]%lookup_delete_Some]. apply Hf; [congruence|by exists id].
Qed.

(** Both loops. *)
Lemma clear_engine_closing b k w : closing b w -> wp (EngineManagerEnd.clear_engine k) (fun _ w' => closing b w' /\
  engines_ w' = delete k (engines_ w) /\ clientEngines_ w' = clientEngines_ w) w.
Proof.
  intros [Ho Hb Hf]. unfold EngineManagerEnd.clear_engine. apply wp_bind, wp_gets, wp_bind, wp_modify.
  destruct (engines_ w !! k) as [eid|] eqn:Ek.
  - eapply wp_mono; [apply (drop_engine_closing b); [done..|]|by intros ? w' (? & -> & ->)].
    intros i Hne Hi. destruct (Hf i Hi) as [[k' Hk']|?]; [left|by right]. exists k'. cbn.
    rewrite lookup_delete_ne; [done|]. intros <-. congruence.
  - apply wp_ret. split; [|done]. split; [done..|]. cbn. by rewrite delete_id.
Qed.

Lemma clear_client_closing b t w : closing b w -> wp (EngineManagerEnd.clear_client t) (fun _ w' => closing b w' /\
  engines_ w' = engines_ w /\ clientEngines_ w' = delete t (clientEngines_ w)) w.
Proof.
  intros [Ho Hb Hf]. unfold EngineManagerEnd.clear_client. apply wp_bind, wp_gets, wp_bind, wp_modify.
  destruct (clientEngines_ w !! t) as [eid|] eqn:Et.
  - eapply wp_mono; [apply (drop_engine_closing b); [done..|]|by intros ? w' (? & -> & ->)].
    intros i Hne Hi. destruct (Hf i Hi) as [?|[t' Ht']]; [by left|right]. exists t'. cbn.
    rewrite lookup_delete_ne; [done|]. intros <-. congruence.
  - apply wp_ret. split; [|done]. split; [done..|]. cbn. by rewrite delete_id.
Qed.

(** A loop that takes the keys of a map out empties it. *)
Lemma for_each_empties `{Countable K} {S A : Type} (I : S -> Prop) (proj : S -> gmap K A) (body : K -> ST S unit) s :
  (forall k s, I s -> wp (body k) (fun _ s' => I s' /\ proj s' = delete k (proj s)) s) -> I s ->
  wp (for_each body (map_to_list (proj s)).*1) (fun _ s' => I s' /\ proj s' = ∅) s.
Proof.
  intros Hb HI. assert (Hin : forall k, is_Some (proj s !! k) -> k ∈ (map_to_list (proj s)).*1).
  { intros k [a Ha]. apply list_elem_of_fmap. exists (k, a). split; [done|]. by apply elem_of_map_to_list. }
  generalize dependent (map_to_list (proj s)).*1. intros l. revert s HI. induction l as [|k l IH]; intros s HI Hin.
  - apply wp_ret. split; [done|]. apply map_eq. intros k. rewrite lookup_empty. destruct (proj s !! k) eqn:E; [|done].
    exfalso. eapply not_elem_of_nil, (Hin k). by eexists.
  - cbn. apply wp_bind. eapply wp_mono; [by apply Hb|]. intros [] s' [HI' E]. apply IH; [done|].
    intros k' [a Ha]. rewrite E in Ha. apply lookup_delete_Some in Ha as [Hne Ha].
    assert (Hk' : k' ∈ k :: l) by (apply Hin; by exists a). apply elem_of_cons in Hk' as [->|?]; done.
Qed.

Lemma clear_engines_closing b w : closing b w -> wp EngineManagerEnd.clear_engines (fun _ w' => closing b w' /\ engines_ w' = ∅) w.
Proof.
  intros Hw. unfold EngineManagerEnd.clear_engines. apply wp_bind, wp_gets.
  apply (for_each_empties (closing b) engines_); [|done]. intros k s Hs.
  eapply wp_mono; [by apply clear_engine_closing|]. naive_solver.
Qed.

Lemma clear_clients_closing b w : closing b w -> engines_ w = ∅ ->
  wp EngineManagerEnd.clear_clients (fun _ w' => closing b w' /\ engines_ w' = ∅ /\ clientEngines_ w' = ∅) w.
Proof.
  intros Hw He. unfold EngineManagerEnd.clear_clients. apply wp_bind, wp_gets.
  eapply wp_mono; [apply (for_each_empties (fun w => closing b w /\ engines_ w = ∅) clientEngines_); [|done]|].
  - intros t s [Hs Es]. eapply wp_mono; [by apply clear_client_closing|]. intros ? s' (? & -> & ->). done.
  - naive_solver.
Qed.


(** Nothing that a plugin manager has opened or created is left. *)
Definition spent (p : PluginManager.t) : Prop :=
  PluginManager.open p = ∅ /\ PluginManager.algorithms p = ∅ /\ PluginManager.plugins p = ∅ /\
  PluginManager.users p = [] /\ PluginManager.bad p = false /\ PluginManager.label p = false.

Lemma inv_spent p : PluginManagerFacts.inv p -> PluginManager.users p = [] -> PluginManager.pluginMap_ p = ∅ -> spent p.
Proof.
  intros [Ib Il Iu Im Io Ia Ii Ilab] Hu Hm.
  assert (Hp : PluginManager.plugins p = ∅).
  { apply map_eq. intros id. rewrite lookup_empty. destruct (PluginManager.plugins p !! id) as [pl|] eqn:E; [|done].
    destruct (Il id pl E) as ([?|Hr] & _); [done|]. apply PluginManagerFacts.referenced_true in Hr.
    rewrite Hu, Hm in Hr. destruct Hr as [Hr|[k Hr]]; [by apply elem_of_nil in Hr|done]. }
  unfold spent. rewrite Hp in Io, Ia, Ilab. split_and!; [| |done..|by destruct (PluginManager.label p); [destruct Ilab|]].
  - apply set_eq. intros h. split; [|set_solver]. intros (_ & id & pl & Hl & _)%Io. by rewrite lookup_empty in Hl.
  - apply set_eq. intros h. split; [|set_solver]. intros (_ & id & pl & Hl & _)%Ia. by rewrite lookup_empty in Hl.
Qed.

Lemma clear_map_spent p : PluginManagerFacts.inv p -> PluginManager.users p = [] ->
  wp PluginManagerEnd.clear_map (fun _ => spent) p.
Proof.
  intros I Hu. unfold PluginManagerEnd.clear_map. apply wp_bind, wp_gets.
  eapply wp_mono; [apply (for_each_empties (fun p => PluginManagerFacts.inv p /\ PluginManager.users p = []) PluginManager.pluginMap_); [|done]|].
  - intros [aid version] s [Is Us]. pose proof (PluginManagerFacts.UnloadPlugin_inv aid version s Is) as Hi.
    pose proof (PluginUse.UnloadPlugin_keeps aid version s) as (E1 & E2 & _). unfold wp in *. cbn in *. rewrite E1. done.
  - cbn. intros ? p' [[? ?] ?]. by apply inv_spent.
Qed.

(** [EngineManager::Uninitialize] up to the deletion of the plugin manager. *)
Lemma manager_end w : holds [] None w ->
  wp EngineManagerEnd.Uninitialize (fun _ w' => objects w' = ∅ /\ engines_ w' = ∅ /\ clientEngines_ w' = ∅ /\
    (forall p, pluginManager w' = Some p -> spent p) /\ (is_Some (pluginManager w) -> is_Some (pluginManager w'))) w.
Proof.
  intros Hw%holds_closing. unfold EngineManagerEnd.Uninitialize. apply wp_bind.
  eapply wp_mono; [by apply clear_engines_closing|]. intros [] w1 [HH1 E1]. apply wp_bind.
  eapply wp_mono; [by apply clear_clients_closing|]. clear Hw HH1 E1 w1. intros [] w1 ([Ho Hb Hf] & Ee & Ec).
  assert (Hu : used w1 = ∅).
  { apply map_eq. intros i. rewrite lookup_empty. destruct (used w1 !! i) eqn:E; [|done]. destruct (Hf i) as [[k Hk]|[t Ht]];
      [by eexists|by rewrite Ee in Hk|by rewrite Ec in Ht]. }
  assert (HH1 : holds [] None w1) by (split; [done|intros eid id; by rewrite Hu|intros k eid; by rewrite Ee]).
  apply wp_bind. unfold wp at 1. pose proof (GetPluginManager_holds w1 HH1) as Hg. pose proof (EngineFacts.keeps_GetPluginManager w1) as Hkp.
  assert (Hsome : is_Some (pluginManager w1) -> is_Some (pluginManager (GetPluginManager w1).2)) by (intros [p Hp]; unfold GetPluginManager, mbind, ST_bind, gets; rewrite Hp; by eexists).
  unfold wp in Hg, Hkp. destruct (GetPluginManager w1) as [ok w2]. cbn [fst snd] in *.
  destruct Hg as (HH2 & (Su & Se & _) & Hok). destruct Hkp as [_ _ Sc _]. rewrite <- Su in Hu. rewrite <- Se in Ee. rewrite <- Sc in Ec.
  assert (Hobj : objects w2 = ∅) by (by apply fmap_empty_iff in Hu).
  destruct ok; cbn [negb].
  - destruct Hok as (p & Hp & I & Hus). apply (wp_on_plugins _ _ _ _ p Hp).
    unfold uses in Hus. rewrite Hu, map_to_list_empty in Hus. apply Permutation.Permutation_sym, Permutation.Permutation_nil in Hus.
    eapply wp_mono; [by apply clear_map_spent|]. intros [] p' Hs. split_and!; try done. by intros ? [= <-].
  - apply wp_ret. split_and!; try done.
    + intros p Hp. by rewrite Hok in Hp.
    + intros Hm. apply Hsome, Hb. by apply bool_decide_eq_true.
Qed.

End facts.
End EngineHolds.

(** ** Properties *)

Section properties.
  Context {X : Type} `{!Allocator, !DynLib, !Pthread, !Algorithm} (OnReply : nat -> Future.t -> ST X unit).

(** C15. Whatever clients ask and workers do, as long as no transaction is started
    twice: every live engine holds a plugin that is loaded - its algorithm object
    is alive and its library is open, so neither is deleted under an engine that
    runs it - and is the only engine of its algorithm and version, filed under them. *)
Theorem engines_hold_plugins (w : @Executor.world X _) (eid : nat) (e : Engine.t) :
  EngineFacts.reachable OnReply w -> Executor.engine_of eid w = Some e ->
  exists p pl a h, Executor.pluginManager w = Some p /\ PluginManager.plugins p !! Engine.plugin_ e = Some pl /\
    Plugin.pluginAlgorithm_ pl = Some a /\ a ∈ PluginManager.algorithms p /\
    Plugin.handle_ pl = Some h /\ h ∈ PluginManager.open p /\ PluginManager.bad p = false /\
    Executor.engines_ w !! (Plugin.aid_ pl, Plugin.version_ pl) = Some eid /\
    (forall eid' e', Executor.engine_of eid' w = Some e' -> Engine.plugin_ e' = Engine.plugin_ e -> eid' = eid).
Proof.
  intros R He. pose proof (EngineHolds.reachable_holds OnReply w R) as [Ho Hl _].
  assert (Hus : forall i x, Executor.engine_of i w = Some x -> EngineHolds.used w !! i = Some (Engine.plugin_ x))
    by (intros i x Hx; unfold EngineHolds.used, Executor.engine_of in *; by rewrite lookup_fmap, Hx).
  destruct (Hl _ _ (Hus _ _ He)) as (k & Hk & [?|Hek]); [done|]. pose proof Hk as Hk'. unfold EngineHolds.key_of, EngineHolds.owns in *.
  destruct (Executor.pluginManager w) as [p|] eqn:Hp; [|done]. cbn in Hk.
  destruct (PluginManager.plugins p !! Engine.plugin_ e) as [pl|] eqn:Hpl; [|done]. injection Hk as <-.
  destruct Ho as [I _]. destruct (PluginManagerFacts.i_live _ _ I _ _ Hpl) as (_ & _ & a & h & ? & ? & ? & ?).
  exists p, pl, a, h. split_and!; try done; [apply (PluginManagerFacts.i_bad _ _ I)|].
  intros eid' e' He' E. destruct (Hl _ _ (Hus _ _ He')) as (k & Hk & [?|Hek']); [done|].
  rewrite E, Hk' in Hk. injection Hk as <-. rewrite Hek in Hek'. by injection Hek'.
Qed.

(** Nothing of the executor whose world was [w] is left. *)
Record ended (w : @Executor.world X _) (s : @ServerExecutor.t X _) : Prop := {
  e_manager : ServerExecutor.engineMgr_ s = false;
  e_engines : Executor.objects (ServerExecutor.world s) = ∅;
  e_entries : Executor.engines_ (ServerExecutor.world s) = ∅ /\ Executor.clientEngines_ (ServerExecutor.world s) = ∅;
  e_plugin_manager : Executor.pluginManager (ServerExecutor.world s) = None;
  e_futures : FutureFactory.futures_ (Executor.futures (ServerExecutor.world s)) = ∅;
  e_listeners : FutureFactory.listeners_ (Executor.futures (ServerExecutor.world s)) = ∅;
  e_factory : FutureFactory.instance_ (Executor.futures (ServerExecutor.world s)) = false;
  e_plugins : Forall EngineHolds.spent (ServerExecutor.retired s);
  e_retired : is_Some (Executor.pluginManager w) -> ServerExecutor.retired s <> [];
}.

Lemma factory_end (f : @FutureFactory.t X) :
  wp FutureFactory.ReleaseInstance (fun _ f' => FutureFactory.futures_ f' = ∅ /\ FutureFactory.listeners_ f' = ∅ /\
    FutureFactory.instance_ f' = false) f.
Proof.
  unfold FutureFactory.ReleaseInstance. apply wp_bind.
  eapply wp_mono with (P := fun _ f' => FutureFactory.futures_ f' = ∅ /\ FutureFactory.listeners_ f' = ∅);
    [|by intros ? ? [? ?]; apply wp_modify].
  unfold FutureFactory.dtor. apply wp_bind, wp_modify, wp_bind, wp_gets, wp_bind.
  eapply wp_mono; [apply (wp_for_each (fun f' => FutureFactory.listeners_ f' = ∅)); [done|]|by intros; apply wp_modify].
  intros x f' _ E. apply wp_on_field. unfold wp. done.
Qed.

(** C16. The end of the executor, after any history in which no transaction is
    started twice: no engine and no entry is left, every future is gone, and the
    plugin manager is deleted with all libraries closed, all algorithm objects
    deleted, nothing of it twice, and the plugin label released. *)
Theorem shutdown_leaves_nothing (w : @Executor.world X _) :
  EngineFacts.reachable OnReply w ->
  wp ServerExecutor.Uninitialize (fun _ => ended w) (ServerExecutor.mk true w []).
Proof.
  intros R. pose proof (EngineHolds.manager_end w (EngineHolds.reachable_holds OnReply w R)) as Hend.
  unfold ServerExecutor.Uninitialize, ServerExecutor.delete_manager, ServerExecutor.on_world.
  apply wp_bind, wp_gets, wp_bind, wp_bind, wp_on_field. eapply wp_mono; [exact Hend|]. clear Hend.
  intros [] w1 (Ho & Ee & Ec & Hs & Hm). apply wp_bind, wp_modify, wp_modify.
  unfold ServerExecutor.ReleaseFutureFactory, ServerExecutor.on_world. apply wp_on_field, wp_on_field.
  eapply wp_mono; [apply factory_end|]. intros [] f (Ef & El & Ei). cbn.
  destruct (Executor.pluginManager w1) as [p|] eqn:Hp; cbn.
  - by split; cbn; [done..|constructor; [apply Hs|constructor]|].
  - split; cbn; try done. intros [p Hw]. destruct Hm as [? ?]; [by exists p|done].
Qed.

End properties.

(** ** Witnesses *)

Import ExecSample.
#[local] Existing Instance always_alloc.

Lemma engines_hold_plugins_witness :
  let w := started "SYNC" in
  exists p pl a h, Executor.pluginManager w = Some p /\ PluginManager.plugins p !! Engine.plugin_ (started_engine Handler.Sync) = Some pl /\
    Plugin.pluginAlgorithm_ pl = Some a /\ a ∈ PluginManager.algorithms p /\
    Plugin.handle_ pl = Some h /\ h ∈ PluginManager.open p /\ PluginManager.bad p = false /\
    Executor.engines_ w !! (Plugin.aid_ pl, Plugin.version_ pl) = Some 0%nat /\
    (forall eid' e', Executor.engine_of eid' w = Some e' ->
       Engine.plugin_ e' = Engine.plugin_ (started_engine Handler.Sync) -> eid' = 0%nat).
Proof.
  intros w. apply (@engines_hold_plugins unit always_alloc libs threads (echo "SYNC") sample_reply w 0 (started_engine Handler.Sync));
    [apply started_reachable|vm_compute; reflexivity].
Defined.

(** An executor with one engine, and its plugin, ends. *)
Lemma shutdown_leaves_nothing_witness :
  is_Some (Executor.pluginManager (started "SYNC")) /\
  wp ServerExecutor.Uninitialize (fun _ => ended (started "SYNC")) (@ServerExecutor.mk unit (echo "SYNC") true (started "SYNC") []).
Proof.
  split; [vm_compute; by eexists|].
  apply (@shutdown_leaves_nothing unit always_alloc libs threads (echo "SYNC") sample_reply (started "SYNC")), started_reachable.
Defined.

(** Without a manager every request for an engine is refused. *)
Example refused_without_manager :
  (@ServerExecutor.StartEngine unit _ _ _ (echo "SYNC") 7 sample_info DataInfo.null
     (ServerExecutor.ctor (Executor.init Mem.empty tt))).1.1 = RETCODE_ENGINE_MANAGER_NOT_INIT.
Proof. reflexivity. Qed.
