(* ===== verification/Ipc.v ===== *)
(** * Ipc: moving data between client and server

    platform/os_wrapper/ipc/source/aie_ipc.cpp.  Small data travels inside the
    message, larger data in a System V shared-memory segment whose identifier is
    put in the message.  The message object of the IPC library and the segments
    of the kernel are arguments, with their documented behaviour as laws. *)

From Stdlib Require Import ZArith Lia String.
From stdpp Require Import gmap strings list.
From S2P Require Import Prelude Protocol Encdec.

#[local] Open Scope Z_scope.

(** ** Messages ([IpcIo]) *)

Inductive io_item :=
  | I32 (z : Z) | U32 (z : Z) | I64 (z : Z) | Bool (b : bool)
  | Buf (bs : list Z) | Str (s : string) | Obj (sid : Z).

Inductive io_tag := TI32 | TU32 | TI64 | TBool | TBuf (n : Z) | TStr | TObj.

Definition tag_of (i : io_item) : io_tag :=
  match i with
  | I32 _ => TI32 | U32 _ => TU32 | I64 _ => TI64 | Bool _ => TBool
  | Buf bs => TBuf (zlen bs) | Str _ => TStr | Obj _ => TObj
  end.

(** The room an item takes: aligned to four bytes. *)
Definition item_size (i : io_item) : Z :=
  match i with
  | I32 _ | U32 _ | Bool _ => 4
  | I64 _ => 8
  | Buf bs => zlen bs + 4
  | Str s => Z.of_nat (String.length s) + 8
  | Obj _ => 24
  end.

(** [io_read] takes the next item if it has the wanted shape. *)
Class IpcIo := {
  io : Type;
  io_init : io;
  io_write : io_item -> io -> io;
  io_accepts : io_item -> io -> bool;            (** what the write functions return *)
  io_read : io_tag -> io -> option io_item * io;
  uninit_int : Z;                (** the value of an [int] never assigned *)
}.

(** A message is written and read in the same order; writes that fit succeed. *)
Class IpcIoLaws `{!IpcIo} := {
  content : io -> list io_item;
  room : io -> Z;
  io_init_content : content io_init = [];
  io_write_fits i d : item_size i <= room d ->
    io_accepts i d = true /\ content (io_write i d) = content d ++ [i] /\ room (io_write i d) = room d - item_size i;
  io_read_next i d rest t : content d = i :: rest -> tag_of i = t ->
    exists d', io_read t d = (Some i, d') /\ content d' = rest;
}.

(** ** Shared memory (<sys/shm.h>) *)

Inductive shmget_result := Got (id : Z) | EEXIST | ShmError.

Record segment := Segment { key : Z; bytes : list Z; owner : Z }.

Class Shm := {
  shm : Type;
  shmget : Z -> Z -> shm -> shmget_result * shm;     (** key, size; [IPC_CREAT | IPC_EXCL] *)
  shmat : Z -> shm -> bool;
  shmdt : Z -> shm -> bool * shm;
  shm_load : Z -> Z -> shm -> list Z;                (** [n] bytes through the mapping *)
  shm_store : Z -> list Z -> shm -> shm;
  shmctl_IPC_STAT : Z -> shm -> bool;
  shmctl_IPC_SET : Z -> Z -> shm -> bool * shm;
  shmctl_IPC_RMID : Z -> shm -> bool * shm;
}.

Class ShmLaws `{!Shm} := {
  segments : shm -> gmap Z segment;
  shmget_got k n s id s' : shmget k n s = (Got id, s') ->
    0 <= id /\ segments s !! id = None /\
    exists bs o, zlen bs = n /\ segments s' = <[id := Segment k bs o]> (segments s);
  shmget_eexist k n s s' : shmget k n s = (EEXIST, s') ->
    segments s' = segments s /\ exists id seg, segments s !! id = Some seg /\ key seg = k;
  shm_load_spec id n s seg : segments s !! id = Some seg -> zlen (bytes seg) = n -> shm_load id n s = bytes seg;
  shm_store_spec id bs s seg : segments s !! id = Some seg -> zlen (bytes seg) = zlen bs ->
    segments (shm_store id bs s) = <[id := Segment (key seg) bs (owner seg)]> (segments s);
  shmdt_segments id s : segments (shmdt id s).2 = segments s;
  shmctl_set_segments id u s seg : (shmctl_IPC_SET id u s).1 = true -> segments s !! id = Some seg ->
    segments (shmctl_IPC_SET id u s).2 = <[id := Segment (key seg) (bytes seg) u]> (segments s);
  shmctl_rmid_segments id s : (shmctl_IPC_RMID id s).1 = true ->
    segments (shmctl_IPC_RMID id s).2 = delete id (segments s);
}.

Definition IPC_MAX_TRANS_CAPACITY : Z := 200.
Definition SHM_KEY_START : Z := 200000.
Definition SHM_KEY_END : Z := 300000.
Definition MAX_SHM_DATA_SIZE : Z := 1024 * 1024.

(** The allocator has blocks for the messages of this layer. *)
Definition malloc_serves `{!Allocator} : Prop := forall t n, 0 < n <= MAX_SHM_DATA_SIZE -> malloc_ok t n = true.

Module Ipc.

Section ipc.
  Context `{!IpcIo, !Shm, !Allocator, !Securec}.

(** What the functions touch: the message, the heap, the kernel, [g_shmKey]. *)
Record t := mk { msg : io; mem : Mem.t; os : shm; g_shmKey : Z }.
#[global] Instance eta_ipc : Eta t := fun r => mk (msg r) (mem r) (os r) (g_shmKey r).

Definition write (i : io_item) : ST t unit := modify (fun s => s <| msg ::= io_write i |>).
Definition read (g : io_tag) : ST t (option io_item) := on_field msg (io_read g).

Definition WriteInt32 (z : Z) : ST t unit := write (I32 z).
Definition WriteUint32 (z : Z) : ST t unit := write (U32 z).
Definition WriteInt64 (z : Z) : ST t unit := write (I64 z).
Definition WriteBool (b : bool) : ST t unit := write (Bool b).
Definition WriteBuffer (bs : list Z) : ST t unit := write (Buf bs).
Definition WriteString (s : string) : ST t unit := write (Str s).
Definition WriteRemoteObject (sid : Z) : ST t bool :=
  ok ← gets (fun s => io_accepts (Obj sid) (msg s)); write (Obj sid) ;; mret ok.

(** A read that fails leaves the variable as it was ([old]). *)
Definition ReadInt32 (old : Z) : ST t Z := r ← read TI32; mret (match r with Some (I32 z) => z | _ => old end).
Definition ReadUint32 (old : Z) : ST t Z := r ← read TU32; mret (match r with Some (U32 z) => z | _ => old end).
Definition ReadInt64 (old : Z) : ST t Z := r ← read TI64; mret (match r with Some (I64 z) => z | _ => old end).
Definition ReadBool (old : bool) : ST t bool := r ← read TBool; mret (match r with Some (Bool b) => b | _ => old end).
Definition ReadBuffer (n : Z) : ST t (option (list Z)) :=
  r ← read (TBuf n); mret (match r with Some (Buf bs) => Some bs | _ => None end).
Definition ReadString : ST t (option string) := r ← read TStr; mret (match r with Some (Str s) => Some s | _ => None end).
Definition ReadRemoteObject : ST t (option Z) := r ← read TObj; mret (match r with Some (Obj o) => Some o | _ => None end).

Definition ReleaseShmId (shmId : Z) : ST t unit :=
  if shmId =? -1 then mret tt else
  on_field os (shmctl_IPC_RMID shmId) ;; mret tt.

Definition next_key (k : Z) : Z := if SHM_KEY_END <=? k + 1 then SHM_KEY_START else k + 1.
Definition bump_key : ST t unit := modify (fun s => s <| g_shmKey ::= next_key |>).

(** The [while] loop of [AcquireShmSegment], [attempts] keys left to try. *)
Fixpoint acquire_loop (attempts : nat) (size : Z) : ST t Z :=
  match attempts with
  | O => mret (-1)
  | S attempts' =>
      k ← gets g_shmKey;
      r ← on_field os (shmget k size);
      match r with
      | EEXIST => bump_key ;; acquire_loop attempts' size
      | ShmError => mret (-1)
      | Got shmId => bump_key ;; mret shmId
      end
  end.

Definition AcquireShmSegment (size : Z) : ST t Z := acquire_loop (Z.to_nat (SHM_KEY_END - SHM_KEY_START)) size.

Definition IpcIoPushSharedMemory (dataInfo : DataInfo.t) (receiverUid : Z) : ST t unit :=
  let length := DataInfo.length dataInfo in
  shmId ← AcquireShmSegment length;
  if shmId <? 0 then mret tt else
  s ← gets os;
  if negb (shmat shmId s) then ReleaseShmId shmId else
  if negb (memcpy_s length length =? EOK) then on_field os (shmdt shmId) ;; ReleaseShmId shmId else
  modify (fun s => s <| os ::= shm_store shmId (take (Z.to_nat length) (DataInfo.content dataInfo)) |>) ;;
  ok ← on_field os (shmdt shmId);
  if negb ok then ReleaseShmId shmId else
  s ← gets os;
  if negb (shmctl_IPC_STAT shmId s) then ReleaseShmId shmId else
  ok ← on_field os (shmctl_IPC_SET shmId receiverUid);
  if negb ok then ReleaseShmId shmId else
  WriteInt32 shmId ;; WriteInt32 length.

(** The code and the data; the pointer stays set when the guard frees its block. *)
Definition IpcIoPopSharedMemory (dataInfo : DataInfo.t) : ST t (Z * DataInfo.t) :=
  shmId ← ReadInt32 uninit_int;
  length ← ReadInt32 (DataInfo.length dataInfo);
  let dataInfo := dataInfo <| DataInfo.length := length |> in
  if shmId =? -1 then mret (RETCODE_FAILURE, dataInfo) else
  if (length <=? 0) || (MAX_SHM_DATA_SIZE <? length) then ReleaseShmId shmId ;; mret (RETCODE_FAILURE, dataInfo) else
  s ← gets os;
  if negb (shmat shmId s) then ReleaseShmId shmId ;; mret (RETCODE_FAILURE, dataInfo) else
  data ← on_field mem (malloc length (shm_load shmId length s));
  let dataInfo := dataInfo <| DataInfo.data := data |> in
  match data with
  | None => on_field os (shmdt shmId) ;; ReleaseShmId shmId ;; mret (RETCODE_OUT_OF_MEMORY, dataInfo)
  | Some _ =>
      if negb (memcpy_s length length =? EOK) then
        on_field os (shmdt shmId) ;; ReleaseShmId shmId ;; on_field mem (free data) ;;
        mret (RETCODE_MEMORY_COPY_FAILURE, dataInfo)
      else
      ok ← on_field os (shmdt shmId);
      if negb ok then ReleaseShmId shmId ;; on_field mem (free data) ;; mret (RETCODE_FAILURE, dataInfo) else
      ReleaseShmId shmId ;; mret (RETCODE_SUCCESS, dataInfo)
  end.

Definition FreeDataInfo (dataInfo : DataInfo.t) : ST t DataInfo.t :=
  match DataInfo.data dataInfo with
  | None => mret dataInfo
  | Some b => on_field mem (free (Some b)) ;; mret DataInfo.null
  end.

Definition IpcIoPopMemory (dataInfo : DataInfo.t) : ST t (Z * DataInfo.t) :=
  dataBufSize ← ReadUint32 0;
  dataBuf ← ReadBuffer dataBufSize;
  match dataBuf with
  | None => mret (RETCODE_NULL_PARAM, dataInfo)
  | Some dataBuf =>
      if negb (wrap_s 32 dataBufSize =? DataInfo.length dataInfo) then mret (RETCODE_NULL_PARAM, dataInfo) else
      data ← on_field mem (malloc dataBufSize dataBuf);
      let dataInfo := dataInfo <| DataInfo.data := data |> in
      match data with
      | None => mret (RETCODE_OUT_OF_MEMORY, dataInfo)
      | Some _ =>
          if negb (memcpy_s (DataInfo.length dataInfo) dataBufSize =? EOK) then
            dataInfo ← FreeDataInfo dataInfo; mret (RETCODE_MEMORY_COPY_FAILURE, dataInfo)
          else mret (RETCODE_SUCCESS, dataInfo)
      end
  end.

Definition ParcelDataInfo (dataInfo : DataInfo.t) (receiverUid : Z) : ST t unit :=
  let length := DataInfo.length dataInfo in
  let null := negb (bool_decide (is_Some (DataInfo.data dataInfo))) in
  if negb null && (length <=? 0) then mret tt else
  if null && negb (length =? 0) then mret tt else
  WriteInt32 length ;;
  if null && (length =? 0) then mret tt else
  if length <? IPC_MAX_TRANS_CAPACITY then
    WriteUint32 (u32 length) ;; WriteBuffer (take (Z.to_nat (u32 length)) (DataInfo.content dataInfo))
  else IpcIoPushSharedMemory dataInfo receiverUid.

Definition UnParcelDataInfo (dataInfo : DataInfo.t) : ST t (Z * DataInfo.t) :=
  length ← ReadInt32 (DataInfo.length dataInfo);
  let dataInfo := dataInfo <| DataInfo.length := length |> in
  if length <? 0 then mret (RETCODE_FAILURE, dataInfo) else
  if length =? 0 then mret (RETCODE_SUCCESS, dataInfo <| DataInfo.data := None |>) else
  if length <? IPC_MAX_TRANS_CAPACITY then IpcIoPopMemory dataInfo else IpcIoPopSharedMemory dataInfo.

End ipc.
End Ipc.

#[global] Arguments Ipc.AcquireShmSegment : simpl never.

(** ** Facts *)

Module IpcFacts.
Import Ipc.

(** The kernel has resources left and every call on an existing segment succeeds. *)
Class ShmReliable `{!Shm, !ShmLaws} := {
  shmget_free k n s : 0 < n -> (forall id seg, segments s !! id = Some seg -> key seg <> k) ->
    exists id, (shmget k n s).1 = Got id;
  shmget_used k n s id seg : segments s !! id = Some seg -> key seg = k -> (shmget k n s).1 = EEXIST;
  shmat_ok id s : is_Some (segments s !! id) -> shmat id s = true;
  shmdt_ok id s : is_Some (segments s !! id) -> (shmdt id s).1 = true;
  shm_stat_ok id s : is_Some (segments s !! id) -> shmctl_IPC_STAT id s = true;
  shm_set_ok id u s : is_Some (segments s !! id) -> (shmctl_IPC_SET id u s).1 = true;
  shm_rmid_ok id s : is_Some (segments s !! id) -> (shmctl_IPC_RMID id s).1 = true;
}.

Section facts.
  Context `{!IpcIo, !IpcIoLaws, !Shm, !ShmLaws, !ShmReliable, !Allocator, !Securec, !SecurecLaws}.
  #[local] Notation N := (SHM_KEY_END - SHM_KEY_START).

Definition key_ok (k : Z) : Prop := SHM_KEY_START <= k < SHM_KEY_END.
Definition key_free (k : Z) (s : shm) : Prop := forall id seg, segments s !! id = Some seg -> key seg <> k.

Lemma next_key_ok k : key_ok k -> key_ok (next_key k).
Proof. unfold key_ok, next_key, SHM_KEY_START, SHM_KEY_END. case_match; boolify; lia. Qed.

Lemma next_key_closer k f : key_ok k -> key_ok f -> k <> f -> (f - next_key k) mod N + 1 = (f - k) mod N.
Proof.
  unfold key_ok, next_key, SHM_KEY_START, SHM_KEY_END. intros Hk Hf Hne.
  change (300000 - 200000) with 100000.
  assert (forall x z, (z = x \/ z = x + 100000) -> 0 <= z < 100000 -> x mod 100000 = z) as E.
  { intros x z [->| ->] ?; [by apply Z.mod_small|].
    rewrite <- (Z.mod_add x 1 100000) by lia. apply Z.mod_small. lia. }
  case_match; boolify.
  - rewrite (E (f - k) (f - k + 100000)), (E (f - 200000) (f - 200000)) by lia. lia.
  - destruct (decide (k < f)).
    + rewrite (E (f - k) (f - k)), (E (f - (k + 1)) (f - (k + 1))) by lia. lia.
    + rewrite (E (f - k) (f - k + 100000)), (E (f - (k + 1)) (f - (k + 1) + 100000)) by lia. lia.
Qed.

(** What a successful acquisition leaves behind. *)
Definition acquired (size : Z) (s : t) (shmId : Z) (s' : t) : Prop :=
  0 <= shmId /\ segments (os s) !! shmId = None /\ msg s' = msg s /\ mem s' = mem s /\ key_ok (g_shmKey s') /\
  exists k bs o, zlen bs = size /\ segments (os s') = <[shmId := Segment k bs o]> (segments (os s)).

Lemma acquire_loop_spec attempts size s f :
  0 < size -> key_ok (g_shmKey s) -> key_ok f -> key_free f (os s) ->
  (f - g_shmKey s) mod N < Z.of_nat attempts ->
  wp (acquire_loop attempts size) (acquired size s) s.
Proof.
  intros Hsz. revert s. induction attempts as [|a IH]; intros s Hk Hf Hfree Hd.
  { pose proof (Z.mod_pos_bound (f - g_shmKey s) N). unfold SHM_KEY_START, SHM_KEY_END in *. lia. }
  cbn [acquire_loop]. apply wp_bind, wp_gets, wp_bind, wp_on_field. unfold wp.
  destruct (shmget (g_shmKey s) size (os s)) as [r os'] eqn:G. cbn.
  destruct r as [id| |].
  - apply shmget_got in G as (? & ? & bs & o & ? & ?). unfold bump_key, modify. cbn.
    split_and!; try done; [by apply next_key_ok|]. eauto 10.
  - apply shmget_eexist in G as (Hs & id & seg & Hid & Hkey).
    assert (g_shmKey s <> f) as Hne by (intros E; apply (Hfree id seg Hid); congruence).
    pose proof (next_key_closer _ _ Hk Hf Hne).
    change (wp (bump_key ;; acquire_loop a size) (acquired size s) (s <| os := os' |>)).
    apply wp_bind, wp_modify. eapply wp_mono; [apply IH; cbn|].
    + by apply next_key_ok.
    + done.
    + intros i sg. rewrite Hs. apply Hfree.
    + lia.
    + intros i s'. unfold acquired. cbn. rewrite Hs. naive_solver.
  - exfalso. destruct (decide (map_Exists (fun _ sg => key sg = g_shmKey s) (segments (os s)))) as [(i & sg & Hi & Hks)|Hn].
    + pose proof (shmget_used (g_shmKey s) size (os s) i sg Hi Hks) as E. by rewrite G in E.
    + destruct (shmget_free (g_shmKey s) size (os s) Hsz) as [i E]; [|by rewrite G in E].
      intros i sg Hi Hks. apply Hn. by exists i, sg.
Qed.

Lemma AcquireShmSegment_spec size s f :
  0 < size -> key_ok (g_shmKey s) -> key_ok f -> key_free f (os s) -> wp (AcquireShmSegment size) (acquired size s) s.
Proof.
  intros. unfold AcquireShmSegment. apply (acquire_loop_spec _ _ _ f); try done.
  pose proof (Z.mod_pos_bound (f - g_shmKey s) N). unfold SHM_KEY_START, SHM_KEY_END in *. lia.
Qed.

(** ** The message of a [DataInfo] *)

Definition di_ok (d : DataInfo.t) : Prop :=
  match DataInfo.data d with
  | None => DataInfo.length d = 0
  | Some b => zlen (Block.bytes b) = DataInfo.length d /\ 0 < DataInfo.length d <= MAX_SHM_DATA_SIZE
  end.

Definition shared_id (items : list io_item) : option Z :=
  match items with [I32 _; I32 id; I32 _] => Some id | _ => None end.

Definition without (items : list io_item) (m : gmap Z segment) : gmap Z segment :=
  match shared_id items with Some id => delete id m | None => m end.

(** The items that stand for [d] while the kernel holds [m]. *)
Inductive carried (m : gmap Z segment) (d : DataInfo.t) : list io_item -> Prop :=
  | carried_empty : DataInfo.length d = 0 -> DataInfo.content d = [] -> carried m d [I32 0]
  | carried_inline n bs :
      n = DataInfo.length d -> bs = DataInfo.content d -> zlen bs = n -> 0 < n < IPC_MAX_TRANS_CAPACITY ->
      carried m d [I32 n; U32 n; Buf bs]
  | carried_shared n id seg :
      n = DataInfo.length d -> bytes seg = DataInfo.content d -> zlen (bytes seg) = n ->
      IPC_MAX_TRANS_CAPACITY <= n <= MAX_SHM_DATA_SIZE -> 0 <= id -> m !! id = Some seg ->
      carried m d [I32 n; I32 id; I32 n].

Definition sent (d : DataInfo.t) (s s' : t) : Prop :=
  exists items, content (msg s') = content (msg s) ++ items /\ mem s' = mem s /\ key_ok (g_shmKey s') /\
    room (msg s) - 211 <= room (msg s') /\
    carried (segments (os s')) d items /\ segments (os s) = without items (segments (os s')) /\
    (forall id, shared_id items = Some id -> segments (os s) !! id = None).

Lemma write_spec i s :
  item_size i <= room (msg s) ->
  wp (write i) (fun _ s' => content (msg s') = content (msg s) ++ [i] /\ mem s' = mem s /\ os s' = os s /\
    g_shmKey s' = g_shmKey s /\ room (msg s') = room (msg s) - item_size i) s.
Proof. intros Hr. unfold write, wp. cbn. destruct (io_write_fits i (msg s) Hr) as (_ & ? & ?). done. Qed.

Lemma read_spec i rest g s :
  content (msg s) = i :: rest -> tag_of i = g ->
  wp (read g) (fun r s' => r = Some i /\ content (msg s') = rest /\ mem s' = mem s /\ os s' = os s /\
    g_shmKey s' = g_shmKey s) s.
Proof.
  intros Hc T. unfold read. apply wp_on_field. unfold wp. destruct (io_read_next _ _ _ _ Hc T) as (d' & E & ?).
  rewrite E. done.
Qed.

Lemma memcpy_small n : 0 < n <= MAX_SHM_DATA_SIZE -> (memcpy_s n n =? EOK) = true.
Proof. intros. apply Z.eqb_eq, memcpy_s_ok; unfold MAX_SHM_DATA_SIZE, SECUREC_MEM_MAX_LEN in *; lia. Qed.

Lemma take_all {A} (l : list A) n : zlen l = n -> take (Z.to_nat n) l = l.
Proof. unfold zlen. intros <-. rewrite Nat2Z.id. by rewrite take_ge. Qed.

Definition same_but_os (s s' : t) : Prop := msg s' = msg s /\ mem s' = mem s /\ g_shmKey s' = g_shmKey s.

Lemma shmdt_spec id s :
  is_Some (segments (os s) !! id) ->
  wp (on_field os (shmdt id)) (fun ok s' => ok = true /\ segments (os s') = segments (os s) /\ same_but_os s s') s.
Proof.
  intros Hm. apply wp_on_field. unfold wp. pose proof (shmdt_ok id (os s) Hm). pose proof (shmdt_segments id (os s)).
  by destruct (shmdt id (os s)).
Qed.

Lemma shm_set_spec id u s seg :
  segments (os s) !! id = Some seg ->
  wp (on_field os (shmctl_IPC_SET id u)) (fun ok s' => ok = true /\
    segments (os s') = <[id := Segment (key seg) (bytes seg) u]> (segments (os s)) /\ same_but_os s s') s.
Proof.
  intros Hm. apply wp_on_field. unfold wp. pose proof (shm_set_ok id u (os s) (ex_intro _ seg Hm)) as E.
  pose proof (shmctl_set_segments id u (os s) seg E Hm). by destruct (shmctl_IPC_SET id u (os s)).
Qed.

Lemma release_spec id s :
  0 <= id -> is_Some (segments (os s) !! id) ->
  wp (ReleaseShmId id) (fun _ s' => segments (os s') = delete id (segments (os s)) /\ same_but_os s s') s.
Proof.
  intros Hid Hm. unfold ReleaseShmId. rewrite (proj2 (Z.eqb_neq _ _)) by lia.
  apply wp_bind, wp_on_field. unfold wp. pose proof (shm_rmid_ok id (os s) Hm) as E.
  pose proof (shmctl_rmid_segments id (os s) E). by destruct (shmctl_IPC_RMID id (os s)).
Qed.

Lemma push_shared_spec d b uid s f :
  DataInfo.data d = Some b -> di_ok d -> IPC_MAX_TRANS_CAPACITY <= DataInfo.length d -> 8 <= room (msg s) ->
  key_ok (g_shmKey s) -> key_ok f -> key_free f (os s) ->
  wp (IpcIoPushSharedMemory d uid) (fun _ s' => exists id seg,
    content (msg s') = content (msg s) ++ [I32 id; I32 (DataInfo.length d)] /\ room (msg s') = room (msg s) - 8 /\
    mem s' = mem s /\ key_ok (g_shmKey s') /\ 0 <= id /\ segments (os s) !! id = None /\
    bytes seg = DataInfo.content d /\ segments (os s') = <[id := seg]> (segments (os s))) s.
Proof.
  intros Hb Hok Hcap Hroom Hk Hf Hfree. unfold IpcIoPushSharedMemory. unfold di_ok in Hok. rewrite Hb in Hok.
  destruct Hok as [Hlen Hmax]. unfold IPC_MAX_TRANS_CAPACITY in Hcap.
  apply wp_bind. eapply wp_mono; [apply (AcquireShmSegment_spec _ _ f); (done || lia)|].
  intros id s1 (Hid & Hnone & Hmsg & Hmem & Hk1 & k & bs & o & Hbs & Hseg).
  assert (Hm : is_Some (segments (os s1) !! id)) by (rewrite Hseg, lookup_insert_eq; eauto).
  rewrite (proj2 (Z.ltb_ge _ _)) by lia. wp_step. wp_step. rewrite shmat_ok by done. cbn [negb].
  rewrite memcpy_small by lia. cbn [negb]. wp_step. wp_step.
  set (data := take _ _). assert (data = Block.bytes b) as Hdata.
  { unfold data, DataInfo.content. rewrite Hb. cbn. by apply take_all. }
  set (s2 := s1 <| os ::= shm_store id data |>).
  assert (Hst : segments (os s2) = <[id := Segment k data o]> (segments (os s))).
  { cbn. rewrite (shm_store_spec id data (os s1) (Segment k bs o)); cbn.
    - by rewrite Hseg, insert_insert_eq.
    - by rewrite Hseg, lookup_insert_eq.
    - rewrite Hdata. lia. }
  apply wp_bind. eapply wp_mono; [apply shmdt_spec; rewrite Hst, lookup_insert_eq; eauto|].
  intros ok s3 (-> & S3 & G3 & M3 & K3). cbn [negb]. wp_step. wp_step.
  rewrite shm_stat_ok by (rewrite S3, Hst, lookup_insert_eq; eauto). cbn [negb].
  apply wp_bind. eapply wp_mono; [apply (shm_set_spec id uid s3 (Segment k data o)); by rewrite S3, Hst, lookup_insert_eq|].
  intros ok s4 (-> & S4 & G4 & M4 & K4). cbn [negb].
  rewrite S3, Hst, insert_insert_eq in S4.
  assert (Hm4 : msg s4 = msg s) by (rewrite G4, G3; done).
  apply wp_bind. eapply wp_mono; [apply write_spec; cbn; rewrite Hm4; lia|]. cbn.
  intros _ s5 (C5 & M5 & O5 & K5 & R5).
  eapply wp_mono; [apply write_spec; cbn; rewrite R5, Hm4; lia|]. cbn.
  intros _ s6 (C6 & M6 & O6 & K6 & R6).
  exists id, (Segment k data uid). rewrite C6, C5, Hm4, R6, R5, Hm4, M6, M5, M4, M3, K6, K5, K4, K3, O6, O5, <- app_assoc.
  split_and!; try done; [lia|]. cbn. rewrite Hdata. unfold DataInfo.content. by rewrite Hb.
Qed.

Lemma ParcelDataInfo_spec d uid s f :
  di_ok d -> 211 <= room (msg s) -> key_ok (g_shmKey s) -> key_ok f -> key_free f (os s) ->
  wp (ParcelDataInfo d uid) (fun _ => sent d s) s.
Proof.
  intros Hok Hroom Hk Hf Hfree. unfold ParcelDataInfo. pose proof Hok as Hok'. unfold di_ok in Hok.
  destruct (DataInfo.data d) as [b|] eqn:Hb.
  - destruct Hok as [Hlen Hmax]. cbn. rewrite (proj2 (Z.leb_gt _ _)) by lia. cbn.
    apply wp_bind. eapply wp_mono; [apply write_spec; cbn; lia|]. cbn.
    intros _ s1 (C1 & M1 & O1 & K1 & R1).
    assert (Hc : DataInfo.content d = Block.bytes b) by (unfold DataInfo.content; by rewrite Hb).
    case_match eqn:Hcap; boolify.
    + rewrite wrap_u_small by (unfold IPC_MAX_TRANS_CAPACITY in *; lia). rewrite Hc, take_all by done.
      apply wp_bind. eapply wp_mono; [apply write_spec; cbn; lia|]. cbn.
      intros _ s2 (C2 & M2 & O2 & K2 & R2).
      eapply wp_mono; [apply write_spec; cbn; unfold IPC_MAX_TRANS_CAPACITY in *; lia|]. cbn.
      intros _ s3 (C3 & M3 & O3 & K3 & R3).
      exists [I32 (DataInfo.length d); U32 (DataInfo.length d); Buf (Block.bytes b)].
      rewrite C3, C2, C1, <- !app_assoc, O3, O2, O1, M3, M2, M1, K3, K2, K1. split_and!; try done.
      * unfold IPC_MAX_TRANS_CAPACITY in *. lia.
      * constructor; done || lia.
    + eapply wp_mono; [apply (push_shared_spec d b uid s1 f); rewrite ?K1, ?O1; try done; lia|]. cbn.
      intros _ s2 (id & seg & C2 & R2 & M2 & K2 & Hid & Hn & Hbs & Hs2). rewrite O1 in Hn, Hs2.
      exists [I32 (DataInfo.length d); I32 id; I32 (DataInfo.length d)].
      rewrite C2, C1, <- app_assoc, M2, M1. split_and!; try done; [lia| | |].
      * apply (carried_shared _ _ _ _ seg); try done; [rewrite Hbs, Hc; done|lia|].
        by rewrite Hs2, lookup_insert_eq.
      * unfold without. cbn. rewrite Hs2. by rewrite delete_insert_id.
      * intros ? [= <-]. done.
  - cbn. rewrite Hok. cbn. apply wp_bind. eapply wp_mono; [apply write_spec; cbn; lia|]. cbn.
    intros _ s1 (C1 & M1 & O1 & K1 & R1). apply wp_ret. exists [I32 0]. rewrite C1, O1, M1, K1.
    split_and!; try done; [lia|]. constructor; [done|]. unfold DataInfo.content. by rewrite Hb.
Qed.

(** ** Receiving *)

Definition owned (d : DataInfo.t) : gset nat :=
  match DataInfo.data d with None => ∅ | Some b => {[Block.addr b]} end.

Definition received (d : DataInfo.t) (items rest : list io_item) (s : t) (r : Z * DataInfo.t) (s' : t) : Prop :=
  r.1 = RETCODE_SUCCESS /\ DataInfo.length r.2 = DataInfo.length d /\ DataInfo.content r.2 = DataInfo.content d /\
  content (msg s') = rest /\ segments (os s') = without items (segments (os s)) /\ g_shmKey s' = g_shmKey s /\
  mem_wf (mem s') /\ Mem.live (mem s') = owned r.2 ∪ Mem.live (mem s) /\ owned r.2 ## Mem.live (mem s) /\
  Mem.bad_frees (mem s') = Mem.bad_frees (mem s).

Context (malloc_works : malloc_serves).

Lemma malloc_succeeds n c m :
  0 < n <= MAX_SHM_DATA_SIZE -> mem_wf m -> wp (malloc n c) (fun r m' => exists b, r = Some b /\ Block.bytes b = c /\ mem_wf m' /\
    Mem.live m' = {[Block.addr b]} ∪ Mem.live m /\ (Block.addr b ∉ Mem.live m) /\ Mem.bad_frees m' = Mem.bad_frees m) m.
Proof.
  intros Hn WF. eapply wp_mono; [by apply malloc_spec|]. cbn. intros [b|] m' (? & ? & E & Hr).
  - exists b. naive_solver.
  - by rewrite malloc_works in E.
Qed.

Lemma pop_shared_spec d di0 id n seg rest s :
  content (msg s) = I32 id :: I32 n :: rest -> segments (os s) !! id = Some seg -> 0 <= id ->
  n = DataInfo.length d -> bytes seg = DataInfo.content d -> zlen (bytes seg) = n ->
  IPC_MAX_TRANS_CAPACITY <= n <= MAX_SHM_DATA_SIZE -> mem_wf (mem s) ->
  wp (IpcIoPopSharedMemory di0) (received d [I32 n; I32 id; I32 n] rest s) s.
Proof.
  intros Hc Hseg Hid Hn Hbs Hlen Hcap WF. unfold IPC_MAX_TRANS_CAPACITY in Hcap. unfold IpcIoPopSharedMemory, ReadInt32.
  apply wp_bind, wp_bind. eapply wp_mono; [apply (read_spec _ _ _ _ Hc); done|].
  intros r1 s1 (-> & C1 & M1 & O1 & K1). wp_step.
  apply wp_bind, wp_bind. eapply wp_mono; [apply (read_spec _ _ _ _ C1); done|].
  intros r2 s2 (-> & C2 & M2 & O2 & K2). wp_step.
  rewrite (proj2 (Z.eqb_neq _ _)) by lia. rewrite (proj2 (Z.leb_gt _ _)), (proj2 (Z.ltb_ge _ _)) by lia. cbn [orb].
  wp_step. wp_step. rewrite O2, O1.
  assert (Hm : is_Some (segments (os s) !! id)) by eauto.
  rewrite shmat_ok by done. cbn [negb]. rewrite (shm_load_spec id n (os s) seg) by done.
  apply wp_bind, wp_on_field. eapply wp_mono; [apply malloc_succeeds; [unfold MAX_SHM_DATA_SIZE in *; lia|by rewrite M2, M1]|].
  intros rb m' (b & -> & Hb & WF' & HL & Hni & HB). cbn.
  rewrite memcpy_small by lia. cbn [negb].
  apply wp_bind. eapply wp_mono; [apply shmdt_spec; cbn; by rewrite O2, O1|].
  intros ok s3 (-> & S3 & G3 & M3 & K3). cbn [negb]. cbn in S3, M3, G3, K3. rewrite O2, O1 in S3.
  apply wp_bind. eapply wp_mono; [apply release_spec; [done|by rewrite S3]|].
  intros _ s4 (S4 & G4 & M4 & K4). apply wp_ret. unfold received. cbn.
  rewrite S4, G4, M4, K4, S3, G3, M3, K3, K2, K1. rewrite M2, M1 in HL, HB, Hni.
  unfold owned. cbn. rewrite <- Hn. split_and!; try done; [by rewrite <- Hbs, <- Hb|clear -Hni; set_solver].
Qed.

Lemma pop_inline_spec d di0 n bs rest s :
  content (msg s) = U32 n :: Buf bs :: rest -> DataInfo.length di0 = n ->
  n = DataInfo.length d -> bs = DataInfo.content d -> zlen bs = n -> 0 < n < IPC_MAX_TRANS_CAPACITY -> mem_wf (mem s) ->
  wp (IpcIoPopMemory di0) (received d [I32 n; U32 n; Buf bs] rest s) s.
Proof.
  intros Hc Hd0 Hn Hbs Hlen Hcap WF. unfold IPC_MAX_TRANS_CAPACITY in Hcap. unfold IpcIoPopMemory, ReadUint32, ReadBuffer.
  apply wp_bind, wp_bind. eapply wp_mono; [apply (read_spec _ _ _ _ Hc); done|].
  intros r1 s1 (-> & C1 & M1 & O1 & K1). wp_step.
  apply wp_bind, wp_bind. eapply wp_mono; [apply (read_spec _ _ _ _ C1); cbn; by rewrite Hlen|].
  intros r2 s2 (-> & C2 & M2 & O2 & K2). wp_step.
  rewrite wrap_s_small by lia. rewrite Hd0, Z.eqb_refl. cbn [negb].
  apply wp_bind, wp_on_field. eapply wp_mono; [apply malloc_succeeds; [unfold MAX_SHM_DATA_SIZE in *; lia|by rewrite M2, M1]|].
  intros rb m' (b & -> & Hb & WF' & HL & Hni & HB). cbn.
  rewrite Hd0, memcpy_small by (unfold MAX_SHM_DATA_SIZE; lia). cbn [negb].
  apply wp_ret. unfold received. cbn. rewrite M2, M1 in HL, HB, Hni. rewrite K2, K1, O2, O1.
  unfold owned. cbn. rewrite Hd0. split_and!; try done; [by rewrite <- Hbs, <- Hb|clear -Hni; set_solver].
Qed.

Lemma UnParcelDataInfo_spec d di0 items rest s :
  carried (segments (os s)) d items -> content (msg s) = items ++ rest -> mem_wf (mem s) ->
  wp (UnParcelDataInfo di0) (received d items rest s) s.
Proof.
  intros Hcar Hc WF. unfold UnParcelDataInfo, ReadInt32.
  assert (exists n tl, items = I32 n :: tl) as (n0 & tl & Htl) by (inversion Hcar; eauto).
  rewrite Htl in Hc. apply wp_bind, wp_bind. eapply wp_mono; [apply (read_spec _ _ _ _ Hc); done|].
  intros r1 s1 (-> & C1 & M1 & O1 & K1). wp_step.
  inversion Hcar as [Hl Hcon|n bs Hn Hbs Hlen Hcap|n id seg Hn Hbs Hlen Hcap Hid Hseg]; simplify_list_eq.
  - apply wp_ret. unfold received, owned, without, DataInfo.content. cbn. rewrite M1, O1, K1.
    split_and!; try done; set_solver.
  - rewrite (proj2 (Z.ltb_ge _ _)), (proj2 (Z.eqb_neq _ _)), (proj2 (Z.ltb_lt _ _)) by lia.
    eapply wp_mono; [eapply (pop_inline_spec d); try done; [by rewrite M1]|].
    intros r s'. unfold received. by rewrite M1, O1, K1.
  - unfold IPC_MAX_TRANS_CAPACITY in Hcap.
    rewrite (proj2 (Z.ltb_ge _ _)), (proj2 (Z.eqb_neq _ _)) by lia.
    rewrite (proj2 (Z.ltb_ge _ IPC_MAX_TRANS_CAPACITY)) by (unfold IPC_MAX_TRANS_CAPACITY; lia).
    eapply wp_mono; [eapply (pop_shared_spec d _ id); try done; [by rewrite O1|by rewrite M1]|].
    intros r s'. unfold received. by rewrite M1, O1, K1.
Qed.

End facts.
Section detach.
  Context `{!IpcIo, !IpcIoLaws, !Shm, !Allocator, !Securec, !SecurecLaws}.

Lemma FreeDataInfo_dead b n s :
  (Block.addr b ∉ Mem.live (mem s)) ->
  Mem.bad_frees (mem (FreeDataInfo (DataInfo.mk (Some b) n) s).2) = Block.addr b :: Mem.bad_frees (mem s).
Proof.
  intros Hn. unfold FreeDataInfo, on_field, free. cbn. unfold mbind, ST_bind. rewrite decide_False by done. done.
Qed.

(** The receiver's pointer after a failed [shmdt]: set, and not to a live block. *)
Definition dangling (s : t) (r : Z * DataInfo.t) (s' : t) : Prop :=
  r.1 = RETCODE_FAILURE /\ exists b, DataInfo.data r.2 = Some b /\ (Block.addr b ∉ Mem.live (mem s')) /\
  Mem.live (mem s') = Mem.live (mem s) /\ Mem.bad_frees (mem s') = Mem.bad_frees (mem s).

Lemma pop_shared_detach_fails d0 n id rest s :
  content (msg s) = I32 id :: I32 n :: rest -> 0 < n <= MAX_SHM_DATA_SIZE -> id <> -1 ->
  shmat id (os s) = true -> (shmdt id (os s)).1 = false ->
  malloc_ok (Mem.tick (mem s)) n = true -> mem_wf (mem s) ->
  wp (IpcIoPopSharedMemory d0) (dangling s) s.
Proof.
  intros Hc Hn Hid Hat Hdt Hal WF. unfold IpcIoPopSharedMemory, ReadInt32.
  apply wp_bind, wp_bind. eapply wp_mono; [apply (read_spec _ _ _ _ Hc); done|].
  intros r2 s2 (-> & C2 & M2 & O2 & K2). wp_step.
  apply wp_bind, wp_bind. eapply wp_mono; [apply (read_spec _ _ _ _ C2); done|].
  intros r3 s3 (-> & C3 & M3 & O3 & K3). wp_step.
  rewrite (proj2 (Z.eqb_neq _ _)) by lia. rewrite (proj2 (Z.leb_gt _ _)), (proj2 (Z.ltb_ge _ _)) by lia. cbn [orb].
  wp_step. wp_step. rewrite O3, O2, Hat. cbn [negb]. apply wp_bind, wp_on_field.
  eapply wp_mono; [apply malloc_spec; by rewrite M3, M2|]. rewrite M3, M2.
  intros rb m' (WF' & HB & Hok & HL). rewrite Hal in Hok. symmetry in Hok. apply bool_decide_eq_true in Hok as [b ->].
  destruct HL as (_ & Hni & HL). cbn. rewrite memcpy_small by lia. cbn [negb].
  apply wp_bind, wp_on_field. unfold wp at 1. cbn. rewrite O3, O2.
  destruct (shmdt id (os s)) as [b1 os1]. cbn in Hdt. subst b1. cbn [negb fst snd].
  apply wp_bind. unfold ReleaseShmId. rewrite (proj2 (Z.eqb_neq _ _)) by lia.
  apply wp_bind, wp_on_field. unfold wp at 1. cbn. destruct (shmctl_IPC_RMID id os1) as [b2 os2]. cbn [fst snd].
  apply wp_ret, wp_bind, wp_on_field. cbn.
  eapply wp_mono; [apply (free_spec b m' (Mem.live (mem s))); done|]. cbn.
  intros _ m2 (WF2 & HL2 & HB2). apply wp_ret. split; [done|]. exists b. cbn.
  split_and!; [done|by rewrite HL2|done|by rewrite HB2].
Qed.

Lemma detach_failure_spec n id rest r :
  content (msg r) = I32 n :: I32 id :: I32 n :: rest ->
  IPC_MAX_TRANS_CAPACITY <= n <= MAX_SHM_DATA_SIZE -> id <> -1 ->
  shmat id (os r) = true -> (shmdt id (os r)).1 = false ->
  malloc_ok (Mem.tick (mem r)) n = true -> mem_wf (mem r) ->
  wp (UnParcelDataInfo DataInfo.null) (dangling r) r.
Proof.
  intros Hc Hn Hid Hat Hdt Hal WF. unfold IPC_MAX_TRANS_CAPACITY in Hn. unfold UnParcelDataInfo, ReadInt32.
  apply wp_bind, wp_bind. eapply wp_mono; [apply (read_spec _ _ _ _ Hc); done|].
  intros r1 s1 (-> & C1 & M1 & O1 & K1). wp_step.
  rewrite (proj2 (Z.ltb_ge n 0)), (proj2 (Z.eqb_neq n 0)) by lia.
  rewrite (proj2 (Z.ltb_ge _ IPC_MAX_TRANS_CAPACITY)) by (unfold IPC_MAX_TRANS_CAPACITY; lia).
  eapply wp_mono; [apply (pop_shared_detach_fails _ n id rest); rewrite ?M1, ?O1; try done; lia|].
  intros a s'. unfold dangling. by rewrite M1.
Qed.

End detach.
End IpcFacts.

(** ** A message and a kernel to run the model on *)

Module IpcSample.

#[export] Instance list_io : IpcIo := {|
  io := list io_item;
  io_init := [];
  io_write := fun i d => d ++ [i];
  io_accepts := fun _ _ => true;
  io_read := fun g d =>
    match d with
    | [] => (None, [])
    | i :: rest => match g, i with
                   | TI32, I32 _ | TU32, U32 _ | TI64, I64 _ | TBool, Bool _ | TStr, Str _ | TObj, Obj _ => (Some i, rest)
                   | TBuf n, Buf bs => if n =? zlen bs then (Some i, rest) else (None, d)
                   | _, _ => (None, d)
                   end
    end;
  uninit_int := 0;
|}.

#[export] Program Instance list_io_laws : IpcIoLaws := {|
  content := fun d => d;
  room := fun d => 1000000 - foldr (fun i n => item_size i + n) 0 d;
|}.
Next Obligation. done. Qed.
Next Obligation.
  intros i d _. cbn. split_and!; [done|done|]. rewrite foldr_app. cbn.
  assert (forall z, foldr (fun i n => item_size i + n) z d = foldr (fun i n => item_size i + n) 0 d + z) as E.
  { intros z. induction d as [|x d IH]; cbn; [lia|]. rewrite IH. lia. }
  rewrite E. lia.
Qed.
Next Obligation.
  intros i d rest g -> <-. exists rest. destruct i; cbn; try done. by rewrite Z.eqb_refl.
Qed.

Definition fresh_id (m : gmap Z segment) : Z := Z.of_N (fresh (set_map Z.to_N (dom m) : gset N)).

#[export] Instance map_shm : Shm := {|
  shm := gmap Z segment;
  shmget := fun k n m =>
    if decide (map_Exists (fun _ seg => key seg = k) m) then (EEXIST, m)
    else if n <? 0 then (ShmError, m)
    else (Got (fresh_id m), <[fresh_id m := Segment k (replicate (Z.to_nat n) 0) 0]> m);
  shmat := fun _ _ => true;
  shmdt := fun _ m => (true, m);
  shm_load := fun id n m => take (Z.to_nat n) (default [] (bytes <$> m !! id));
  shm_store := fun id bs m => alter (fun seg => Segment (key seg) bs (owner seg)) id m;
  shmctl_IPC_STAT := fun _ _ => true;
  shmctl_IPC_SET := fun id u m => (true, alter (fun seg => Segment (key seg) (bytes seg) u) id m);
  shmctl_IPC_RMID := fun id m => (true, delete id m);
|}.

Lemma fresh_id_fresh m : m !! fresh_id m = None.
Proof.
  apply eq_None_not_Some. intros [seg Hs]. unfold fresh_id in Hs.
  pose proof (is_fresh (set_map Z.to_N (dom m) : gset N)) as F. apply F.
  apply elem_of_map. eexists. split; [|by apply elem_of_dom_2 in Hs]. by rewrite N2Z.id.
Qed.

Lemma alter_insert (f : segment -> segment) id seg (m : gmap Z segment) :
  m !! id = Some seg -> alter f id m = <[id := f seg]> m.
Proof.
  intros Hs. apply map_eq. intros j. destruct (decide (id = j)) as [<-|].
  - by rewrite lookup_alter_eq, lookup_insert_eq, Hs.
  - by rewrite lookup_alter_ne, lookup_insert_ne.
Qed.

#[export] Program Instance map_shm_laws : ShmLaws := {| segments := fun m => m |}.
Next Obligation.
  cbn. intros k n s id s'. case_decide; [done|]. case_match; [done|]. boolify. intros [= <- <-]. split_and!.
  - unfold fresh_id. lia.
  - apply fresh_id_fresh.
  - exists (replicate (Z.to_nat n) 0), 0. split; [|done]. unfold zlen. rewrite length_replicate. lia.
Qed.
Next Obligation. cbn. intros k n s s'. case_decide as D; [|by case_match]. intros [= <-]. split; [done|]. exact D. Qed.
Next Obligation. cbn. intros id n s seg -> <-. cbn. unfold zlen. rewrite Nat2Z.id. by rewrite take_ge. Qed.
Next Obligation. cbn. intros id bs s seg E _. by rewrite (alter_insert _ _ _ _ E). Qed.
Next Obligation. done. Qed.
Next Obligation. cbn. intros id u s seg _ E. by rewrite (alter_insert _ _ _ _ E). Qed.
Next Obligation. done. Qed.

#[export] Program Instance map_shm_reliable : IpcFacts.ShmReliable.
Next Obligation.
  cbn. intros k n s Hn Hfree. rewrite decide_False; [|intros (i & seg & Hi & Hk); by apply (Hfree i seg)].
  rewrite (proj2 (Z.ltb_ge _ _)) by lia. eauto.
Qed.
Next Obligation. cbn. intros k n s id seg Hs Hk. rewrite decide_True; [done|]. by exists id, seg. Qed.
Solve Obligations with done.

#[export] Instance plain_securec : Securec := {| memcpy_s := fun d n => if d <? n then 1 else EOK; uninit := fun _ => 0 |}.
#[export] Instance plain_securec_laws : SecurecLaws.
Proof. intros d n ? ? _. cbn. by rewrite (proj2 (Z.ltb_ge _ _)) by lia. Qed.

#[export] Existing Instance always_alloc.

(** Three bytes go in the message, five hundred through shared memory while the
    first key is taken by another segment. *)
Definition small : DataInfo.t := DataInfo.mk (Some (Block.mk 7 [1; 2; 3])) 3.
Definition large : DataInfo.t := DataInfo.mk (Some (Block.mk 7 (replicate 500 9))) 500.
Definition busy : gmap Z segment := {[5 := Segment SHM_KEY_START [0] 0]}.
Definition sender : Ipc.t := Ipc.mk ([] : io) Mem.empty (busy : shm) SHM_KEY_START.
Definition receiver (s : Ipc.t) : Ipc.t := Ipc.mk (Ipc.msg s) Mem.empty (Ipc.os s) SHM_KEY_START.


(** A kernel whose [shmdt] fails. *)
Definition stuck_shm : Shm := {|
  shm := gmap Z segment; shmget := shmget; shmat := shmat; shmdt := fun _ m => (false, m); shm_load := shm_load;
  shm_store := shm_store; shmctl_IPC_STAT := shmctl_IPC_STAT; shmctl_IPC_SET := shmctl_IPC_SET;
  shmctl_IPC_RMID := shmctl_IPC_RMID;
|}.
Definition stuck_receiver : @Ipc.t list_io stuck_shm :=
  @Ipc.mk list_io stuck_shm [I32 300; I32 5; I32 300] Mem.empty {[5 := Segment SHM_KEY_START (replicate 300 1) 0]} SHM_KEY_START.

End IpcSample.

(** ** Properties *)

(** C11. What the sender parcels is what the receiver gets: from any data the
    interface allows (nothing, less than 200 bytes, up to a megabyte through
    shared memory) the receiver has a block of its own with the same bytes, the
    rest of the message is untouched and no segment is left in the kernel. *)
Theorem parcel_roundtrip `{!IpcIo, !IpcIoLaws, !Shm, !ShmLaws, !IpcFacts.ShmReliable, !Allocator, !Securec, !SecurecLaws}
    (d d0 : DataInfo.t) (uid f : Z) (s r : Ipc.t) (rest : list io_item) :
  malloc_serves ->
  IpcFacts.di_ok d -> 211 <= room (Ipc.msg s) ->
  IpcFacts.key_ok (Ipc.g_shmKey s) -> IpcFacts.key_ok f -> IpcFacts.key_free f (Ipc.os s) ->
  mem_wf (Ipc.mem r) ->
  let s' := (Ipc.ParcelDataInfo d uid s).2 in
  segments (Ipc.os r) = segments (Ipc.os s') ->
  content (Ipc.msg r) = drop (length (content (Ipc.msg s))) (content (Ipc.msg s')) ++ rest ->
  exists d' r', Ipc.UnParcelDataInfo d0 r = ((RETCODE_SUCCESS, d'), r') /\
    DataInfo.length d' = DataInfo.length d /\ DataInfo.content d' = DataInfo.content d /\
    content (Ipc.msg r') = rest /\ segments (Ipc.os r') = segments (Ipc.os s) /\
    Mem.live (Ipc.mem r') = IpcFacts.owned d' ∪ Mem.live (Ipc.mem r) /\ IpcFacts.owned d' ## Mem.live (Ipc.mem r).
Proof.
  intros HM Hd Hroom Hk Hf Hfree WF s' Hos Hmsg.
  destruct (IpcFacts.ParcelDataInfo_spec d uid s f Hd Hroom Hk Hf Hfree) as (items & C & _ & _ & _ & Hcar & Hseg & _).
  fold s' in C, Hcar, Hseg. rewrite C, drop_app_length in Hmsg. rewrite <- Hos in Hcar.
  pose proof (IpcFacts.UnParcelDataInfo_spec HM d d0 items rest r Hcar Hmsg WF) as (E & L & K & R & S & _ & _ & V & D & _).
  destruct (Ipc.UnParcelDataInfo d0 r) as [[c d'] r']. cbn in *. subst c. exists d', r'.
  split_and!; try done. by rewrite S, Hos, <- Hseg.
Qed.

(** The search for a shared-memory key covers the whole range: as long as
    one key between 200000 and 299999 is unused, wherever the counter stands,
    a new segment of the wanted size is found and the counter stays in range. *)
Theorem acquire_finds_free_key `{!IpcIo, !Shm, !ShmLaws, !IpcFacts.ShmReliable} (size f : Z) (s : Ipc.t) :
  0 < size -> SHM_KEY_START <= Ipc.g_shmKey s < SHM_KEY_END -> SHM_KEY_START <= f < SHM_KEY_END ->
  (forall id seg, segments (Ipc.os s) !! id = Some seg -> key seg <> f) ->
  exists shmId seg s', Ipc.AcquireShmSegment size s = (shmId, s') /\ 0 <= shmId /\
    segments (Ipc.os s) !! shmId = None /\ zlen (bytes seg) = size /\
    segments (Ipc.os s') = <[shmId := seg]> (segments (Ipc.os s)) /\
    SHM_KEY_START <= Ipc.g_shmKey s' < SHM_KEY_END.
Proof.
  intros Hsz Hk Hf Hfree.
  pose proof (IpcFacts.AcquireShmSegment_spec size s f Hsz Hk Hf Hfree) as (Hid & Hn & _ & _ & K & k & bs & o & Hl & Hs).
  destruct (Ipc.AcquireShmSegment size s) as [id s']. cbn in *. destruct K. exists id, (Segment k bs o), s'. by split_and!.
Qed.

(** When the detaching of the segment fails on the receiving side the block
    is freed but the caller's pointer still names it, so the release that every
    caller does on an error frees it a second time. *)
Theorem unparcel_detach_failure_frees_twice
    `{!IpcIo, !IpcIoLaws, !Shm, !Allocator, !Securec, !SecurecLaws} (n id : Z) (rest : list io_item) (r : Ipc.t) :
  content (Ipc.msg r) = I32 n :: I32 id :: I32 n :: rest ->
  IPC_MAX_TRANS_CAPACITY <= n <= MAX_SHM_DATA_SIZE -> id <> -1 ->
  shmat id (Ipc.os r) = true -> (shmdt id (Ipc.os r)).1 = false ->
  malloc_ok (Mem.tick (Ipc.mem r)) n = true -> mem_wf (Ipc.mem r) -> Mem.bad_frees (Ipc.mem r) = [] ->
  let u := Ipc.UnParcelDataInfo DataInfo.null r in
  u.1.1 = RETCODE_FAILURE /\ is_Some (DataInfo.data u.1.2) /\ Mem.live (Ipc.mem u.2) = Mem.live (Ipc.mem r) /\
  Mem.bad_frees (Ipc.mem u.2) = [] /\ Mem.bad_frees (Ipc.mem (Ipc.FreeDataInfo u.1.2 u.2).2) <> [].
Proof.
  intros Hc Hn Hid Hat Hdt Hal WF Hbad u.
  pose proof (IpcFacts.detach_failure_spec n id rest r Hc Hn Hid Hat Hdt Hal WF) as (E & b & Hb & Hni & L & B).
  fold u in E, Hb, Hni, L, B. split_and!; [done|by rewrite Hb|done|congruence|].
  destruct (u.1.2) as [db dl]. cbn in Hb. subst db. rewrite IpcFacts.FreeDataInfo_dead by done. done.
Qed.

(** ** Witnesses *)

Import IpcSample.

Lemma parcel_roundtrip_witness :
  let s' := (Ipc.ParcelDataInfo IpcSample.large 42 IpcSample.sender).2 in
  let r := IpcSample.receiver s' in
  exists d' r', Ipc.UnParcelDataInfo DataInfo.null r = ((RETCODE_SUCCESS, d'), r') /\
    DataInfo.length d' = DataInfo.length IpcSample.large /\ DataInfo.content d' = DataInfo.content IpcSample.large /\
    content (Ipc.msg r') = [] /\ segments (Ipc.os r') = segments (Ipc.os IpcSample.sender) /\
    Mem.live (Ipc.mem r') = IpcFacts.owned d' ∪ Mem.live (Ipc.mem r) /\ IpcFacts.owned d' ## Mem.live (Ipc.mem r).
Proof.
  intros s' r. apply (parcel_roundtrip IpcSample.large DataInfo.null 42 (SHM_KEY_START + 1) IpcSample.sender r []);
    [done|vm_compute; repeat split; discriminate|vm_compute; discriminate|vm_compute; split; [discriminate|done]
    |vm_compute; split; [discriminate|done]| | |done|].
  - intros i seg Hi. change (({[5 := Segment SHM_KEY_START [0] 0]} : gmap Z segment) !! i = Some seg) in Hi.
    apply lookup_singleton_Some in Hi as [_ <-]. by cbn.
  - intros a Ha. by cbn in Ha.
  - cbn -[Ipc.ParcelDataInfo]. by rewrite app_nil_r.
Defined.

Lemma acquire_finds_free_key_witness :
  exists shmId seg s', Ipc.AcquireShmSegment 300 IpcSample.sender = (shmId, s') /\ 0 <= shmId /\
    segments (Ipc.os IpcSample.sender) !! shmId = None /\ zlen (bytes seg) = 300 /\
    segments (Ipc.os s') = <[shmId := seg]> (segments (Ipc.os IpcSample.sender)) /\ SHM_KEY_START <= Ipc.g_shmKey s' < SHM_KEY_END.
Proof.
  apply (acquire_finds_free_key 300 (SHM_KEY_START + 1) IpcSample.sender); [lia|cbn; unfold SHM_KEY_START, SHM_KEY_END; lia..|].
  intros i seg Hi. change (({[5 := Segment SHM_KEY_START [0] 0]} : gmap Z segment) !! i = Some seg) in Hi.
    apply lookup_singleton_Some in Hi as [_ <-]. by cbn.
Defined.

Lemma unparcel_detach_failure_frees_twice_witness :
  let u := @Ipc.UnParcelDataInfo list_io stuck_shm always_alloc plain_securec DataInfo.null IpcSample.stuck_receiver in
  u.1.1 = RETCODE_FAILURE /\ is_Some (DataInfo.data u.1.2) /\ Mem.live (Ipc.mem u.2) = ∅ /\
  Mem.bad_frees (Ipc.mem u.2) = [] /\ Mem.bad_frees (Ipc.mem (Ipc.FreeDataInfo u.1.2 u.2).2) <> [].
Proof.
  apply (@unparcel_detach_failure_frees_twice list_io list_io_laws stuck_shm always_alloc plain_securec
    plain_securec_laws 300 5 [] IpcSample.stuck_receiver); done.
Defined.
