(* ===== verification/ClientProxy.v ===== *)
(** * ClientProxy: the client's calls of the server

    services/client/communication_adapter/source/sa_client_proxy.cpp.  Each proxy
    builds a request, invokes the server through the IPC library and reads the
    reply in a callback.  [Invoke] is the library with the server behind it: it
    yields the reply if the call came through, and may use the kernel's shared
    memory, which both processes see. *)

From Stdlib Require Import ZArith Lia String.
From stdpp Require Import gmap strings list.
From S2P Require Import Prelude Protocol Encdec Ipc.

#[local] Open Scope Z_scope.

(** [FUNC_ID] (ai_service.h) *)
Definition ID_INIT_ENGINE : Z := 0.
Definition ID_LOAD_ALGORITHM : Z := 1.
Definition ID_SYNC_EXECUTE_ALGORITHM : Z := 2.
Definition ID_ASYNC_EXECUTE_ALGORITHM : Z := 3.
Definition ID_UNLOAD_ALGORITHM : Z := 4.
Definition ID_DESTROY_ENGINE : Z := 5.
Definition ID_SET_OPTION : Z := 6.
Definition ID_GET_OPTION : Z := 7.
Definition ID_REGISTER_CALLBACK : Z := 8.
Definition ID_UNREGISTER_CALLBACK : Z := 9.
Definition ON_ASYNC_PROCESS_CODE : Z := 0.

(** The connection: what is behind it, and one call through it. *)
Class Connection `{!IpcIo, !Shm} := {
  net : Type;
  invoke : Z -> io -> shm -> net -> option io * shm * net;
}.

Module NotifyBuff.
Record t := mk { ipcRetCode : Z; retCode : Z; outLen : Z; outBuff : option Block.t }.
End NotifyBuff.

Module ClientProxy.

Section proxy.
  Context `{!IpcIo, !Shm, !Connection, !Allocator, !Securec}.

Record t := mk {
  ipc : Ipc.t;             (** heap, kernel and the message in hand *)
  remote : net;
  Invoke : bool;           (** [proxy.Invoke] is set *)
  overruns : nat;          (** writes behind the end of a caller's object *)
}.
#[global] Instance eta_proxy : Eta t := fun r => mk (ipc r) (remote r) (Invoke r) (overruns r).

Definition on_ipc {A} (m : ST Ipc.t A) : ST t A := on_field ipc m.
Definition IpcIoInit : ST t unit := modify (fun s => s <| ipc ::= fun i => i <| Ipc.msg := io_init |> |>).

(** [proxy.Invoke(&proxy, funcId, &request, &owner, callback)]: whether there is a
    reply, which is then the message in hand. *)
Definition call (funcId : Z) : ST t bool := fun s =>
  let '(reply, os', net') := invoke funcId (Ipc.msg (ipc s)) (Ipc.os (ipc s)) (remote s) in
  let i := (ipc s) <| Ipc.os := os' |> in
  match reply with
  | None => (false, s <| ipc := i |> <| remote := net' |>)
  | Some m => (true, s <| ipc := i <| Ipc.msg := m |> |> <| remote := net' |>)
  end.

(** [Callback] with an owner of eight bytes. *)
Definition Callback (clientId serverUid : Z) : ST t (Z * Z) :=
  clientId ← on_ipc (Ipc.ReadInt32 clientId);
  serverUid ← on_ipc (Ipc.ReadUint32 serverUid);
  mret (clientId, serverUid).

(** [Callback] with a [Notify], which has four bytes: the second value, if the
    reply holds one, is written behind it. *)
Definition CallbackNotify (retCode : Z) : ST t Z :=
  retCode ← on_ipc (Ipc.ReadInt32 retCode);
  u ← on_ipc (Ipc.read TU32);
  match u with
  | Some (U32 _) => modify (fun s => s <| overruns ::= S |>) ;; mret retCode
  | _ => mret retCode
  end.

Definition CallbackBuff (n : NotifyBuff.t) : ST t NotifyBuff.t :=
  retCode ← on_ipc (Ipc.ReadInt32 (NotifyBuff.retCode n));
  r ← on_ipc (Ipc.UnParcelDataInfo DataInfo.null);
  let '(ipcRetCode, dataInfo) := r in
  if ipcRetCode =? RETCODE_SUCCESS
  then mret (NotifyBuff.mk ipcRetCode retCode (DataInfo.length dataInfo) (DataInfo.data dataInfo))
  else mret (NotifyBuff.mk ipcRetCode retCode 0 None).

Definition ParcelClientInfo (c : ClientInfo.t) : ST Ipc.t unit :=
  Ipc.WriteInt64 (ClientInfo.clientVersion c) ;;
  Ipc.WriteInt32 (ClientInfo.clientId c) ;;
  Ipc.WriteInt32 (ClientInfo.sessionId c) ;;
  Ipc.WriteUint32 (ClientInfo.serverUid c) ;;
  Ipc.WriteUint32 (ClientInfo.clientUid c) ;;
  Ipc.ParcelDataInfo (DataInfo.mk (ClientInfo.extendMsg c) (ClientInfo.extendLen c)) (ClientInfo.serverUid c).

Definition ParcelAlgorithmInfo (a : AlgorithmInfo.t) (serverUid : Z) : ST Ipc.t unit :=
  Ipc.WriteInt64 (AlgorithmInfo.clientVersion a) ;;
  Ipc.WriteBool (AlgorithmInfo.isAsync a) ;;
  Ipc.WriteInt32 (AlgorithmInfo.algorithmType a) ;;
  Ipc.WriteInt64 (AlgorithmInfo.algorithmVersion a) ;;
  Ipc.WriteBool (AlgorithmInfo.isCloud a) ;;
  Ipc.WriteInt32 (AlgorithmInfo.operateId a) ;;
  Ipc.WriteInt32 (AlgorithmInfo.requestId a) ;;
  Ipc.ParcelDataInfo (DataInfo.mk (AlgorithmInfo.extendMsg a) (AlgorithmInfo.extendLen a)) serverUid.

(** The three parts of most requests. *)
Definition ParcelRequest (c : ClientInfo.t) (a : AlgorithmInfo.t) (inputInfo : DataInfo.t) : ST Ipc.t unit :=
  ParcelClientInfo c ;;
  ParcelAlgorithmInfo a (ClientInfo.serverUid c) ;;
  Ipc.ParcelDataInfo inputInfo (ClientInfo.serverUid c).

(** The end of the proxies that expect a code. *)
Definition invoke_notify (funcId : Z) : ST t Z :=
  ok ← gets Invoke;
  if negb ok then mret RETCODE_NULL_PARAM else
  answered ← call funcId;
  if (answered : bool) then CallbackNotify RETCODE_FAILURE else mret RETCODE_FAILURE.

(** The end of the proxies that expect a code and data; the output is only
    assigned when the reply was read well. *)
Definition invoke_buff (funcId : Z) (outputInfo : DataInfo.t) : ST t (Z * DataInfo.t) :=
  ok ← gets Invoke;
  if negb ok then mret (RETCODE_NULL_PARAM, outputInfo) else
  answered ← call funcId;
  let owner := NotifyBuff.mk RETCODE_SUCCESS RETCODE_FAILURE 0 None in
  owner ← (if (answered : bool) then CallbackBuff owner else mret owner);
  if negb (NotifyBuff.ipcRetCode owner =? RETCODE_SUCCESS) then mret (NotifyBuff.ipcRetCode owner, outputInfo) else
  mret (NotifyBuff.retCode owner, DataInfo.mk (NotifyBuff.outBuff owner) (NotifyBuff.outLen owner)).

Definition InitSaEngine (configInfo : ConfigInfo.t) (clientInfo : ClientInfo.t) : ST t (Z * ClientInfo.t) :=
  IpcIoInit ;;
  on_ipc (Ipc.WriteString (ConfigInfo.description configInfo)) ;;
  ok ← gets Invoke;
  if negb ok then mret (RETCODE_NULL_PARAM, clientInfo) else
  answered ← call ID_INIT_ENGINE;
  owner ← (if (answered : bool) then Callback INVALID_CLIENT_ID 0 else mret (INVALID_CLIENT_ID, 0));
  mret (RETCODE_SUCCESS, clientInfo <| ClientInfo.clientId := owner.1 |> <| ClientInfo.serverUid := owner.2 |>).

Definition DestroyEngineProxy (clientInfo : ClientInfo.t) : ST t Z :=
  IpcIoInit ;; on_ipc (ParcelClientInfo clientInfo) ;; invoke_notify ID_DESTROY_ENGINE.

Definition SyncExecAlgorithmProxy (c : ClientInfo.t) (a : AlgorithmInfo.t) (inputInfo outputInfo : DataInfo.t) :
    ST t (Z * DataInfo.t) :=
  IpcIoInit ;; on_ipc (ParcelRequest c a inputInfo) ;; invoke_buff ID_SYNC_EXECUTE_ALGORITHM outputInfo.

Definition AsyncExecuteAlgorithmProxy (c : ClientInfo.t) (a : AlgorithmInfo.t) (inputInfo : DataInfo.t) : ST t Z :=
  IpcIoInit ;; on_ipc (ParcelRequest c a inputInfo) ;; invoke_notify ID_ASYNC_EXECUTE_ALGORITHM.

Definition LoadAlgorithmProxy (c : ClientInfo.t) (a : AlgorithmInfo.t) (inputInfo outputInfo : DataInfo.t) :
    ST t (Z * DataInfo.t) :=
  IpcIoInit ;; on_ipc (ParcelRequest c a inputInfo) ;; invoke_buff ID_LOAD_ALGORITHM outputInfo.

Definition UnloadAlgorithmProxy (c : ClientInfo.t) (a : AlgorithmInfo.t) (inputInfo : DataInfo.t) : ST t Z :=
  IpcIoInit ;; on_ipc (ParcelRequest c a inputInfo) ;; invoke_notify ID_UNLOAD_ALGORITHM.

Definition SetOptionProxy (c : ClientInfo.t) (optionType : Z) (inputInfo : DataInfo.t) : ST t Z :=
  IpcIoInit ;;
  on_ipc (ParcelClientInfo c ;; Ipc.WriteInt32 optionType ;; Ipc.ParcelDataInfo inputInfo (ClientInfo.serverUid c)) ;;
  invoke_notify ID_SET_OPTION.

Definition GetOptionProxy (c : ClientInfo.t) (optionType : Z) (inputInfo outputInfo : DataInfo.t) :
    ST t (Z * DataInfo.t) :=
  IpcIoInit ;;
  on_ipc (ParcelClientInfo c ;; Ipc.WriteInt32 optionType ;; Ipc.ParcelDataInfo inputInfo (ClientInfo.serverUid c)) ;;
  invoke_buff ID_GET_OPTION outputInfo.

(** [sid] names the callback object of the client. *)
Definition RegisterCallbackProxy (c : ClientInfo.t) (sid : Z) : ST t Z :=
  IpcIoInit ;;
  writeRemote ← on_ipc (Ipc.WriteRemoteObject sid);
  if negb writeRemote then mret RETCODE_FAILURE else
  on_ipc (ParcelClientInfo c) ;; invoke_notify ID_REGISTER_CALLBACK.

Definition UnregisterCallbackProxy (c : ClientInfo.t) : ST t Z :=
  IpcIoInit ;; on_ipc (ParcelClientInfo c) ;; invoke_notify ID_UNREGISTER_CALLBACK.

End proxy.
End ClientProxy.
