(* ===== verification/ServerAdapter.v ===== *)
(** * ServerAdapter: clients and sessions on the server

    services/server/communication_adapter without the message parsing of
    sa_server.c: the adapters of the clients, their transactions, the listener
    that carries asynchronous results back, and the wrappers the server calls.
    The state of the asynchronous side is what the future factory's listeners
    work on; everything else lives next to the executor's world.  The first call
    that needs the executor or the asynchronous handler creates it, and returns
    the error of the code when it cannot. *)

From Stdlib Require Import ZArith Lia String.
From stdpp Require Import gmap strings list.
From S2P Require Import Prelude Protocol Encdec Sync Queue Thread Pools PluginManager FutureFactory Executor Ipc ClientProxy.

#[local] Open Scope Z_scope.

(** Sending a message to a client's callback object ([SendRequest] of the IPC
    library): the code, given the identity, the function and the message. *)
Class Outgoing `{!IpcIo} := { send_request : Z -> Z -> io -> Z }.
Definition ERR_NONE : Z := 0.

Definition EVENT_WAIT_TIME_MS : Z := 1000.

(** ** [ClientListenerHandler]: the answers waiting for one client *)

Module ClientListenerHandler.

Record t := mk {
  responses_ : list Response.t;
  event_ : Event.t;
  asyncProcessThread_ : option nat;
  asyncProcessWorker_ : option Z;        (** the [AsyncProcessWorker], by its client *)
}.
#[global] Instance eta_handler : Eta t := fun r =>
  mk (responses_ r) (event_ r) (asyncProcessThread_ r) (asyncProcessWorker_ r).

Definition ctor : t := mk [] Event.ctor None None.

Definition AddCallbackRecord (response : Response.t) : ST t unit :=
  empty ← gets (fun h => bool_decide (responses_ h = []));
  modify (fun h => h <| responses_ ::= fun l => l ++ [response] |>) ;;
  if negb empty then mret tt else on_field event_ Event.Signal ;; mret tt.

(** The critical section both halves of [FetchCallbackRecord] share. *)
Definition pop_front : ST t (option Response.t) :=
  l ← gets responses_;
  match l with
  | [] => mret None
  | response :: rest =>
      modify (fun h => h <| responses_ := rest |>) ;;
      (if bool_decide (rest = []) then on_field event_ Event.Reset ;; mret tt else mret tt) ;;
      mret (Some response)
  end.

(** [FetchCallbackRecord] up to the wait, and after a wait that ended; other
    threads may add records in between. *)
Definition Fetch_first : ST t (option Response.t) := pop_front.
Definition Fetch_second (expired : bool) : ST t (option (option Response.t)) := fun h =>
  match Event.Wait EVENT_WAIT_TIME_MS expired (event_ h) with
  | None => (None, h)
  | Some false => (Some None, h)
  | Some true => let '(r, h') := pop_front h in (Some r, h')
  end.

(** [~ClientListenerHandler()] *)
Definition dtor (h : t) : ST Mem.t unit := for_each (fun r => Response.Destroy (Some r)) (responses_ h).

End ClientListenerHandler.

(** ** [SaAsyncHandler] and [FutureListener] *)

Module SaAsyncHandler.

Record t := mk {
  clients_ : gmap Z ClientListenerHandler.t;
  transactions_ : gset Z;
  listeners : gmap nat Z;               (** the live [FutureListener]s with their client *)
  next_listener : nat;
  lost : list Response.t;               (** answers nobody owns any more *)
  instance_ : bool;                     (** [SaAsyncHandler::instance_] is set *)
}.
#[global] Instance eta_async : Eta t := fun r =>
  mk (clients_ r) (transactions_ r) (listeners r) (next_listener r) (lost r) (instance_ r).

Definition ctor : t := mk ∅ ∅ ∅ 0 [] false.

Definition FindClientListenerHandler (clientId : Z) (s : t) : option ClientListenerHandler.t := clients_ s !! clientId.

Definition on_client (clientId : Z) (m : ST ClientListenerHandler.t unit) : ST t unit :=
  modify (fun s => s <| clients_ ::= alter (fun h => (m h).2) clientId |>).

Definition IsExistTransaction (transactionId : Z) (s : t) : bool := bool_decide (transactionId ∈ transactions_ s).
Definition SaveTransaction (transactionId : Z) : ST t unit :=
  modify (fun s => s <| transactions_ ::= union {[transactionId]} |>).
Definition RemoveTransaction (transactionId : Z) : ST t unit :=
  modify (fun s => s <| transactions_ := transactions_ s ∖ {[transactionId]} |>).

Definition AddClientListenerHandler (clientId : Z) (new_ok : bool) : ST t unit :=
  if new_ok then modify (fun s => s <| clients_ ::= <[clientId := ClientListenerHandler.ctor]> |>) else mret tt.

(** The caller has given the answer away: without a client nobody has it. *)
Definition PushAsyncResponse (clientId : Z) (response : Response.t) : ST t unit :=
  h ← gets (FindClientListenerHandler clientId);
  match h with
  | None => modify (fun s => s <| lost ::= cons response |>)
  | Some _ => on_client clientId (ClientListenerHandler.AddCallbackRecord response)
  end.

(** [FutureListener::OnReply] *)
Definition OnReply (listener : nat) (future : Future.t) : ST t unit :=
  c ← gets (fun s => listeners s !! listener);
  match c with
  | None => mret tt
  | Some clientId =>
      match Future.GetResponse 0 false future with
      | Some (Some response, _) => PushAsyncResponse clientId response
      | _ => mret tt
      end
  end.

End SaAsyncHandler.

(** ** [SaServerAdapter] *)

Module SaServerAdapter.

Record t := mk { adapterId_ : Z; refCount_ : Z; svcIdentity_ : option Z; transactionIds_ : gset Z }.
#[global] Instance eta_adapter : Eta t := fun r => mk (adapterId_ r) (refCount_ r) (svcIdentity_ r) (transactionIds_ r).

Definition ctor (adapterId : Z) : t := mk adapterId 0 None ∅.

Definition TRANS_ID_MASK : Z := 0xFFFFFFFF.
Definition ADAPT_ID_BIT : Z := 32.

Definition GetSessionId (transactionId : Z) : Z := s32 (Z.land (u64 transactionId) TRANS_ID_MASK).
Definition GetTransactionId (a : t) (sessionId : Z) : Z :=
  s64 (s64 (u64 (Z.shiftl (u64 (adapterId_ a)) ADAPT_ID_BIT)) + sessionId).

Definition IncRef (a : t) : t := a <| refCount_ ::= fun n => s32 (n + 1) |>.
Definition DecRef (a : t) : t := a <| refCount_ ::= fun n => s32 (n - 1) |>.
Definition SaveEngineListener (sid : Z) (a : t) : t := a <| svcIdentity_ := Some sid |>.
Definition ClearEngineListener (a : t) : t := a <| svcIdentity_ := None |>.
Definition SaveTransaction (transactionId : Z) (a : t) : t := a <| transactionIds_ ::= union {[transactionId]} |>.
Definition RemoveTransaction (transactionId : Z) (a : t) : t :=
  a <| transactionIds_ := transactionIds_ a ∖ {[transactionId]} |>.

End SaServerAdapter.

(** ** The wrappers (adapter_wrapper.cpp) *)

Module Adapters.
Import SaServerAdapter.

Definition STARTING_CLIENT_ID : Z := 1.
Definition MAX_NUM_CLIENTS : Z := 1024.

Section adapters.
  Context `{!Allocator, !DynLib, !Pthread, !Algorithm}.

#[local] Abbreviation world := (@Executor.world SaAsyncHandler.t).
#[local] Abbreviation on_reply := SaAsyncHandler.OnReply.

Record t := mk {
  exec : world;
  g_saServerAdapters : gmap Z SaServerAdapter.t;
  g_clientIdAtomic : Z;
  executor : bool;                      (** [ServerExecutor::instance_] is set, with its engine manager *)
}.
#[global] Instance eta_adapters : Eta t := fun r => mk (exec r) (g_saServerAdapters r) (g_clientIdAtomic r) (executor r).

Definition on_exec {A} (m : ST world A) : ST t A := on_field exec m.
Definition on_mem {A} (m : ST Mem.t A) : ST t A := on_exec (Executor.on_mem m).
Definition on_async {A} (m : ST SaAsyncHandler.t A) : ST t A :=
  on_exec (on_field Executor.futures (on_field FutureFactory.ext m)).
Definition async (s : t) : SaAsyncHandler.t := FutureFactory.ext (Executor.futures (exec s)).

(** [SaAsyncHandler::GetInstance()]: whether there is a handler. *)
Definition GetSaAsyncHandler : ST t bool :=
  i ← gets (fun s => SaAsyncHandler.instance_ (async s));
  if (i : bool) then mret true else
  ok ← on_mem AIE_NEW;
  if (ok : bool) then on_async (modify (fun s => s <| SaAsyncHandler.instance_ := true |>)) ;; mret true else mret false.

(** [ServerExecutor::GetInstance()], behind [GetEngineManager], [GetSyncTaskManager]
    and [GetAsyncTaskManager]: whether there is an executor.  One without memory
    for its engine manager is deleted, and takes the future factory with it. *)
Definition GetServerExecutor : ST t bool :=
  i ← gets executor;
  if (i : bool) then mret true else
  ok ← on_mem AIE_NEW;
  if negb ok then mret false else
  ok ← on_mem AIE_NEW;
  if negb ok then on_exec (on_field Executor.futures FutureFactory.ReleaseInstance) ;; mret false else
  modify (fun s => s <| executor := true |>) ;; mret true.

(** A call of the executor, or [none] if there is none. *)
Definition with_executor {A} (none : A) (m : ST t A) : ST t A :=
  ok ← GetServerExecutor; if negb ok then mret none else m.

Definition FindAdapter (clientId : Z) : ST t (option SaServerAdapter.t) :=
  gets (fun s => g_saServerAdapters s !! clientId).
Definition on_adapter (clientId : Z) (f : SaServerAdapter.t -> SaServerAdapter.t) : ST t unit :=
  modify (fun s => s <| g_saServerAdapters ::= alter f clientId |>).

(** [AdapterWrapper]: the count is raised while the call runs. *)
Definition guarded {A} (clientId : Z) (m : ST t A) : ST t A :=
  on_adapter clientId IncRef ;; a ← m; on_adapter clientId DecRef ;; mret a.

(** The search gets as much fuel as there are clients, plus one. *)
Definition FindValidClientId : ST t Z := fun s =>
  if MAX_NUM_CLIENTS <? Z.of_nat (size (g_saServerAdapters s)) then (INVALID_CLIENT_ID, s) else
  match bump_while 32 STARTING_CLIENT_ID (fun id => bool_decide (is_Some (g_saServerAdapters s !! id)))
          (S (size (g_saServerAdapters s))) (g_clientIdAtomic s) with
  | Some id => (id, s <| g_clientIdAtomic := id |>)
  | None => (INVALID_CLIENT_ID, s)
  end.

Definition AllocateClientAdapter : ST t Z :=
  id ← gets g_clientIdAtomic;
  ok ← on_mem AIE_NEW;
  if negb ok then mret INVALID_CLIENT_ID else
  modify (fun s => s <| g_saServerAdapters ::= <[id := SaServerAdapter.ctor id]> |>) ;; mret id.

Definition GenerateClient : ST t Z :=
  id ← FindValidClientId;
  if id =? INVALID_CLIENT_ID then mret INVALID_CLIENT_ID else AllocateClientAdapter.

Definition ConvertToRequest (a : SaServerAdapter.t) (c : ClientInfo.t) (algo : AlgorithmInfo.t) (inputInfo : DataInfo.t) :
    ST t (option Request.t) :=
  request ← on_mem Request.Create;
  mret (r ← request;
        Some (Request.SetClientUid (ClientInfo.clientUid c)
             (Request.SetMsg inputInfo
             (Request.SetAlgoPluginType (AlgorithmInfo.algorithmType algo)
             (Request.SetTransactionId (GetTransactionId a (ClientInfo.sessionId c))
             (Request.SetOperationId (AlgorithmInfo.operateId algo)
             (Request.SetRequestId (AlgorithmInfo.requestId algo) r))))))).

(** [SaServerAdapter::AsyncExecute]: the request is destroyed unless accepted. *)
Definition AsyncExecute (now : Z) (a : SaServerAdapter.t) (c : ClientInfo.t) (algo : AlgorithmInfo.t) (inputInfo : DataInfo.t) : ST t Z :=
  request ← ConvertToRequest a c algo inputInfo;
  ret ← with_executor RETCODE_OUT_OF_MEMORY (on_exec (Executor.ServerAsyncExecute now request));
  if negb (ret =? RETCODE_SUCCESS) then on_mem (Request.Destroy request) ;; mret ret else mret RETCODE_SUCCESS.

(** [SaServerAdapter::SyncExecute]; [None] while the call is waiting. *)
Definition SyncExecute (fuel : nat) (a : SaServerAdapter.t) (c : ClientInfo.t) (algo : AlgorithmInfo.t) (inputInfo : DataInfo.t) :
    ST t (option (Z * DataInfo.t)) :=
  request ← ConvertToRequest a c algo inputInfo;
  match request with
  | None => mret (Some (RETCODE_OUT_OF_MEMORY, DataInfo.null))
  | Some _ =>
      r ← with_executor (Some (RETCODE_OUT_OF_MEMORY, None)) (on_exec (Executor.ServerSyncExecute on_reply fuel request));
      match r with
      | None => mret None
      | Some (retCode, response) =>
          result ← (if negb (retCode =? RETCODE_SUCCESS) then
                      on_mem (Response.Destroy response) ;; mret (retCode, DataInfo.null)
                    else match response with
                         | None => mret (retCode, DataInfo.null)
                         | Some r => on_mem (Response.Destroy (Some (Response.Detach r))) ;;
                                     mret (RETCODE_SUCCESS, Response.result r)
                         end);
          on_mem (Request.Destroy request) ;; mret (Some result)
      end
  end.

Definition LoadAlgorithm (clientId transactionId : Z) (algo : AlgorithmInfo.t) (inputInfo : DataInfo.t) : ST t (Z * DataInfo.t) :=
  r ← with_executor (RETCODE_OUT_OF_MEMORY, DataInfo.null) (on_exec (Executor.StartEngine transactionId algo inputInfo));
  if negb (r.1 =? RETCODE_SUCCESS) then mret r else
  on_adapter clientId (SaveTransaction transactionId) ;; mret (RETCODE_SUCCESS, r.2).

Definition UnloadAlgorithm (clientId transactionId : Z) (inputInfo : DataInfo.t) : ST t Z :=
  r ← with_executor RETCODE_OUT_OF_MEMORY (on_exec (Executor.StopEngine transactionId inputInfo));
  if negb (r =? RETCODE_SUCCESS) then mret r else
  on_adapter clientId (RemoveTransaction transactionId) ;; mret RETCODE_SUCCESS.

(** [~SaServerAdapter()] *)
Definition Uninitialize (a : SaServerAdapter.t) : ST t unit :=
  with_executor tt (for_each (fun tid => on_exec (Executor.StopEngine tid DataInfo.null) ;; mret tt) (elements (transactionIds_ a))).

(** [SaServerAdapter::SetOption] and [GetOption] *)
Definition SetOption (transactionId optionType : Z) (dataInfo : DataInfo.t) : ST t Z :=
  with_executor RETCODE_OUT_OF_MEMORY (on_exec (Executor.SetOption transactionId optionType dataInfo)).
Definition GetOption (transactionId optionType : Z) (dataInfo : DataInfo.t) : ST t (Z * DataInfo.t) :=
  with_executor (RETCODE_OUT_OF_MEMORY, DataInfo.null) (on_exec (Executor.GetOption transactionId optionType dataInfo)).

(** [SaAsyncHandler::StartAsyncTransaction] and [StopAsyncTransaction]; the listener
    exists from the allocation on, and is deleted when there is no executor. *)
Definition StartAsyncTransaction (transactionId clientId : Z) : ST t Z :=
  known ← gets (fun s => SaAsyncHandler.IsExistTransaction transactionId (async s));
  if (known : bool) then mret RETCODE_SUCCESS else
  ok ← on_mem AIE_NEW;
  if negb ok then mret RETCODE_OUT_OF_MEMORY else
  with_executor RETCODE_OUT_OF_MEMORY (
  l ← gets (fun s => SaAsyncHandler.next_listener (async s));
  on_async (modify (fun s => s <| SaAsyncHandler.next_listener ::= S |>
                               <| SaAsyncHandler.listeners ::= <[l := clientId]> |>)) ;;
  on_exec (Executor.RegisterListener l transactionId) ;;
  on_async (SaAsyncHandler.SaveTransaction transactionId) ;; mret RETCODE_SUCCESS).

Definition StopAsyncTransaction (transactionId : Z) : ST t unit :=
  known ← gets (fun s => SaAsyncHandler.IsExistTransaction transactionId (async s));
  if negb known then mret tt else
  with_executor tt
    (on_exec (Executor.UnRegisterListener transactionId) ;; on_async (SaAsyncHandler.RemoveTransaction transactionId)).

(** [ClientListenerHandler::StartAsyncProcessThread] *)
Definition StartAsyncProcessThread (clientId : Z) (h : ClientListenerHandler.t) : ST t Z :=
  ok ← on_exec Executor.GetThreadPool;
  if negb ok then mret RETCODE_OUT_OF_MEMORY else
  if bool_decide (is_Some (ClientListenerHandler.asyncProcessThread_ h)) then mret RETCODE_ASYNC_CB_STARTED else
  if bool_decide (is_Some (ClientListenerHandler.asyncProcessWorker_ h)) then mret RETCODE_ASYNC_CB_STARTED else
  t_ok ← on_mem AIE_NEW;
  thread ← on_exec (Executor.on_thread_pool None (ThreadPool.Pop t_ok));
  match thread with
  | None => mret RETCODE_OUT_OF_MEMORY
  | Some tid =>
      let push : ST t unit := on_exec (Executor.on_thread_pool tt (ThreadPool.Push false tid)) in
      ok ← on_mem AIE_NEW;
      if negb ok then push ;; mret RETCODE_OUT_OF_MEMORY else
      started ← on_exec (Executor.StartThread tid (Z.to_nat clientId));
      if negb started then push ;; mret RETCODE_START_THREAD_FAILED else
      on_async (SaAsyncHandler.on_client clientId
        (modify (fun h => h <| ClientListenerHandler.asyncProcessThread_ := Some tid |>
                            <| ClientListenerHandler.asyncProcessWorker_ := Some clientId |>))) ;;
      mret RETCODE_SUCCESS
  end.

(** [ClientListenerHandler::StopAsyncProcessThread] *)
Definition StopAsyncProcessThread (clientId : Z) (h : ClientListenerHandler.t) : ST t unit :=
  ok ← (match ClientListenerHandler.asyncProcessThread_ h with
        | None => mret true
        | Some tid =>
            on_exec (Executor.on_thread_pool tt
              (modify (fun p => p <| ThreadPool.store ::= alter (ThreadPool.StopThread false) tid |>))) ;;
            ok ← on_exec Executor.GetThreadPool;
            if negb ok then mret false else
            on_exec (Executor.on_thread_pool tt (ThreadPool.Push false tid)) ;;
            on_async (SaAsyncHandler.on_client clientId
              (modify (fun h => h <| ClientListenerHandler.asyncProcessThread_ := None |>))) ;;
            mret true
        end);
  if negb ok then mret tt else
  on_async (SaAsyncHandler.on_client clientId
    (modify (fun h => h <| ClientListenerHandler.asyncProcessWorker_ := None |>))).

Definition RegisterAsyncHandler (clientId : Z) : ST t Z :=
  h ← gets (fun s => SaAsyncHandler.FindClientListenerHandler clientId (async s));
  match h with
  | Some _ => mret RETCODE_SUCCESS
  | None => ok ← on_mem AIE_NEW; on_async (SaAsyncHandler.AddClientListenerHandler clientId ok) ;; mret RETCODE_SUCCESS
  end.

Definition StartAsyncProcess (clientId : Z) : ST t Z :=
  h ← gets (fun s => SaAsyncHandler.FindClientListenerHandler clientId (async s));
  match h with
  | None => mret RETCODE_SA_ASYNC_HANDLER_NOT_FOUND
  | Some h => StartAsyncProcessThread clientId h
  end.

Definition StopClientListenerHandler (clientId : Z) : ST t unit :=
  h ← gets (fun s => SaAsyncHandler.FindClientListenerHandler clientId (async s));
  match h with
  | None => mret tt
  | Some h => StopAsyncProcessThread clientId h
  end.

(** The handler goes with the answers that are left. *)
Definition RemoveClientListenerHandler (clientId : Z) : ST t unit :=
  h ← gets (fun s => SaAsyncHandler.FindClientListenerHandler clientId (async s));
  match h with
  | None => mret tt
  | Some h =>
      on_mem (ClientListenerHandler.dtor h) ;;
      on_async (modify (fun s => s <| SaAsyncHandler.clients_ ::= delete clientId |>))
  end.

Definition StopAsyncProcess (clientId : Z) : ST t unit :=
  StopClientListenerHandler clientId ;; RemoveClientListenerHandler clientId.

(** [~SaAsyncHandler()]: deletes the handlers that are left, without stopping
    their threads. *)
Definition SaAsyncHandler_dtor : ST t unit :=
  hs ← gets (fun s => SaAsyncHandler.clients_ (async s));
  for_each (fun h => on_mem (ClientListenerHandler.dtor h.2)) (map_to_list hs) ;;
  on_async (modify (fun s => s <| SaAsyncHandler.clients_ := ∅ |>)).

(** The wrappers proper; a null pointer is [None]. *)
Definition SyncExecAlgoWrapper (fuel : nat) (c : option ClientInfo.t) (algo : option AlgorithmInfo.t) (inputInfo : DataInfo.t) :
    ST t (option (Z * DataInfo.t)) :=
  match c, algo with
  | Some c, Some algo =>
      if AlgorithmInfo.isAsync algo then mret (Some (RETCODE_WRONG_INFER_MODE, DataInfo.null)) else
      adapter ← FindAdapter (ClientInfo.clientId c);
      match adapter with
      | None => mret (Some (RETCODE_NO_CLIENT_FOUND, DataInfo.null))
      | Some a => guarded (ClientInfo.clientId c) (SyncExecute fuel a c algo inputInfo)
      end
  | _, _ => mret (Some (RETCODE_NULL_PARAM, DataInfo.null))
  end.

Definition AsyncExecAlgoWrapper (now : Z) (c : option ClientInfo.t) (algo : option AlgorithmInfo.t) (inputInfo : DataInfo.t) : ST t Z :=
  match c, algo with
  | Some c, Some algo =>
      if negb (AlgorithmInfo.isAsync algo) then mret RETCODE_WRONG_INFER_MODE else
      adapter ← FindAdapter (ClientInfo.clientId c);
      match adapter with
      | None => mret RETCODE_NO_CLIENT_FOUND
      | Some a => guarded (ClientInfo.clientId c) (AsyncExecute now a c algo inputInfo)
      end
  | _, _ => mret RETCODE_NULL_PARAM
  end.

Definition LoadAlgoWrapper (c : option ClientInfo.t) (algo : option AlgorithmInfo.t) (inputInfo : DataInfo.t) : ST t (Z * DataInfo.t) :=
  match c, algo with
  | Some c, Some algo =>
      let clientId := ClientInfo.clientId c in
      adapter ← FindAdapter clientId;
      match adapter with
      | None => mret (RETCODE_NO_CLIENT_FOUND, DataInfo.null)
      | Some a =>
          guarded clientId (
            let transactionId := GetTransactionId a (ClientInfo.sessionId c) in
            r ← LoadAlgorithm clientId transactionId algo inputInfo;
            if negb (r.1 =? RETCODE_SUCCESS) then mret r else
            if AlgorithmInfo.isAsync algo
            then ok ← GetSaAsyncHandler;
                 if negb ok then mret (RETCODE_NULL_PARAM, r.2) else
                 retCode ← StartAsyncTransaction transactionId clientId; mret (retCode, r.2)
            else mret r)
      end
  | _, _ => mret (RETCODE_NULL_PARAM, DataInfo.null)
  end.

Definition UnloadAlgoWrapper (c : ClientInfo.t) (algo : option AlgorithmInfo.t) (inputInfo : DataInfo.t) : ST t Z :=
  let clientId := ClientInfo.clientId c in
  adapter ← FindAdapter clientId;
  match adapter with
  | None => mret RETCODE_NO_CLIENT_FOUND
  | Some a =>
      guarded clientId (
        let transactionId := GetTransactionId a (ClientInfo.sessionId c) in
        match algo with
        | None => mret RETCODE_NULL_PARAM
        | Some algo =>
            (if AlgorithmInfo.isAsync algo
             then ok ← GetSaAsyncHandler; if (ok : bool) then StopAsyncTransaction transactionId else mret tt
             else mret tt) ;;
            UnloadAlgorithm clientId transactionId inputInfo
        end)
  end.

Definition RemoveAdapterWrapper (c : ClientInfo.t) : ST t Z :=
  adapter ← FindAdapter (ClientInfo.clientId c);
  match adapter with
  | None => mret RETCODE_FAILURE
  | Some a =>
      Uninitialize a ;;
      modify (fun s => s <| g_saServerAdapters ::= delete (ClientInfo.clientId c) |>) ;; mret RETCODE_SUCCESS
  end.

Definition SetOptionWrapper (c : ClientInfo.t) (optionType : Z) (inputInfo : DataInfo.t) : ST t Z :=
  adapter ← FindAdapter (ClientInfo.clientId c);
  match adapter with
  | None => mret RETCODE_NO_CLIENT_FOUND
  | Some a => guarded (ClientInfo.clientId c)
      (SetOption (GetTransactionId a (ClientInfo.sessionId c)) optionType inputInfo)
  end.

Definition GetOptionWrapper (c : option ClientInfo.t) (optionType : Z) (inputInfo : DataInfo.t) : ST t (Z * DataInfo.t) :=
  match c with
  | None => mret (RETCODE_NULL_PARAM, DataInfo.null)
  | Some c =>
      adapter ← FindAdapter (ClientInfo.clientId c);
      match adapter with
      | None => mret (RETCODE_NO_CLIENT_FOUND, DataInfo.null)
      | Some a => guarded (ClientInfo.clientId c)
          (GetOption (GetTransactionId a (ClientInfo.sessionId c)) optionType inputInfo)
      end
  end.

Definition RegisterCallbackWrapper (c : ClientInfo.t) (sid : Z) : ST t Z :=
  let clientId := ClientInfo.clientId c in
  adapter ← FindAdapter clientId;
  match adapter with
  | None => mret RETCODE_NO_CLIENT_FOUND
  | Some _ => guarded clientId (
      on_adapter clientId (SaveEngineListener sid) ;;
      ok ← GetSaAsyncHandler;
      if negb ok then mret RETCODE_NULL_PARAM else
      retCode ← RegisterAsyncHandler clientId;
      if negb (retCode =? RETCODE_SUCCESS) then mret retCode else StartAsyncProcess clientId)
  end.

Definition UnregisterCallbackWrapper (c : ClientInfo.t) : ST t Z :=
  let clientId := ClientInfo.clientId c in
  adapter ← FindAdapter clientId;
  match adapter with
  | None => mret RETCODE_NO_CLIENT_FOUND
  | Some _ => guarded clientId (
      ok ← GetSaAsyncHandler;
      if negb ok then mret RETCODE_NULL_PARAM else
      StopAsyncProcess clientId ;; on_adapter clientId ClearEngineListener ;; mret RETCODE_SUCCESS)
  end.

End adapters.
End Adapters.
