(* ===== verification/SaServer.v ===== *)
(** * SaServer: from messages to the adapters

    services/server/communication_adapter/source/sa_server.c: taking requests
    apart, calling the wrapper behind each entry of [AiInterface], writing the
    reply and freeing what the request brought; and the worker that sends
    asynchronous results to a client (client_listener_handler.cpp). *)

From Stdlib Require Import ZArith Lia String.
From stdpp Require Import gmap strings list.
From S2P Require Import Prelude Protocol Encdec Sync Queue Thread Pools PluginManager FutureFactory Executor Ipc ClientProxy ServerAdapter.

#[local] Open Scope Z_scope.

Module SaServer.

Section server.
  Context `{!Allocator, !DynLib, !Pthread, !Algorithm, !IpcIo, !Shm, !Securec, !Outgoing}.
  Context (getuid : Z).

Record t := mk {
  adapters : Adapters.t;
  os : shm;
  g_shmKey : Z;
  req : io;
  reply : io;
}.
#[global] Instance eta_server : Eta t := fun r => mk (adapters r) (os r) (g_shmKey r) (req r) (reply r).

Definition mem (s : t) : Mem.t := Executor.mem (Adapters.exec (adapters s)).
Definition set_mem (m : Mem.t) (s : t) : t :=
  s <| adapters ::= fun a => (Adapters.on_mem (fun _ => (tt, m)) a).2 |>.

(** Run an operation of the IPC layer on the request or on the reply. *)
Definition on_req {A} (m : ST Ipc.t A) : ST t A := fun s =>
  let '(a, i) := m (Ipc.mk (req s) (mem s) (os s) (g_shmKey s)) in
  (a, set_mem (Ipc.mem i) (s <| req := Ipc.msg i |> <| os := Ipc.os i |> <| g_shmKey := Ipc.g_shmKey i |>)).
Definition on_reply {A} (m : ST Ipc.t A) : ST t A := fun s =>
  let '(a, i) := m (Ipc.mk (reply s) (mem s) (os s) (g_shmKey s)) in
  (a, set_mem (Ipc.mem i) (s <| reply := Ipc.msg i |> <| os := Ipc.os i |> <| g_shmKey := Ipc.g_shmKey i |>)).
Definition on_adapters {A} (m : ST Adapters.t A) : ST t A := on_field adapters m.
Definition on_mem {A} (m : ST Mem.t A) : ST t A := on_adapters (Adapters.on_mem m).

(** ** Taking requests apart *)

Definition UnParcelClientInfo (c : ClientInfo.t) : ST Ipc.t (Z * ClientInfo.t) :=
  clientVersion ← Ipc.ReadInt64 (ClientInfo.clientVersion c);
  clientId ← Ipc.ReadInt32 (ClientInfo.clientId c);
  sessionId ← Ipc.ReadInt32 (ClientInfo.sessionId c);
  serverUid ← Ipc.ReadUint32 (ClientInfo.serverUid c);
  clientUid ← Ipc.ReadUint32 (ClientInfo.clientUid c);
  r ← Ipc.UnParcelDataInfo DataInfo.null;
  let '(retCode, dataInfo) := r in
  let '(len, msg) := if retCode =? RETCODE_SUCCESS then (DataInfo.length dataInfo, DataInfo.data dataInfo) else (0, None) in
  mret (retCode, ClientInfo.mk clientVersion clientId sessionId serverUid clientUid len msg).

Definition UnParcelAlgorithmInfo (a : AlgorithmInfo.t) : ST Ipc.t (Z * AlgorithmInfo.t) :=
  clientVersion ← Ipc.ReadInt64 (AlgorithmInfo.clientVersion a);
  isAsync ← Ipc.ReadBool (AlgorithmInfo.isAsync a);
  algorithmType ← Ipc.ReadInt32 (AlgorithmInfo.algorithmType a);
  algorithmVersion ← Ipc.ReadInt64 (AlgorithmInfo.algorithmVersion a);
  isCloud ← Ipc.ReadBool (AlgorithmInfo.isCloud a);
  operateId ← Ipc.ReadInt32 (AlgorithmInfo.operateId a);
  requestId ← Ipc.ReadInt32 (AlgorithmInfo.requestId a);
  r ← Ipc.UnParcelDataInfo DataInfo.null;
  let '(retCode, dataInfo) := r in
  let '(len, msg) := if retCode =? RETCODE_SUCCESS then (DataInfo.length dataInfo, DataInfo.data dataInfo) else (0, None) in
  mret (retCode, AlgorithmInfo.mk clientVersion isAsync algorithmType algorithmVersion isCloud operateId requestId len msg).

Definition FreeClientInfo (c : ClientInfo.t) : ST Mem.t unit := free (ClientInfo.extendMsg c).
Definition FreeAlgorithmInfo (a : AlgorithmInfo.t) : ST Mem.t unit := free (AlgorithmInfo.extendMsg a).
Definition FreeDataInfo (d : DataInfo.t) : ST Mem.t unit := free (DataInfo.data d).

Definition on_ipc_mem {A} (m : ST Mem.t A) : ST Ipc.t A := on_field Ipc.mem m.

Definition UnParcelInfo : ST Ipc.t (Z * ClientInfo.t * AlgorithmInfo.t * DataInfo.t) :=
  r ← UnParcelClientInfo ClientInfo.zero;
  let '(retCode, c) := r in
  if negb (retCode =? RETCODE_SUCCESS) then mret (retCode, c, AlgorithmInfo.zero, DataInfo.null) else
  r ← UnParcelAlgorithmInfo AlgorithmInfo.zero;
  let '(retCode, a) := r in
  if negb (retCode =? RETCODE_SUCCESS) then on_ipc_mem (FreeClientInfo c) ;; mret (retCode, c, a, DataInfo.null) else
  r ← Ipc.UnParcelDataInfo DataInfo.null;
  let '(retCode, d) := r in
  (if negb (retCode =? RETCODE_SUCCESS)
   then on_ipc_mem (FreeClientInfo c) ;; on_ipc_mem (FreeAlgorithmInfo a) else mret tt) ;;
  mret (retCode, c, a, d).

(** ** The entries *)

Definition InitEngine : ST t Z :=
  clientId ← on_adapters Adapters.GenerateClient;
  mret (if clientId <=? 0 then INVALID_CLIENT_ID else clientId).

Definition InvokeInitSaEngine : ST t Z :=
  on_req Ipc.ReadString ;;
  clientId ← InitEngine;
  on_reply (Ipc.WriteInt32 clientId) ;; on_reply (Ipc.WriteUint32 getuid) ;; mret clientId.

Definition InvokeLoadAlgorithm : ST t Z :=
  r ← on_req UnParcelInfo;
  let '(retCode, c, a, inputInfo) := r in
  if negb (retCode =? RETCODE_SUCCESS) then mret retCode else
  r ← on_adapters (Adapters.LoadAlgoWrapper (Some c) (Some a) inputInfo);
  let '(retCode, outputInfo) := r in
  on_reply (Ipc.WriteInt32 retCode) ;;
  on_reply (Ipc.ParcelDataInfo outputInfo (ClientInfo.clientUid c)) ;;
  on_mem (FreeDataInfo outputInfo) ;; on_mem (FreeClientInfo c) ;; on_mem (FreeAlgorithmInfo a) ;;
  on_mem (FreeDataInfo inputInfo) ;; mret retCode.

(** [None] while the engine has not answered.  The input belongs to the request
    the adapter makes. *)
Definition InvokeSyncExecute (fuel : nat) : ST t (option Z) :=
  r ← on_req UnParcelInfo;
  let '(retCode, c, a, inputInfo) := r in
  if negb (retCode =? RETCODE_SUCCESS) then mret (Some retCode) else
  r ← on_adapters (Adapters.SyncExecAlgoWrapper fuel (Some c) (Some a) inputInfo);
  match r with
  | None => mret None
  | Some (retCode, outputInfo) =>
      on_reply (Ipc.WriteInt32 retCode) ;;
      on_reply (Ipc.ParcelDataInfo outputInfo (ClientInfo.clientUid c)) ;;
      on_mem (FreeDataInfo outputInfo) ;; on_mem (FreeClientInfo c) ;; on_mem (FreeAlgorithmInfo a) ;;
      mret (Some retCode)
  end.

Definition InvokeAsyncExecute (now : Z) : ST t Z :=
  r ← on_req UnParcelInfo;
  let '(retCode, c, a, inputInfo) := r in
  if negb (retCode =? RETCODE_SUCCESS) then mret retCode else
  retCode ← on_adapters (Adapters.AsyncExecAlgoWrapper now (Some c) (Some a) inputInfo);
  on_mem (FreeClientInfo c) ;; on_mem (FreeAlgorithmInfo a) ;;
  on_reply (Ipc.WriteInt32 retCode) ;; mret retCode.

Definition InvokeDestroyEngine : ST t Z :=
  r ← on_req (UnParcelClientInfo ClientInfo.zero);
  let '(retCode, c) := r in
  if negb (retCode =? RETCODE_SUCCESS) then mret retCode else
  retCode ← on_adapters (Adapters.RemoveAdapterWrapper c);
  on_mem (FreeClientInfo c) ;; on_reply (Ipc.WriteInt32 retCode) ;; mret retCode.

Definition InvokeSetOption : ST t Z :=
  r ← on_req (UnParcelClientInfo ClientInfo.zero);
  let '(retCode, c) := r in
  if negb (retCode =? RETCODE_SUCCESS) then mret retCode else
  optionType ← on_req (Ipc.ReadInt32 uninit_int);
  r ← on_req (Ipc.UnParcelDataInfo DataInfo.null);
  let '(retCode, inputInfo) := r in
  if negb (retCode =? RETCODE_SUCCESS) then on_mem (FreeClientInfo c) ;; on_mem (FreeDataInfo inputInfo) ;; mret retCode else
  retCode ← on_adapters (Adapters.SetOptionWrapper c optionType inputInfo);
  on_mem (FreeClientInfo c) ;; on_mem (FreeDataInfo inputInfo) ;;
  on_reply (Ipc.WriteInt32 retCode) ;; mret retCode.

Definition InvokeGetOption : ST t Z :=
  r ← on_req (UnParcelClientInfo ClientInfo.zero);
  let '(retCode, c) := r in
  if negb (retCode =? RETCODE_SUCCESS) then mret retCode else
  optionType ← on_req (Ipc.ReadInt32 uninit_int);
  r ← on_req (Ipc.UnParcelDataInfo DataInfo.null);
  let '(retCode, inputInfo) := r in
  if negb (retCode =? RETCODE_SUCCESS) then on_mem (FreeClientInfo c) ;; on_mem (FreeDataInfo inputInfo) ;; mret retCode else
  r ← on_adapters (Adapters.GetOptionWrapper (Some c) optionType inputInfo);
  let '(retCode, outputInfo) := r in
  on_reply (Ipc.WriteInt32 retCode) ;;
  on_reply (Ipc.ParcelDataInfo outputInfo (ClientInfo.clientUid c)) ;;
  on_mem (FreeDataInfo outputInfo) ;; on_mem (FreeClientInfo c) ;; on_mem (FreeDataInfo inputInfo) ;; mret retCode.

Definition InvokeRegisterCallback : ST t Z :=
  sid ← on_req Ipc.ReadRemoteObject;
  match sid with
  | None => mret RETCODE_NULL_PARAM
  | Some sid =>
      r ← on_req (UnParcelClientInfo ClientInfo.zero);
      let '(retCode, c) := r in
      if negb (retCode =? RETCODE_SUCCESS) then mret retCode else
      retCode ← on_adapters (Adapters.RegisterCallbackWrapper c sid);
      on_mem (FreeClientInfo c) ;; on_reply (Ipc.WriteInt32 retCode) ;; mret retCode
  end.

Definition InvokeUnregisterCallback : ST t Z :=
  r ← on_req (UnParcelClientInfo ClientInfo.zero);
  let '(retCode, c) := r in
  if negb (retCode =? RETCODE_SUCCESS) then mret retCode else
  retCode ← on_adapters (Adapters.UnregisterCallbackWrapper c);
  on_mem (FreeClientInfo c) ;; on_reply (Ipc.WriteInt32 retCode) ;; mret retCode.

Definition InvokeUnloadAlgorithm : ST t Z :=
  r ← on_req UnParcelInfo;
  let '(retCode, c, a, inputInfo) := r in
  if negb (retCode =? RETCODE_SUCCESS) then mret retCode else
  retCode ← on_adapters (Adapters.UnloadAlgoWrapper c (Some a) inputInfo);
  on_mem (FreeClientInfo c) ;; on_mem (FreeAlgorithmInfo a) ;; on_mem (FreeDataInfo inputInfo) ;;
  on_reply (Ipc.WriteInt32 retCode) ;; mret retCode.

(** [Invoke]: false while a synchronous call has not been answered. *)
Definition Invoke (fuel : nat) (now funcId : Z) : ST t bool :=
  if funcId =? ID_INIT_ENGINE then InvokeInitSaEngine ;; mret true else
  if funcId =? ID_LOAD_ALGORITHM then InvokeLoadAlgorithm ;; mret true else
  if funcId =? ID_SYNC_EXECUTE_ALGORITHM then r ← InvokeSyncExecute fuel; mret (bool_decide (is_Some r)) else
  if funcId =? ID_DESTROY_ENGINE then InvokeDestroyEngine ;; mret true else
  if funcId =? ID_SET_OPTION then InvokeSetOption ;; mret true else
  if funcId =? ID_GET_OPTION then InvokeGetOption ;; mret true else
  if funcId =? ID_REGISTER_CALLBACK then InvokeRegisterCallback ;; mret true else
  if funcId =? ID_UNREGISTER_CALLBACK then InvokeUnregisterCallback ;; mret true else
  if funcId =? ID_ASYNC_EXECUTE_ALGORITHM then InvokeAsyncExecute now ;; mret true else
  if funcId =? ID_UNLOAD_ALGORITHM then InvokeUnloadAlgorithm ;; mret true else
  mret true.

(** ** [AsyncProcessWorker]: one result to the client *)

Definition IpcIoResponse (r : Response.t) : ST Ipc.t unit :=
  modify (fun i => i <| Ipc.msg := io_init |>) ;;
  Ipc.WriteInt32 (Response.retCode r) ;;
  Ipc.WriteInt32 (Response.requestId r) ;;
  Ipc.WriteInt32 (SaServerAdapter.GetSessionId (Response.transactionId r)) ;;
  Ipc.ParcelDataInfo (Response.result r) (Response.clientUid r).

(** After a record was fetched; false ends the thread. *)
Definition OneAction_send (a : SaServerAdapter.t) (response : option Response.t) : ST t bool :=
  match response with
  | None => mret true
  | Some r =>
      on_reply (IpcIoResponse r) ;;
      io ← gets reply;
      let retCode := send_request (default 0 (SaServerAdapter.svcIdentity_ a)) ON_ASYNC_PROCESS_CODE io in
      on_mem (Response.Destroy (Some r)) ;;
      mret (retCode =? ERR_NONE)
  end.

End server.
End SaServer.
