(* ===== verification/Samgr.v ===== *)
(** * Samgr: registering the service and finding it

    The parts of sa_server.c and sa_client_proxy.cpp that talk to the service
    manager: the server registers its service and the interface [Invoke] belongs
    to, a client asks for the interface by the name of the service.  The service
    manager is the platform's; it is the parameter [ServiceManager].  An
    interface is known by its address. *)

From Stdlib Require Import ZArith Lia String.
From stdpp Require Import base strings.
From S2P Require Import Prelude Protocol.

#[local] Open Scope Z_scope.

Definition AI_SERVICE : string := "ai_service".
Definition STACK_SIZE : Z := 0x800.
Definition QUEUE_SIZE : Z := 20.

Class ServiceManager := {
  samgr : Type;
  identity : Type;                       (** what the manager calls [Identity] *)
  LEVEL_HIGH : Z; PRI_NORMAL : Z; SINGLE_TASK : Z; CLIENT_PROXY_VER : Z;
  RegisterService : nat -> ST samgr unit;
  RegisterDefaultFeatureApi : string -> nat -> ST samgr unit;
  GetDefaultFeatureApi : string -> ST samgr (option nat);
  QueryInterface : nat -> Z -> ST samgr (option nat);    (** the pointer it hands out *)
  has_Release : nat -> bool;             (** [proxy.Release] is set *)
  Release : nat -> ST samgr unit;
}.

Module TaskConfig.
Record t := mk { level : Z; priority : Z; stackSize : Z; queueSize : Z; taskFlags : Z }.
End TaskConfig.

(** ** [AiEngineService] *)

Module AiEngineService.

Section service.
  Context `{!ServiceManager}.

(** The service object, with the address of its interface. *)
Record t := mk { service_identity : option identity; address : nat; iUnknown : nat }.
#[global] Instance eta_service : Eta t := fun r => mk (service_identity r) (address r) (iUnknown r).

Definition GetName (service : option t) : string := AI_SERVICE.

(** [Initialize(service, identity)]: the result and the service afterwards. *)
Definition Initialize (service : option t) (i : identity) : bool * option t :=
  match service with
  | None => (false, None)
  | Some s => (true, Some (s <| service_identity := Some i |>))
  end.

Definition MessageHandle (service : option t) : bool := true.

Definition GetTaskConfig (service : option t) : TaskConfig.t :=
  TaskConfig.mk LEVEL_HIGH PRI_NORMAL STACK_SIZE QUEUE_SIZE SINGLE_TASK.

Definition Init (g_aiEngine : t) : ST samgr unit :=
  RegisterService (address g_aiEngine) ;;
  RegisterDefaultFeatureApi AI_SERVICE (iUnknown g_aiEngine).

End service.
End AiEngineService.

(** ** The client's side *)

Section client.
  Context `{!ServiceManager}.

Definition GetRemoteIUnknown : ST samgr (option nat) :=
  iUnknown ← GetDefaultFeatureApi AI_SERVICE;
  match iUnknown with
  | None => mret None
  | Some u => QueryInterface u CLIENT_PROXY_VER
  end.

Definition ReleaseIUnknown (proxy : nat) : ST samgr unit :=
  if negb (has_Release proxy) then mret tt else Release proxy.

End client.

(** The documented contract of the manager: an interface registered under a name
    is found under it as long as nobody registers another one. *)
Class ServiceManagerLaws `{ServiceManager} (found : string -> samgr -> option nat) := {
  get_found n s : GetDefaultFeatureApi n s = (found n s, s);
  register_found n u s : found n (RegisterDefaultFeatureApi n u s).2 = Some u;
  service_found n a s : found n (RegisterService a s).2 = found n s;
  query_found n u s : found n s = Some u -> exists p s', QueryInterface u CLIENT_PROXY_VER s = (Some p, s') /\ found n s' = Some u;
}.

(** Once the server is up, every client finds an interface, however often it
    asks. *)
Theorem service_is_found `{ServiceManagerLaws} (g : AiEngineService.t) (s : samgr) (n : nat) :
  exists p, (GetRemoteIUnknown (Nat.iter n (fun s => (GetRemoteIUnknown s).2) (AiEngineService.Init g s).2)).1 = Some p.
Proof.
  set (s1 := (AiEngineService.Init g s).2).
  assert (found AI_SERVICE s1 = Some (AiEngineService.iUnknown g)) as E1.
  { unfold s1, AiEngineService.Init, mbind, ST_bind. destruct (RegisterService _ s). apply register_found. }
  assert (forall s2, found AI_SERVICE s2 = Some (AiEngineService.iUnknown g) ->
    exists p, (GetRemoteIUnknown s2).1 = Some p /\ found AI_SERVICE (GetRemoteIUnknown s2).2 = Some (AiEngineService.iUnknown g)) as HG.
  { intros s2 E2. unfold GetRemoteIUnknown, mbind, ST_bind. rewrite get_found, E2.
    destruct (query_found AI_SERVICE _ s2 E2) as (p & s3 & -> & E3). by exists p. }
  enough (found AI_SERVICE (Nat.iter n (fun s => (GetRemoteIUnknown s).2) s1) = Some (AiEngineService.iUnknown g)) as E
    by (destruct (HG _ E) as (p & ? & _); by exists p).
  induction n as [|n IH]; [done|]. by destruct (HG _ IH) as (p & _ & ?).
Qed.
