(* ===== verification/Client.v ===== *)
(** * Client: sessions, connection and callbacks of a client process

    services/client/client_executor and services/client/communication_adapter:
    [ClientFactory] with its sessions, [SaClientAdapter] with the thread that
    connects to the server, [SaClient] and the two handlers of asynchronous
    results.  A [ClientInfo &] that an operation changes is returned; the
    connection thread has a copy of the [ClientInfo] of the first session. *)

From Stdlib Require Import ZArith Lia String.
From stdpp Require Import gmap strings list.
From S2P Require Import Prelude Protocol Encdec Thread Pools Ipc ClientProxy.

#[local] Open Scope Z_scope.

(** What the service manager and the scheduler decide: whether the [n]-th request
    for the server's proxy is granted and its [Invoke] is set, the result of
    [AddDeathRecipient], how many actions the connection thread performs before
    the [i]-th check of [WaitConnection]. *)
Class Environment := {
  remote_unknown : nat -> option bool;
  add_death_recipient : Z;
  actions_before_check : nat -> nat;
  getuid : Z;
  callback_sid : Z;
}.

Definition AIE_SESSION_ID_BEGIN : Z := 0.
Definition MAXIMUM_NUMBER_OF_SESSION : Z := 100.
Definition CHECK_CONNECTION_TIMES : nat := 100.

Module Client.

Section client.
  Context `{!IpcIo, !Shm, !Connection, !Allocator, !Securec, !Pthread, !Environment}.

Record result := Result { r_cb : nat; r_data : list Z; r_code : Z; r_requestId : Z }.

Record t := mk {
  px : ClientProxy.t;
  (** ClientFactory *)
  clientId_ : Z;
  serverUid_ : Z;
  sessionId_ : Z;
  sessionInfos_ : gmap Z Z;
  (** SaClientAdapter *)
  connectMgrThread_ : option nat;
  connectMgrWorker_ : option (ConfigInfo.t * ClientInfo.t);   (** the members of [ConnectMgrWorker] *)
  threadPool : option ThreadPool.t;
  pthreads : nat;
  (** SaClient *)
  sa_client : bool;                        (** the singleton exists *)
  proxy_ : bool;
  proxies : nat;                           (** requests for a proxy so far *)
  ResultCb_ : bool;
  deathCb_ : bool;
  (** SaAsyncHandler *)
  sa_async : bool;
  mapCbMsg_ : gmap Z nat;
  deadCbs_ : gmap Z nat;
  (** what the application's callbacks were told *)
  results : list result;
  deaths : list nat;
}.
#[global] Instance eta_client : Eta t := fun r =>
  mk (px r) (clientId_ r) (serverUid_ r) (sessionId_ r) (sessionInfos_ r) (connectMgrThread_ r)
    (connectMgrWorker_ r) (threadPool r) (pthreads r) (sa_client r) (proxy_ r) (proxies r) (ResultCb_ r) (deathCb_ r)
    (sa_async r) (mapCbMsg_ r) (deadCbs_ r) (results r) (deaths r).

(** [ClientFactory()] in a fresh process *)
Definition ctor (p : ClientProxy.t) : t :=
  mk p INVALID_CLIENT_ID INVALID_UID AIE_SESSION_ID_BEGIN ∅ None None None 0 false false 0 false false false ∅ ∅ [] [].

Definition on_px {A} (m : ST ClientProxy.t A) : ST t A := on_field px m.
Definition on_mem {A} (m : ST Mem.t A) : ST t A := on_px (on_field ClientProxy.ipc (on_field Ipc.mem m)).

Definition GetSaClient : ST t bool :=
  e ← gets sa_client;
  if (e : bool) then mret true else ok ← on_mem AIE_NEW; modify (fun s => s <| sa_client := ok |>) ;; mret ok.
Definition GetSaAsync : ST t bool :=
  e ← gets sa_async;
  if (e : bool) then mret true else ok ← on_mem AIE_NEW; modify (fun s => s <| sa_async := ok |>) ;; mret ok.
Definition GetThreadPool : ST t bool :=
  p ← gets threadPool;
  match p with
  | Some _ => mret true
  | None => ok ← on_mem AIE_NEW;
            if (ok : bool) then modify (fun s => s <| threadPool := Some ThreadPool.ctor |>) ;; mret true else mret false
  end.
Definition on_thread_pool {A} (none : A) (m : ST ThreadPool.t A) : ST t A := fun s =>
  match threadPool s with
  | None => (none, s)
  | Some p => let '(a, p') := m p in (a, s <| threadPool := Some p' |>)
  end.

(** ** [AsyncHandler] *)

(** [map::insert] leaves an existing entry alone. *)
Definition RegisterCbMsg (sessionId : Z) (cb : option nat) : ST t Z :=
  match cb with
  | Some cb => modify (fun s => s <| mapCbMsg_ ::= fun m => match m !! sessionId with Some _ => m | None => <[sessionId := cb]> m end |>)
  | None => mret tt
  end ;; mret RETCODE_SUCCESS.
Definition UnRegisterCbMsg (sessionId : Z) : ST t Z :=
  old ← gets (fun s => mapCbMsg_ s !! sessionId);
  modify (fun s => s <| mapCbMsg_ ::= delete sessionId |>) ;;
  mret (match old with None => RETCODE_FAILURE | Some _ => RETCODE_SUCCESS end).
Definition RegisterDeadCbMsg (sessionId : Z) (cb : option nat) : ST t Z :=
  match cb with
  | Some cb => modify (fun s => s <| deadCbs_ ::= fun m => match m !! sessionId with Some _ => m | None => <[sessionId := cb]> m end |>)
  | None => mret tt
  end ;; mret RETCODE_SUCCESS.
Definition UnRegisterDeadCbMsg (sessionId : Z) : ST t Z :=
  modify (fun s => s <| deadCbs_ ::= delete sessionId |>) ;; mret RETCODE_SUCCESS.
Definition FindCb (sessionId : Z) : ST t (option nat) := gets (fun s => mapCbMsg_ s !! sessionId).

Definition OnResult (sessionId : Z) (r : DataInfo.t) (resultCode requestId : Z) : ST t unit :=
  cb ← FindCb sessionId;
  match cb with
  | None => mret tt
  | Some cb => modify (fun s => s <| results ::= fun l => l ++ [Result cb (DataInfo.content r) resultCode requestId] |>)
  end.

Definition OnDead : ST t unit :=
  modify (fun s => s <| deaths ::= fun l => l ++ (map_to_list (deadCbs_ s)).*2 |>).

Definition IsCallbackEmpty (s : t) : bool := bool_decide (mapCbMsg_ s = ∅).
Definition GetAsyncCbSize (s : t) : Z := Z.of_nat (size (mapCbMsg_ s)).

(** ** [SaAsyncHandler]: the callbacks of the whole process *)

Definition RegisterAsyncClientCb : ST t Z :=
  ok ← GetSaClient;
  if negb ok then mret RETCODE_NULL_PARAM else modify (fun s => s <| ResultCb_ := true |>) ;; mret RETCODE_SUCCESS.
Definition UnRegisterAsyncClientCb : ST t Z :=
  ok ← GetSaClient;
  if negb ok then mret RETCODE_NULL_PARAM else modify (fun s => s <| ResultCb_ := false |>) ;; mret RETCODE_SUCCESS.
Definition RegisterServiceDeathCb : ST t Z :=
  ok ← GetSaClient;
  if negb ok then mret RETCODE_NULL_PARAM else modify (fun s => s <| deathCb_ := true |>) ;; mret RETCODE_SUCCESS.
Definition UnRegisterServiceDeathCb : ST t Z :=
  ok ← GetSaClient;
  if negb ok then mret RETCODE_NULL_PARAM else modify (fun s => s <| deathCb_ := false |>) ;; mret RETCODE_SUCCESS.

Definition SaClientCallback (sessionId : Z) (r : DataInfo.t) (resultCode requestId : Z) : ST t unit :=
  ok ← GetSaAsync; if negb ok then mret tt else OnResult sessionId r resultCode requestId.

(** ** [ClientFactory]: connection state *)

Definition SetClientId (c : Z) : ST t unit := modify (fun s => s <| clientId_ := c |>).
Definition SetServerUid (u : Z) : ST t unit := modify (fun s => s <| serverUid_ := u |>).

Definition ResetClient : ST t unit :=
  modify (fun s => s <| clientId_ := INVALID_CLIENT_ID |>) ;;
  modify (fun s => s <| sessionId_ := INVALID_SESSION_ID |>) ;;
  modify (fun s => s <| serverUid_ := INVALID_UID |>) ;;
  modify (fun s => s <| clientId_ := INVALID_UID |>).

Definition SaDeathCallback : ST t unit :=
  ResetClient ;; ok ← GetSaAsync; if negb ok then mret tt else OnDead.

(** ** [SaClient] *)

Definition Init (configInfo : ConfigInfo.t) (c : ClientInfo.t) : ST t (Z * ClientInfo.t) :=
  n ← gets proxies;
  modify (fun s => s <| proxies ::= S |>) ;;
  match remote_unknown n with
  | None => modify (fun s => s <| proxy_ := false |>) ;; mret (RETCODE_SA_SERVICE_EXCEPTION, c)
  | Some invoke_set =>
      modify (fun s => s <| proxy_ := true |> <| px ::= fun p => p <| ClientProxy.Invoke := invoke_set |> |>) ;;
      r ← on_px (ClientProxy.InitSaEngine configInfo c);
      if negb (r.1 =? RETCODE_SUCCESS) || (ClientInfo.clientId r.2 =? INVALID_CLIENT_ID)
      then modify (fun s => s <| proxy_ := false |>) ;; mret (RETCODE_FAILURE, r.2)
      else mret (if negb (add_death_recipient =? 0) then RETCODE_FAILURE else RETCODE_SUCCESS, r.2)
  end.

(** A call of the server, possible while there is a proxy. *)
Definition with_proxy {A} (none : A) (m : ST ClientProxy.t A) : ST t A :=
  p ← gets proxy_; if negb p then mret none else on_px m.

Definition SaLoadAlgorithm (c : ClientInfo.t) (a : AlgorithmInfo.t) (i o : DataInfo.t) : ST t (Z * DataInfo.t) :=
  with_proxy (RETCODE_SA_SERVICE_EXCEPTION, o) (ClientProxy.LoadAlgorithmProxy c a i o).
Definition SaSyncExecuteAlgorithm (c : ClientInfo.t) (a : AlgorithmInfo.t) (i o : DataInfo.t) : ST t (Z * DataInfo.t) :=
  with_proxy (RETCODE_SA_SERVICE_EXCEPTION, o) (ClientProxy.SyncExecAlgorithmProxy c a i o).
Definition SaAsyncExecuteAlgorithm (c : ClientInfo.t) (a : AlgorithmInfo.t) (i : DataInfo.t) : ST t Z :=
  with_proxy RETCODE_SA_SERVICE_EXCEPTION (ClientProxy.AsyncExecuteAlgorithmProxy c a i).
Definition SaUnloadAlgorithm (c : ClientInfo.t) (a : AlgorithmInfo.t) (i : DataInfo.t) : ST t Z :=
  with_proxy RETCODE_SA_SERVICE_EXCEPTION (ClientProxy.UnloadAlgorithmProxy c a i).
Definition SaSetOption (c : ClientInfo.t) (optionType : Z) (i : DataInfo.t) : ST t Z :=
  with_proxy RETCODE_SA_SERVICE_EXCEPTION (ClientProxy.SetOptionProxy c optionType i).
Definition SaGetOption (c : ClientInfo.t) (optionType : Z) (i o : DataInfo.t) : ST t (Z * DataInfo.t) :=
  with_proxy (RETCODE_SA_SERVICE_EXCEPTION, o) (ClientProxy.GetOptionProxy c optionType i o).
Definition SaRegisterCallback (c : ClientInfo.t) : ST t Z :=
  with_proxy RETCODE_SA_SERVICE_EXCEPTION (ClientProxy.RegisterCallbackProxy c callback_sid).
Definition SaUnregisterCallback (c : ClientInfo.t) : ST t Z :=
  with_proxy RETCODE_SA_SERVICE_EXCEPTION (ClientProxy.UnregisterCallbackProxy c).

Definition SaDestroy (c : ClientInfo.t) : ST t Z :=
  p ← gets proxy_;
  if negb p then mret RETCODE_SA_SERVICE_EXCEPTION else
  retCode ← on_px (ClientProxy.DestroyEngineProxy c);
  modify (fun s => s <| proxy_ := false |>) ;; mret retCode.

(** [AsyncCallback]: a result message from the server. *)
Definition AsyncCallback (data : io) : ST t Z :=
  modify (fun s => s <| px ::= fun p => p <| ClientProxy.ipc ::= fun i => i <| Ipc.msg := data |> |> |>) ;;
  let on_ipc {A} (m : ST Ipc.t A) : ST t A := on_px (ClientProxy.on_ipc m) in
  asyncCallbackRet ← on_ipc (Ipc.ReadInt32 uninit_int);
  requestId ← on_ipc (Ipc.ReadInt32 uninit_int);
  sessionId ← on_ipc (Ipc.ReadInt32 uninit_int);
  r ← on_ipc (Ipc.UnParcelDataInfo DataInfo.null);
  let '(ipcUnParcelRet, outputInfo) := r in
  ok ← GetSaClient;
  if negb ok then on_ipc (Ipc.FreeDataInfo outputInfo) ;; mret RETCODE_FAILURE else
  cb ← gets ResultCb_;
  if negb cb then on_ipc (Ipc.FreeDataInfo outputInfo) ;; mret RETCODE_FAILURE else
  let retCode := if negb (ipcUnParcelRet =? RETCODE_SUCCESS) then RETCODE_FAILURE else asyncCallbackRet in
  SaClientCallback sessionId outputInfo retCode requestId ;;
  on_ipc (Ipc.FreeDataInfo outputInfo) ;; mret retCode.

Definition OnAiDead : ST t unit :=
  ok ← GetSaClient;
  if negb ok then mret tt else
  cb ← gets deathCb_;
  if negb cb then mret tt else SaDeathCallback.

(** ** [ConnectMgrWorker] *)

(** [OneAction()] with the worker's [configInfo_] and [clientInfo_]. *)
Definition OneAction (configInfo : ConfigInfo.t) (c : ClientInfo.t) : ST t bool :=
  id ← gets clientId_;
  if negb (id =? INVALID_CLIENT_ID) then mret true else
  ok ← GetSaClient;
  if negb ok then mret false else
  r ← Init configInfo c;
  let '(retCode, c) := r in
  modify (fun s => s <| connectMgrWorker_ := Some (configInfo, c) |>) ;;
  if negb (retCode =? RETCODE_SUCCESS) || (ClientInfo.clientId c =? INVALID_CLIENT_ID) then mret true else
  SetClientId (ClientInfo.clientId c) ;; SetServerUid (ClientInfo.serverUid c) ;; mret true.

Definition WorkerUninitialize (c : ClientInfo.t) : ST t unit :=
  ok ← GetSaClient;
  if negb ok then mret tt else
  SaDestroy c ;;
  SetClientId INVALID_CLIENT_ID.

Definition thread_active (s : t) : bool :=
  match connectMgrThread_ s, threadPool s with
  | Some tid, Some p => Thread.IsActive false (ThreadPool.thread_of p tid)
  | _, _ => false
  end.

(** [n] rounds of the connection thread; it ends when an action fails. *)
Fixpoint run_worker (n : nat) : ST t unit :=
  match n with
  | O => mret tt
  | S n' =>
      active ← gets thread_active;
      worker ← gets connectMgrWorker_;
      match worker with
      | Some (configInfo, c) =>
          if negb active then mret tt else
          ok ← OneAction configInfo c;
          if (ok : bool) then run_worker n' else
          tid ← gets connectMgrThread_;
          on_thread_pool tt (modify (fun p => p <| ThreadPool.store ::=
            alter (fun th => th <| Thread.status_ := Thread.STOPPED |>) (default 0%nat tid) |>)) ;;
          WorkerUninitialize c
      | None => mret tt
      end
  end.

(** ** [SaClientAdapter] *)

Definition StartThread (tid : nat) : ST t bool :=
  call ← gets pthreads;
  modify (fun s => s <| pthreads ::= S |>) ;;
  on_thread_pool false (fun p =>
    let '(ok, th) := Thread.begin_start call 0 (Some tid) (ThreadPool.thread_of p tid) in
    let th' := if (ok : bool) then th <| Thread.running_ := true |> <| Thread.status_ := Thread.RUNNING |> else th in
    (ok, p <| ThreadPool.store ::= <[tid := th']> |>)).

Definition InitAiServer (configInfo : ConfigInfo.t) (c : ClientInfo.t) : ST t Z :=
  ok ← GetThreadPool;
  if negb ok then mret RETCODE_OUT_OF_MEMORY else
  t_ok ← on_mem AIE_NEW;
  thread ← on_thread_pool None (ThreadPool.Pop t_ok);
  modify (fun s => s <| connectMgrThread_ := thread |>) ;;
  match thread with
  | None => mret RETCODE_OUT_OF_MEMORY
  | Some tid =>
      let push : ST t unit := on_thread_pool tt (ThreadPool.Push false tid) ;; modify (fun s => s <| connectMgrThread_ := None |>) in
      ok ← on_mem AIE_NEW;
      if negb ok then modify (fun s => s <| connectMgrWorker_ := None |>) ;; push ;; mret RETCODE_OUT_OF_MEMORY else
      modify (fun s => s <| connectMgrWorker_ := Some (configInfo, c) |>) ;;
      started ← StartThread tid;
      if negb started then push ;; modify (fun s => s <| connectMgrWorker_ := None |>) ;; mret RETCODE_START_THREAD_FAILED
      else mret RETCODE_SUCCESS
  end.

(** [CloseAiServer]: stopping an active thread lets the worker uninitialize. *)
Definition CloseAiServer : ST t Z :=
  thread ← gets connectMgrThread_;
  match thread with
  | None => mret RETCODE_FAILURE
  | Some tid =>
      active ← gets thread_active;
      worker ← gets connectMgrWorker_;
      match worker with
      | Some (_, c) => if (active : bool) then WorkerUninitialize c else mret tt
      | None => mret tt
      end ;;
      on_thread_pool tt (modify (fun p => p <| ThreadPool.store ::= alter (ThreadPool.StopThread false) tid |>)) ;;
      ok ← GetThreadPool;
      if negb ok then mret RETCODE_OUT_OF_MEMORY else
      on_thread_pool tt (ThreadPool.Push false tid) ;;
      modify (fun s => s <| connectMgrWorker_ := None |> <| connectMgrThread_ := None |>) ;; mret RETCODE_SUCCESS
  end.

Definition LoadAlgorithm (c : ClientInfo.t) (a : AlgorithmInfo.t) (i o : DataInfo.t) : ST t (Z * DataInfo.t) :=
  ok ← GetSaClient;
  if negb ok then mret (RETCODE_NULL_PARAM, o) else
  ok ← GetSaAsync;
  if negb ok then mret (RETCODE_OUT_OF_MEMORY, o) else
  n ← gets GetAsyncCbSize;
  if AlgorithmInfo.isAsync a && (n =? 1) then
    retCode ← SaRegisterCallback c;
    if negb (retCode =? RETCODE_SUCCESS) then mret (RETCODE_FAILURE, o) else SaLoadAlgorithm c a i o
  else SaLoadAlgorithm c a i o.

Definition UnLoadAlgorithm (c : ClientInfo.t) (a : AlgorithmInfo.t) (i : DataInfo.t) : ST t Z :=
  ok ← GetSaClient;
  if negb ok then mret RETCODE_NULL_PARAM else
  ok ← GetSaAsync;
  if negb ok then mret RETCODE_NULL_PARAM else
  none ← gets IsCallbackEmpty;
  if AlgorithmInfo.isAsync a && none then
    retCode ← SaUnregisterCallback c;
    if negb (retCode =? RETCODE_SUCCESS) then mret RETCODE_FAILURE else SaUnloadAlgorithm c a i
  else SaUnloadAlgorithm c a i.

Definition with_client {A} (none : A) (m : ST t A) : ST t A := ok ← GetSaClient; if negb ok then mret none else m.

Definition SyncExecute (c : ClientInfo.t) (a : AlgorithmInfo.t) (i o : DataInfo.t) : ST t (Z * DataInfo.t) :=
  with_client (RETCODE_NULL_PARAM, o) (SaSyncExecuteAlgorithm c a i o).
Definition AsyncExecute (c : ClientInfo.t) (a : AlgorithmInfo.t) (i : DataInfo.t) : ST t Z :=
  with_client RETCODE_NULL_PARAM (SaAsyncExecuteAlgorithm c a i).
Definition SetOption (c : ClientInfo.t) (optionType : Z) (i : DataInfo.t) : ST t Z :=
  with_client RETCODE_NULL_PARAM (SaSetOption c optionType i).
Definition GetOption (c : ClientInfo.t) (optionType : Z) (i o : DataInfo.t) : ST t (Z * DataInfo.t) :=
  with_client (RETCODE_NULL_PARAM, o) (SaGetOption c optionType i o).

(** ** [ClientFactory]: sessions *)

(** The search gets as much fuel as there are sessions, plus one. *)
Definition GenerateSessionId : ST t Z := fun s =>
  if MAXIMUM_NUMBER_OF_SESSION <? Z.of_nat (size (sessionInfos_ s)) then (INVALID_SESSION_ID, s) else
  match bump_while 32 AIE_SESSION_ID_BEGIN (fun id => bool_decide (is_Some (sessionInfos_ s !! id)))
          (S (size (sessionInfos_ s))) (sessionId_ s) with
  | Some id => (id, s <| sessionId_ := id |>)
  | None => (INVALID_SESSION_ID, s)
  end.

Definition AddSessionInfo (sessionId algorithmType : Z) : ST t bool :=
  first ← gets (fun s => bool_decide (sessionInfos_ s = ∅));
  modify (fun s => s <| sessionInfos_ ::= fun m => match m !! sessionId with Some _ => m | None => <[sessionId := algorithmType]> m end |>) ;;
  mret first.

Definition EraseSessionInfo (sessionId : Z) : ST t Z :=
  old ← gets (fun s => sessionInfos_ s !! sessionId);
  modify (fun s => s <| sessionInfos_ ::= delete sessionId |>) ;;
  mret (match old with None => RETCODE_FAILURE | Some _ => RETCODE_SUCCESS end).

Definition GetSessionInfo (sessionId algorithmType : Z) (s : t) : Z * Z :=
  match sessionInfos_ s !! sessionId with None => (RETCODE_EMPTY_MAP, algorithmType) | Some ty => (RETCODE_SUCCESS, ty) end.

Definition RegisterCb (sessionId : Z) (cb : option nat) : ST t Z :=
  ok ← GetSaAsync;
  if negb ok then mret RETCODE_NULL_PARAM else
  RegisterCbMsg sessionId cb ;;
  retCode ← RegisterAsyncClientCb;
  if negb (retCode =? RETCODE_SUCCESS) then UnRegisterCbMsg sessionId ;; mret RETCODE_FAILURE else mret RETCODE_SUCCESS.

Definition UnRegisterCb (sessionId : Z) : ST t Z :=
  ok ← GetSaAsync;
  if negb ok then mret RETCODE_NULL_PARAM else
  c1 ← UnRegisterAsyncClientCb;
  c2 ← UnRegisterCbMsg sessionId;
  mret (if negb (c1 =? RETCODE_SUCCESS) || negb (c2 =? RETCODE_SUCCESS) then RETCODE_FAILURE else RETCODE_SUCCESS).

Definition RegisterDeadCb (sessionId : Z) (cb : option nat) : ST t Z :=
  ok ← GetSaAsync;
  if negb ok then mret RETCODE_NULL_PARAM else
  RegisterDeadCbMsg sessionId cb ;;
  retCode ← RegisterServiceDeathCb;
  if negb (retCode =? RETCODE_SUCCESS) then UnRegisterCbMsg sessionId ;; mret RETCODE_FAILURE else mret RETCODE_SUCCESS.

Definition UnRegisterDeadCb (sessionId : Z) : ST t Z :=
  ok ← GetSaAsync;
  if negb ok then mret RETCODE_NULL_PARAM else
  c1 ← UnRegisterServiceDeathCb;
  c2 ← UnRegisterDeadCbMsg sessionId;
  mret (if negb (c1 =? RETCODE_SUCCESS) || negb (c2 =? RETCODE_SUCCESS) then RETCODE_FAILURE else RETCODE_SUCCESS).

(** The loop of [WaitConnection], [k] checks left, the connection thread at work
    in the pauses. *)
Fixpoint wait_loop (k i : nat) : ST t Z :=
  match k with
  | O => mret RETCODE_SA_SERVICE_EXCEPTION
  | S k' =>
      run_worker (actions_before_check i) ;;
      id ← gets clientId_;
      if negb (id =? INVALID_CLIENT_ID) then mret RETCODE_SUCCESS else wait_loop k' (S i)
  end.
Definition WaitConnection : ST t Z := wait_loop CHECK_CONNECTION_TIMES 0.

Definition ClientInit (configInfo : ConfigInfo.t) (c : ClientInfo.t) (a : AlgorithmInfo.t) (cb : option nat) :
    ST t (Z * ClientInfo.t) :=
  if negb (ClientInfo.sessionId c =? INVALID_SESSION_ID) then mret (RETCODE_SUCCESS, c) else
  sessionId ← GenerateSessionId;
  let c := c <| ClientInfo.sessionId := sessionId |> in
  isFirstSession ← AddSessionInfo sessionId (AlgorithmInfo.algorithmType a);
  retCode ← (if (isFirstSession : bool) then InitAiServer configInfo c else mret RETCODE_SUCCESS);
  if negb (retCode =? RETCODE_SUCCESS) then mret (retCode, c) else
  retCode ← WaitConnection;
  if negb (retCode =? RETCODE_SUCCESS) then mret (retCode, c) else
  id ← gets clientId_;
  uid ← gets serverUid_;
  let c := c <| ClientInfo.clientId := id |> <| ClientInfo.serverUid := uid |> <| ClientInfo.clientUid := getuid |> in
  retCode ← RegisterDeadCb sessionId cb;
  mret (retCode, c).

Definition ClientPrepare (c : ClientInfo.t) (a : AlgorithmInfo.t) (i o : DataInfo.t) (cb : option nat) : ST t (Z * DataInfo.t) :=
  let sessionId := ClientInfo.sessionId c in
  if sessionId =? INVALID_SESSION_ID then mret (RETCODE_SERVER_NOT_INIT, o) else
  retCode ← (if AlgorithmInfo.isAsync a then
               match cb with None => mret RETCODE_NULL_PARAM | Some _ => RegisterCb sessionId cb end
             else mret RETCODE_SUCCESS);
  if negb (retCode =? RETCODE_SUCCESS) then mret (retCode, o) else
  r ← LoadAlgorithm c a i o;
  (if negb (r.1 =? RETCODE_SUCCESS) then UnRegisterCb sessionId ;; mret tt else mret tt) ;;
  mret r.

Definition ClientAsyncProcess (c : ClientInfo.t) (a : AlgorithmInfo.t) (i : DataInfo.t) : ST t Z :=
  if ClientInfo.sessionId c =? INVALID_SESSION_ID then mret RETCODE_SERVER_NOT_INIT else
  if negb (AlgorithmInfo.isAsync a) then mret RETCODE_INVALID_PARAM else
  AsyncExecute c a i.

Definition ClientSyncProcess (c : ClientInfo.t) (a : AlgorithmInfo.t) (i o : DataInfo.t) : ST t (Z * DataInfo.t) :=
  if ClientInfo.sessionId c =? INVALID_SESSION_ID then mret (RETCODE_SERVER_NOT_INIT, o) else
  if AlgorithmInfo.isAsync a then mret (RETCODE_INVALID_PARAM, o) else
  SyncExecute c a i o.

Definition ClientSetOption (c : ClientInfo.t) (optionType : Z) (i : DataInfo.t) : ST t Z := SetOption c optionType i.
Definition ClientGetOption (c : ClientInfo.t) (optionType : Z) (i o : DataInfo.t) : ST t (Z * DataInfo.t) :=
  GetOption c optionType i o.

Definition ClientRelease (c : ClientInfo.t) (a : AlgorithmInfo.t) (i : DataInfo.t) : ST t Z :=
  let sessionId := ClientInfo.sessionId c in
  if sessionId =? INVALID_SESSION_ID then mret RETCODE_SUCCESS else
  retCode ← (if AlgorithmInfo.isAsync a then UnRegisterCb sessionId else mret RETCODE_SUCCESS);
  if negb (retCode =? RETCODE_SUCCESS) then mret retCode else
  UnLoadAlgorithm c a i.

Definition ClientDestroy (c : ClientInfo.t) : ST t (Z * ClientInfo.t) :=
  let sessionId := ClientInfo.sessionId c in
  if sessionId =? INVALID_SESSION_ID then mret (RETCODE_FAILURE, c) else
  retCode ← EraseSessionInfo sessionId;
  if negb (retCode =? RETCODE_SUCCESS) then mret (retCode, c) else
  isLastSession ← gets (fun s => bool_decide (sessionInfos_ s = ∅));
  retCode ← (if (isLastSession : bool) then
               retCode ← CloseAiServer;
               if negb (retCode =? RETCODE_SUCCESS) then mret retCode else
               id ← gets clientId_;
               mret (if negb (id =? INVALID_CLIENT_ID) then RETCODE_FAILURE else RETCODE_SUCCESS)
             else mret RETCODE_SUCCESS);
  if negb (retCode =? RETCODE_SUCCESS) then mret (retCode, c) else
  retCode ← UnRegisterDeadCb sessionId;
  mret (retCode, c <| ClientInfo.sessionId := INVALID_SESSION_ID |> <| ClientInfo.clientId := INVALID_CLIENT_ID |>).

End client.
End Client.
