(* ===== verification/EndToEnd.v ===== *)
(** * EndToEnd: what the client packs is what the server unpacks

    The request of [sa_client_proxy.cpp] against the parsing of [sa_server.c], and
    the result message of [AsyncProcessWorker] against the client's
    [AsyncCallback], through messages and shared memory. *)

From Stdlib Require Import ZArith Lia String.
From stdpp Require Import gmap strings list.
From S2P Require Import Prelude Protocol Encdec Sync FutureFactory Executor Thread Pools Ipc ClientProxy ServerAdapter SaServer Client.

#[local] Open Scope Z_scope.

Module Wire.
Import Ipc IpcFacts.

Section wire.
  Context `{!IpcIo, !IpcIoLaws, !Shm, !ShmLaws, !ShmReliable, !Allocator, !Securec, !SecurecLaws}.

(** ** Free keys by counting *)

Lemma exists_free_key s :
  Z.of_nat (size (segments s)) < SHM_KEY_END - SHM_KEY_START -> exists f, key_ok f /\ key_free f s.
Proof.
  intros Hs. set (used := (fun x => key x.2) <$> map_to_list (segments s)).
  set (all := seqZ SHM_KEY_START (SHM_KEY_END - SHM_KEY_START)).
  destruct (decide (Forall (fun f => f ∈ used) all)) as [Hall|Hno].
  - exfalso. assert (all ⊆+ used) as Hsub.
    { apply NoDup_submseteq; [apply NoDup_seqZ|]. intros f Hf. by eapply Forall_forall in Hall. }
    apply submseteq_length in Hsub. unfold all, used in Hsub.
    rewrite length_seqZ, length_fmap, length_map_to_list in Hsub. unfold SHM_KEY_START, SHM_KEY_END in *. lia.
  - apply not_Forall_Exists in Hno; [|apply _]. apply Exists_exists in Hno as (f & Hf & Hn).
    exists f. split.
    + apply elem_of_seqZ in Hf. unfold key_ok. lia.
    + intros id seg Hi <-. apply Hn, list_elem_of_fmap. exists (id, seg). split; [done|]. by apply elem_of_map_to_list.
Qed.

(** ** Packing: a header of fixed items and one [DataInfo] *)

Definition headed (hdr : list io_item) (d : DataInfo.t) (s s' : t) : Prop :=
  exists items, content (msg s') = content (msg s) ++ hdr ++ items /\ mem s' = mem s /\ key_ok (g_shmKey s') /\
    room (msg s) - foldr (fun i n => item_size i + n) 0 hdr - 211 <= room (msg s') /\
    carried (segments (os s')) d items /\ segments (os s) = without items (segments (os s')) /\
    (forall id, shared_id items = Some id -> segments (os s) !! id = None).

Definition keys_left (n : Z) (s : t) : Prop :=
  Z.of_nat (size (segments (os s))) + n <= SHM_KEY_END - SHM_KEY_START.

Lemma write_header hdr s (k : ST t unit) (Q : unit -> t -> Prop) :
  (forall i, i ∈ hdr -> 0 <= item_size i) -> foldr (fun i n => item_size i + n) 0 hdr <= room (msg s) ->
  (forall s', content (msg s') = content (msg s) ++ hdr -> mem s' = mem s -> os s' = os s -> g_shmKey s' = g_shmKey s ->
     room (msg s') = room (msg s) - foldr (fun i n => item_size i + n) 0 hdr -> wp k Q s') ->
  wp (for_each write hdr ;; k) Q s.
Proof.
  revert s. induction hdr as [|i hdr IH]; intros s Hpos Hroom HQ; cbn [for_each].
  - apply wp_bind, wp_ret, HQ; cbn; rewrite ?app_nil_r; done || lia.
  - cbn in Hroom, HQ. pose proof (Hpos i ltac:(by left)).
    assert (0 <= foldr (fun i n => item_size i + n) 0 hdr) as Hp.
    { clear -Hpos. induction hdr as [|j hdr IH]; cbn; [lia|]. pose proof (Hpos j ltac:(by right; left)).
      assert (0 <= foldr (fun i n => item_size i + n) 0 hdr); [|lia]. apply IH. intros x Hx. apply Hpos.
      apply elem_of_cons in Hx as [->|]; [by left|by right; right]. }
    apply wp_bind, wp_bind. eapply wp_mono; [apply write_spec; lia|]. cbn.
    intros _ s1 (C & M & O & K & R).
    change (wp (for_each write hdr) (fun _ s' => wp k Q s') s1).
    assert (wp (for_each write hdr ;; k) Q s1) as W.
    { apply IH; [intros; apply Hpos; by right|lia|]. intros s' C' M' O' K' R'. apply HQ; try congruence; [|lia].
      by rewrite C', C, <- app_assoc. }
    revert W. unfold wp. unfold mbind, ST_bind. by destruct (for_each write hdr s1).
Qed.

Lemma parcel_headed hdr d uid s :
  (forall i, i ∈ hdr -> 0 <= item_size i) -> foldr (fun i n => item_size i + n) 0 hdr + 211 <= room (msg s) ->
  di_ok d -> key_ok (g_shmKey s) -> keys_left 1 s ->
  wp (for_each write hdr ;; ParcelDataInfo d uid) (fun _ => headed hdr d s) s.
Proof.
  intros Hpos Hroom Hd Hk Hleft. unfold keys_left in Hleft. apply write_header; [done|lia|].
  intros s1 C M O K R. destruct (exists_free_key (os s)) as (f & Hf & Hfree); [lia|].
  eapply wp_mono; [apply (ParcelDataInfo_spec d uid s1 f); rewrite ?K, ?O; done || lia|]. cbn.
  intros _ s2 (items & C2 & M2 & K2 & R2 & Hcar & Hseg & Hn). rewrite O in Hseg, Hn.
  exists items. rewrite C2, C, <- app_assoc, M2, M. split_and!; try done. lia.
Qed.

(** A later message leaves room for another key. *)
Lemma headed_keys hdr d n s s' : headed hdr d s s' -> keys_left (n + 1) s -> keys_left n s'.
Proof.
  intros (items & _ & _ & _ & _ & _ & Hseg & Hn) Hk. unfold keys_left in *.
  unfold without in Hseg. destruct (shared_id items) as [id|] eqn:E.
  - assert (size (segments (os s')) <= S (size (segments (os s))))%nat; [|lia].
    rewrite Hseg. destruct (segments (os s') !! id) as [seg|] eqn:L.
    + rewrite <- (insert_id _ _ _ L) at 1. rewrite <- insert_delete_eq. rewrite map_size_insert_None; [done|].
      apply lookup_delete_eq.
    + rewrite delete_id by done. lia.
  - rewrite Hseg in Hk. lia.
Qed.

Definition client_header (c : ClientInfo.t) : list io_item :=
  [I64 (ClientInfo.clientVersion c); I32 (ClientInfo.clientId c); I32 (ClientInfo.sessionId c);
   U32 (ClientInfo.serverUid c); U32 (ClientInfo.clientUid c)].
Definition client_ext (c : ClientInfo.t) : DataInfo.t := DataInfo.mk (ClientInfo.extendMsg c) (ClientInfo.extendLen c).

Definition algorithm_header (a : AlgorithmInfo.t) : list io_item :=
  [I64 (AlgorithmInfo.clientVersion a); Bool (AlgorithmInfo.isAsync a); I32 (AlgorithmInfo.algorithmType a);
   I64 (AlgorithmInfo.algorithmVersion a); Bool (AlgorithmInfo.isCloud a); I32 (AlgorithmInfo.operateId a);
   I32 (AlgorithmInfo.requestId a)].
Definition algorithm_ext (a : AlgorithmInfo.t) : DataInfo.t :=
  DataInfo.mk (AlgorithmInfo.extendMsg a) (AlgorithmInfo.extendLen a).

Lemma header_sizes_pos (hdr : list io_item) :
  Forall (fun i => match i with I32 _ | U32 _ | I64 _ | Bool _ => True | _ => False end) hdr ->
  forall i, i ∈ hdr -> 0 <= item_size i.
Proof. intros Hh i Hi. eapply Forall_forall in Hh; [|done]. destruct i; cbn; done. Qed.

Lemma ParcelClientInfo_spec c s :
  239 <= room (msg s) -> di_ok (client_ext c) -> key_ok (g_shmKey s) -> keys_left 1 s ->
  wp (ClientProxy.ParcelClientInfo c) (fun _ => headed (client_header c) (client_ext c) s) s.
Proof.
  intros Hr Hd Hk Hl.
  apply (parcel_headed (client_header c) (client_ext c) (ClientInfo.serverUid c) s);
    [apply header_sizes_pos; by repeat constructor|cbn; lia|done..].
Qed.

Lemma ParcelAlgorithmInfo_spec a uid s :
  247 <= room (msg s) -> di_ok (algorithm_ext a) -> key_ok (g_shmKey s) -> keys_left 1 s ->
  wp (ClientProxy.ParcelAlgorithmInfo a uid) (fun _ => headed (algorithm_header a) (algorithm_ext a) s) s.
Proof.
  intros Hr Hd Hk Hl.
  apply (parcel_headed (algorithm_header a) (algorithm_ext a) uid s);
    [apply header_sizes_pos; by repeat constructor|cbn; lia|done..].
Qed.

(** ** Unpacking *)

Definition advanced (rest : list io_item) (s s' : t) : Prop :=
  content (msg s') = rest /\ mem s' = mem s /\ os s' = os s /\ g_shmKey s' = g_shmKey s.

Lemma read_as {A} (f : option io_item -> A) g i rest s :
  content (msg s) = i :: rest -> tag_of i = g ->
  wp (r ← read g; mret (f r)) (fun a s' => a = f (Some i) /\ advanced rest s s') s.
Proof.
  intros C T. apply wp_bind. eapply wp_mono; [by apply (read_spec i rest)|]. intros r s' (-> & ? & ? & ? & ?).
  by apply wp_ret.
Qed.

Definition ReadInt32_spec z rest old s :
  content (msg s) = I32 z :: rest -> wp (ReadInt32 old) (fun a s' => a = z /\ advanced rest s s') s :=
  fun C => read_as _ _ (I32 z) rest s C eq_refl.
Definition ReadUint32_spec z rest old s :
  content (msg s) = U32 z :: rest -> wp (ReadUint32 old) (fun a s' => a = z /\ advanced rest s s') s :=
  fun C => read_as _ _ (U32 z) rest s C eq_refl.
Definition ReadInt64_spec z rest old s :
  content (msg s) = I64 z :: rest -> wp (ReadInt64 old) (fun a s' => a = z /\ advanced rest s s') s :=
  fun C => read_as _ _ (I64 z) rest s C eq_refl.
Definition ReadBool_spec z rest old s :
  content (msg s) = Bool z :: rest -> wp (ReadBool old) (fun a s' => a = z /\ advanced rest s s') s :=
  fun C => read_as _ _ (Bool z) rest s C eq_refl.

(** One read off the front of the message. *)
Ltac read_next :=
  match goal with
  | C : content (msg ?s) = ?i :: ?rest |- wp _ _ ?s =>
      apply wp_bind; eapply wp_mono;
      [lazymatch i with
       | I32 _ => apply (ReadInt32_spec _ _ _ _ C) | U32 _ => apply (ReadUint32_spec _ _ _ _ C)
       | I64 _ => apply (ReadInt64_spec _ _ _ _ C) | Bool _ => apply (ReadBool_spec _ _ _ _ C)
       end|];
      let s' := fresh "s" in let C' := fresh "C" in let M := fresh "M" in let O := fresh "O" in let K := fresh "K" in
      intros ? s' (-> & C' & M & O & K); clear C
  end.

Definition gained (X : gset nat) (s s' : t) : Prop :=
  mem_wf (mem s') /\ Mem.live (mem s') = X ∪ Mem.live (mem s) /\ X ## Mem.live (mem s) /\
  Mem.bad_frees (mem s') = Mem.bad_frees (mem s) /\ g_shmKey s' = g_shmKey s.

Definition same_client (c c' : ClientInfo.t) : Prop :=
  client_header c' = client_header c /\ ClientInfo.extendLen c' = ClientInfo.extendLen c /\
  DataInfo.content (client_ext c') = DataInfo.content (client_ext c).
Definition same_algorithm (a a' : AlgorithmInfo.t) : Prop :=
  algorithm_header a' = algorithm_header a /\ AlgorithmInfo.extendLen a' = AlgorithmInfo.extendLen a /\
  DataInfo.content (algorithm_ext a') = DataInfo.content (algorithm_ext a).

Context (malloc_works : malloc_serves).

Lemma UnParcelClientInfo_spec c c0 items rest s :
  content (msg s) = client_header c ++ items ++ rest -> carried (segments (os s)) (client_ext c) items -> mem_wf (mem s) ->
  wp (SaServer.UnParcelClientInfo c0) (fun r s' => r.1 = RETCODE_SUCCESS /\ same_client c r.2 /\
    content (msg s') = rest /\ segments (os s') = without items (segments (os s)) /\
    gained (owned (client_ext r.2)) s s') s.
Proof.
  intros C Hcar WF. cbn in C. unfold SaServer.UnParcelClientInfo. do 5 read_next.
  assert (os s4 = os s /\ mem s4 = mem s /\ g_shmKey s4 = g_shmKey s) as (Eo & Em & Ek) by (split_and!; congruence).
  apply wp_bind. eapply wp_mono; [apply (UnParcelDataInfo_spec malloc_works (client_ext c) _ items rest); by rewrite ?Eo, ?Em|].
  intros [code d] s' (E & L & D & R & S & K' & W & V & X & B). rewrite ?Eo, ?Em, ?Ek in *. cbn in E. subst code. cbn. apply wp_ret. cbn in *.
  unfold same_client, gained, client_header, client_ext. destruct d as [db dl]. cbn in *.
  split_and!; congruence || done.
Qed.

Lemma UnParcelAlgorithmInfo_spec a a0 items rest s :
  content (msg s) = algorithm_header a ++ items ++ rest -> carried (segments (os s)) (algorithm_ext a) items ->
  mem_wf (mem s) ->
  wp (SaServer.UnParcelAlgorithmInfo a0) (fun r s' => r.1 = RETCODE_SUCCESS /\ same_algorithm a r.2 /\
    content (msg s') = rest /\ segments (os s') = without items (segments (os s)) /\
    gained (owned (algorithm_ext r.2)) s s') s.
Proof.
  intros C Hcar WF. cbn in C. unfold SaServer.UnParcelAlgorithmInfo. do 7 read_next.
  assert (os s6 = os s /\ mem s6 = mem s /\ g_shmKey s6 = g_shmKey s) as (Eo & Em & Ek) by (split_and!; congruence).
  apply wp_bind. eapply wp_mono; [apply (UnParcelDataInfo_spec malloc_works (algorithm_ext a) _ items rest); by rewrite ?Eo, ?Em|].
  intros [code d] s' (E & L & D & R & S & K' & W & V & X & B). rewrite ?Eo, ?Em, ?Ek in *. cbn in E. subst code. cbn. apply wp_ret. cbn in *.
  unfold same_algorithm, gained, algorithm_header, algorithm_ext. destruct d as [db dl]. cbn in *.
  split_and!; congruence || done.
Qed.

(** ** Several messages parts one after the other *)

Lemma carried_mono m m' d items : carried m d items -> m ⊆ m' -> carried m' d items.
Proof.
  intros [Hl Hc|n bs Hn Hb Hl Hc|n id seg Hn Hb Hl Hc Hi Hs] Hsub; [by constructor|by constructor|].
  apply (carried_shared _ _ _ _ seg); try done. by eapply lookup_weaken.
Qed.

Lemma carried_without m d items items' :
  carried m d items -> shared_id items = None \/ shared_id items <> shared_id items' -> carried (without items' m) d items.
Proof.
  intros Hcar Hne. unfold without. destruct (shared_id items') as [id'|] eqn:E; [|done].
  destruct Hcar as [Hl Hc|n bs Hn Hb Hl Hc|n id seg Hn Hb Hl Hc Hi Hs]; [by constructor|by constructor|].
  apply (carried_shared _ _ _ _ seg); try done. cbn in Hne. destruct Hne as [|Hne]; [done|].
  rewrite lookup_delete_ne; [done|congruence].
Qed.

Lemma without_comm items items' m : without items (without items' m) = without items' (without items m).
Proof. unfold without. destruct (shared_id items), (shared_id items'); try done. apply delete_delete. Qed.

Lemma carried_id m d items id : carried m d items -> shared_id items = Some id -> is_Some (m !! id).
Proof. intros [] E; naive_solver. Qed.

Lemma without_sub items m : without items m ⊆ m.
Proof. unfold without. destruct (shared_id items); [apply delete_subseteq|done]. Qed.

Lemma gained_trans X Y s s1 s2 : gained X s s1 -> gained Y s1 s2 -> gained (X ∪ Y) s s2.
Proof.
  intros (W & L & D & B & K) (W' & L' & D' & B' & K'). unfold gained. rewrite L', L, B', K'. split_and!; [done| | |done|done].
  - apply leibniz_equiv. set_solver.
  - rewrite L in D'. set_solver.
Qed.

(** What is left of the kernel after three parts were packed and taken out again. *)
Definition request_items (c : ClientInfo.t) (a : AlgorithmInfo.t) (d : DataInfo.t) (i1 i2 i3 : list io_item) :=
  client_header c ++ i1 ++ algorithm_header a ++ i2 ++ i3.

Definition packed (c : ClientInfo.t) (a : AlgorithmInfo.t) (d : DataInfo.t) (s s' : t) : Prop :=
  exists i1 i2 i3, content (msg s') = content (msg s) ++ request_items c a d i1 i2 i3 /\ mem s' = mem s /\
    carried (segments (os s')) (client_ext c) i1 /\ carried (without i1 (segments (os s'))) (algorithm_ext a) i2 /\
    carried (without i2 (without i1 (segments (os s')))) d i3 /\
    segments (os s) = without i3 (without i2 (without i1 (segments (os s')))) /\ key_ok (g_shmKey s').

Lemma ParcelRequest_spec c a d s :
  700 <= room (msg s) -> di_ok (client_ext c) -> di_ok (algorithm_ext a) -> di_ok d -> key_ok (g_shmKey s) ->
  keys_left 3 s -> wp (ClientProxy.ParcelRequest c a d) (fun _ => packed c a d s) s.
Proof.
  intros Hr Hc Ha Hd Hk Hl. unfold ClientProxy.ParcelRequest.
  apply wp_bind. eapply wp_mono; [apply ParcelClientInfo_spec; try done; [lia|unfold keys_left in *; lia]|].
  intros ? s1 Hs1. pose proof (headed_keys _ _ 2 _ _ Hs1 Hl) as Hl1.
  destruct Hs1 as (i1 & C1 & M1 & K1 & R1 & Car1 & S1 & N1). cbn in R1.
  apply wp_bind. eapply wp_mono; [apply ParcelAlgorithmInfo_spec; try done; [lia|unfold keys_left in *; lia]|].
  intros ? s2 Hs2. pose proof (headed_keys _ _ 1 _ _ Hs2 Hl1) as Hl2.
  destruct Hs2 as (i2 & C2 & M2 & K2 & R2 & Car2 & S2 & N2). cbn in R2.
  eapply wp_mono; [apply (parcel_headed [] d (ClientInfo.serverUid c) s2); try done; [by intros ? []%elem_of_nil|cbn; lia]|].
  intros _ s3 (i3 & C3 & M3 & K3 & R3 & Car3 & S3 & N3).
  assert (Hne : forall i j m1 d1 m2, carried m1 d1 i -> m1 ⊆ m2 -> (forall id, shared_id j = Some id -> m2 !! id = None) ->
            shared_id j = None \/ shared_id j <> shared_id i).
  { intros i j m1 d1 m2 Hci Hsub Hn. destruct (shared_id j) as [id|] eqn:E; [right|by left].
    intros Ei. symmetry in Ei. apply (carried_id _ _ _ _ Hci) in Ei as [seg Hseg].
    apply (lookup_weaken _ _ _ _ Hseg) in Hsub. by rewrite (Hn id eq_refl) in Hsub. }
  assert (segments (os s1) ⊆ segments (os s2)) as Sub12 by (rewrite S2; apply without_sub).
  assert (segments (os s2) ⊆ segments (os s3)) as Sub23 by (rewrite S3; apply without_sub).
  pose proof (Hne i1 i2 _ _ (segments (os s1)) Car1 ltac:(done) N2) as Ne21.
  pose proof (Hne i1 i3 _ _ (segments (os s2)) Car1 Sub12 N3) as Ne31.
  pose proof (Hne i2 i3 _ _ (segments (os s2)) Car2 ltac:(done) N3) as Ne32.
  exists i1, i2, i3. unfold request_items. rewrite C3, C2, C1, M3, M2, M1. split_and!.
  - by rewrite <- !app_assoc.
  - done.
  - eapply carried_mono; [exact Car1|]. by etransitivity.
  - apply carried_without; [by eapply carried_mono|done].
  - apply carried_without; [apply carried_without|]; done.
  - rewrite S1, S2, S3. by rewrite (without_comm i2 i3), (without_comm i1 i3), (without_comm i1 i2).
  - done.
Qed.

Lemma UnParcelInfo_spec c a d s0 s i1 i2 i3 rest :
  content (msg s) = request_items c a d i1 i2 i3 ++ rest -> mem_wf (mem s) ->
  carried (segments (os s)) (client_ext c) i1 -> carried (without i1 (segments (os s))) (algorithm_ext a) i2 ->
  carried (without i2 (without i1 (segments (os s)))) d i3 ->
  s0 = without i3 (without i2 (without i1 (segments (os s)))) ->
  wp SaServer.UnParcelInfo (fun r s' => exists c' a' d', r = (RETCODE_SUCCESS, c', a', d') /\
    same_client c c' /\ same_algorithm a a' /\ DataInfo.length d' = DataInfo.length d /\
    DataInfo.content d' = DataInfo.content d /\ content (msg s') = rest /\ segments (os s') = s0 /\
    gained (owned (client_ext c') ∪ owned (algorithm_ext a') ∪ owned d') s s' /\
    owned (client_ext c') ## owned (algorithm_ext a') /\ owned d' ## owned (client_ext c') ∪ owned (algorithm_ext a')) s.
Proof.
  intros C WF Car1 Car2 Car3 ->. unfold request_items in C. rewrite <- !app_assoc in C. unfold SaServer.UnParcelInfo.
  apply wp_bind. eapply wp_mono; [by apply (UnParcelClientInfo_spec c _ i1)|].
  intros [code1 c'] s1 (E1 & Sc & C1 & S1 & G1). cbn in E1. subst code1. cbn in Sc, G1. cbn match.
  rewrite Z.eqb_refl. cbn [negb].
  apply wp_bind. eapply wp_mono; [apply (UnParcelAlgorithmInfo_spec a _ i2 _ _ C1); [by rewrite S1|by destruct G1]|].
  intros [code2 a'] s2 (E2 & Sa & C2 & S2 & G2). cbn in E2. subst code2. cbn in Sa, G2. cbn match.
  rewrite Z.eqb_refl. cbn [negb].
  apply wp_bind. eapply wp_mono; [apply (UnParcelDataInfo_spec malloc_works d _ i3 rest); [by rewrite S2, S1|done|by destruct G2]|].
  intros [code3 d'] s3 (E3 & Ld & Cd & C3 & S3 & K3 & W3 & L3 & X3 & B3). cbn in E3. subst code3. cbn in Ld, Cd, L3, X3. cbn match.
  rewrite Z.eqb_refl. cbn [negb]. wp_step. wp_step. wp_step.
  exists c', a', d'. split_and!; try done.
  - by rewrite S3, S2, S1.
  - eapply gained_trans; [by eapply gained_trans|]. done.
  - destruct G1 as (_ & L1 & _), G2 as (_ & _ & D2 & _). rewrite L1 in D2. set_solver.
  - destruct G1 as (_ & L1 & _), G2 as (_ & L2 & _). rewrite L2, L1 in X3. set_solver.
Qed.

(** ** Results *)

Definition result_header (r : Response.t) : list io_item :=
  [I32 (Response.retCode r); I32 (Response.requestId r); I32 (SaServerAdapter.GetSessionId (Response.transactionId r))].

Lemma IpcIoResponse_spec r s :
  223 <= room io_init -> di_ok (Response.result r) -> key_ok (g_shmKey s) -> keys_left 1 s ->
  wp (SaServer.IpcIoResponse r) (fun _ s' => exists items, content (msg s') = result_header r ++ items /\
    carried (segments (os s')) (Response.result r) items /\ segments (os s) = without items (segments (os s'))) s.
Proof.
  intros Hr Hd Hk Hl. unfold SaServer.IpcIoResponse. apply wp_bind, wp_modify.
  eapply wp_mono.
  - apply (parcel_headed (result_header r) (Response.result r) (Response.clientUid r) (s <| msg := io_init |>));
      [apply header_sizes_pos; by repeat constructor|cbn; lia|done..].
  - intros ? s' (items & C & _ & _ & _ & Car & S & _). cbn in C. rewrite io_init_content in C. by exists items.
Qed.

End wire.

Section result.
  Context `{!IpcIo, !IpcIoLaws, !Shm, !ShmLaws, !ShmReliable, !Connection, !Allocator, !Securec, !SecurecLaws,
            !Pthread, !Environment}.
  Context (malloc_works : malloc_serves).
  #[local] Notation ipc c := (ClientProxy.ipc (Client.px c)).

(** The client has its singletons and a callback for the session. *)
Definition listening (sessionId : Z) (cb : nat) (c : Client.t) : Prop :=
  Client.sa_client c = true /\ Client.sa_async c = true /\ Client.ResultCb_ c = true /\
  Client.mapCbMsg_ c !! sessionId = Some cb.

Lemma SaClientCallback_spec sid cb d code rid c :
  listening sid cb c ->
  wp (Client.SaClientCallback sid d code rid) (fun _ c' => Client.px c' = Client.px c /\
    Client.results c' = Client.results c ++ [Client.Result cb (DataInfo.content d) code rid]) c.
Proof.
  intros (H1' & H2' & H3' & H4'). unfold Client.SaClientCallback, Client.GetSaAsync.
  apply wp_bind, wp_bind, wp_gets. rewrite H2'. wp_step. cbn [negb].
  unfold Client.OnResult, Client.FindCb. wp_step. wp_step. rewrite H4'. by apply wp_modify.
Qed.

Lemma FreeDataInfo_owned d X s :
  mem_wf (mem s) -> Mem.live (mem s) = owned d ∪ X -> owned d ## X ->
  wp (FreeDataInfo d) (fun _ s' => msg s' = msg s /\ os s' = os s /\ Mem.live (mem s') = X /\
    Mem.bad_frees (mem s') = Mem.bad_frees (mem s)) s.
Proof.
  intros W L D. unfold FreeDataInfo, owned in *. destruct (DataInfo.data d) as [b|].
  - apply wp_bind, wp_on_field. eapply wp_mono; [apply (free_spec b _ X); [done|done|set_solver]|].
    intros _ m (? & ? & ?). by apply wp_ret.
  - apply wp_ret. split_and!; try done. rewrite L. apply leibniz_equiv. set_solver.
Qed.

Lemma AsyncCallback_spec r data items cb c :
  content data = result_header r ++ items -> carried (segments (os (ipc c))) (Response.result r) items ->
  mem_wf (mem (ipc c)) -> listening (SaServerAdapter.GetSessionId (Response.transactionId r)) cb c ->
  wp (Client.AsyncCallback data) (fun code c' => code = Response.retCode r /\
    Client.results c' = Client.results c ++
      [Client.Result cb (DataInfo.content (Response.result r)) (Response.retCode r) (Response.requestId r)] /\
    segments (os (ipc c')) = without items (segments (os (ipc c))) /\
    Mem.live (mem (ipc c')) = Mem.live (mem (ipc c)) /\ Mem.bad_frees (mem (ipc c')) = Mem.bad_frees (mem (ipc c))) c.
Proof.
  intros C Car W Hlis. cbn in C. unfold Client.AsyncCallback. apply wp_bind, wp_modify.
  set (c1 := c <| Client.px ::= _ |>). assert (content (msg (ipc c1)) = result_header r ++ items) as C1 by done.
  unfold Client.on_px, ClientProxy.on_ipc.
  apply wp_bind, wp_on_field, wp_on_field. eapply wp_mono; [apply (ReadInt32_spec (Response.retCode r) _ _ (ipc c1) C1)|].
  intros ? i2 (-> & C2 & M2 & O2 & _).
  apply wp_bind, wp_on_field, wp_on_field. cbn. eapply wp_mono; [apply (ReadInt32_spec _ _ _ _ C2)|].
  intros ? i3 (-> & C3 & M3 & O3 & _).
  apply wp_bind, wp_on_field, wp_on_field. cbn. eapply wp_mono; [apply (ReadInt32_spec _ _ _ _ C3)|].
  intros ? i4 (-> & C4 & M4 & O4 & _). rewrite <- (app_nil_r items) in C4.
  assert (os i4 = os (ipc c) /\ mem i4 = mem (ipc c)) as [Eo Em].
  { split; [by rewrite O4, O3, O2|by rewrite M4, M3, M2]. }
  apply wp_bind, wp_on_field, wp_on_field. cbn.
  eapply wp_mono; [apply (UnParcelDataInfo_spec malloc_works (Response.result r) _ items [] i4); by rewrite ?Eo, ?Em|].
  intros [code d] i5 (E & L & D & R & S & _ & W5 & V & X & B). rewrite ?Eo, ?Em in *. cbn in E, L, D, V, X. subst code.
  cbn match. destruct Hlis as (H1' & H2' & H3' & H4').
  apply wp_bind. unfold Client.GetSaClient. apply wp_bind, wp_gets. cbn. rewrite H1'. wp_step. cbn [negb].
  apply wp_bind, wp_gets. cbn. rewrite H3'. cbn [negb].
  apply wp_bind. eapply wp_mono; [by apply (SaClientCallback_spec _ cb)|]. cbn.
  intros _ c6 (P6 & R6).
  apply wp_bind, wp_on_field, wp_on_field. rewrite P6. cbn.
  eapply wp_mono; [by apply (FreeDataInfo_owned d _ i5 W5 V)|].
  intros _ i7 (_ & O7 & L7 & B7). apply wp_ret. cbn. rewrite R6, D, O7, S, L7, B7. done.
Qed.

End result.
End Wire.

(** ** Properties *)

(** C9. The server's parsing of a request recovers what the client packed: every
    field of the client and algorithm information and the bytes of the three
    payloads, each inline or through shared memory.  The message is used up, no
    segment is left and the server owns exactly the blocks of the payloads. *)
Theorem request_roundtrip `{!IpcIo, !IpcIoLaws, !Shm, !ShmLaws, !IpcFacts.ShmReliable, !Allocator, !Securec, !SecurecLaws}
    (c : ClientInfo.t) (a : AlgorithmInfo.t) (d : DataInfo.t) (s r : Ipc.t) :
  malloc_serves ->
  content (Ipc.msg s) = [] -> 700 <= room (Ipc.msg s) -> IpcFacts.key_ok (Ipc.g_shmKey s) -> Wire.keys_left 3 s ->
  IpcFacts.di_ok (Wire.client_ext c) -> IpcFacts.di_ok (Wire.algorithm_ext a) -> IpcFacts.di_ok d ->
  mem_wf (Ipc.mem r) ->
  let s' := (ClientProxy.ParcelRequest c a d s).2 in
  content (Ipc.msg r) = content (Ipc.msg s') -> segments (Ipc.os r) = segments (Ipc.os s') ->
  exists c' a' d' r', SaServer.UnParcelInfo r = ((RETCODE_SUCCESS, c', a', d'), r') /\
    Wire.same_client c c' /\ Wire.same_algorithm a a' /\ DataInfo.length d' = DataInfo.length d /\
    DataInfo.content d' = DataInfo.content d /\ content (Ipc.msg r') = [] /\
    segments (Ipc.os r') = segments (Ipc.os s) /\
    Wire.gained (IpcFacts.owned (Wire.client_ext c') ∪ IpcFacts.owned (Wire.algorithm_ext a') ∪ IpcFacts.owned d') r r' /\
    IpcFacts.owned (Wire.client_ext c') ## IpcFacts.owned (Wire.algorithm_ext a') /\
    IpcFacts.owned d' ## IpcFacts.owned (Wire.client_ext c') ∪ IpcFacts.owned (Wire.algorithm_ext a').
Proof.
  intros HM C0 Hr Hk Hl Hc Ha Hd W s' C S.
  destruct (Wire.ParcelRequest_spec c a d s Hr Hc Ha Hd Hk Hl) as (i1 & i2 & i3 & C' & _ & Car1 & Car2 & Car3 & Seg & _).
  fold s' in C', Car1, Car2, Car3, Seg. rewrite <- S in Car1, Car2, Car3, Seg. rewrite C0 in C'. cbn [app] in C'.
  rewrite C' in C. rewrite <- (app_nil_r (Wire.request_items _ _ _ _ _ _)) in C.
  pose proof (Wire.UnParcelInfo_spec HM c a d _ r i1 i2 i3 [] C W Car1 Car2 Car3 Seg) as U.
  unfold wp in U. destruct (SaServer.UnParcelInfo r) as [x r']. cbn in U.
  destruct U as (c' & a' & d' & -> & ?). by exists c', a', d', r'.
Qed.

(** C10. A result that the server's worker sends reaches the callback that the
    session registered, with the code, the request number and the bytes of the
    response; afterwards neither the kernel nor the client keeps anything of it. *)
Theorem async_result_delivery
    `{!IpcIo, !IpcIoLaws, !Shm, !ShmLaws, !IpcFacts.ShmReliable, !Connection, !Allocator, !Securec, !SecurecLaws,
      !Pthread, !Environment}
    (r : Response.t) (s : Ipc.t) (cb : nat) (c : Client.t) :
  malloc_serves ->
  223 <= room io_init -> IpcFacts.di_ok (Response.result r) -> IpcFacts.key_ok (Ipc.g_shmKey s) -> Wire.keys_left 1 s ->
  let s' := (SaServer.IpcIoResponse r s).2 in
  segments (Ipc.os (ClientProxy.ipc (Client.px c))) = segments (Ipc.os s') -> mem_wf (Ipc.mem (ClientProxy.ipc (Client.px c))) ->
  Wire.listening (SaServerAdapter.GetSessionId (Response.transactionId r)) cb c ->
  exists c', Client.AsyncCallback (Ipc.msg s') c = (Response.retCode r, c') /\
    Client.results c' = Client.results c ++
      [Client.Result cb (DataInfo.content (Response.result r)) (Response.retCode r) (Response.requestId r)] /\
    segments (Ipc.os (ClientProxy.ipc (Client.px c'))) = segments (Ipc.os s) /\
    Mem.live (Ipc.mem (ClientProxy.ipc (Client.px c'))) = Mem.live (Ipc.mem (ClientProxy.ipc (Client.px c))).
Proof.
  intros HM Hr Hd Hk Hl s' Hos W Hlis.
  destruct (Wire.IpcIoResponse_spec r s Hr Hd Hk Hl) as (items & C & Car & S). fold s' in C, Car, S.
  rewrite <- Hos in Car, S.
  pose proof (Wire.AsyncCallback_spec HM r _ items cb c C Car W Hlis) as U. unfold wp in U.
  destruct (Client.AsyncCallback (Ipc.msg s') c) as [code c']. cbn in U. destruct U as (-> & ? & E & ? & _).
  exists c'. split_and!; try done. by rewrite E, <- S.
Qed.

(** ** Witnesses *)

Import IpcSample.

Definition sample_client : ClientInfo.t := ClientInfo.mk 1 3 4 100 200 3 (DataInfo.data small).
Definition sample_algorithm : AlgorithmInfo.t := AlgorithmInfo.mk 1 true 2 5 false 7 8 500 (DataInfo.data large).
Definition sample_receiver (s : Ipc.t) : Ipc.t := Ipc.mk (Ipc.msg s) Mem.empty (Ipc.os s) SHM_KEY_START.

Lemma receiver_content s : content (Ipc.msg (sample_receiver s)) = content (Ipc.msg s).
Proof. done. Qed.
Lemma receiver_segments s : segments (Ipc.os (sample_receiver s)) = segments (Ipc.os s).
Proof. done. Qed.
Lemma receiver_mem s : mem_wf (Ipc.mem (sample_receiver s)).
Proof. apply mem_wf_empty. Qed.

Lemma sender_keys n : n <= 1000 -> Wire.keys_left n sender.
Proof. intros. unfold Wire.keys_left. change (size (segments (Ipc.os sender))) with 1%nat. unfold SHM_KEY_START, SHM_KEY_END. lia. Qed.

Lemma request_roundtrip_witness :
  let r := sample_receiver (ClientProxy.ParcelRequest sample_client sample_algorithm large sender).2 in
  exists c' a' d' r', SaServer.UnParcelInfo r = ((RETCODE_SUCCESS, c', a', d'), r') /\
    Wire.same_client sample_client c' /\ Wire.same_algorithm sample_algorithm a' /\
    DataInfo.length d' = DataInfo.length large /\ DataInfo.content d' = DataInfo.content large /\
    content (Ipc.msg r') = [] /\ segments (Ipc.os r') = segments (Ipc.os sender) /\
    Wire.gained (IpcFacts.owned (Wire.client_ext c') ∪ IpcFacts.owned (Wire.algorithm_ext a') ∪ IpcFacts.owned d') r r' /\
    IpcFacts.owned (Wire.client_ext c') ## IpcFacts.owned (Wire.algorithm_ext a') /\
    IpcFacts.owned d' ## IpcFacts.owned (Wire.client_ext c') ∪ IpcFacts.owned (Wire.algorithm_ext a').
Proof.
  intros r. apply (request_roundtrip sample_client sample_algorithm large sender r);
    [done|done|vm_compute; discriminate|vm_compute; split; [discriminate|done]|by apply sender_keys
    |vm_compute; repeat split; discriminate..|apply receiver_mem|apply receiver_content|apply receiver_segments].
Defined.

Definition silent_connection : Connection := {| net := unit; invoke := fun _ _ os n => (None, os, n) |}.
Definition sample_threads : Pthread := {| pthread_attr_init := fun _ => 0; pthread_create := fun _ => 0;
  thread_exited := fun _ => false; pthread_handle := fun n => Z.of_nat n + 1 |}.
Definition sample_environment : Environment := {|
  remote_unknown := fun _ => Some true; add_death_recipient := 0; actions_before_check := fun _ => 1%nat;
  getuid := 1000; callback_sid := 77 |}.
#[local] Existing Instance silent_connection.
#[local] Existing Instance sample_threads.
#[local] Existing Instance sample_environment.

Definition sample_result : Response.t :=
  Response.SetTransactionId (SaServerAdapter.GetTransactionId (SaServerAdapter.ctor 3) 4)
    (Response.SetResult large (Response.SetRetCode 0 (Response.ctor None))).
Definition listening_client (s : Ipc.t) : Client.t :=
  (Client.ctor (ClientProxy.mk (sample_receiver s) tt true 0))
    <| Client.sa_client := true |> <| Client.sa_async := true |> <| Client.ResultCb_ := true |>
    <| Client.mapCbMsg_ := {[4 := 9%nat]} |>.

Lemma listening_segments s : segments (Ipc.os (ClientProxy.ipc (Client.px (listening_client s)))) = segments (Ipc.os s).
Proof. done. Qed.
Lemma listening_mem s : mem_wf (Ipc.mem (ClientProxy.ipc (Client.px (listening_client s)))).
Proof. apply mem_wf_empty. Qed.
Lemma listening_listens s : Wire.listening 4 9 (listening_client s).
Proof. done. Qed.

Lemma async_result_delivery_witness :
  let s' := (SaServer.IpcIoResponse sample_result sender).2 in
  let c := listening_client s' in
  exists c', Client.AsyncCallback (Ipc.msg s') c = (Response.retCode sample_result, c') /\
    Client.results c' = Client.results c ++
      [Client.Result 9 (DataInfo.content (Response.result sample_result)) (Response.retCode sample_result)
        (Response.requestId sample_result)] /\
    segments (Ipc.os (ClientProxy.ipc (Client.px c'))) = segments (Ipc.os sender) /\
    Mem.live (Ipc.mem (ClientProxy.ipc (Client.px c'))) = Mem.live (Ipc.mem (ClientProxy.ipc (Client.px c))).
Proof.
  intros s' c. apply (async_result_delivery sample_result sender 9 c);
    [done|vm_compute; discriminate|vm_compute; repeat split; discriminate|vm_compute; split; [discriminate|done]
    |by apply sender_keys|apply listening_segments|apply listening_mem|apply (listening_listens s')].
Defined.
