(* ===== verification/ClientProps.v ===== *)
(** * ClientProps: properties of the client

    Session numbers, the connection a first session makes, how the last one takes
    leave of the server, and what happens after the server died, after a failed
    prepare and when there are too many sessions. *)

From Stdlib Require Import ZArith Lia String.
From stdpp Require Import gmap strings list.
From S2P Require Import Prelude Protocol Encdec Thread Pools Ipc ClientProxy Client EndToEnd.

#[local] Open Scope Z_scope.

Module ClientFacts.
Import Client.

Section facts.
  Context `{!IpcIo, !Shm, !Connection, !Allocator, !Securec, !Pthread, !Environment}.
  Implicit Types (s : Client.t).

(** ** Session numbers *)

Definition counter_ok s : Prop := INVALID_SESSION_ID <= sessionId_ s <= INT_MAX.

Lemma GenerateSessionId_spec s :
  counter_ok s ->
  if Z.of_nat (size (sessionInfos_ s)) <=? MAXIMUM_NUMBER_OF_SESSION then
    exists id, GenerateSessionId s = (id, s <| sessionId_ := id |>) /\ AIE_SESSION_ID_BEGIN <= id <= INT_MAX /\
      sessionInfos_ s !! id = None
  else GenerateSessionId s = (INVALID_SESSION_ID, s).
Proof.
  intros Hc. unfold GenerateSessionId. rewrite Z.ltb_antisym.
  destruct (Z.leb_spec (Z.of_nat (size (sessionInfos_ s))) MAXIMUM_NUMBER_OF_SESSION) as [Hle|Hgt]; cbn [negb]; [|done].
  unfold counter_ok, MAXIMUM_NUMBER_OF_SESSION, INVALID_SESSION_ID, INT_MAX, AIE_SESSION_ID_BEGIN in *.
  assert (- 2 ^ (32 - 1) < 0 <= 2 ^ (32 - 1) - 1) as Hlo by done.
  change (2 ^ 31 - 1) with (2 ^ (32 - 1) - 1) in *.
  assert (100 < 2 ^ (32 - 1) - 1 - 0 + 1) as Hbig by done.
  set (used := fun id => bool_decide (is_Some (sessionInfos_ s !! id))).
  destruct (bump_while_total 32 0 ltac:(done) Hlo used (dom (sessionInfos_ s)) (S (size (sessionInfos_ s))) (sessionId_ s))
    as [id Hid]; rewrite ?size_dom; try lia.
  - intros y. unfold used. rewrite bool_decide_eq_true. by rewrite elem_of_dom.
  - rewrite Hid. exists id. split; [done|].
    destruct (bump_while_some 32 0 ltac:(done) Hlo _ _ (sessionId_ s) id ltac:(lia) Hid) as [? Hu].
    split; [lia|]. unfold used in Hu. apply bool_decide_eq_false, eq_None_not_Some in Hu. done.
Qed.

(** ** A client that is connected *)

Lemma run_worker_connected n s : clientId_ s <> INVALID_CLIENT_ID -> run_worker n s = (tt, s).
Proof.
  intros Hid. induction n as [|n IH]; [done|]. cbn [run_worker]. unfold mbind, ST_bind, gets at 1 2.
  destruct (connectMgrWorker_ s) as [[cfg c]|]; [|done]. destruct (thread_active s); cbn [negb]; [|done].
  unfold OneAction, mbind, ST_bind, gets. rewrite (proj2 (Z.eqb_neq _ _) Hid). cbn. exact IH.
Qed.

Lemma WaitConnection_connected s : clientId_ s <> INVALID_CLIENT_ID -> WaitConnection s = (RETCODE_SUCCESS, s).
Proof.
  intros Hid. unfold WaitConnection, CHECK_CONNECTION_TIMES, wait_loop, mbind, ST_bind.
  rewrite run_worker_connected by done. unfold gets. by rewrite (proj2 (Z.eqb_neq _ _) Hid).
Qed.

(** ** After the death of the server *)

Lemma OnAiDead_resets s :
  sa_client s = true -> deathCb_ s = true -> clientId_ (OnAiDead s).2 = INVALID_UID.
Proof.
  intros Hc Hd. unfold OnAiDead, GetSaClient, mbind, ST_bind, gets. rewrite Hc. cbn. rewrite Hd. cbn.
  change (wp SaDeathCallback (fun _ s' => clientId_ s' = INVALID_UID) s).
  unfold SaDeathCallback, ResetClient, GetSaAsync. apply wp_bind. do 3 apply wp_bind, wp_modify. apply wp_modify.
  set (s1 := _ <| clientId_ := INVALID_UID |>). assert (clientId_ s1 = INVALID_UID) as E by done. clearbody s1.
  apply wp_bind, wp_bind, wp_gets. destruct (sa_async s1) eqn:Ea.
  - by apply wp_ret, wp_modify.
  - apply wp_bind. unfold on_mem, on_px. do 3 apply wp_on_field. unfold wp at 1. cbn. destruct (new_ok _); done.
Qed.

(** ** Callbacks *)

(** A call of the server changes the proxy's side only. *)
Definition same_callbacks s s' : Prop :=
  sa_client s' = sa_client s /\ sa_async s' = sa_async s /\ ResultCb_ s' = ResultCb_ s /\ mapCbMsg_ s' = mapCbMsg_ s /\
  results s' = results s.

Lemma on_px_callbacks {A} (m : ST ClientProxy.t A) s : wp (on_px m) (fun _ => same_callbacks s) s.
Proof. apply wp_on_field. unfold wp. done. Qed.

Lemma with_proxy_callbacks {A} none (m : ST ClientProxy.t A) s : wp (with_proxy none m) (fun _ => same_callbacks s) s.
Proof. unfold with_proxy. apply wp_bind, wp_gets. destruct (negb _); [by apply wp_ret|apply on_px_callbacks]. Qed.

Lemma LoadAlgorithm_callbacks c a i o s :
  sa_client s = true -> sa_async s = true -> wp (LoadAlgorithm c a i o) (fun _ => same_callbacks s) s.
Proof.
  intros Hc Ha. unfold LoadAlgorithm, GetSaClient, GetSaAsync.
  apply wp_bind, wp_bind, wp_gets. rewrite Hc. apply wp_ret. cbn [negb].
  apply wp_bind, wp_bind, wp_gets. rewrite Ha. apply wp_ret. cbn [negb]. apply wp_bind, wp_gets.
  destruct (_ && _); [|apply with_proxy_callbacks]. apply wp_bind. eapply wp_mono; [apply with_proxy_callbacks|].
  intros r s1 T1. cbn beta in T1. destruct (negb _); [by apply wp_ret|].
  eapply wp_mono; [apply with_proxy_callbacks|]. intros ? s2 T2. unfold same_callbacks in *. cbn beta in T2.
  intuition congruence.
Qed.

Lemma RegisterDeadCb_spec id cb s :
  sa_client s = true -> sa_async s = true ->
  wp (RegisterDeadCb id cb) (fun code s' => code = RETCODE_SUCCESS /\ sessionInfos_ s' = sessionInfos_ s /\
    clientId_ s' = clientId_ s /\ sessionId_ s' = sessionId_ s /\ deathCb_ s' = true) s.
Proof.
  intros Hc Ha. unfold RegisterDeadCb, GetSaAsync, RegisterServiceDeathCb, GetSaClient, RegisterDeadCbMsg.
  unfold wp, mbind, ST_bind, gets, modify, mret, ST_ret. rewrite Ha. cbn [negb].
  by destruct cb; cbn; rewrite Hc.
Qed.

(** Without the process-wide callback a message is read and dropped. *)
Lemma AsyncCallback_dropped data s :
  sa_client s = true -> ResultCb_ s = false ->
  wp (AsyncCallback data) (fun code s' => code = RETCODE_FAILURE /\ results s' = results s) s.
Proof.
  intros Hc Hr. unfold AsyncCallback. apply wp_bind, wp_modify. set (s0 := _ <| px ::= _ |>).
  assert (same_callbacks s s0) as T0 by done. clearbody s0.
  apply wp_bind. eapply wp_mono; [apply on_px_callbacks|]. intros ? s1 T1.
  apply wp_bind. eapply wp_mono; [apply on_px_callbacks|]. intros ? s2 T2.
  apply wp_bind. eapply wp_mono; [apply on_px_callbacks|]. intros ? s3 T3.
  apply wp_bind. eapply wp_mono; [apply on_px_callbacks|]. intros [code out] s4 T4.
  unfold same_callbacks in *. cbn beta in *.
  assert (sa_client s4 = true /\ ResultCb_ s4 = false /\ results s4 = results s) as (Hc4 & Hr4 & Hres) by intuition congruence.
  unfold GetSaClient. apply wp_bind, wp_bind, wp_gets. rewrite Hc4. apply wp_ret. cbn [negb].
  apply wp_bind, wp_gets. rewrite Hr4. cbn [negb]. apply wp_bind. eapply wp_mono; [apply on_px_callbacks|].
  intros ? s5 T5. apply wp_ret. split; [done|]. unfold same_callbacks in T5. intuition congruence.
Qed.

(** ** The first connection *)

(** The proxy's side after attempts to allocate objects. *)
Definition quiet (p p' : ClientProxy.t) : Prop :=
  exists n, p' = p <| ClientProxy.ipc ::= fun i => i <| Ipc.mem ::= fun m => m <| Mem.tick := n |> |> |>.

#[global] Instance quiet_preorder : PreOrder quiet.
Proof.
  split.
  - intros p. exists (Mem.tick (Ipc.mem (ClientProxy.ipc p))). by destruct p as [[? [] ? ?] ? ? ?].
  - intros p1 p2 p3 [n ->] [k ->]. by exists k.
Qed.

(** What starting the connection thread leaves alone. *)
Definition same_session s s' : Prop :=
  clientId_ s' = clientId_ s /\ sessionInfos_ s' = sessionInfos_ s /\ sessionId_ s' = sessionId_ s /\ proxies s' = proxies s /\
  quiet (px s) (px s').

(** Allocations and the creation of threads succeed. *)
Definition resources : Prop :=
  (forall k, new_ok k = true) /\ (forall n, pthread_attr_init n = 0) /\ (forall n, pthread_create n = 0).

Lemma on_mem_new s : resources -> exists p, quiet (px s) p /\ on_mem AIE_NEW s = (true, s <| px := p |>).
Proof. intros (Hn & _). unfold on_mem, on_px, on_field, AIE_NEW. rewrite Hn. cbn. eexists. split; [|done]. by eexists. Qed.

Lemma wp_client_new (Q : bool -> Client.t -> Prop) s :
  resources -> (forall p, quiet (px s) p -> Q true (s <| px := p |>)) -> wp (on_mem AIE_NEW) Q s.
Proof. intros HR HQ. destruct (on_mem_new s HR) as (p & Hp & E). unfold wp. rewrite E. by apply HQ. Qed.

Lemma wp_GetSaClient (Q : bool -> Client.t -> Prop) s :
  resources -> (forall p, quiet (px s) p -> Q true (s <| px := p |> <| sa_client := true |>)) -> wp GetSaClient Q s.
Proof.
  intros HR HQ. unfold GetSaClient. apply wp_bind, wp_gets. destruct (sa_client s) eqn:E.
  - apply wp_ret. specialize (HQ (px s) (PreOrder_Reflexive _)). destruct s. cbn in *. by subst.
  - apply wp_bind, wp_client_new; [done|]. intros p Hp. by apply wp_bind, wp_modify, wp_ret, HQ.
Qed.

Lemma wp_GetSaAsync (Q : bool -> Client.t -> Prop) s :
  resources -> (forall p, quiet (px s) p -> Q true (s <| px := p |> <| sa_async := true |>)) -> wp GetSaAsync Q s.
Proof.
  intros HR HQ. unfold GetSaAsync. apply wp_bind, wp_gets. destruct (sa_async s) eqn:E.
  - apply wp_ret. specialize (HQ (px s) (PreOrder_Reflexive _)). destruct s. cbn in *. by subst.
  - apply wp_bind, wp_client_new; [done|]. intros p Hp. by apply wp_bind, wp_modify, wp_ret, HQ.
Qed.

Lemma begin_start_ok n w th :
  resources -> Thread.status_ th = Thread.STOPPED ->
  exists th', Thread.begin_start n 0 (Some w) th = (true, th').
Proof.
  intros (_ & Ha & Hc) Hs. unfold Thread.begin_start. rewrite decide_False by congruence.
  unfold CreateOneThread. rewrite Ha, Hc. cbn. by eexists.
Qed.

Lemma StartThread_spec tid s p :
  resources -> threadPool s = Some p -> Thread.status_ (ThreadPool.thread_of p tid) = Thread.STOPPED ->
  connectMgrThread_ s = Some tid ->
  wp (StartThread tid) (fun ok s' => ok = true /\ thread_active s' = true /\ connectMgrWorker_ s' = connectMgrWorker_ s /\
    same_session s s') s.
Proof.
  intros HR Hp Hs Ht. unfold StartThread. apply wp_bind, wp_gets, wp_bind, wp_modify. unfold wp, on_thread_pool.
  change (threadPool (_ <| pthreads ::= S |>)) with (threadPool s). rewrite Hp.
  destruct (begin_start_ok (pthreads s) tid _ HR Hs) as [th' E]. rewrite E. cbn [fst snd]. split_and!; try done.
  unfold thread_active. cbn. rewrite Ht. unfold ThreadPool.thread_of. cbn. by rewrite lookup_insert_eq.
Qed.

Lemma InitAiServer_spec cfg c s :
  resources -> threadPool s = None ->
  wp (InitAiServer cfg c) (fun r s' => r = RETCODE_SUCCESS /\ thread_active s' = true /\
    connectMgrWorker_ s' = Some (cfg, c) /\ same_session s s') s.
Proof.
  intros HR Hp. unfold InitAiServer, GetThreadPool. apply wp_bind, wp_bind, wp_gets. rewrite Hp.
  apply wp_bind, wp_client_new; [done|]. intros p1 Q1. apply wp_bind, wp_modify, wp_ret. cbn [negb].
  apply wp_bind, wp_client_new; [done|]. intros p2 Q2. apply wp_bind. unfold wp at 1, on_thread_pool. cbn.
  apply wp_bind, wp_modify, wp_bind, wp_client_new; [done|]. intros p3 Q3. cbn [negb].
  apply wp_bind, wp_modify. set (s3 := _ <| connectMgrWorker_ := _ |>). apply wp_bind.
  eapply wp_mono; [by eapply (StartThread_spec 0%nat s3)|]. intros ok s4 (-> & A & W & E1 & E2 & E3 & E4 & Q4). cbn [negb]. apply wp_ret.
  unfold same_session. split_and!; try done. cbn in *. by do 3 (etransitivity; [eassumption|]).
Qed.

Lemma RegisterDeadCb_resources id cb s :
  resources -> wp (RegisterDeadCb id cb) (fun code s' => code = RETCODE_SUCCESS /\ sessionInfos_ s' = sessionInfos_ s /\
    clientId_ s' = clientId_ s /\ serverUid_ s' = serverUid_ s /\ sa_client s' = true /\ proxy_ s' = proxy_ s /\
    quiet (px s) (px s')) s.
Proof.
  intros HR. unfold RegisterDeadCb, RegisterServiceDeathCb, RegisterDeadCbMsg.
  apply wp_bind, wp_GetSaAsync; [done|]. intros p1 Q1. cbn [negb]. set (s1 := _ <| sa_async := true |>).
  apply wp_bind. eapply wp_mono; [instantiate (1 := fun _ s' => sessionInfos_ s' = sessionInfos_ s /\
    clientId_ s' = clientId_ s /\ serverUid_ s' = serverUid_ s /\ proxy_ s' = proxy_ s /\ quiet (px s) (px s'));
    destruct cb; apply wp_bind; [apply wp_modify|apply wp_ret]; by apply wp_ret|].
  intros ? s2 (E1 & E2 & E3 & E4 & Q2). apply wp_bind, wp_bind, wp_GetSaClient; [done|]. intros p3 Q3. cbn [negb].
  apply wp_bind, wp_modify, wp_ret. apply wp_ret. split_and!; try done. cbn. by etransitivity.
Qed.

Section connecting.
  Context `{!IpcIoLaws}.

(** The server answers a request for a client number with [id] and [uid]. *)
Definition server_answers (id uid : Z) : Prop := forall m os n, exists reply os' n',
  invoke ID_INIT_ENGINE m os n = (Some reply, os', n') /\ content reply = [I32 id; U32 uid].

Lemma InitSaEngine_spec id uid cfg c (p : ClientProxy.t) :
  server_answers id uid -> ClientProxy.Invoke p = true ->
  wp (ClientProxy.InitSaEngine cfg c) (fun r _ => r = (RETCODE_SUCCESS,
    c <| ClientInfo.clientId := id |> <| ClientInfo.serverUid := uid |>)) p.
Proof.
  intros Ha Hi. unfold ClientProxy.InitSaEngine. apply wp_bind, wp_modify, wp_bind, wp_on_field, wp_modify.
  apply wp_bind, wp_gets. set (p0 := p <| ClientProxy.ipc ::= _ |> <| ClientProxy.ipc := _ |>).
  change (ClientProxy.Invoke p0) with (ClientProxy.Invoke p). rewrite Hi. cbn [negb]. apply wp_bind. unfold wp at 1, ClientProxy.call.
  destruct (Ha (Ipc.msg (ClientProxy.ipc p0)) (Ipc.os (ClientProxy.ipc p0)) (ClientProxy.remote p0)) as (rep & os' & n' & E & C).
  rewrite E. cbn [fst snd]. apply wp_bind. unfold ClientProxy.Callback.
  apply wp_bind, wp_on_field, wp_bind. eapply wp_mono; [by eapply (IpcFacts.read_spec (I32 id))|].
  intros ? s1 (-> & C1 & _). apply wp_ret.
  apply wp_bind, wp_on_field, wp_bind. eapply wp_mono; [by eapply (IpcFacts.read_spec (U32 uid))|].
  intros ? s2 (-> & _). by repeat apply wp_ret.
Qed.

(** The request for a client number that the connection thread makes from [p0] on:
    it yields a number [id] and leaves the proxy's side in [J id]. *)
Definition requests (uid : Z) (J : Z -> ClientProxy.t -> Prop) cfg c p0 : Prop := forall p, quiet p0 p ->
  wp (ClientProxy.InitSaEngine cfg c) (fun r p' => exists id, id <> INVALID_CLIENT_ID /\
    r = (RETCODE_SUCCESS, c <| ClientInfo.clientId := id |> <| ClientInfo.serverUid := uid |>) /\ J id p')
    (p <| ClientProxy.Invoke := true |>).

Record connected (uid : Z) (J : Z -> ClientProxy.t -> Prop) s s' : Prop := {
  cn_id : clientId_ s' <> INVALID_CLIENT_ID;
  cn_uid : serverUid_ s' = uid;
  cn_client : sa_client s' = true;
  cn_proxy : proxy_ s' = true;
  cn_sessions : sessionInfos_ s' = sessionInfos_ s;
  cn_px : exists p, quiet p (px s') /\ J (clientId_ s') p;
}.

Context (HR : resources) (Hdeath : add_death_recipient = 0) (uid : Z) (J : Z -> ClientProxy.t -> Prop)
        (cfg : ConfigInfo.t).

Lemma OneAction_connects c s :
  requests uid J cfg c (px s) -> remote_unknown (proxies s) = Some true -> clientId_ s = INVALID_CLIENT_ID ->
  wp (OneAction cfg c) (fun ok s' => ok = true /\ connected uid J s s') s.
Proof using HR Hdeath.
  intros Ha Hrem Hc. unfold OneAction. apply wp_bind, wp_gets. rewrite Hc. cbn [negb Z.eqb INVALID_CLIENT_ID].
  apply wp_bind, wp_GetSaClient; [done|]. intros p Hp. cbn [negb].
  apply wp_bind. unfold Init. apply wp_bind, wp_gets, wp_bind, wp_modify.
  change (proxies (s <| px := p |> <| sa_client := true |>)) with (proxies s). rewrite Hrem. apply wp_bind, wp_modify, wp_bind, wp_on_field.
  eapply wp_mono; [by apply Ha|]. intros r p' (id & Hid & -> & HJ). cbn [fst snd].
  rewrite (proj2 (Z.eqb_neq id _)), Hdeath by done. cbn [negb orb Z.eqb RETCODE_SUCCESS]. apply wp_ret.
  apply wp_bind, wp_modify. rewrite (proj2 (Z.eqb_neq id _)) by done. cbn [negb orb Z.eqb RETCODE_SUCCESS].
  apply wp_bind, wp_modify, wp_bind, wp_modify, wp_ret. split; [done|]. split; try done. by exists p'.
Qed.

(** The check before which the connection thread runs for the first time finds the
    connection. *)
Lemma wait_loop_connects k i c s :
  (exists j, (j < k)%nat /\ actions_before_check (i + j) <> 0%nat) -> requests uid J cfg c (px s) ->
  remote_unknown (proxies s) = Some true -> clientId_ s = INVALID_CLIENT_ID ->
  connectMgrWorker_ s = Some (cfg, c) -> thread_active s = true ->
  wp (wait_loop k i) (fun r s' => r = RETCODE_SUCCESS /\ connected uid J s s') s.
Proof using HR Hdeath.
  revert i s. induction k as [|k IH]; intros i s (j & Hj & Hact) Ha Hrem Hc Hw Ht; [lia|].
  cbn [wait_loop]. apply wp_bind. destruct (actions_before_check i) as [|n] eqn:En.
  - unfold wp at 1. cbn [run_worker mret ST_ret fst snd]. apply wp_bind, wp_gets. rewrite Hc. cbn [negb Z.eqb INVALID_CLIENT_ID].
    apply IH; [|done..]. destruct j as [|j]; [by rewrite Nat.add_0_r, En in Hact|].
    exists j. split; [lia|]. by rewrite Nat.add_succ_comm.
  - cbn [run_worker]. apply wp_bind, wp_gets, wp_bind, wp_gets. rewrite Hw, Ht. cbn [negb].
    apply wp_bind. eapply wp_mono; [by apply OneAction_connects|]. intros ok s1 (-> & Hcon). unfold wp at 1.
    pose proof (cn_id _ _ _ _ Hcon) as N.
    rewrite run_worker_connected by done. cbn [fst snd]. apply wp_bind, wp_gets.
    rewrite (proj2 (Z.eqb_neq _ _) N). cbn [negb]. by apply wp_ret.
Qed.

(** A process without sessions and connection. *)
Record unconnected s : Prop := {
  uc_id : clientId_ s = INVALID_CLIENT_ID;
  uc_sessions : sessionInfos_ s = ∅;
  uc_pool : threadPool s = None;
  uc_counter : counter_ok s;
}.

Lemma ClientInit_spec c ai cb s :
  (exists j, (j < CHECK_CONNECTION_TIMES)%nat /\ actions_before_check j <> 0%nat) ->
  (forall n, requests uid J cfg (c <| ClientInfo.sessionId := n |>) (px s)) ->
  remote_unknown (proxies s) = Some true -> unconnected s -> ClientInfo.sessionId c = INVALID_SESSION_ID ->
  wp (ClientInit cfg c ai cb) (fun r s' => exists n, AIE_SESSION_ID_BEGIN <= n <= INT_MAX /\
    r = (RETCODE_SUCCESS, c <| ClientInfo.sessionId := n |> <| ClientInfo.clientId := clientId_ s' |>
                            <| ClientInfo.serverUid := uid |> <| ClientInfo.clientUid := getuid |>) /\
    connected uid J (s <| sessionInfos_ := {[n := AlgorithmInfo.algorithmType ai]} |>) s') s.
Proof using HR Hdeath.
  intros Hact Ha Hrem [Hc Hs Hp Hcnt] Hc0. pose proof (GenerateSessionId_spec s Hcnt) as G. rewrite Hs, map_size_empty in G.
  cbn [Z.leb Z.of_nat MAXIMUM_NUMBER_OF_SESSION Z.compare] in G. destruct G as (n & G & Hn & _).
  unfold ClientInit. rewrite Hc0. cbn [negb Z.eqb INVALID_SESSION_ID].
  apply wp_bind. unfold wp at 1. rewrite G. cbn [fst snd]. apply wp_bind.
  apply wp_bind, wp_gets, wp_bind, wp_modify, wp_ret. set (s1 := _ <| sessionInfos_ ::= _ |>).
  assert (sessionInfos_ s1 = {[n := AlgorithmInfo.algorithmType ai]}) as HS.
  { subst s1. cbn. by rewrite Hs, lookup_empty. }
  rewrite bool_decide_eq_true_2 by (cbn; done). apply wp_bind.
  eapply wp_mono; [by apply InitAiServer_spec|]. intros r s2 (-> & Hact2 & Hw2 & Hc2 & Hs2 & _ & Hp2 & Q2).
  cbn [negb Z.eqb RETCODE_SUCCESS]. apply wp_bind. unfold WaitConnection.
  eapply wp_mono; [eapply (wait_loop_connects _ _ (c <| ClientInfo.sessionId := n |>)); try done|].
  - intros p Qp. apply Ha. by etransitivity.
  - by rewrite Hp2.
  - by rewrite Hc2.
  - intros r s3 (-> & [C1 C2 C3 C4 C5 (p & Qp & HJ)]). cbn [negb Z.eqb RETCODE_SUCCESS].
    apply wp_bind, wp_gets, wp_bind, wp_gets, wp_bind.
    eapply wp_mono; [by apply RegisterDeadCb_resources|]. intros r s4 (-> & Hs4 & Hc4 & Hu4 & Hsa & Hpr & Q4).
    apply wp_ret. exists n. split; [done|]. rewrite Hc4. split; [by rewrite C2|].
    split; [congruence|congruence|done|congruence|by rewrite Hs4, C5, Hs2|]. exists p. rewrite Hc4. split; [by etransitivity|done].
Qed.

End connecting.

(** ** The last session *)

Section leaving.
  Context `{!IpcIoLaws, !ShmLaws, !IpcFacts.ShmReliable, !SecurecLaws}.

(** The client of [c] can send the server a message about itself. *)
Record can_tell (c : ClientInfo.t) (p : ClientProxy.t) : Prop := {
  ct_room : 239 <= room io_init;
  ct_invoke : ClientProxy.Invoke p = true;
  ct_ext : IpcFacts.di_ok (Wire.client_ext c);
  ct_key : IpcFacts.key_ok (Ipc.g_shmKey (ClientProxy.ipc p));
  ct_keys : Wire.keys_left 1 (ClientProxy.ipc p);
}.

(** The server has been told, by one message, that the client of [c] leaves. *)
Definition told (c : ClientInfo.t) (p p' : ClientProxy.t) : Prop := exists m os items,
  content m = Wire.client_header c ++ items /\ IpcFacts.carried (segments os) (Wire.client_ext c) items /\
  segments (Ipc.os (ClientProxy.ipc p)) = IpcFacts.without items (segments os) /\
  ClientProxy.remote p' = (invoke ID_DESTROY_ENGINE m os (ClientProxy.remote p)).2.

Lemma told_quiet c p p1 p2 p3 : quiet p p1 -> told c p1 p2 -> quiet p2 p3 -> told c p p3.
Proof. intros [n ->] (m & os & items & C & Car & S & R) [k ->]. exists m, os, items. by split_and!. Qed.

Lemma can_tell_quiet c p p' : quiet p p' -> can_tell c p -> can_tell c p'.
Proof. intros [n ->] []. by split. Qed.

Lemma CallbackNotify_remote r p :
  wp (ClientProxy.CallbackNotify r) (fun _ p' => ClientProxy.remote p' = ClientProxy.remote p) p.
Proof.
  unfold ClientProxy.CallbackNotify, ClientProxy.on_ipc. apply wp_bind, wp_on_field. unfold wp at 1. apply wp_bind, wp_on_field.
  unfold wp at 1. destruct (Ipc.read TU32 _) as [[[]|] i]; cbn [fst snd]; first [by apply wp_ret|by apply wp_bind, wp_modify, wp_ret].
Qed.

Lemma DestroyEngineProxy_spec c p : can_tell c p -> wp (ClientProxy.DestroyEngineProxy c) (fun _ p' => told c p p') p.
Proof.
  intros [Room Hi Hd Hk Hl]. unfold ClientProxy.DestroyEngineProxy, ClientProxy.IpcIoInit, ClientProxy.on_ipc.
  apply wp_bind, wp_modify, wp_bind, wp_on_field. eapply wp_mono; [by apply Wire.ParcelClientInfo_spec|].
  intros [] i (items & C & M & K & _ & Car & S & _). cbn in C. rewrite io_init_content in C.
  unfold ClientProxy.invoke_notify. apply wp_bind, wp_gets.
  match goal with |- wp _ _ ?s => set (p1 := s) end. change (ClientProxy.Invoke p1) with (ClientProxy.Invoke p). rewrite Hi.
  cbn [negb]. apply wp_bind. unfold wp at 1, ClientProxy.call.
  destruct (invoke ID_DESTROY_ENGINE (Ipc.msg (ClientProxy.ipc p1)) (Ipc.os (ClientProxy.ipc p1)) (ClientProxy.remote p1))
    as [[reply os'] n'] eqn:E.
  assert (forall p', ClientProxy.remote p' = n' -> told c p p') as HT.
  { intros p' R. exists (Ipc.msg i), (Ipc.os i), items. split_and!; try done.
    change (ClientProxy.remote p) with (ClientProxy.remote p1). rewrite R. change (n' = (invoke ID_DESTROY_ENGINE (Ipc.msg (ClientProxy.ipc p1))
      (Ipc.os (ClientProxy.ipc p1)) (ClientProxy.remote p1)).2). by rewrite E. }
  destruct reply as [reply|]; cbn [fst snd]; [|by apply wp_ret, HT].
  eapply wp_mono; [apply CallbackNotify_remote|]. intros ? p' R. by apply HT.
Qed.

(** The worker's farewell. *)
Lemma WorkerUninitialize_spec c s :
  resources -> proxy_ s = true -> can_tell c (px s) ->
  wp (WorkerUninitialize c) (fun _ s' => clientId_ s' = INVALID_CLIENT_ID /\ proxy_ s' = false /\
    sessionInfos_ s' = sessionInfos_ s /\ threadPool s' = threadPool s /\ connectMgrThread_ s' = connectMgrThread_ s /\
    told c (px s) (px s')) s.
Proof.
  intros HR Hp HT. unfold WorkerUninitialize. apply wp_bind, wp_GetSaClient; [done|]. intros p Q. cbn [negb].
  apply wp_bind. unfold SaDestroy. apply wp_bind, wp_gets. change (proxy_ (s <| px := p |> <| sa_client := true |>)) with (proxy_ s). rewrite Hp. cbn [negb].
  apply wp_bind, wp_on_field. eapply wp_mono; [by apply DestroyEngineProxy_spec, (can_tell_quiet _ (px s))|]. intros ? p1 T.
  apply wp_bind, wp_modify, wp_ret, wp_modify. split_and!; try done. by apply (told_quiet c (px s) p p1 p1).
Qed.

Lemma CloseAiServer_spec tid cfg c s :
  resources -> proxy_ s = true -> can_tell c (px s) -> connectMgrThread_ s = Some tid -> connectMgrWorker_ s = Some (cfg, c) ->
  thread_active s = true ->
  wp CloseAiServer (fun r s' => r = RETCODE_SUCCESS /\ clientId_ s' = INVALID_CLIENT_ID /\ proxy_ s' = false /\
    sessionInfos_ s' = sessionInfos_ s /\ connectMgrThread_ s' = None /\ connectMgrWorker_ s' = None /\
    told c (px s) (px s')) s.
Proof.
  intros HR Hp HT Ht Hw Hact. unfold CloseAiServer. apply wp_bind, wp_gets. rewrite Ht.
  apply wp_bind, wp_gets, wp_bind, wp_gets. rewrite Hact, Hw. apply wp_bind.
  unfold thread_active in Hact. rewrite Ht in Hact. destruct (threadPool s) as [pool|] eqn:Ep; [|done].
  eapply wp_mono; [by apply WorkerUninitialize_spec|]. intros ? s1 (C1 & P1 & S1 & T1 & _ & L1).
  apply wp_bind. unfold wp at 1, on_thread_pool. rewrite T1, Ep. cbn.
  apply wp_bind. unfold GetThreadPool. apply wp_bind, wp_gets. cbn. apply wp_ret. cbn [negb].
  apply wp_bind. unfold wp at 1, on_thread_pool. cbn. destruct (ThreadPool.Push _ _ _) as [[] pool2]. cbn.
  by apply wp_bind, wp_modify, wp_ret.
Qed.

Lemma UnRegisterDeadCb_spec id s :
  resources -> wp (UnRegisterDeadCb id) (fun r s' => r = RETCODE_SUCCESS /\ clientId_ s' = clientId_ s /\
    proxy_ s' = proxy_ s /\ sessionInfos_ s' = sessionInfos_ s /\ connectMgrThread_ s' = connectMgrThread_ s /\
    connectMgrWorker_ s' = connectMgrWorker_ s /\ quiet (px s) (px s')) s.
Proof.
  intros HR. unfold UnRegisterDeadCb, UnRegisterServiceDeathCb, UnRegisterDeadCbMsg.
  apply wp_bind, wp_GetSaAsync; [done|]. intros p Q1. cbn [negb]. apply wp_bind, wp_bind, wp_GetSaClient; [done|]. intros p1 Q2. cbn [negb].
  apply wp_bind, wp_modify, wp_ret, wp_bind, wp_bind, wp_modify, wp_ret, wp_ret. split_and!; try done. cbn. by etransitivity.
Qed.

(** The end of the only session. *)
Lemma ClientDestroy_spec tid cfg wc c ty s :
  resources -> proxy_ s = true -> can_tell wc (px s) -> connectMgrThread_ s = Some tid -> connectMgrWorker_ s = Some (cfg, wc) ->
  thread_active s = true -> ClientInfo.sessionId c <> INVALID_SESSION_ID -> sessionInfos_ s = {[ClientInfo.sessionId c := ty]} ->
  wp (ClientDestroy c) (fun r s' =>
    r = (RETCODE_SUCCESS, c <| ClientInfo.sessionId := INVALID_SESSION_ID |> <| ClientInfo.clientId := INVALID_CLIENT_ID |>) /\
    clientId_ s' = INVALID_CLIENT_ID /\ proxy_ s' = false /\ connectMgrThread_ s' = None /\ connectMgrWorker_ s' = None /\
    sessionInfos_ s' = ∅ /\ told wc (px s) (px s')) s.
Proof.
  intros HR Hp HT Ht Hw Hact Hc Hs.
  unfold ClientDestroy. rewrite (proj2 (Z.eqb_neq _ _) Hc). apply wp_bind. unfold EraseSessionInfo.
  apply wp_bind, wp_gets, wp_bind, wp_modify, wp_ret. rewrite Hs, lookup_singleton_eq. cbn [negb Z.eqb RETCODE_SUCCESS].
  set (s1 := _ <| sessionInfos_ ::= _ |>).
  assert (sessionInfos_ s1 = ∅) as HS by (subst s1; cbn; by rewrite Hs, delete_singleton_eq).
  apply wp_bind, wp_gets. rewrite bool_decide_eq_true_2 by done. apply wp_bind, wp_bind.
  eapply wp_mono; [by eapply (CloseAiServer_spec tid cfg wc s1)|]. intros r s2 (-> & C2 & P2 & S2 & T2 & W2 & L2).
  cbn [negb Z.eqb RETCODE_SUCCESS]. apply wp_bind, wp_gets, wp_ret. rewrite C2. cbn [negb Z.eqb INVALID_CLIENT_ID RETCODE_SUCCESS].
  apply wp_bind. eapply wp_mono; [by apply UnRegisterDeadCb_spec|]. intros r s3 (-> & C3 & P3 & S3 & T3 & W3 & Q3).
  apply wp_ret. split_and!; try done; try congruence. by apply (told_quiet wc _ (px s1) (px s2)).
Qed.

End leaving.

End facts.
End ClientFacts.

(** ** Properties *)

(** Session numbers: with up to 100 sessions (so up to 101 are admitted) a new
    session gets an unused number that is not negative, also when the 32-bit
    counter overflows; beyond that it gets INVALID_SESSION_ID and nothing changes. *)
Lemma generate_session_fresh
    `{!IpcIo, !Shm, !Connection, !Allocator, !Securec, !Pthread, !Environment} (s : Client.t) :
  INVALID_SESSION_ID <= Client.sessionId_ s <= INT_MAX ->
  if Z.of_nat (size (Client.sessionInfos_ s)) <=? MAXIMUM_NUMBER_OF_SESSION then
    exists id, Client.GenerateSessionId s = (id, s <| Client.sessionId_ := id |>) /\
      AIE_SESSION_ID_BEGIN <= id <= INT_MAX /\ Client.sessionInfos_ s !! id = None
  else Client.GenerateSessionId s = (INVALID_SESSION_ID, s).
Proof. apply ClientFacts.GenerateSessionId_spec. Qed.

(** C39. When the server dies, [ResetClient] leaves 0 for "no client", but the
    connection thread looks for -1: it does nothing any more, however often it
    runs, and a new session is told at once that it is connected. *)
Theorem dead_server_is_never_reconnected
    `{!IpcIo, !Shm, !Connection, !Allocator, !Securec, !Pthread, !Environment} (s : Client.t) :
  Client.sa_client s = true -> Client.deathCb_ s = true ->
  let s' := (Client.OnAiDead s).2 in
  Client.clientId_ s' = INVALID_UID /\ (forall n, Client.run_worker n s' = (tt, s')) /\
  Client.WaitConnection s' = (RETCODE_SUCCESS, s').
Proof.
  intros Hc Hd s'. assert (Client.clientId_ s' = INVALID_UID) as E by (by apply ClientFacts.OnAiDead_resets).
  assert (Client.clientId_ s' <> INVALID_CLIENT_ID) as N by (by rewrite E).
  split_and!; [done|intros n; by apply ClientFacts.run_worker_connected|by apply ClientFacts.WaitConnection_connected].
Qed.

(** [OneAction] publishes the client's number before the server's user: between the
    two stores another session of the process is told that it is connected and
    leaves [ClientInit] with the user of the server that was there before. *)
Lemma half_connected_session
    `{!IpcIo, !Shm, !Connection, !Allocator, !Securec, !Pthread, !Environment}
    (cfg : ConfigInfo.t) (id : Z) (c : ClientInfo.t) (a : AlgorithmInfo.t) (cb : option nat) (s : Client.t) :
  id <> INVALID_CLIENT_ID -> Client.sessionInfos_ s <> ∅ ->
  ClientInfo.sessionId c = INVALID_SESSION_ID ->
  let c' := (Client.ClientInit cfg c a cb (Client.SetClientId id s).2).1.2 in
  ClientInfo.clientId c' = id /\ ClientInfo.serverUid c' = Client.serverUid_ s.
Proof.
  intros Hid Hs Hc c'. subst c'. set (s0 := (Client.SetClientId id s).2).
  change (wp (Client.ClientInit cfg c a cb) (fun r _ => ClientInfo.clientId r.2 = id /\ ClientInfo.serverUid r.2 = Client.serverUid_ s) s0).
  set (P x := Client.clientId_ x = id /\ Client.serverUid_ x = Client.serverUid_ s /\ Client.sessionInfos_ x <> ∅).
  assert (P s0) as Hp by done. clearbody s0.
  unfold Client.ClientInit. rewrite Hc. change (INVALID_SESSION_ID =? INVALID_SESSION_ID) with true. cbn [negb].
  apply wp_bind. assert (wp Client.GenerateSessionId (fun _ => P) s0) as G.
  { unfold wp, Client.GenerateSessionId. repeat case_match; done. }
  eapply wp_mono; [exact G|]. intros n s1 (E1 & E2 & E3).
  unfold Client.AddSessionInfo. apply wp_bind, wp_bind, wp_gets, wp_bind, wp_modify, wp_ret.
  rewrite bool_decide_false by done. apply wp_bind, wp_ret. change (RETCODE_SUCCESS =? RETCODE_SUCCESS) with true. cbn [negb].
  apply wp_bind. unfold wp at 1. rewrite ClientFacts.WaitConnection_connected by (cbn; congruence). cbn [fst snd].
  change (RETCODE_SUCCESS =? RETCODE_SUCCESS) with true. cbn [negb].
  do 2 apply wp_bind, wp_gets. apply wp_bind. unfold wp. cbn. auto.
Qed.

(** C40. A synchronous session whose [ClientPrepare] fails takes the callback of the
    whole process away: whatever the server sends afterwards, also to another,
    asynchronous session, is refused and reaches no callback. *)
Theorem failed_prepare_drops_results
    `{!IpcIo, !Shm, !Connection, !Allocator, !Securec, !Pthread, !Environment}
    (c : ClientInfo.t) (a : AlgorithmInfo.t) (i o : DataInfo.t) (cb : option nat) (s : Client.t) :
  Client.sa_client s = true -> Client.sa_async s = true ->
  ClientInfo.sessionId c <> INVALID_SESSION_ID -> AlgorithmInfo.isAsync a = false ->
  (Client.ClientPrepare c a i o cb s).1.1 <> RETCODE_SUCCESS ->
  forall data, let s' := (Client.ClientPrepare c a i o cb s).2 in
  (Client.AsyncCallback data s').1 = RETCODE_FAILURE /\
  Client.results (Client.AsyncCallback data s').2 = Client.results s.
Proof.
  intros Hc Ha Hs Hsync Hcode data s'.
  assert (Client.sa_client s' = true /\ Client.ResultCb_ s' = false /\ Client.results s' = Client.results s) as (H1' & H2' & H3').
  { revert Hcode. subst s'. unfold Client.ClientPrepare. rewrite (proj2 (Z.eqb_neq _ _) Hs), Hsync.
    unfold mbind, ST_bind, mret, ST_ret. rewrite Z.eqb_refl. cbn [negb].
    pose proof (ClientFacts.LoadAlgorithm_callbacks c a i o s Hc Ha) as L. unfold wp in L.
    destruct (Client.LoadAlgorithm c a i o s) as [r s1]. cbn in L. destruct L as (L1 & L2 & L3 & L4 & L5).
    destruct (Z.eqb_spec r.1 RETCODE_SUCCESS) as [E|E]; cbn [negb fst snd]; [by intros []|intros _].
    unfold Client.UnRegisterCb, Client.GetSaAsync, Client.UnRegisterAsyncClientCb, Client.GetSaClient,
      Client.UnRegisterCbMsg, mbind, ST_bind, gets, mret, ST_ret, modify.
    rewrite L2, Ha. cbn. rewrite L1, Hc. cbn. by rewrite L1, L5. }
  destruct (ClientFacts.AsyncCallback_dropped data s' H1' H2') as [E1 E2].
  split; [done|]. exact (eq_trans E2 H3').
Qed.

(** With 101 sessions in use one more [ClientInit] of a connected client
    returns success, but the session it hands out is the invalid one: it is on
    record, [ClientDestroy] refuses it, and so the record is never empty again. *)
Lemma too_many_sessions
    `{!IpcIo, !Shm, !Connection, !Allocator, !Securec, !Pthread, !Environment}
    (cfg : ConfigInfo.t) (c : ClientInfo.t) (a : AlgorithmInfo.t) (cb : option nat) (s : Client.t) :
  Client.sa_client s = true -> Client.sa_async s = true -> Client.clientId_ s <> INVALID_CLIENT_ID ->
  ClientInfo.sessionId c = INVALID_SESSION_ID ->
  MAXIMUM_NUMBER_OF_SESSION < Z.of_nat (size (Client.sessionInfos_ s)) ->
  let '((code, c'), s') := Client.ClientInit cfg c a cb s in
  code = RETCODE_SUCCESS /\ ClientInfo.sessionId c' = INVALID_SESSION_ID /\
  is_Some (Client.sessionInfos_ s' !! INVALID_SESSION_ID) /\
  Client.ClientDestroy c' s' = ((RETCODE_FAILURE, c'), s').
Proof.
  intros Hc Ha Hid Hs Hsize.
  assert (Client.GenerateSessionId s = (INVALID_SESSION_ID, s)) as G.
  { unfold Client.GenerateSessionId. by rewrite (proj2 (Z.ltb_lt _ _) Hsize). }
  assert (bool_decide (Client.sessionInfos_ s = ∅) = false) as Hne.
  { apply bool_decide_eq_false. intros E. rewrite E, map_size_empty in Hsize. by vm_compute in Hsize. }
  assert (wp (Client.ClientInit cfg c a cb) (fun r s' => r.1 = RETCODE_SUCCESS /\
    ClientInfo.sessionId r.2 = INVALID_SESSION_ID /\ is_Some (Client.sessionInfos_ s' !! INVALID_SESSION_ID)) s) as U.
  { unfold Client.ClientInit. rewrite Hs. cbn [negb Z.eqb INVALID_SESSION_ID].
    apply wp_bind. unfold wp at 1. rewrite G. cbn [fst snd]. apply wp_bind. unfold Client.AddSessionInfo.
    apply wp_bind, wp_gets, wp_bind, wp_modify, wp_ret. rewrite Hne. set (s1 := _ <| Client.sessionInfos_ ::= _ |>).
    assert (Client.clientId_ s1 <> INVALID_CLIENT_ID) as Hid1 by done.
    assert (is_Some (Client.sessionInfos_ s1 !! INVALID_SESSION_ID)) as HS.
    { subst s1. cbn. destruct (Client.sessionInfos_ s !! INVALID_SESSION_ID) eqn:E; [by rewrite E|].
      rewrite lookup_insert_eq. by eexists. }
    assert (Client.sa_client s1 = true /\ Client.sa_async s1 = true) as [Hc1 Ha1] by done. clearbody s1.
    apply wp_bind, wp_ret. cbn [negb Z.eqb]. apply wp_bind. unfold wp at 1.
    rewrite ClientFacts.WaitConnection_connected by done. cbn [fst snd negb Z.eqb].
    apply wp_bind, wp_gets, wp_bind, wp_gets, wp_bind.
    eapply wp_mono; [by apply ClientFacts.RegisterDeadCb_spec|]. intros r s2 (-> & Hsess & _). apply wp_ret.
    by rewrite Hsess. }
  unfold wp in U. destruct (Client.ClientInit cfg c a cb s) as [[code c'] s']. destruct U as (? & Hs' & ?).
  cbn [fst snd] in *. split_and!; try done. unfold Client.ClientDestroy. by rewrite Hs'.
Qed.

(** C32. The first session of a process connects: if the server answers with a client
    number, the connection thread gets to run before one of the hundred checks and
    resources suffice, [ClientInit] returns success and the session has a fresh
    number and the client number and user of the server. *)
Theorem client_init_connects
    `{!IpcIo, !IpcIoLaws, !Shm, !Connection, !Allocator, !Securec, !Pthread, !Environment}
    (id uid : Z) (cfg : ConfigInfo.t) (c : ClientInfo.t) (a : AlgorithmInfo.t) (cb : option nat) (s : Client.t) :
  ClientFacts.resources -> ClientFacts.server_answers id uid -> id <> INVALID_CLIENT_ID -> add_death_recipient = 0 ->
  (exists j, (j < CHECK_CONNECTION_TIMES)%nat /\ actions_before_check j <> 0%nat) ->
  remote_unknown (Client.proxies s) = Some true ->
  Client.clientId_ s = INVALID_CLIENT_ID -> Client.sessionInfos_ s = ∅ -> Client.threadPool s = None ->
  ClientFacts.counter_ok s -> ClientInfo.sessionId c = INVALID_SESSION_ID ->
  let '((code, c'), s') := Client.ClientInit cfg c a cb s in
  code = RETCODE_SUCCESS /\ ClientInfo.clientId c' = id /\ ClientInfo.serverUid c' = uid /\
  ClientInfo.clientUid c' = getuid /\ AIE_SESSION_ID_BEGIN <= ClientInfo.sessionId c' <= INT_MAX /\
  Client.clientId_ s' = id /\
  Client.sessionInfos_ s' = {[ClientInfo.sessionId c' := AlgorithmInfo.algorithmType a]}.
Proof.
  intros HR Ha Hid Hd Hact Hrem Hc Hs Hp Hcnt Hc0.
  pose proof (ClientFacts.ClientInit_spec HR Hd uid (fun i _ => i = id) cfg c a cb s Hact) as U.
  unfold wp in U. destruct (Client.ClientInit cfg c a cb s) as [[code c'] s']. destruct U as (n & Hn & E & [C1 C2 C3 C4 C5 (p & _ & C6)]); [|done|by split|done|].
  - intros n p _. eapply wp_mono; [by apply (ClientFacts.InitSaEngine_spec id uid)|]. intros r p' ->. by exists id.
  - cbn [fst snd] in *. simplify_eq. split_and!; done || apply Hn.
Qed.

(** C33. Destroying the only session stops the connection thread, which takes leave
    of the server, and leaves the process without connection, so that a later
    session starts anew.  The server is called once, with [ID_DESTROY_ENGINE] and
    a message that holds the client's header and its extension, inline or in shared
    memory, and is left in the state in which that call leaves it. *)
Theorem client_destroy_disconnects
    `{!IpcIo, !IpcIoLaws, !Shm, !ShmLaws, !IpcFacts.ShmReliable, !Connection, !Allocator, !Securec, !SecurecLaws, !Pthread, !Environment}
    (tid : nat) (cfg : ConfigInfo.t) (wc c : ClientInfo.t) (ty : Z) (s : Client.t) :
  ClientFacts.resources -> Client.proxy_ s = true -> ClientFacts.can_tell wc (Client.px s) ->
  Client.connectMgrThread_ s = Some tid -> Client.connectMgrWorker_ s = Some (cfg, wc) -> Client.thread_active s = true ->
  ClientInfo.sessionId c <> INVALID_SESSION_ID -> Client.sessionInfos_ s = {[ClientInfo.sessionId c := ty]} ->
  let '((code, c'), s') := Client.ClientDestroy c s in
  code = RETCODE_SUCCESS /\ ClientInfo.sessionId c' = INVALID_SESSION_ID /\ ClientInfo.clientId c' = INVALID_CLIENT_ID /\
  Client.clientId_ s' = INVALID_CLIENT_ID /\ Client.proxy_ s' = false /\ Client.connectMgrThread_ s' = None /\
  Client.connectMgrWorker_ s' = None /\ Client.sessionInfos_ s' = ∅ /\
  exists m os items,
    content m = Wire.client_header wc ++ items /\ IpcFacts.carried (segments os) (Wire.client_ext wc) items /\
    segments (Ipc.os (ClientProxy.ipc (Client.px s))) = IpcFacts.without items (segments os) /\
    ClientProxy.remote (Client.px s') = (invoke ID_DESTROY_ENGINE m os (ClientProxy.remote (Client.px s))).2.
Proof.
  intros HR Hp HT Ht Hw Hact Hc Hs. pose proof (ClientFacts.ClientDestroy_spec tid cfg wc c ty s HR Hp HT Ht Hw Hact Hc Hs) as U.
  unfold wp in U. destruct (Client.ClientDestroy c s) as [[code c'] s']. cbn [fst snd] in U.
  destruct U as (E & ? & ? & ? & ? & ? & ?). simplify_eq. by split_and!.
Qed.

(** ** Witnesses *)

Import IpcSample.

(** A server that gives every client the number 5 of its user 9 and remembers what
    it is asked. *)
#[local] Instance answering : Connection := {|
  net := list (Z * list io_item); invoke := fun f m os n => (Some ([I32 5; U32 9] : io), os, (f, content m) :: n) |}.
#[local] Instance working_threads : Pthread := {|
  pthread_attr_init := fun _ => 0; pthread_create := fun _ => 0;
  thread_exited := fun _ => false; pthread_handle := fun n => Z.of_nat n + 1 |}.
#[local] Instance working_environment : Environment := {|
  remote_unknown := fun _ => Some true; add_death_recipient := 0;
  actions_before_check := fun i => match i with 2%nat => 1%nat | _ => 0%nat end; getuid := 1000; callback_sid := 77 |}.

Definition fresh_client : Client.t :=
  Client.ctor (ClientProxy.mk (Ipc.mk ([] : io) Mem.empty (busy : shm) SHM_KEY_START) [] true 0).
Definition new_info : ClientInfo.t := ClientInfo.zero <| ClientInfo.sessionId := INVALID_SESSION_ID |>.
Definition plain_algorithm : AlgorithmInfo.t := AlgorithmInfo.mk 1 false 2 1 false 0 0 0 None.
Definition no_config : ConfigInfo.t := ConfigInfo.mk "".
Definition connected_client : Client.t := (Client.ClientInit no_config new_info plain_algorithm None fresh_client).2.
Definition connected_info : ClientInfo.t := (Client.ClientInit no_config new_info plain_algorithm None fresh_client).1.2.
Definition crowded_client : Client.t :=
  connected_client <| Client.sa_async := true |>
    <| Client.sessionInfos_ := list_to_map ((fun i => (Z.of_nat i, 0)) <$> seq 0 101) |>.

Lemma sample_resources : ClientFacts.resources.
Proof. by split_and!. Qed.

Lemma generate_session_fresh_witness :
  if Z.of_nat (size (Client.sessionInfos_ connected_client)) <=? MAXIMUM_NUMBER_OF_SESSION then
    exists id, Client.GenerateSessionId connected_client = (id, connected_client <| Client.sessionId_ := id |>) /\
      AIE_SESSION_ID_BEGIN <= id <= INT_MAX /\ Client.sessionInfos_ connected_client !! id = None
  else Client.GenerateSessionId connected_client = (INVALID_SESSION_ID, connected_client).
Proof. apply (generate_session_fresh connected_client). vm_compute. split; discriminate. Defined.

Lemma half_connected_session_witness :
  let s := connected_client <| Client.clientId_ := INVALID_CLIENT_ID |> <| Client.serverUid_ := 3 |> in
  let c' := (Client.ClientInit no_config new_info plain_algorithm None (Client.SetClientId 6 s).2).1.2 in
  ClientInfo.clientId c' = 6 /\ ClientInfo.serverUid c' = 3.
Proof.
  set (s := _ <| Client.serverUid_ := 3 |>). change 3 with (Client.serverUid_ s).
  apply (half_connected_session no_config 6 new_info plain_algorithm None s); vm_compute; done.
Defined.

Lemma dead_server_is_never_reconnected_witness :
  let s' := (Client.OnAiDead connected_client).2 in
  Client.clientId_ s' = INVALID_UID /\ (forall n, Client.run_worker n s' = (tt, s')) /\
  Client.WaitConnection s' = (RETCODE_SUCCESS, s').
Proof. apply (dead_server_is_never_reconnected connected_client); vm_compute; reflexivity. Defined.

Definition lost_proxy : Client.t := crowded_client <| Client.proxy_ := false |>.

Lemma failed_prepare_drops_results_witness :
  let data : list io_item := [I32 0; I32 7; I32 1] in
  let s' := (Client.ClientPrepare connected_info plain_algorithm DataInfo.null DataInfo.null None lost_proxy).2 in
  (Client.AsyncCallback data s').1 = RETCODE_FAILURE /\
  Client.results (Client.AsyncCallback data s').2 = Client.results lost_proxy.
Proof.
  refine (failed_prepare_drops_results connected_info plain_algorithm DataInfo.null DataInfo.null None lost_proxy
    _ _ _ _ _ ([I32 0; I32 7; I32 1] : list io_item)); vm_compute; done.
Defined.

Lemma too_many_sessions_witness :
  let '((code, c'), s') := Client.ClientInit no_config new_info plain_algorithm None crowded_client in
  code = RETCODE_SUCCESS /\ ClientInfo.sessionId c' = INVALID_SESSION_ID /\
  is_Some (Client.sessionInfos_ s' !! INVALID_SESSION_ID) /\
  Client.ClientDestroy c' s' = ((RETCODE_FAILURE, c'), s').
Proof. apply (too_many_sessions no_config new_info plain_algorithm None crowded_client); vm_compute; done. Defined.

Lemma client_init_connects_witness :
  let '((code, c'), s') := Client.ClientInit no_config new_info plain_algorithm None fresh_client in
  code = RETCODE_SUCCESS /\ ClientInfo.clientId c' = 5 /\ ClientInfo.serverUid c' = 9 /\
  ClientInfo.clientUid c' = getuid /\ AIE_SESSION_ID_BEGIN <= ClientInfo.sessionId c' <= INT_MAX /\
  Client.clientId_ s' = 5 /\
  Client.sessionInfos_ s' = {[ClientInfo.sessionId c' := AlgorithmInfo.algorithmType plain_algorithm]}.
Proof.
  apply (client_init_connects 5 9 no_config new_info plain_algorithm None fresh_client);
    [apply sample_resources|by intros m os n; eexists _, _, _|done|done|exists 2%nat; split; [unfold CHECK_CONNECTION_TIMES; lia|done]
    |done|done|done|done|vm_compute; split; discriminate|done].
Defined.

(** What the connection thread knows of the client. *)
Definition thread_info : ClientInfo.t :=
  new_info <| ClientInfo.sessionId := 1 |> <| ClientInfo.clientId := 5 |> <| ClientInfo.serverUid := 9 |>.

Lemma client_destroy_disconnects_witness :
  let '((code, c'), s') := Client.ClientDestroy connected_info connected_client in
  code = RETCODE_SUCCESS /\ ClientInfo.sessionId c' = INVALID_SESSION_ID /\ Client.clientId_ s' = INVALID_CLIENT_ID /\
  exists items, ClientProxy.remote (Client.px s') =
    (ID_DESTROY_ENGINE, Wire.client_header thread_info ++ items) :: ClientProxy.remote (Client.px connected_client).
Proof.
  pose proof (client_destroy_disconnects 0 no_config thread_info connected_info 2 connected_client) as T.
  destruct (Client.ClientDestroy connected_info connected_client) as [[code c'] s'].
  destruct T as (? & ? & ? & ? & _ & _ & _ & _ & m & os & items & C & _ & _ & R);
    [apply sample_resources|vm_compute; reflexivity| |vm_compute; reflexivity..|vm_compute; discriminate|vm_compute; reflexivity|].
  - split; [vm_compute; discriminate|vm_compute; reflexivity|vm_compute; repeat split; discriminate
           |vm_compute; split; [discriminate|done]|vm_compute; discriminate].
  - split_and!; try done. exists items. rewrite R, <- C. reflexivity.
Defined.
