(* ===== verification/AdapterProps.v ===== *)
(** * AdapterProps: properties of the server's adapters

    Client and transaction identifiers, the queue of answers to one client, and
    what the server does with the payload of a request it refuses. *)

From Stdlib Require Import ZArith Lia String.
From stdpp Require Import gmap strings list.
From S2P Require Import Prelude Protocol Encdec Sync FutureFactory Executor Thread Pools PluginManager Ipc ClientProxy ServerAdapter SaServer EndToEnd.

#[local] Open Scope Z_scope.

Module AdapterFacts.

(** ** Identifiers *)

Definition valid_adapter (a : SaServerAdapter.t) : Prop := 1 <= SaServerAdapter.adapterId_ a <= INT_MAX.

Lemma GetTransactionId_eq a s :
  valid_adapter a -> is_s32 s -> SaServerAdapter.GetTransactionId a s = SaServerAdapter.adapterId_ a * 2 ^ 32 + s.
Proof.
  unfold valid_adapter, is_s32, SaServerAdapter.GetTransactionId, SaServerAdapter.ADAPT_ID_BIT, INT_MAX, INT_MIN.
  intros Ha Hs. rewrite (wrap_u_small 64 (SaServerAdapter.adapterId_ a)) by lia.
  rewrite Z.shiftl_mul_pow2 by lia. rewrite wrap_u_small by lia. rewrite (wrap_s_small 64 (_ * _)) by lia.
  apply wrap_s_small; lia.
Qed.

Lemma GetSessionId_eq t s : is_s32 s -> t mod 2 ^ 32 = s mod 2 ^ 32 -> SaServerAdapter.GetSessionId t = s.
Proof.
  unfold is_s32, INT_MAX, INT_MIN, SaServerAdapter.GetSessionId. intros Hs Ht.
  change SaServerAdapter.TRANS_ID_MASK with (Z.ones 32). rewrite Z.land_ones by lia.
  assert (u64 t mod 2 ^ 32 = t mod 2 ^ 32) as ->.
  { unfold wrap_u. rewrite (Z.div_mod t (2 ^ 64)) at 2 by lia.
    replace (2 ^ 64 * (t / 2 ^ 64) + t mod 2 ^ 64) with (t mod 2 ^ 64 + (2 ^ 32 * (t / 2 ^ 64)) * 2 ^ 32) by lia.
    by rewrite Z.mod_add by lia. }
  rewrite Ht. unfold wrap_s. rewrite Zplus_mod_idemp_l. change (2 ^ (32 - 1)) with (2 ^ 31).
  rewrite Z.mod_small by lia. lia.
Qed.

(** ** The queue of answers *)

Import ClientListenerHandler.

(** The critical sections of the producer and the two of the consumer. *)
Inductive op := Add (r : Response.t) | First | Second (expired : bool).

(** One section; the answer a fetch took is the second component. *)
Definition run_op (o : op) (h : t) : t * list Response.t :=
  match o with
  | Add r => ((AddCallbackRecord r h).2, [])
  | First => let '(r, h') := Fetch_first h in (h', option_list r)
  | Second e => let '(r, h') := Fetch_second e h in (h', option_list (mjoin r))
  end.

Fixpoint run_ops (os : list op) (h : t) : t * list Response.t :=
  match os with
  | [] => (h, [])
  | o :: os' => let '(h1, out) := run_op o h in let '(h2, out') := run_ops os' h1 in (h2, out ++ out')
  end.

Definition added (os : list op) : list Response.t := omap (fun o => match o with Add r => Some r | _ => None end) os.

Definition flag_ok (h : t) : Prop := Event.flag_ (event_ h) = negb (bool_decide (responses_ h = [])).

Lemma pop_front_spec h :
  flag_ok h -> wp pop_front (fun r h' => flag_ok h' /\ responses_ h = option_list r ++ responses_ h') h.
Proof.
  unfold flag_ok, pop_front. intros F. apply wp_bind, wp_gets. destruct (responses_ h) as [|x l] eqn:E.
  - apply wp_ret. by rewrite E, F.
  - apply wp_bind, wp_modify. cbn beta. apply wp_bind. destruct l as [|y l]; [by apply wp_bind, wp_on_field|].
    by apply wp_ret, wp_ret.
Qed.

Lemma AddCallbackRecord_spec r h :
  flag_ok h -> wp (AddCallbackRecord r) (fun _ h' => flag_ok h' /\ responses_ h' = responses_ h ++ [r]) h.
Proof.
  unfold flag_ok, AddCallbackRecord. intros F. apply wp_bind, wp_gets, wp_bind, wp_modify. cbn beta.
  assert (bool_decide (responses_ h ++ [r] = []) = false) as B.
  { apply bool_decide_eq_false_2. by destruct (responses_ h). }
  destruct (bool_decide (responses_ h = [])); cbn [negb] in *.
  - apply wp_bind, wp_on_field. unfold wp. cbn. by rewrite B.
  - apply wp_ret. cbn. by rewrite B.
Qed.

Lemma run_op_spec o h :
  flag_ok h -> flag_ok (run_op o h).1 /\
  responses_ h ++ added [o] = (run_op o h).2 ++ responses_ (run_op o h).1.
Proof.
  intros F. destruct o as [r| |e]; cbn.
  - destruct (AddCallbackRecord_spec r h F) as [? ->]. done.
  - pose proof (pop_front_spec h F) as P. unfold wp, Fetch_first in *. destruct (pop_front h) as [r h']. cbn in *.
    rewrite app_nil_r. naive_solver.
  - unfold Fetch_second. rewrite app_nil_r. destruct (Event.Wait _ e (event_ h)) as [[|]|]; cbn; try done.
    pose proof (pop_front_spec h F) as P. unfold wp in P. destruct (pop_front h) as [r h']. cbn in *. naive_solver.
Qed.

Lemma run_ops_spec os h :
  flag_ok h -> flag_ok (run_ops os h).1 /\
  responses_ h ++ added os = (run_ops os h).2 ++ responses_ (run_ops os h).1.
Proof.
  revert h. induction os as [|o os IH]; intros h F; cbn -[added]; [by rewrite app_nil_r|].
  destruct (run_op_spec o h F) as [F1 E1]. destruct (run_op o h) as [h1 out]. cbn -[added] in F1, E1.
  destruct (IH h1 F1) as [F2 E2]. destruct (run_ops os h1) as [h2 out']. cbn -[added] in F2, E2 |- *. split; [done|].
  trans ((responses_ h ++ added [o]) ++ added os); [rewrite <- app_assoc; by destruct o|].
  by rewrite E1, <- app_assoc, E2, app_assoc.
Qed.

Lemma FindValidClientId_spec `{!Algorithm} (s : Adapters.t) :
  0 <= Adapters.g_clientIdAtomic s <= INT_MAX ->
  wp Adapters.FindValidClientId (fun id s' => (id = INVALID_CLIENT_ID /\ s' = s) \/
    (1 <= id <= INT_MAX /\ Adapters.g_saServerAdapters s !! id = None /\ s' = s <| Adapters.g_clientIdAtomic := id |>)) s.
Proof.
  intros Hc. unfold wp, Adapters.FindValidClientId. destruct (_ <? _); [by left|].
  destruct (bump_while _ _ _ _ _) as [id|] eqn:B; [|by left]. right.
  unfold Adapters.STARTING_CLIENT_ID, INT_MAX in *.
  apply bump_while_some in B as [Hr Hn]; [|lia..]. apply bool_decide_eq_false in Hn.
  rewrite <- eq_None_not_Some in Hn. cbn. split_and!; done || lia.
Qed.

End AdapterFacts.

(** C37. Transaction numbers tell clients and sessions apart: from a transaction
    number the session comes back, also a negative one, and two pairs of client
    and session never share a number. *)
Theorem transaction_id_bijective (a a' : SaServerAdapter.t) (s s' : Z) :
  AdapterFacts.valid_adapter a -> AdapterFacts.valid_adapter a' -> is_s32 s -> is_s32 s' ->
  SaServerAdapter.GetSessionId (SaServerAdapter.GetTransactionId a s) = s /\
  (SaServerAdapter.GetTransactionId a s = SaServerAdapter.GetTransactionId a' s' ->
   SaServerAdapter.adapterId_ a = SaServerAdapter.adapterId_ a' /\ s = s').
Proof.
  intros Ha Ha' Hs Hs'. rewrite !AdapterFacts.GetTransactionId_eq by done. split.
  - apply AdapterFacts.GetSessionId_eq; [done|]. rewrite Z.add_comm. by rewrite Z.mod_add by lia.
  - unfold is_s32, INT_MAX, INT_MIN in *. lia.
Qed.

Lemma transaction_id_bijective_witness :
  SaServerAdapter.GetSessionId (SaServerAdapter.GetTransactionId (SaServerAdapter.ctor 5) (-7)) = -7 /\
  (SaServerAdapter.GetTransactionId (SaServerAdapter.ctor 5) (-7) = SaServerAdapter.GetTransactionId (SaServerAdapter.ctor 4) 1 ->
   5 = 4 /\ -7 = 1).
Proof.
  apply (transaction_id_bijective (SaServerAdapter.ctor 5) (SaServerAdapter.ctor 4) (-7) 1);
    vm_compute; split; discriminate.
Defined.

(** C38. Whatever the interleaving of the thread that adds answers and the thread
    that fetches them, with waits that end by the event or by the timeout, the
    answers come out in the order they went in, none is lost or doubled, and the
    event is set exactly while answers are waiting. *)
Theorem listener_fifo (ops : list AdapterFacts.op) :
  let '(h, fetched) := AdapterFacts.run_ops ops ClientListenerHandler.ctor in
  AdapterFacts.added ops = fetched ++ ClientListenerHandler.responses_ h /\
  Event.IsSet (ClientListenerHandler.event_ h) = negb (bool_decide (ClientListenerHandler.responses_ h = [])).
Proof.
  destruct (AdapterFacts.run_ops_spec ops ClientListenerHandler.ctor eq_refl) as [F E].
  by destruct (AdapterFacts.run_ops ops ClientListenerHandler.ctor) as [h out].
Qed.

(** A new client gets an unused positive number, at most 2147483647, also when
    the counter wraps, and its adapter is filed under it; the others keep
    theirs.  A refusal changes no adapter. *)
Lemma generate_client_fresh `{!Allocator, !Algorithm} (s : Adapters.t) :
  0 <= Adapters.g_clientIdAtomic s <= INT_MAX ->
  let '(id, s') := Adapters.GenerateClient s in
  (id = INVALID_CLIENT_ID /\ Adapters.g_saServerAdapters s' = Adapters.g_saServerAdapters s) \/
  (1 <= id <= INT_MAX /\ Adapters.g_saServerAdapters s !! id = None /\
   Adapters.g_saServerAdapters s' = <[id := SaServerAdapter.ctor id]> (Adapters.g_saServerAdapters s) /\
   0 <= Adapters.g_clientIdAtomic s' <= INT_MAX).
Proof.
  intros Hc. pose proof (AdapterFacts.FindValidClientId_spec s Hc) as F. unfold wp in F.
  unfold Adapters.GenerateClient, mbind, ST_bind. destruct (Adapters.FindValidClientId s) as [id s1]. cbn in F.
  destruct F as [[-> ->]|(Hr & Hn & ->)]; [by left|].
  rewrite (proj2 (Z.eqb_neq _ _)) by (unfold INVALID_CLIENT_ID; lia).
  unfold Adapters.AllocateClientAdapter, mbind, ST_bind, Adapters.on_mem, Adapters.on_exec, Executor.on_mem, on_field, AIE_NEW. cbn.
  destruct (new_ok _); cbn; [right|by left]. split_and!; done || lia.
Qed.

Definition wrapping_adapters : @Adapters.t (ExecSample.echo PLUGIN_SYNC_INFER) :=
  Adapters.mk (Executor.init Mem.empty SaAsyncHandler.ctor) {[1 := SaServerAdapter.ctor 1]} INT_MAX true.

Lemma generate_client_fresh_witness :
  let '(id, s') := @Adapters.GenerateClient always_alloc _ wrapping_adapters in
  (id = INVALID_CLIENT_ID /\ Adapters.g_saServerAdapters s' = Adapters.g_saServerAdapters wrapping_adapters) \/
  (1 <= id <= INT_MAX /\ Adapters.g_saServerAdapters wrapping_adapters !! id = None /\
   Adapters.g_saServerAdapters s' = <[id := SaServerAdapter.ctor id]> (Adapters.g_saServerAdapters wrapping_adapters) /\
   0 <= Adapters.g_clientIdAtomic s' <= INT_MAX).
Proof. apply (@generate_client_fresh always_alloc _ wrapping_adapters). vm_compute. split; discriminate. Defined.

Lemma generate_client_wraps : (@Adapters.GenerateClient always_alloc _ wrapping_adapters).1 = 2.
Proof. vm_compute. done. Qed.

(** ** Refused requests *)

Module ServerFacts.
Import SaServer.

Section facts.
  Context `{!Allocator, !DynLib, !Pthread, !Algorithm, !IpcIo, !IpcIoLaws, !Shm, !ShmLaws, !IpcFacts.ShmReliable,
            !Securec, !SecurecLaws}.
  Context (malloc_works : malloc_serves).

Lemma mem_set_mem m s : mem (set_mem m s) = m.
Proof. done. Qed.

Lemma wp_on_req {A} (m : ST Ipc.t A) Q s :
  wp m (fun a i => Q a (set_mem (Ipc.mem i) (s <| req := Ipc.msg i |> <| os := Ipc.os i |> <| g_shmKey := Ipc.g_shmKey i |>)))
    (Ipc.mk (req s) (mem s) (os s) (g_shmKey s)) ->
  wp (on_req m) Q s.
Proof. unfold wp, on_req. by destruct (m _). Qed.

Lemma wp_on_reply {A} (m : ST Ipc.t A) Q s :
  wp m (fun a i => Q a (set_mem (Ipc.mem i) (s <| reply := Ipc.msg i |> <| os := Ipc.os i |> <| g_shmKey := Ipc.g_shmKey i |>)))
    (Ipc.mk (reply s) (mem s) (os s) (g_shmKey s)) ->
  wp (on_reply m) Q s.
Proof. unfold wp, on_reply. by destruct (m _). Qed.

(** Replies without data leave the heap alone. *)
Lemma reply_code_spec code s : wp (on_reply (Ipc.WriteInt32 code)) (fun _ s' => mem s' = mem s) s.
Proof. by apply wp_on_reply, wp_modify. Qed.
Lemma reply_null_spec uid s : wp (on_reply (Ipc.ParcelDataInfo DataInfo.null uid)) (fun _ s' => mem s' = mem s) s.
Proof. by apply wp_on_reply, wp_bind, wp_modify, wp_ret. Qed.

Lemma free_spec_server b s X :
  mem_wf (mem s) -> Mem.live (mem s) = IpcFacts.owned b ∪ X -> IpcFacts.owned b ## X ->
  wp (on_mem (free (DataInfo.data b))) (fun _ s' => mem_wf (mem s') /\ Mem.live (mem s') = X) s.
Proof.
  intros W L D. unfold on_mem, on_adapters, Adapters.on_mem, Adapters.on_exec, Executor.on_mem.
  do 4 apply wp_on_field. unfold IpcFacts.owned in *. destruct (DataInfo.data b) as [blk|].
  - eapply wp_mono; [apply (free_spec blk (mem s) X); [done|done|set_solver]|]. by intros ? m (? & ? & ?).
  - unfold wp. cbn. split; [done|]. unfold mem, Executor.mem in L. rewrite L. apply leibniz_equiv. set_solver.
Qed.

(** The refusal as the server sees it: the wrapper changes nothing. *)
Definition refused (c : ClientInfo.t) (a : AlgorithmInfo.t) (s : t) : Prop :=
  AlgorithmInfo.isAsync a = true \/ Adapters.g_saServerAdapters (adapters s) !! ClientInfo.clientId c = None.

Lemma wrapper_refuses fuel c a d s :
  refused c a s -> exists code, code <> RETCODE_SUCCESS /\
    Adapters.SyncExecAlgoWrapper fuel (Some c) (Some a) d (adapters s) = (Some (code, DataInfo.null), adapters s).
Proof.
  intros [Ha|Hn]; unfold Adapters.SyncExecAlgoWrapper.
  - rewrite Ha. by exists RETCODE_WRONG_INFER_MODE.
  - destruct (AlgorithmInfo.isAsync a); [by exists RETCODE_WRONG_INFER_MODE|]. exists RETCODE_NO_CLIENT_FOUND. split; [done|].
    unfold mbind, ST_bind, Adapters.FindAdapter, gets. by rewrite Hn.
Qed.

(** The rest of [InvokeSyncExecute] once the wrapper has refused. *)
Definition answer_refused (c : ClientInfo.t) (a : AlgorithmInfo.t) (code : Z) : ST t (option Z) :=
  on_reply (Ipc.WriteInt32 code) ;; on_reply (Ipc.ParcelDataInfo DataInfo.null (ClientInfo.clientUid c)) ;;
  on_mem (FreeDataInfo DataInfo.null) ;; on_mem (FreeClientInfo c) ;; on_mem (FreeAlgorithmInfo a) ;; mret (Some code).

Lemma answer_refused_spec c a code X s :
  mem_wf (mem s) ->
  Mem.live (mem s) = IpcFacts.owned (Wire.client_ext c) ∪ IpcFacts.owned (Wire.algorithm_ext a) ∪ X ->
  IpcFacts.owned (Wire.client_ext c) ## IpcFacts.owned (Wire.algorithm_ext a) ->
  IpcFacts.owned (Wire.client_ext c) ## X -> IpcFacts.owned (Wire.algorithm_ext a) ## X ->
  wp (answer_refused c a code) (fun r s' => r = Some code /\ Mem.live (mem s') = X) s.
Proof.
  intros W L D1 D2 D3. unfold answer_refused.
  apply wp_bind. eapply wp_mono; [apply reply_code_spec|]. intros ? s2 M2; cbn beta in M2.
  apply wp_bind. eapply wp_mono; [apply reply_null_spec|]. intros ? s3 M3; cbn beta in M3. rewrite M2 in M3.
  apply wp_bind. eapply wp_mono; [apply (free_spec_server DataInfo.null s3 (Mem.live (mem s3)));
    [by rewrite M3|apply leibniz_equiv; set_solver|set_solver]|]. intros ? s4 (W4 & L4). rewrite M3, L in L4.
  apply wp_bind. eapply wp_mono; [apply (free_spec_server (Wire.client_ext c) s4 (IpcFacts.owned (Wire.algorithm_ext a) ∪ X));
    [done|rewrite L4; apply leibniz_equiv; set_solver|set_solver]|]. intros ? s5 (W5 & L5).
  apply wp_bind. eapply wp_mono; [by apply (free_spec_server (Wire.algorithm_ext a) s5 X)|]. intros ? s6 (_ & L6).
  by apply wp_ret.
Qed.

Lemma wp_on_adapters_pure {A} (m : ST Adapters.t A) r Q s :
  m (adapters s) = (r, adapters s) -> Q r s -> wp (on_adapters m) Q s.
Proof. intros E HQ. unfold wp, on_adapters, on_field. rewrite E. by destruct s. Qed.

Lemma InvokeSyncExecute_refused fuel c a d i1 i2 i3 s0 s :
  content (req s) = Wire.request_items c a d i1 i2 i3 -> mem_wf (mem s) ->
  IpcFacts.carried (segments (os s)) (Wire.client_ext c) i1 ->
  IpcFacts.carried (IpcFacts.without i1 (segments (os s))) (Wire.algorithm_ext a) i2 ->
  IpcFacts.carried (IpcFacts.without i2 (IpcFacts.without i1 (segments (os s)))) d i3 ->
  s0 = IpcFacts.without i3 (IpcFacts.without i2 (IpcFacts.without i1 (segments (os s)))) ->
  refused c a s ->
  wp (InvokeSyncExecute fuel) (fun r s' => (exists code, r = Some code /\ code <> RETCODE_SUCCESS) /\
    exists d', DataInfo.length d' = DataInfo.length d /\ DataInfo.content d' = DataInfo.content d /\
      Mem.live (mem s') = IpcFacts.owned d' ∪ Mem.live (mem s) /\ IpcFacts.owned d' ## Mem.live (mem s)) s.
Proof.
  intros C W Car1 Car2 Car3 E Href. rewrite <- (app_nil_r (Wire.request_items _ _ _ _ _ _)) in C.
  unfold InvokeSyncExecute. apply wp_bind, wp_on_req.
  eapply wp_mono; [by apply (Wire.UnParcelInfo_spec malloc_works c a d s0 _ i1 i2 i3 [])|].
  intros x i (c' & a' & d' & -> & Sc & Sa & Ld & Cd & _ & _ & (W' & L & D & _) & D1 & D2). cbn in W', L, D.
  destruct Sc as [Hc _], Sa as [Ha _]. unfold Wire.client_header, Wire.algorithm_header in Hc, Ha. simplify_eq.
  set (s1 := set_mem _ _). assert (refused c' a' s1) as Href1.
  { unfold refused. cbn. destruct Href as [Hr|Hr]; [left; congruence|right; congruence]. }
  assert (mem s1 = Ipc.mem i) as M1 by done. clearbody s1. rewrite <- M1 in W', L.
  destruct (wrapper_refuses fuel c' a' d' s1 Href1) as (code & Hcode & Hw).
  assert (wp (answer_refused c' a' code) (fun r s' => r = Some code /\
    Mem.live (mem s') = IpcFacts.owned d' ∪ Mem.live (mem s)) s1) as T.
  { apply answer_refused_spec; [done|rewrite L; apply leibniz_equiv|..]; clear -D D1 D2; set_solver. }
  cbn [negb Z.eqb]. apply wp_bind, wp_on_adapters_pure with (1 := Hw).
  eapply wp_mono; [exact T|]. intros r s2 [-> Hl]. split; [by exists code|].
  exists d'. split_and!; [done|done|done|clear -D; set_solver].
Qed.

End facts.

Lemma owned_nonempty d d' :
  IpcFacts.di_ok d -> 0 < DataInfo.length d -> DataInfo.content d' = DataInfo.content d ->
  exists b, IpcFacts.owned d' = {[b]}.
Proof.
  unfold IpcFacts.di_ok, IpcFacts.owned, DataInfo.content. intros Hd Hl.
  destruct (DataInfo.data d) as [blk|]; [|lia]. cbn. destruct (DataInfo.data d') as [b'|]; cbn; intros E.
  - by exists (Block.addr b').
  - rewrite <- E in Hd. change (zlen []) with 0 in Hd. lia.
Qed.
End ServerFacts.

(** A synchronous request that the server refuses (the algorithm is marked
    asynchronous or the client is unknown) is answered with an error code, but
    the block holding its input stays allocated: one block more after each. *)
Theorem refused_sync_request_leaks_input
    `{!Allocator, !DynLib, !Pthread, !Algorithm, !IpcIo, !IpcIoLaws, !Shm, !ShmLaws, !IpcFacts.ShmReliable,
      !Securec, !SecurecLaws}
    (fuel : nat) (c : ClientInfo.t) (a : AlgorithmInfo.t) (d : DataInfo.t) (s : Ipc.t) (r : SaServer.t) :
  malloc_serves ->
  content (Ipc.msg s) = [] -> 700 <= room (Ipc.msg s) -> IpcFacts.key_ok (Ipc.g_shmKey s) -> Wire.keys_left 3 s ->
  IpcFacts.di_ok (Wire.client_ext c) -> IpcFacts.di_ok (Wire.algorithm_ext a) -> IpcFacts.di_ok d -> 0 < DataInfo.length d ->
  mem_wf (SaServer.mem r) ->
  let s' := (ClientProxy.ParcelRequest c a d s).2 in
  content (SaServer.req r) = content (Ipc.msg s') -> segments (SaServer.os r) = segments (Ipc.os s') ->
  ServerFacts.refused c a r ->
  let '(code, r') := SaServer.InvokeSyncExecute fuel r in
  (exists n, code = Some n /\ n <> RETCODE_SUCCESS) /\
  exists b, b ∉ Mem.live (SaServer.mem r) /\ Mem.live (SaServer.mem r') = {[b]} ∪ Mem.live (SaServer.mem r).
Proof.
  intros HM C0 Hr Hk Hl Hc Ha Hd Hlen W s' C S Href.
  destruct (Wire.ParcelRequest_spec c a d s Hr Hc Ha Hd Hk Hl) as (i1 & i2 & i3 & C' & _ & Car1 & Car2 & Car3 & Seg).
  fold s' in C', Car1, Car2, Car3, Seg. rewrite <- S in Car1, Car2, Car3, Seg. rewrite C0 in C'. rewrite C' in C.
  pose proof (ServerFacts.InvokeSyncExecute_refused HM fuel c a d i1 i2 i3 _ r C W Car1 Car2 Car3 eq_refl Href) as U.
  unfold wp in U. destruct (SaServer.InvokeSyncExecute fuel r) as [code r']. cbn in U.
  destruct U as (Hcode & d' & Ld & Cd & Live & D). split; [done|].
  destruct (ServerFacts.owned_nonempty d d' Hd Hlen Cd) as (b & Eb). rewrite Eb in Live, D.
  exists b. split; [set_solver|done].
Qed.

(** ** Witness *)

Import IpcSample ExecSample.
#[local] Instance sample_algorithms : Algorithm := echo PLUGIN_SYNC_INFER.

Definition sample_server (s : Ipc.t) : SaServer.t :=
  SaServer.mk (Adapters.mk (Executor.init Mem.empty SaAsyncHandler.ctor) ∅ 0 true) (Ipc.os s) SHM_KEY_START (Ipc.msg s) io_init.

Lemma server_content s : content (SaServer.req (sample_server s)) = content (Ipc.msg s).
Proof. done. Qed.
Lemma server_segments s : segments (SaServer.os (sample_server s)) = segments (Ipc.os s).
Proof. done. Qed.
Lemma server_mem s : mem_wf (SaServer.mem (sample_server s)).
Proof. apply mem_wf_empty. Qed.
Lemma server_refuses s : ServerFacts.refused sample_client sample_algorithm (sample_server s).
Proof. by left. Qed.

Lemma refused_sync_request_leaks_input_witness :
  let r := sample_server (ClientProxy.ParcelRequest sample_client sample_algorithm large sender).2 in
  let '(code, r') := SaServer.InvokeSyncExecute 0 r in
  (exists n, code = Some n /\ n <> RETCODE_SUCCESS) /\
  exists b, b ∉ Mem.live (SaServer.mem r) /\ Mem.live (SaServer.mem r') = {[b]} ∪ Mem.live (SaServer.mem r).
Proof.
  intros r. apply (refused_sync_request_leaks_input 0 sample_client sample_algorithm large sender r);
    [done|done|vm_compute; discriminate|vm_compute; split; [discriminate|done]|by apply sender_keys
    |vm_compute; repeat split; discriminate..|vm_compute; reflexivity|apply server_mem|apply server_content
    |apply server_segments|apply server_refuses].
Defined.
