(* ===== verification/SyncCall.v ===== *)
(** * SyncCall: a synchronous call from the client's proxy to the algorithm and back

    The proxy of sa_client_proxy.cpp, the messages, sa_server.c, the adapter, the
    executor with the engine's worker, and the algorithm behind [IPlugin], put
    together: the server of [SaServer] is the other end of the client's
    [Connection].  The server runs its requests on one task, so the queue of a
    synchronous engine is empty whenever a request arrives. *)

From Stdlib Require Import ZArith Lia String.
From stdpp Require Import gmap strings list.
From S2P Require Import Prelude Protocol Encdec Sync Queue Thread Pools PluginManager FutureFactory Executor ExecutorProps Ipc ClientProxy ServerAdapter SaServer EndToEnd AdapterProps.

#[local] Open Scope Z_scope.

(** The connection of a client whose server is this one: the request is handed to
    [Invoke] with an empty reply; a call that is not answered has no reply. *)
Section connection.
  Context `{!Allocator, !DynLib, !Pthread, !Algorithm, !IpcIo, !Shm, !Securec, !Outgoing}.
  Context (getuid : Z) (fuel : nat) (now : Z).

Definition server_invoke (funcId : Z) (request : io) (kernel : shm) (s : SaServer.t) : option io * shm * SaServer.t :=
  let '(answered, s') := SaServer.Invoke getuid fuel now funcId
    (s <| SaServer.os := kernel |> <| SaServer.req := request |> <| SaServer.reply := io_init |>) in
  (if (answered : bool) then Some (SaServer.reply s') else None, SaServer.os s', s').

Definition server_connection : Connection := {| net := SaServer.t; invoke := server_invoke |}.

End connection.

Module SyncCallFacts.
Import Executor ExecutorFacts.

(** ** What the algorithm does *)

Definition result_owned (resp : option Response.t) : gset nat :=
  match resp with Some y => IpcFacts.owned (Response.result y) | None => ∅ end.

(** The bytes of a response. *)
Definition result_bytes (resp : option Response.t) : option (list Z) := DataInfo.content <$> (Response.result <$> resp).

(** The objects of the algorithms have blocks of their own, [own].  A call for
    the bytes of [d] in the state [g] is safe if, whatever else is on the heap, it
    uses only those, leaves the blocks of others alone and hands its result over
    in a new block; [Q] is what it does.  A call that is [tight] leaves no other
    block behind. *)
Definition safe_call `{!Algorithm} (own : algorithms -> gset nat) (tight : Prop) (algo : nat) (g : algorithms) (d : DataInfo.t)
    (Q : Z -> option Response.t -> algorithms -> Prop) : Prop := forall r m,
  mem_wf m -> own g ⊆ Mem.live m -> IpcFacts.owned (Request.msg r) ⊆ Mem.live m ∖ own g ->
  DataInfo.content (Request.msg r) = DataInfo.content d -> DataInfo.length (Request.msg r) = DataInfo.length d ->
  exists code resp g' m', sync_process algo r (g, m) = ((code, resp), (g', m')) /\ Q code resp g' /\
    mem_wf m' /\ own g' ⊆ Mem.live m' /\
    result_owned resp ∪ (Mem.live m ∖ own g) ⊆ Mem.live m' ∖ own g' /\ result_owned resp ## Mem.live m ∖ own g /\
    (forall y, resp = Some y -> IpcFacts.di_ok (Response.result y)) /\
    (tight -> Mem.live m' ∖ own g' = result_owned resp ∪ (Mem.live m ∖ own g) /\ Mem.bad_frees m' = Mem.bad_frees m).

Definition reply_code (code : Z) : Z := if code =? RETCODE_SUCCESS then RETCODE_SUCCESS else RETCODE_ALGORITHM_PROCESS_ERROR.

(** The output a client is told of. *)
Definition reply_bytes (x : Z * option (list Z)) : list Z :=
  if x.1 =? RETCODE_SUCCESS then default [] x.2 else [].

(** ** The executor *)

Section executor.
  Context {X : Type} `{!Allocator, !DynLib, !Pthread, !Algorithm} (OnReply : nat -> Future.t -> ST X unit).
  Context (new_works : forall k, new_ok k = true).
  Implicit Types (w : @world X _).

(** Only the heap, the notifiers, the queues and the states of the algorithms
    have changed. *)
Definition called (g : algorithms) (m : Mem.t) w w' : Prop := exists ns k pool,
  w' = w <| futures ::= (fun f => f <| FutureFactory.mem := m |>) |> <| notifiers := ns |> <| next_notifier := k |>
         <| queuePool := pool |> <| plugin_states := g |>.

Lemma called_intro m w ns k pool g :
  called g m w (w <| futures ::= (fun f => f <| FutureFactory.mem := m |>) |> <| notifiers := ns |> <| next_notifier := k |>
                  <| queuePool := pool |> <| plugin_states := g |>).
Proof. by exists ns, k, pool. Qed.

Ltac called_self w := exists (notifiers w), (next_notifier w), (queuePool w); by destruct w as [[] ? ? ? ? ? ? ? ? ? ? ?].

Lemma called_refl w : called (plugin_states w) (mem w) w w.
Proof. called_self w. Qed.

Lemma called_trans g1 g2 m1 m2 w w1 w2 : called g1 m1 w w1 -> called g2 m2 w1 w2 -> called g2 m2 w w2.
Proof. intros (ns & k & p & ->) (ns2 & k2 & p2 & ->). by exists ns2, k2, p2. Qed.

Lemma called_queue w pool : called (plugin_states w) (mem w) w (w <| queuePool := pool |>).
Proof. exists (notifiers w), (next_notifier w), pool. by destruct w as [[] ? ? ? ? ? ? ? ? ? ? ?]. Qed.

Lemma called_notifiers w ns k : called (plugin_states w) (mem w) w (w <| next_notifier := k |> <| notifiers := ns |>).
Proof. exists ns, k, (queuePool w). by destruct w as [[] ? ? ? ? ? ? ? ? ? ? ?]. Qed.

Lemma called_mem g m w w' : called g m w w' -> mem w' = m.
Proof. by intros (? & ? & ? & ->). Qed.

Lemma called_states g m w w' : called g m w w' -> plugin_states w' = g.
Proof. by intros (? & ? & ? & ->). Qed.

(** A response the handler makes itself costs an allocation. *)
Definition heap_after (resp : option Response.t) (m : Mem.t) : Mem.t :=
  match resp with Some _ => m | None => m <| Mem.tick ::= S |> end.

Definition final (r : Request.t) (code : Z) (resp : option Response.t) : Response.t :=
  Response.SetRetCode (reply_code code) (default (Response.ctor (Some r)) resp).

Lemma SyncProcess_exact qid algo r n w code resp g m' :
  sync_process algo r (plugin_states w, mem w) = ((code, resp), (g, m')) -> notifiers w !! n = Some SimpleEventNotifier.ctor ->
  wp (Process OnReply (sync_handler qid algo) (sync_task qid algo r n)) (fun _ w' =>
    notifiers w' !! n = Some (SimpleEventNotifier.mk (Some (final r code resp)) (Semaphore.mk 1)) /\
    called g (heap_after resp m') w w' /\ queuePool w' = queuePool w) w.
Proof.
  intros E Hn. unfold Process. cbn [sync_handler Handler.cls]. unfold SyncProcess. cbn [Handler.pluginAlgorithm_ sync_handler sync_task Task.request Task.notifier].
  apply wp_bind. unfold on_algorithm, wp at 1. rewrite E. cbn [fst snd].
  set (w1 := _ <| futures ::= _ |>). assert (notifiers w1 !! n = Some SimpleEventNotifier.ctor) as N1 by done.
  assert (called g m' w w1) as C1 by called_self w.
  apply wp_bind.
  eapply wp_mono; [instantiate (1 := fun y w' => y = Some (default (Response.ctor (Some r)) resp) /\
    called g (heap_after resp m') w w' /\ notifiers w' = notifiers w1 /\ queuePool w' = queuePool w)|].
  - destruct resp as [y|]; [by apply wp_ret|].
    unfold Response.Create, on_mem. do 2 apply wp_on_field. unfold wp, mbind, ST_bind, AIE_NEW. cbn.
    rewrite new_works. cbn. split_and!; try done. called_self w.
  - intros y w2 (-> & C2 & N2 & Q2). apply wp_bind, wp_modify, wp_ret. split_and!.
    + cbn. rewrite lookup_alter_eq, N2, N1. unfold final, reply_code. by destruct (code =? RETCODE_SUCCESS).
    + destruct C2 as (ns & k & p & ->). by eexists _, k, p.
    + done.
Qed.

Lemma wp_conj {S A} (m : ST S A) (P Q : A -> S -> Prop) s :
  wp m P s -> wp m Q s -> wp m (fun a s' => P a s' /\ Q a s') s.
Proof. done. Qed.

Context (cap : Z) (Hcap : MAX_SYNC_MSG_NUM <= cap < 2 ^ 64) (Hdiv : (cap | 2 ^ 64)).

Lemma cap_pos : 0 < cap < 2 ^ 64.
Proof using Hcap. unfold MAX_SYNC_MSG_NUM in Hcap. lia. Qed.

(** The worker finds the one message there is and answers it. *)
Lemma run_worker_exact fuel qid algo r n w code resp g m' :
  (0 < fuel)%nat -> has_queue cap qid [sync_task qid algo r n] w -> notifiers w !! n = Some SimpleEventNotifier.ctor ->
  sync_process algo r (plugin_states w, mem w) = ((code, resp), (g, m')) ->
  wp (run_worker OnReply fuel qid) (fun _ w' =>
    notifiers w' !! n = Some (SimpleEventNotifier.mk (Some (final r code resp)) (Semaphore.mk 1)) /\
    called g (heap_after resp m') w w' /\ has_queue cap qid [] w') w.
Proof.
  intros Hf Hq Hn E. destruct fuel as [|fuel]; [lia|]. cbn [run_worker]. apply wp_bind.
  assert (wp (OneAction OnReply qid) (fun _ w' =>
    notifiers w' !! n = Some (SimpleEventNotifier.mk (Some (final r code resp)) (Semaphore.mk 1)) /\
    called g (heap_after resp m') w w' /\ has_queue cap qid [] w') w) as A.
  { unfold OneAction. apply wp_bind, wp_gets. unfold Queue.IsEmpty. change (Queue.readAbleCount_ ?q) with (Queue.Count q).
    rewrite (queue_count cap qid [sync_task qid algo r n] w Hq). cbn -[Z.of_nat].
    apply wp_bind. eapply wp_mono; [by apply (pop_spec cap cap_pos Hdiv)|]. intros x w1 (-> & Q1 & _ & N1 & _ & pool & ->). cbn.
    apply wp_bind. eapply wp_mono; [apply (SyncProcess_exact qid algo r n _ code resp g m'); done|].
    intros ? w2 (N2 & C2 & Q2). apply wp_ret. split_and!; [done|by eapply called_trans; [apply called_queue|]|].
    destruct Q1 as (p & q & ?). exists p, q. by rewrite Q2. }
  unfold wp in *. destruct (OneAction OnReply qid w) as [b w1]. destruct A as (N & C & Q). cbn in N, C, Q.
  by rewrite (run_worker_idle OnReply cap fuel qid w1 Q).
Qed.

Lemma SyncExecute_send_called eid h e r w :
  runs eid h e w -> has_queue cap (Engine.queue_ e) [] w ->
  wp (SyncExecute_send eid (Some r)) (fun _ w' => called (plugin_states w) (mem w) w w') w.
Proof.
  intros [Ee Eh Eq] Hq. unfold SyncExecute_send. apply wp_bind, wp_gets. rewrite Ee. cbn. rewrite Eh.
  apply wp_bind, wp_gets, wp_bind, wp_modify.
  set (w1 := _ <| notifiers ::= _ |>). assert (has_queue cap (Engine.queue_ e) [] w1) as Hq1 by done.
  apply wp_bind. unfold SyncSendRequest. apply wp_bind, wp_gets. cbn beta. rewrite Eq.
  rewrite (queue_count cap (Engine.queue_ e) [] w1 Hq1). cbn -[Z.of_nat].
  eapply wp_mono; [apply (push_spec cap cap_pos Hdiv _ _ []); [done|pose proof cap_pos; cbn; lia]|].
  intros c w2 (-> & _ & _ & _ & _ & pool & ->). cbn. apply wp_ret.
  eapply called_trans; [apply called_notifiers|]. apply (called_queue w1).
Qed.

(** [Engine::SyncExecute] on an idle engine. *)
Lemma SyncExecute_exact fuel eid e algo r w code resp g m' :
  (0 < fuel)%nat -> runs eid (sync_handler (Engine.queue_ e) algo) e w -> has_queue cap (Engine.queue_ e) [] w ->
  sync_process algo r (plugin_states w, mem w) = ((code, resp), (g, m')) ->
  wp (SyncExecute OnReply fuel eid (Some r)) (fun o w' => o = Some (reply_code code, Some (final r code resp)) /\
    called g (heap_after resp m') w w' /\ has_queue cap (Engine.queue_ e) [] w') w.
Proof.
  intros Hf He Hq E. unfold SyncExecute. apply wp_bind.
  eapply wp_mono; [apply wp_conj; [by apply (SyncExecute_send_called eid (sync_handler (Engine.queue_ e) algo) e)|
    eapply (SyncExecute_send_spec cap cap_pos Hdiv); try done; cbn; unfold MAX_SYNC_MSG_NUM in *; lia]|].
  intros y w1 (C1 & -> & E1 & Q1 & N1). apply wp_bind, wp_gets. rewrite E1. apply wp_bind.
  eapply wp_mono; [apply (run_worker_exact fuel _ algo r (next_notifier w) _ code resp g m'); try done|].
  - by rewrite N1, lookup_insert_eq.
  - by rewrite (called_mem _ _ _ _ C1), (called_states _ _ _ _ C1).
  - intros ? w2 (N2 & C2 & Q2). unfold wp. rewrite (SyncExecute_receive_spec _ _ _ N2). split_and!; [done| |done].
    destruct (called_trans _ _ _ _ _ _ _ C1 C2) as (ns & k & p & ->). by exists (delete (next_notifier w) ns), k, p.
Qed.

End executor.
(** ** The adapter *)

Section adapters.
  Context `{!Allocator, !DynLib, !Pthread, !Algorithm}.
  Context (cap : Z) (eid : nat) (e : Engine.t) (algo : nat).
  Implicit Types (s : Adapters.t).

Definition heap s : Mem.t := mem (Adapters.exec s).
Definition states s : algorithms := plugin_states (Adapters.exec s).

(** The session has the engine [e] of the algorithm, which is idle. *)
Record ready (clientId sessionId : Z) s : Prop := {
  ready_adapter : exists a, Adapters.g_saServerAdapters s !! clientId = Some a /\
    clientEngines_ (Adapters.exec s) !! SaServerAdapter.GetTransactionId a sessionId = Some eid;
  ready_runs : runs eid (sync_handler (Engine.queue_ e) algo) e (Adapters.exec s);
  ready_queue : has_queue cap (Engine.queue_ e) [] (Adapters.exec s);
}.

(** The clients, the engines and the idle queue are as they were, and the
    algorithms are in the state [g]. *)
Record undisturbed (g : algorithms) s s' : Prop := {
  un_called : exists m, called g m (Adapters.exec s) (Adapters.exec s');
  un_queue : has_queue cap (Engine.queue_ e) [] (Adapters.exec s) -> has_queue cap (Engine.queue_ e) [] (Adapters.exec s');
  un_clients : Adapters.g_saServerAdapters s' = Adapters.g_saServerAdapters s;
}.

Lemma undisturbed_refl s : undisturbed (states s) s s.
Proof. split; [|done|done]. eexists. apply called_refl. Qed.

Lemma undisturbed_trans g1 g2 s1 s2 s3 : undisturbed g1 s1 s2 -> undisturbed g2 s2 s3 -> undisturbed g2 s1 s3.
Proof.
  intros [[m1 C1] Q1 A1] [[m2 C2] Q2 A2]. split; [|auto|congruence]. exists m2. by eapply called_trans.
Qed.

Lemma undisturbed_states g s s' : undisturbed g s s' -> states s' = g.
Proof. intros [[m C] _ _]. apply (called_states _ _ _ _ C). Qed.

Lemma undisturbed_steps s s1 s2 : undisturbed (states s) s s1 -> undisturbed (states s1) s1 s2 -> undisturbed (states s) s s2.
Proof. intros U1 U2. rewrite (undisturbed_states _ _ _ U1) in U2. by eapply undisturbed_trans. Qed.

Lemma wp_heap {A} (m : ST Mem.t A) (Q : A -> Adapters.t -> Prop) s :
  (forall s', undisturbed (states s) s s' -> heap s' = (m (heap s)).2 -> Q (m (heap s)).1 s') -> wp (Adapters.on_mem m) Q s.
Proof.
  intros HQ. unfold Adapters.on_mem, Adapters.on_exec, on_mem. do 3 apply wp_on_field. unfold wp.
  apply HQ; [|done]. split; [|done|done]. cbn.
  exists (m (heap s)).2, (notifiers (Adapters.exec s)), (next_notifier (Adapters.exec s)), (queuePool (Adapters.exec s)).
  by destruct s as [[[] ? ? ? ? ? ? ? ? ? ? ?] ? ? ?].
Qed.

(** A block that only this call knows is freed. *)
Lemma free_heap d X (Q : unit -> Adapters.t -> Prop) s :
  mem_wf (heap s) -> Mem.live (heap s) = IpcFacts.owned d ∪ X -> IpcFacts.owned d ## X ->
  (forall s', undisturbed (states s) s s' -> mem_wf (heap s') -> Mem.live (heap s') = X ->
     Mem.bad_frees (heap s') = Mem.bad_frees (heap s) -> Q tt s') ->
  wp (Adapters.on_mem (free (DataInfo.data d))) Q s.
Proof.
  intros W L D HQ. apply wp_heap. intros s' U E. unfold IpcFacts.owned in *. destruct (DataInfo.data d) as [blk|].
  - pose proof (free_spec blk (heap s) X W L ltac:(set_solver)) as F. unfold wp in F. destruct F as (W' & L' & B').
    destruct (free (Some blk) (heap s)) as [[] m']. cbn in *. subst m'. by apply HQ.
  - cbn in *. apply HQ; rewrite ?E; try done. rewrite L. apply leibniz_equiv. set_solver.
Qed.

Lemma request_dtor r : Request.dtor r = free (DataInfo.data (Request.msg r)).
Proof. unfold Request.dtor. by destruct (DataInfo.data _). Qed.
Lemma response_dtor r : Response.dtor r = free (DataInfo.data (Response.result r)).
Proof. unfold Response.dtor. by destruct (DataInfo.data _). Qed.

Lemma undisturbed_runs h g s s' : undisturbed g s s' -> runs eid h e (Adapters.exec s) -> runs eid h e (Adapters.exec s').
Proof. intros [(m & ns & k & p & E) _ _] [R1 R2 R3]. split; [|done|done]. rewrite E. exact R1. Qed.

Lemma undisturbed_engines g s s' : undisturbed g s s' -> clientEngines_ (Adapters.exec s') = clientEngines_ (Adapters.exec s).
Proof. intros [(m & ns & k & p & E) _ _]. by rewrite E. Qed.

Context (new_works : forall k, new_ok k = true) (Hcap : MAX_SYNC_MSG_NUM <= cap < 2 ^ 64) (Hdiv : (cap | 2 ^ 64)).
Context (own : algorithms -> gset nat) (tight : Prop) (Q : Z -> option Response.t -> algorithms -> Prop).

Definition the_request (a : SaServerAdapter.t) (c : ClientInfo.t) (ai : AlgorithmInfo.t) (d : DataInfo.t) : Request.t :=
  Request.mk 0 (AlgorithmInfo.requestId ai) (AlgorithmInfo.operateId ai) (ClientInfo.clientUid c)
    (SaServerAdapter.GetTransactionId a (ClientInfo.sessionId c)) (AlgorithmInfo.algorithmType ai) d.

Lemma convert_spec a c ai d s :
  wp (Adapters.ConvertToRequest a c ai d) (fun r s' => r = Some (the_request a c ai d) /\ undisturbed (states s) s s' /\
    mem_wf (heap s') = mem_wf (heap s) /\ Mem.live (heap s') = Mem.live (heap s) /\
    Mem.bad_frees (heap s') = Mem.bad_frees (heap s)) s.
Proof.
  unfold Adapters.ConvertToRequest. apply wp_bind, wp_heap. intros s1 U1. unfold Request.Create, mbind, ST_bind, AIE_NEW.
  rewrite new_works. cbn. intros E. apply wp_ret. by rewrite E.
Qed.

(** There is an executor, or one is made. *)
Lemma wp_executor {A} (none : A) (m : ST Adapters.t A) (K : A -> Adapters.t -> Prop) s :
  (forall s', undisturbed (states s) s s' -> mem_wf (heap s') = mem_wf (heap s) -> Mem.live (heap s') = Mem.live (heap s) ->
     Mem.bad_frees (heap s') = Mem.bad_frees (heap s) -> wp m K s') ->
  wp (Adapters.with_executor none m) K s.
Proof.
  intros HK. unfold Adapters.with_executor, Adapters.GetServerExecutor. apply wp_bind, wp_bind, wp_gets.
  destruct (Adapters.executor s); [apply wp_ret, HK; [apply undisturbed_refl|done..]|].
  assert (forall m, AIE_NEW m = (true, m <| Mem.tick ::= S |>)) as EN by (intros m0; unfold AIE_NEW; by rewrite new_works).
  apply wp_bind, wp_heap. intros s1 U1. rewrite EN. cbn [fst snd negb]. intros E1.
  apply wp_bind, wp_heap. intros s2 U2. rewrite EN. cbn [fst snd negb]. intros E2.
  apply wp_bind, wp_modify, wp_ret. cbn [negb]. set (s3 := s2 <| Adapters.executor := true |>).
  assert (heap s3 = heap s2) as E3 by done. apply HK.
  - destruct (undisturbed_steps _ _ _ U1 U2) as [C Q' A']. by split.
  - by rewrite E3, E2, E1.
  - by rewrite E3, E2, E1.
  - by rewrite E3, E2, E1.
Qed.

(** What is left to do with the response. *)
Lemma settle_spec req code resp Y s :
  mem_wf (heap s) -> Mem.live (heap s) = result_owned resp ∪ (IpcFacts.owned (Request.msg req) ∪ Y) ->
  result_owned resp ## IpcFacts.owned (Request.msg req) ∪ Y -> IpcFacts.owned (Request.msg req) ## Y ->
  (forall y, resp = Some y -> IpcFacts.di_ok (Response.result y)) ->
  wp (result ← (if negb (reply_code code =? RETCODE_SUCCESS) then
                  Adapters.on_mem (Response.Destroy (Some (final req code resp))) ;; mret (reply_code code, DataInfo.null)
                else Adapters.on_mem (Response.Destroy (Some (Response.Detach (final req code resp)))) ;;
                     mret (RETCODE_SUCCESS, Response.result (final req code resp)));
      Adapters.on_mem (Request.Destroy (Some req)) ;; mret (Some result))
    (fun r s' => exists out, r = Some (reply_code code, out) /\
      DataInfo.content out = reply_bytes (code, result_bytes resp) /\
      IpcFacts.di_ok out /\ undisturbed (states s) s s' /\ mem_wf (heap s') /\ Mem.live (heap s') = IpcFacts.owned out ∪ Y /\
      IpcFacts.owned out ## Y /\ Mem.bad_frees (heap s') = Mem.bad_frees (heap s)) s.
Proof.
  intros W L D1 D2 Hok. unfold reply_code, reply_bytes, result_bytes. cbn [fst snd]. destruct (code =? RETCODE_SUCCESS) eqn:Ec; rewrite ?Z.eqb_refl; cbn [negb].
  - assert (IpcFacts.owned (Response.result (final req code resp)) = result_owned resp) as Eo by by destruct resp.
    apply wp_bind, wp_bind. unfold Response.Destroy. rewrite response_dtor. apply (free_heap _ (Mem.live (heap s)));
      [done|apply leibniz_equiv; set_solver|set_solver|]. intros s1 U1 W1 L1 B1. apply wp_ret.
    apply wp_bind. unfold Request.Destroy. rewrite request_dtor. apply (free_heap _ (result_owned resp ∪ Y));
      [done|rewrite L1, L; apply leibniz_equiv; set_solver|set_solver|]. intros s2 U2 W2 L2 B2. apply wp_ret.
    exists (Response.result (final req code resp)). rewrite Eo, B2, B1. split_and!; try done.
    + by destruct resp.
    + destruct resp as [y|]; [apply (Hok y eq_refl)|done].
    + by eapply undisturbed_steps.
    + set_solver.
  - replace (RETCODE_ALGORITHM_PROCESS_ERROR =? RETCODE_SUCCESS) with false by done. cbn [negb].
    assert (IpcFacts.owned (Response.result (final req code resp)) = result_owned resp) as Eo by by destruct resp.
    apply wp_bind, wp_bind. unfold Response.Destroy. rewrite response_dtor.
    apply (free_heap _ (IpcFacts.owned (Request.msg req) ∪ Y)); rewrite ?Eo; [done|done|done|].
    intros s1 U1 W1 L1 B1. apply wp_ret.
    apply wp_bind. unfold Request.Destroy. rewrite request_dtor. apply (free_heap _ Y); [done|done|done|].
    intros s2 U2 W2 L2 B2. apply wp_ret. exists DataInfo.null. rewrite B2, B1. split_and!; try done.
    + by eapply undisturbed_steps.
    + rewrite L2. apply leibniz_equiv. set_solver.
Qed.

(** An answered call: what the algorithm did, the output, and the heap, where
    [Y] are the blocks of others and of the algorithms before the call. *)
Record answered_call (g : algorithms) (Y : gset nat) (bad : list nat) (code : Z) (resp : option Response.t) (g' : algorithms)
    (out : DataInfo.t) (m' : Mem.t) : Prop := {
  ac_does : Q code resp g';
  ac_bytes : DataInfo.content out = reply_bytes (code, result_bytes resp);
  ac_ok : IpcFacts.di_ok out;
  ac_wf : mem_wf m';
  ac_live : exists Y', Mem.live m' = IpcFacts.owned out ∪ Y' /\ IpcFacts.owned out ## Y' /\ own g' ⊆ Y' /\
    Y ∖ own g ⊆ Y' ∖ own g' /\ (tight -> Y' ∖ own g' = Y ∖ own g /\ Mem.bad_frees m' = bad);
}.

(** [SaServerAdapter::SyncExecute]: the input is used up. *)
Lemma adapter_sync_execute fuel a c ai d Y s :
  (0 < fuel)%nat -> runs eid (sync_handler (Engine.queue_ e) algo) e (Adapters.exec s) ->
  has_queue cap (Engine.queue_ e) [] (Adapters.exec s) ->
  clientEngines_ (Adapters.exec s) !! SaServerAdapter.GetTransactionId a (ClientInfo.sessionId c) = Some eid ->
  mem_wf (heap s) -> Mem.live (heap s) = IpcFacts.owned d ∪ Y -> IpcFacts.owned d ## Y -> own (states s) ⊆ Y ->
  safe_call own tight algo (states s) d Q ->
  wp (Adapters.SyncExecute fuel a c ai d) (fun r s' => exists code resp g' out,
    r = Some (reply_code code, out) /\ undisturbed g' s s' /\
    answered_call (states s) Y (Mem.bad_frees (heap s)) code resp g' out (heap s')) s.
Proof.
  intros Hfuel Hr Hq Hc W L D HO Hsafe. unfold Adapters.SyncExecute.
  apply wp_bind. eapply wp_mono; [apply convert_spec|]. intros ? s0 (-> & U0 & W0 & L0 & B0). cbv beta iota.
  apply wp_bind, wp_executor. intros s1 U0' W1 L1 B1. pose proof (undisturbed_steps _ _ _ U0 U0') as U1.
  rewrite W0 in W1. rewrite L0 in L1. rewrite B0 in B1. clear U0 U0' W0 L0 B0 s0.
  rewrite <- W1 in W. rewrite <- L1 in L. set (req := the_request a c ai d).
  destruct (Hsafe req (heap s1) W ltac:(cbn; rewrite L; set_solver) ltac:(cbn; rewrite L; clear -D HO; set_solver) eq_refl eq_refl)
    as (code & resp & g' & m' & E & HQ & W' & O' & V' & D' & Hok & Ht).
  rewrite <- (undisturbed_states _ _ _ U1) in E.
  unfold Adapters.on_exec. apply wp_on_field. unfold ServerSyncExecute.
  apply wp_bind. unfold FindEngine. apply wp_gets. rewrite (undisturbed_engines _ _ _ U1). cbn [Request.transactionId the_request req].
  rewrite Hc. eapply wp_mono.
  { apply (SyncExecute_exact SaAsyncHandler.OnReply new_works cap Hcap Hdiv fuel eid e algo req _ code resp g' m');
      [done|by apply (undisturbed_runs _ _ _ _ U1)|by apply U1|exact E]. }
  intros o w (-> & C2 & Q2). cbv beta iota. set (s2 := s1 <| Adapters.exec := w |>).
  assert (undisturbed g' s1 s2) as U2 by (split; [by eexists|done|done]).
  assert (heap s2 = heap_after resp m') as E2 by apply (called_mem _ _ _ _ C2).
  assert (mem_wf (heap s2) /\ Mem.live (heap s2) = Mem.live m' /\ Mem.bad_frees (heap s2) = Mem.bad_frees m') as (W2 & L2 & B2).
  { rewrite E2. by destruct resp. }
  set (Y' := Mem.live m' ∖ (result_owned resp ∪ IpcFacts.owned d)).
  rewrite L in V', D', Ht. eapply wp_mono; [apply (settle_spec req code resp Y' s2); [done| | | |done]|].
  - rewrite L2. cbn. unfold Y'. clear -V' D HO. apply set_eq. intros x. destruct (decide (x ∈ result_owned resp ∪ IpcFacts.owned d)); set_solver.
  - cbn. unfold Y'. clear -D' D HO. set_solver.
  - cbn. unfold Y'. clear. set_solver.
  - intros r s3 (out & -> & Hout & Hdi & U3 & W3 & L3 & D3 & B3). exists code, resp, g', out. split; [done|]. split.
    + rewrite (undisturbed_states _ _ _ U2) in U3. eapply undisturbed_trans; [exact U1|]. by eapply undisturbed_trans.
    + split; [done..|]. exists Y'. rewrite L3, B3, B2. split_and!; [done|done| | |].
      * unfold Y'. clear -V' O' D HO. set_solver.
      * unfold Y'. clear -V' D' D HO. set_solver.
      * intros T. destruct (Ht T) as [Ht1 Ht2]. rewrite Ht2, B1. split; [|done]. unfold Y'. clear -Ht1 D' D HO.
        apply set_eq. intros x. assert (x ∈ Mem.live m' ∖ own g' <-> x ∈ result_owned resp ∪ (IpcFacts.owned d ∪ Y) ∖ own (states s)) by (by rewrite Ht1).
        set_solver.
Qed.

(** [SyncExecAlgoWrapper] for a session whose engine is idle. *)
Lemma wrapper_answers fuel c ai d Y s :
  (0 < fuel)%nat -> AlgorithmInfo.isAsync ai = false -> ready (ClientInfo.clientId c) (ClientInfo.sessionId c) s ->
  mem_wf (heap s) -> Mem.live (heap s) = IpcFacts.owned d ∪ Y -> IpcFacts.owned d ## Y -> own (states s) ⊆ Y ->
  safe_call own tight algo (states s) d Q ->
  wp (Adapters.SyncExecAlgoWrapper fuel (Some c) (Some ai) d) (fun r s' => exists code resp g' out,
    r = Some (reply_code code, out) /\ ready (ClientInfo.clientId c) (ClientInfo.sessionId c) s' /\ states s' = g' /\
    answered_call (states s) Y (Mem.bad_frees (heap s)) code resp g' out (heap s')) s.
Proof.
  intros Hfuel Ha [(a & Ea & Ec) Hr Hq] W L D HO Hsafe. unfold Adapters.SyncExecAlgoWrapper. rewrite Ha.
  apply wp_bind, wp_gets. rewrite Ea. unfold Adapters.guarded. apply wp_bind, wp_modify.
  set (s1 := s <| Adapters.g_saServerAdapters ::= _ |>).
  apply wp_bind. eapply wp_mono; [apply (adapter_sync_execute fuel a c ai d Y s1); done|].
  intros r s2 (code & resp & g' & out & -> & U2 & AC). apply wp_bind, wp_modify, wp_ret.
  exists code, resp, g', out. split_and!; [done| |apply (undisturbed_states _ _ _ U2)|done]. split.
  - exists (SaServerAdapter.DecRef (SaServerAdapter.IncRef a)). cbn.
    rewrite (un_clients _ _ _ U2), (undisturbed_engines _ _ _ U2). cbn. by rewrite !lookup_alter_eq, Ea.
  - apply (undisturbed_runs _ _ _ _ U2 Hr).
  - by apply (un_queue _ _ _ U2).
Qed.

End adapters.
(** ** The server *)

Section server.
  Context `{!Allocator, !DynLib, !Pthread, !Algorithm, !IpcIo, !IpcIoLaws, !Shm, !ShmLaws, !IpcFacts.ShmReliable,
            !Securec, !SecurecLaws}.
  Context (new_works : forall k, new_ok k = true) (malloc_works : malloc_serves).
  Context (cap : Z) (Hcap : MAX_SYNC_MSG_NUM <= cap < 2 ^ 64) (Hdiv : (cap | 2 ^ 64)).
  Context (eid : nat) (e : Engine.t) (algo : nat) (own : algorithms -> gset nat) (tight : Prop).
  Import SaServer.
  Implicit Types (s : SaServer.t).

(** What [Invoke] expects of the server of a session. *)
Record serving (clientId sessionId : Z) s : Prop := {
  sv_ready : ready cap eid e algo clientId sessionId (adapters s);
  sv_mem : mem_wf (mem s);
  sv_own : own (states (adapters s)) ⊆ Mem.live (mem s);
  sv_key : IpcFacts.key_ok (g_shmKey s);
}.

Lemma ready_undisturbed cid sid g (x y : Adapters.t) :
  undisturbed cap e g x y -> ready cap eid e algo cid sid x -> ready cap eid e algo cid sid y.
Proof.
  intros U [(a & Ea & Ec) Hr Hq]. split; [|by apply (undisturbed_runs cap eid e _ _ _ _ U)|by apply (un_queue _ _ _ _ _ U)].
  exists a. by rewrite (un_clients _ _ _ _ _ U), (undisturbed_engines cap e _ _ _ U).
Qed.

Lemma set_mem_undisturbed m s : undisturbed cap e (states (adapters s)) (adapters s) (adapters (set_mem m s)).
Proof.
  assert (wp (Adapters.on_mem (fun _ => (tt, m))) (fun _ a => undisturbed cap e (states (adapters s)) (adapters s) a) (adapters s)) as U
    by by apply (wp_heap cap e).
  exact U.
Qed.

Lemma server_free d X (Q : unit -> SaServer.t -> Prop) s :
  mem_wf (mem s) -> Mem.live (mem s) = IpcFacts.owned d ∪ X -> IpcFacts.owned d ## X ->
  (forall x, undisturbed cap e (states (adapters s)) (adapters s) x -> mem_wf (heap x) -> Mem.live (heap x) = X ->
     Mem.bad_frees (heap x) = Mem.bad_frees (mem s) -> Q tt (s <| adapters := x |>)) ->
  wp (on_mem (free (DataInfo.data d))) Q s.
Proof. intros W L D HQ. unfold on_mem, on_adapters. apply wp_on_field. by apply (free_heap cap e d X). Qed.

(** The reply to a call: the code, then the output. *)
Lemma reply_spec {A} code out uid (k : ST SaServer.t A) (Q : A -> SaServer.t -> Prop) s :
  content (reply s) = [] -> 215 <= room (reply s) -> IpcFacts.di_ok out -> IpcFacts.key_ok (g_shmKey s) ->
  Z.of_nat (size (segments (os s))) + 1 <= SHM_KEY_END - SHM_KEY_START ->
  (forall s' items, content (reply s') = I32 code :: items -> IpcFacts.carried (segments (os s')) out items ->
     segments (os s) = IpcFacts.without items (segments (os s')) -> IpcFacts.key_ok (g_shmKey s') ->
     undisturbed cap e (states (adapters s)) (adapters s) (adapters s') -> mem s' = mem s -> wp k Q s') ->
  wp (on_reply (Ipc.WriteInt32 code) ;; on_reply (Ipc.ParcelDataInfo out uid) ;; k) Q s.
Proof.
  intros C R Hd Hk Hl HQ. apply wp_bind, ServerFacts.wp_on_reply.
  eapply wp_mono; [apply (IpcFacts.write_spec (I32 code)); cbn; lia|]. cbn. intros _ i (C1 & M1 & O1 & K1 & R1). cbn in C1, R1.
  set (s1 := set_mem _ _). apply wp_bind, ServerFacts.wp_on_reply.
  eapply wp_mono; [apply (Wire.parcel_headed [] out uid (Ipc.mk (reply s1) (mem s1) (os s1) (g_shmKey s1)))|].
  - by intros ? []%elem_of_nil.
  - cbn. rewrite R1. cbn. lia.
  - done.
  - cbn. by rewrite K1.
  - unfold Wire.keys_left. cbn. rewrite O1. cbn. lia.
  - intros [] j (items & C2 & M2 & K2 & _ & Car & S2 & _). cbn in C2, M2, S2. rewrite C1, C in C2. rewrite O1 in S2. cbn in S2.
    pose proof (set_mem_undisturbed (Ipc.mem i) s) as U1. pose proof (set_mem_undisturbed (Ipc.mem j) s1) as U2.
    apply (HQ _ items); [exact C2|done|done|done| |].
    + exact (undisturbed_steps _ _ _ _ _ U1 U2).
    + rewrite ServerFacts.mem_set_mem, M2. change (mem s1) with (Ipc.mem i). by rewrite M1.
Qed.

(** The heap after the call of an algorithm in the state [g], for its neighbours. *)
Record left_over (g g' : algorithms) (m m' : Mem.t) : Prop := {
  lo_keeps : Mem.live m ∖ own g ⊆ Mem.live m' ∖ own g';
  lo_tight : tight -> Mem.live m' ∖ own g' = Mem.live m ∖ own g /\ Mem.bad_frees m' = Mem.bad_frees m;
}.

(** Two blocks of the call itself are freed. *)
Lemma left_over_frees g g' (X1 X2 Y' : gset nat) m m' :
  own g ⊆ Mem.live m -> own g' ⊆ Y' -> X1 ## Mem.live m -> X2 ## X1 ∪ Mem.live m ->
  (X1 ∪ X2 ∪ Mem.live m) ∖ own g ⊆ Y' ∖ own g' ->
  (tight -> Y' ∖ own g' = (X1 ∪ X2 ∪ Mem.live m) ∖ own g /\ Mem.bad_frees m' = Mem.bad_frees m) ->
  Mem.live m' = Y' ∖ X1 ∖ X2 -> left_over g g' m m' /\ own g' ⊆ Mem.live m' /\ X1 ⊆ Y' /\ X2 ⊆ Y' ∖ X1.
Proof.
  intros O O' D1 D2 K T L. split; [split|].
  - rewrite L. clear -O D1 D2 K. set_solver.
  - intros HT. destruct (T HT) as [E B]. split; [|done]. rewrite L. clear -O D1 D2 E.
    replace (Y' ∖ X1 ∖ X2 ∖ own g') with ((Y' ∖ own g') ∖ X1 ∖ X2) by (apply leibniz_equiv; set_solver).
    rewrite E. apply leibniz_equiv. set_solver.
  - rewrite L. clear -O O' D1 D2 K. split_and!; set_solver.
Qed.

(** The end of [InvokeSyncExecute]: the reply, then the frees. *)
Lemma answer_executed c a code out uid g g' Y' m0 cid sid s :
  let X1 := IpcFacts.owned (Wire.client_ext c) in let X2 := IpcFacts.owned (Wire.algorithm_ext a) in
  content (reply s) = [] -> 215 <= room (reply s) -> IpcFacts.di_ok out -> IpcFacts.key_ok (g_shmKey s) ->
  Z.of_nat (size (segments (os s))) + 1 <= SHM_KEY_END - SHM_KEY_START ->
  ready cap eid e algo cid sid (adapters s) -> states (adapters s) = g' -> mem_wf (mem s) ->
  Mem.live (mem s) = IpcFacts.owned out ∪ Y' -> IpcFacts.owned out ## Y' ->
  (forall m', Mem.bad_frees m' = Mem.bad_frees (mem s) -> Mem.live m' = Y' ∖ X1 ∖ X2 ->
     left_over g g' m0 m' /\ own g' ⊆ Mem.live m' /\ X1 ⊆ Y' /\ X2 ⊆ Y' ∖ X1) ->
  wp (on_reply (Ipc.WriteInt32 code) ;; on_reply (Ipc.ParcelDataInfo out uid) ;;
      on_mem (FreeDataInfo out) ;; on_mem (FreeClientInfo c) ;; on_mem (FreeAlgorithmInfo a) ;; mret (Some code))
    (fun r s' => exists items, r = Some code /\ content (reply s') = I32 code :: items /\
       IpcFacts.carried (segments (os s')) out items /\ segments (os s) = IpcFacts.without items (segments (os s')) /\
       serving cid sid s' /\ states (adapters s') = g' /\ left_over g g' m0 (mem s')) s.
Proof.
  intros X1 X2 R Room Hdi Hk Hl Hr G W L D LO.
  apply reply_spec; [done..|]. intros s3 items C3 Car S3 K3 U3 M3.
  destruct (LO (Mem.mk 0 0 (Y' ∖ X1 ∖ X2) (Mem.bad_frees (mem s))) eq_refl eq_refl) as (_ & _ & I1 & I2).
  apply wp_bind, (server_free out Y'); rewrite ?M3; [exact W|exact L|exact D|]. intros x4 U4 W4 L4 B4.
  apply wp_bind, (server_free (Wire.client_ext c) (Y' ∖ X1));
    [exact W4|change (mem _) with (heap x4); rewrite L4; fold X1; clear -I1; by apply union_difference_L|fold X1; clear; set_solver|].
  intros x5 U5 W5 L5 B5.
  apply wp_bind, (server_free (Wire.algorithm_ext a) (Y' ∖ X1 ∖ X2));
    [exact W5|change (mem _) with (heap x5); rewrite L5; fold X2; clear -I2; by apply union_difference_L|fold X2; clear; set_solver|].
  intros x6 U6 W6 L6 B6. apply wp_ret.
  assert (Mem.bad_frees (heap x6) = Mem.bad_frees (mem s)) as B7.
  { etransitivity; [exact B6|]. etransitivity; [exact B5|]. exact B4. }
  destruct (LO (heap x6) B7 L6) as (LO1 & LO2 & _).
  pose proof (undisturbed_steps _ _ _ _ _ U3 (undisturbed_steps _ _ _ _ _ U4 (undisturbed_steps _ _ _ _ _ U5 U6))) as U7.
  rewrite G in U7. exists items. split_and!; try done; [|exact (undisturbed_states _ _ _ _ _ U7)].
  split; [|exact W6|cbn; by rewrite (undisturbed_states _ _ _ _ _ U7)|exact K3].
  exact (ready_undisturbed _ _ _ _ _ U7 Hr).
Qed.

Lemma InvokeSyncExecute_answers fuel c a d i1 i2 i3 base Q s :
  (0 < fuel)%nat -> content (req s) = Wire.request_items c a d i1 i2 i3 ->
  content (reply s) = [] -> 215 <= room (reply s) ->
  IpcFacts.carried (segments (os s)) (Wire.client_ext c) i1 ->
  IpcFacts.carried (IpcFacts.without i1 (segments (os s))) (Wire.algorithm_ext a) i2 ->
  IpcFacts.carried (IpcFacts.without i2 (IpcFacts.without i1 (segments (os s)))) d i3 ->
  base = IpcFacts.without i3 (IpcFacts.without i2 (IpcFacts.without i1 (segments (os s)))) ->
  Z.of_nat (size base) + 1 <= SHM_KEY_END - SHM_KEY_START ->
  AlgorithmInfo.isAsync a = false -> serving (ClientInfo.clientId c) (ClientInfo.sessionId c) s ->
  safe_call own tight algo (states (adapters s)) d Q ->
  wp (InvokeSyncExecute fuel) (fun r s' => exists code resp g' out items,
    r = Some (reply_code code) /\ content (reply s') = I32 (reply_code code) :: items /\
    IpcFacts.carried (segments (os s')) out items /\ base = IpcFacts.without items (segments (os s')) /\
    Q code resp g' /\ DataInfo.content out = reply_bytes (code, result_bytes resp) /\
    serving (ClientInfo.clientId c) (ClientInfo.sessionId c) s' /\ states (adapters s') = g' /\
    left_over (states (adapters s)) g' (mem s) (mem s')) s.
Proof.
  intros Hfuel C R0 Room Car1 Car2 Car3 E Hkeys Ha [Hready W HO Hk] Hsafe.
  rewrite <- (app_nil_r (Wire.request_items _ _ _ _ _ _)) in C. unfold InvokeSyncExecute. apply wp_bind, ServerFacts.wp_on_req.
  eapply wp_mono; [by apply (Wire.UnParcelInfo_spec malloc_works c a d base _ i1 i2 i3 [])|].
  intros x i (c' & a' & d' & -> & Sc & Sa & Ld & Cd & _ & S1 & (W' & L & D & B & K) & D1 & D2). cbn in W', L, D, B, K.
  destruct Sc as [Hc _], Sa as [Ha' _]. unfold Wire.client_header, Wire.algorithm_header in Hc, Ha'.
  injection Hc as _ Hcid Hsid _ Huid. injection Ha' as _ Hasync _ _ _ _ _.
  cbv beta iota. rewrite Z.eqb_refl. cbn [negb].
  set (s1 := set_mem _ _). assert (mem s1 = Ipc.mem i) as M1 by done.
  assert (undisturbed cap e (states (adapters s)) (adapters s) (adapters s1)) as U1 by exact (set_mem_undisturbed (Ipc.mem i) s).
  assert (content (reply s1) = [] /\ 215 <= room (reply s1) /\ g_shmKey s1 = g_shmKey s /\ segments (os s1) = base) as (R1 & Room1 & K1 & B1).
  { split_and!; [done|done|exact K|exact S1]. }
  clearbody s1. rewrite <- M1 in W', L, B. pose proof (undisturbed_states _ _ _ _ _ U1) as G1.
  set (X1 := IpcFacts.owned (Wire.client_ext c')). set (X2 := IpcFacts.owned (Wire.algorithm_ext a')).
  fold X1 X2 in L, D, D1, D2. apply wp_bind. unfold on_adapters. apply wp_on_field.
  eapply wp_mono.
  { apply (wrapper_answers cap eid e algo new_works Hcap Hdiv own tight Q fuel c' a' d' (X1 ∪ X2 ∪ Mem.live (mem s)) (adapters s1)).
    - done.
    - by rewrite Hasync.
    - rewrite Hcid, Hsid. by apply (ready_undisturbed _ _ (states (adapters s)) (adapters s)).
    - exact W'.
    - change (heap (adapters s1)) with (mem s1). rewrite L. apply leibniz_equiv. set_solver.
    - clear -D D1 D2. set_solver.
    - rewrite G1. clear -HO. set_solver.
    - rewrite G1. intros r m Wm Om Lm Em El. apply Hsafe; [done..|by rewrite Em|by rewrite El]. }
  intros r x (code & resp & g' & out & -> & Hready2 & G2 & [HQ Hout Hdi W2 (Y' & L2 & D3 & O3 & Keep & T)]). cbv beta iota.
  rewrite Hcid, Hsid in Hready2. rewrite G1 in Keep, T. change (heap (adapters s1)) with (mem s1) in T. rewrite B in T. set (s2 := s1 <| adapters := x |>).
  eapply wp_mono.
  { apply (answer_executed c' a' (reply_code code) out (ClientInfo.clientUid c') (states (adapters s)) g' Y' (mem s) (ClientInfo.clientId c) (ClientInfo.sessionId c) s2); fold X1 X2;
      [exact R1|exact Room1|exact Hdi|by cbn; rewrite K1|cbn; by rewrite B1|exact Hready2|exact G2|exact W2|exact L2|exact D3|].
    intros m' Bm Lm. apply (left_over_frees _ _ X1 X2 Y'); [done|done|clear -D; set_solver|clear -D D1; set_solver|done| |done].
    intros HT. destruct (T HT) as [T1 T2]. split; [exact T1|]. rewrite Bm. exact T2. }
  intros r s' (items & -> & C3 & Car & S3 & HS & G' & LO). cbn in S3. rewrite B1 in S3.
  by exists code, resp, g', out, items.
Qed.

End server.
(** ** The client *)

Section call.
  Context `{!Allocator, !DynLib, !Pthread, !Algorithm, !IpcIo, !IpcIoLaws, !Shm, !ShmLaws, !IpcFacts.ShmReliable,
            !Securec, !SecurecLaws}.
  Context (new_works : forall k, new_ok k = true) (malloc_works : malloc_serves).
  Context (room_works : 700 <= room io_init).
  Context (cap : Z) (Hcap : MAX_SYNC_MSG_NUM <= cap < 2 ^ 64) (Hdiv : (cap | 2 ^ 64)).
  Context (eid : nat) (e : Engine.t) (algo : nat) (own : algorithms -> gset nat) (tight : Prop).
  Context (getuid : Z) (fuel : nat) (now : Z) (Hfuel : (0 < fuel)%nat).
#[local] Instance this_connection : Connection := server_connection getuid fuel now.
Implicit Types (p : ClientProxy.t).

#[local] Notation kernel p := (segments (Ipc.os (ClientProxy.ipc p))).
#[local] Notation client_heap p := (Ipc.mem (ClientProxy.ipc p)).
#[local] Notation server_heap p := (SaServer.mem (ClientProxy.remote p)).
#[local] Notation server_states p := (states (SaServer.adapters (ClientProxy.remote p))).

Lemma carried_length m d items : IpcFacts.carried m d items -> DataInfo.length d = zlen (DataInfo.content d).
Proof. intros [Hl ->|n bs -> -> Hl _|n id seg -> Hb Hl _ _ _]; [done|done|by rewrite <- Hb]. Qed.

(** What a call expects of the client, and keeps. *)
Record calling p : Prop := {
  ca_invoke : ClientProxy.Invoke p = true;
  ca_mem : mem_wf (client_heap p);
  ca_key : IpcFacts.key_ok (Ipc.g_shmKey (ClientProxy.ipc p));
  ca_keys : Z.of_nat (size (kernel p)) + 3 <= SHM_KEY_END - SHM_KEY_START;
}.

(** The server's state when a message of the client arrives. *)
Definition delivered p : SaServer.t :=
  (ClientProxy.remote p) <| SaServer.os := Ipc.os (ClientProxy.ipc p) |>
    <| SaServer.req := Ipc.msg (ClientProxy.ipc p) |> <| SaServer.reply := io_init |>.

(** The client after the server, left in [q'], has replied. *)
Definition replied q' p : ClientProxy.t :=
  p <| ClientProxy.ipc := (ClientProxy.ipc p) <| Ipc.os := SaServer.os q' |> <| Ipc.msg := SaServer.reply q' |> |>
    <| ClientProxy.remote := q' |>.

(** The message goes to [Invoke] and its reply comes back. *)
Lemma call_answered funcId q' p :
  SaServer.Invoke getuid fuel now funcId (delivered p) = (true, q') ->
  ClientProxy.call funcId p = (true, replied q' p).
Proof.
  intros EI. unfold ClientProxy.call.
  change (invoke _ _ _ _) with (let '(answered, s') := SaServer.Invoke getuid fuel now funcId (delivered p) in
    (if (answered : bool) then Some (SaServer.reply s') else None, SaServer.os s', s')).
  by rewrite EI.
Qed.

Lemma Invoke_sync rc q q' : SaServer.InvokeSyncExecute fuel q = (Some rc, q') ->
  SaServer.Invoke getuid fuel now ID_SYNC_EXECUTE_ALGORITHM q = (true, q').
Proof. intros E. unfold SaServer.Invoke. cbn -[SaServer.InvokeSyncExecute]. unfold mbind, ST_bind. by rewrite E. Qed.

(** A reply of a code and an output, as the caller reads it. *)
Lemma wp_invoke_buff funcId o code out items q' (Q : Z * DataInfo.t -> ClientProxy.t -> Prop) p :
  ClientProxy.Invoke p = true -> SaServer.Invoke getuid fuel now funcId (delivered p) = (true, q') ->
  content (SaServer.reply q') = I32 code :: items -> IpcFacts.carried (segments (SaServer.os q')) out items -> mem_wf (client_heap p) ->
  (forall d i, DataInfo.content d = DataInfo.content out -> DataInfo.length d = zlen (DataInfo.content d) ->
     segments (Ipc.os i) = IpcFacts.without items (segments (SaServer.os q')) -> Ipc.g_shmKey i = Ipc.g_shmKey (ClientProxy.ipc p) ->
     mem_wf (Ipc.mem i) -> Mem.live (Ipc.mem i) = IpcFacts.owned d ∪ Mem.live (client_heap p) -> IpcFacts.owned d ## Mem.live (client_heap p) ->
     Mem.bad_frees (Ipc.mem i) = Mem.bad_frees (client_heap p) -> Q (code, d) ((replied q' p) <| ClientProxy.ipc := i |>)) ->
  wp (ClientProxy.invoke_buff funcId o) Q p.
Proof using malloc_works H4 H6 H7 H9.
  intros Hi EI CR Car W HQ. unfold ClientProxy.invoke_buff. apply wp_bind, wp_gets. rewrite Hi. cbn [negb].
  apply wp_bind. unfold wp at 1. rewrite (call_answered _ q' p EI). cbn [fst snd].
  apply wp_bind. unfold ClientProxy.CallbackBuff, ClientProxy.on_ipc. apply wp_bind, wp_on_field.
  eapply wp_mono; [by apply (Wire.ReadInt32_spec code items)|].
  intros ? j (-> & C4 & M4 & O4 & K4). cbn in M4, O4, K4. apply wp_bind, wp_on_field. rewrite <- (app_nil_r items) in C4.
  eapply wp_mono; [apply (IpcFacts.UnParcelDataInfo_spec malloc_works out _ items [] j); cbn;
    [by rewrite O4|exact C4|by rewrite M4]|].
  intros [code' di] k (Ecode & Ld & Cd & _ & S5 & K5 & W5 & L5 & D5 & B5). cbn in Ecode, Ld, Cd, L5, D5. subst code'.
  cbv beta iota. rewrite Z.eqb_refl. apply wp_ret. cbn [NotifyBuff.ipcRetCode NotifyBuff.retCode NotifyBuff.outBuff NotifyBuff.outLen].
  rewrite Z.eqb_refl. cbn [negb]. apply wp_ret. rewrite M4 in L5, D5, B5. rewrite O4 in S5.
  replace (DataInfo.mk (DataInfo.data di) (DataInfo.length di)) with di by by destruct di.
  apply (HQ di k); try done; [by rewrite Ld, Cd, (carried_length _ _ _ Car)|by rewrite K5, K4].
Qed.

(** A call of the proxy: what the algorithm did is what the caller gets. *)
Lemma SyncExecAlgorithmProxy_spec c a d o Q p :
  calling p -> serving cap eid e algo own (ClientInfo.clientId c) (ClientInfo.sessionId c) (ClientProxy.remote p) ->
  AlgorithmInfo.isAsync a = false ->
  IpcFacts.di_ok (Wire.client_ext c) -> IpcFacts.di_ok (Wire.algorithm_ext a) -> IpcFacts.di_ok d ->
  safe_call own tight algo (server_states p) d Q ->
  wp (ClientProxy.SyncExecAlgorithmProxy c a d o) (fun r p' => exists code resp,
    Q code resp (server_states p') /\ r.1 = reply_code code /\
    DataInfo.content r.2 = reply_bytes (code, result_bytes resp) /\ DataInfo.length r.2 = zlen (DataInfo.content r.2) /\
    calling p' /\ serving cap eid e algo own (ClientInfo.clientId c) (ClientInfo.sessionId c) (ClientProxy.remote p') /\
    kernel p' = kernel p /\
    Mem.live (client_heap p') = IpcFacts.owned r.2 ∪ Mem.live (client_heap p) /\ IpcFacts.owned r.2 ## Mem.live (client_heap p) /\
    Mem.bad_frees (client_heap p') = Mem.bad_frees (client_heap p) /\
    left_over own tight (server_states p) (server_states p') (server_heap p) (server_heap p')) p.
Proof.
  intros [Hi W Hk Hkeys] HS Ha Hc Had Hd Hsafe. unfold ClientProxy.SyncExecAlgorithmProxy, ClientProxy.IpcIoInit.
  apply wp_bind, wp_modify. set (p1 := p <| ClientProxy.ipc ::= _ |>).
  apply wp_bind. unfold ClientProxy.on_ipc. apply wp_on_field.
  eapply wp_mono; [apply (Wire.ParcelRequest_spec c a d (ClientProxy.ipc p1)); done|].
  intros [] i (i1 & i2 & i3 & C & M & Car1 & Car2 & Car3 & Seg & K). cbn in C, M, Seg. rewrite io_init_content in C. cbn [app] in C.
  set (p2 := p1 <| ClientProxy.ipc := i |>). change (ClientProxy.Invoke p) with (ClientProxy.Invoke p2) in Hi.
  assert (serving cap eid e algo own (ClientInfo.clientId c) (ClientInfo.sessionId c) (delivered p2)) as HS1 by (destruct HS; by split).
  pose proof (InvokeSyncExecute_answers new_works malloc_works cap Hcap Hdiv eid e algo own tight fuel c a d i1 i2 i3 (kernel p) Q (delivered p2)
    Hfuel C io_init_content ltac:(cbn; lia) Car1 Car2 Car3 Seg ltac:(lia) Ha HS1 Hsafe) as A.
  unfold wp in A. destruct (SaServer.InvokeSyncExecute fuel (delivered p2)) as [rc q'] eqn:Eq.
  destruct A as (code & resp & g' & out & items & Erc & CR & Car & S3 & HQ & Hout & HS2 & G2 & LO). cbn [fst snd] in Erc, CR, Car, S3, HS2, G2, LO. subst rc.
  apply (wp_invoke_buff _ o (reply_code code) out items q'); [done|by eapply Invoke_sync|done|done|change (client_heap p2) with (Ipc.mem i); by rewrite M|].
  intros di k Cd Ld S5 K5 W5 L5 D5 B5. change (client_heap p2) with (Ipc.mem i) in L5, D5, B5. rewrite M in L5, D5, B5. rewrite <- S3 in S5.
  subst g'. exists code, resp. split_and!; try done.
  - by rewrite <- Hout.
  - split; cbn; [done|done|by rewrite K5|by rewrite S5].
Qed.

(** ** Calls one after the other *)

(** The caller asks for each input in turn and keeps the codes and the outputs. *)
Fixpoint sync_calls (c : ClientInfo.t) (a : AlgorithmInfo.t) (ds : list DataInfo.t) : ST ClientProxy.t (list (Z * DataInfo.t)) :=
  match ds with
  | [] => mret []
  | d :: ds =>
      r ← ClientProxy.SyncExecAlgorithmProxy c a d DataInfo.null;
      rest ← sync_calls c a ds;
      mret (r :: rest)
  end.

(** The code and the bytes of an output. *)
Definition answer (r : Z * DataInfo.t) : Z * list Z := (r.1, DataInfo.content r.2).

(** The outputs [rs] make the live blocks [L] into [L']: each brings a block of its
    own, or none when it has no bytes; no other block comes or goes. *)
Fixpoint handed_out (L : gset nat) (rs : list (Z * DataInfo.t)) (L' : gset nat) : Prop :=
  match rs with
  | [] => L' = L
  | r :: rs => IpcFacts.owned r.2 ## L /\ handed_out (IpcFacts.owned r.2 ∪ L) rs L'
  end.

(** After the calls with the outputs [rs]: client and server are ready for the
    next, on the client's heap there is nothing new but the outputs, on the
    server's nothing, and no segment of shared memory is left. *)
Record settled (c : ClientInfo.t) (rs : list (Z * DataInfo.t)) p p' : Prop := {
  st_calling : calling p';
  st_serving : serving cap eid e algo own (ClientInfo.clientId c) (ClientInfo.sessionId c) (ClientProxy.remote p');
  st_kernel : kernel p' = kernel p;
  st_client : handed_out (Mem.live (client_heap p)) rs (Mem.live (client_heap p'));
  st_frees : Mem.bad_frees (client_heap p') = Mem.bad_frees (client_heap p);
  st_lengths : Forall (fun r => DataInfo.length r.2 = zlen (DataInfo.content r.2)) rs;
  st_server : left_over own tight (server_states p) (server_states p') (server_heap p) (server_heap p');
}.

Lemma left_over_trans g1 g2 g3 m1 m2 m3 :
  left_over own tight g1 g2 m1 m2 -> left_over own tight g2 g3 m2 m3 -> left_over own tight g1 g3 m1 m3.
Proof.
  intros [K1 T1] [K2 T2]. split; [by etransitivity|]. intros HT. destruct (T1 HT) as [E1 B1], (T2 HT) as [E2 B2]. split; congruence.
Qed.

Lemma settled_cons c r rs p1 p2 p3 : settled c [r] p1 p2 -> settled c rs p2 p3 -> settled c (r :: rs) p1 p3.
Proof.
  intros [_ _ K1 [D1 E1] F1 N1 L1] [? ? K2 C2 F2 N2 L2]. split; [done|done|congruence| |congruence| |by eapply left_over_trans].
  - split; [done|]. by rewrite <- E1.
  - by apply Forall_app_2 with (l1 := [r]).
Qed.

(** The algorithm is an abstract machine [f], whose states its own represent. *)
Context {M : Type} (rep : algorithms -> M -> Prop) (f : M -> list Z -> (Z * option (list Z)) * M).

Definition implements : Prop := forall g x d, rep g x -> IpcFacts.di_ok d ->
  safe_call own tight algo g d (fun code resp g' =>
    (code, result_bytes resp) = (f x (DataInfo.content d)).1 /\ rep g' (f x (DataInfo.content d)).2).

(** What the machine answers to inputs one after the other. *)
Fixpoint machine_run (x : M) (ds : list DataInfo.t) : list (Z * list Z) * M :=
  match ds with
  | [] => ([], x)
  | d :: ds =>
      let '(answer, x') := f x (DataInfo.content d) in
      let '(rest, x'') := machine_run x' ds in ((reply_code answer.1, reply_bytes answer) :: rest, x'')
  end.

Lemma sync_calls_spec c a ds x p :
  implements -> rep (server_states p) x ->
  calling p -> serving cap eid e algo own (ClientInfo.clientId c) (ClientInfo.sessionId c) (ClientProxy.remote p) ->
  AlgorithmInfo.isAsync a = false -> IpcFacts.di_ok (Wire.client_ext c) -> IpcFacts.di_ok (Wire.algorithm_ext a) ->
  Forall IpcFacts.di_ok ds ->
  wp (sync_calls c a ds) (fun rs p' => settled c rs p p' /\ answer <$> rs = (machine_run x ds).1 /\
    rep (server_states p') (machine_run x ds).2) p.
Proof.
  intros Hf Hx Hp HS Ha Hc Had Hds. revert p x Hx Hp HS. induction Hds as [|d ds Hd Hds IH]; intros p x Hx Hp HS; cbn [sync_calls machine_run].
  - apply wp_ret. split_and!; [by split|done|done].
  - apply wp_bind. eapply wp_mono; [apply (SyncExecAlgorithmProxy_spec c a d DataInfo.null _ p Hp HS Ha Hc Had Hd (Hf _ x d Hx Hd))|].
    intros r p1 (code & resp & [Q1 Q2] & E1 & E2 & N1 & Hp1 & HS1 & K1 & L1 & D1 & C1 & LO).
    destruct (f x (DataInfo.content d)) as [ans x']. cbn [fst snd] in Q1, Q2. subst ans.
    apply wp_bind. eapply wp_mono; [by apply (IH p1 x')|]. intros rest p2 (S2 & ER & R2). apply wp_ret.
    destruct (machine_run x' ds) as [answers x'']. cbn [fst snd] in *. split_and!; [| |done].
    + apply (settled_cons c r rest p p1 p2); [|done]. split; try done. by constructor.
    + cbn [fmap list_fmap]. unfold answer at 1. by rewrite ER, E1, E2.
Qed.

End call.
End SyncCallFacts.

(** C8. Synchronous calls from a client to a server where its session has the engine
    of an algorithm that implements an abstract machine [f] answer, one after the
    other, what [f] answers from its state on: success with the algorithm's bytes,
    or the process error with no bytes.  The client always gets an answer; the
    algorithm ends in the state of the machine.  Nothing is leaked on the way: on
    the client's heap each output is a new block of its own, for the caller, and
    no other block has come or gone; on the server's heap there is no block that
    was not there before and is not the algorithm's; neither side frees a block
    twice, no shared memory is left behind, and the next call can be made. *)
Theorem sync_calls_answered
    `{!Allocator, !DynLib, !Pthread, !Algorithm, !IpcIo, !IpcIoLaws, !Shm, !ShmLaws, !IpcFacts.ShmReliable,
      !Securec, !SecurecLaws}
    {M : Type} (rep : algorithms -> M -> Prop) (f : M -> list Z -> (Z * option (list Z)) * M) (own : algorithms -> gset nat)
    (cap : Z) (eid : nat) (e : Engine.t) (algo : nat)
    (getuid : Z) (fuel : nat) (now : Z) (c : ClientInfo.t) (a : AlgorithmInfo.t) (ds : list DataInfo.t) (x : M)
    (p : @ClientProxy.t _ _ (server_connection getuid fuel now)) :
  (forall k, new_ok k = true) -> malloc_serves -> 700 <= room io_init ->
  Executor.MAX_SYNC_MSG_NUM <= cap < 2 ^ 64 -> (cap | 2 ^ 64) -> (0 < fuel)%nat ->
  SyncCallFacts.implements algo own True rep f ->
  rep (SyncCallFacts.states (SaServer.adapters (ClientProxy.remote p))) x ->
  SyncCallFacts.calling getuid fuel now p ->
  SyncCallFacts.serving cap eid e algo own (ClientInfo.clientId c) (ClientInfo.sessionId c) (ClientProxy.remote p) ->
  AlgorithmInfo.isAsync a = false -> IpcFacts.di_ok (Wire.client_ext c) -> IpcFacts.di_ok (Wire.algorithm_ext a) ->
  Forall IpcFacts.di_ok ds ->
  let '(rs, p') := SyncCallFacts.sync_calls getuid fuel now c a ds p in
  let '(answers, x') := SyncCallFacts.machine_run f x ds in
  SyncCallFacts.answer <$> rs = answers /\ rep (SyncCallFacts.states (SaServer.adapters (ClientProxy.remote p'))) x' /\
  SyncCallFacts.settled cap eid e algo own True getuid fuel now c rs p p'.
Proof.
  intros HN HM HR Hcap Hdiv Hfuel Hf Hx Hp HS Ha Hc Had Hds.
  pose proof (SyncCallFacts.sync_calls_spec HN HM HR cap Hcap Hdiv eid e algo own True getuid fuel now Hfuel rep f c a ds x p
    Hf Hx Hp HS Ha Hc Had Hds) as S.
  unfold wp in S. destruct (SyncCallFacts.sync_calls getuid fuel now c a ds p) as [rs p'].
  destruct (SyncCallFacts.machine_run f x ds) as [answers x']. cbn [fst snd] in S. naive_solver.
Qed.

(** ** Witness: a server with one session, whose algorithm keeps a sum *)

Import IpcSample ExecSample.
#[local] Existing Instance always_alloc.

(** Each input is added to the sum, which is the answer; no input is an error. *)
Definition sum_of (x : Z) (bs : list Z) : (Z * option (list Z)) * Z :=
  if bool_decide (bs = []) then ((RETCODE_FAILURE, None), x)
  else let x := (x + foldr Z.add 0 bs) mod 256 in ((RETCODE_SUCCESS, Some [x]), x).

(** The answer goes into a block of its own. *)
Definition sum_process (r : Request.t) : ST (Z * Mem.t) (Z * option Response.t) := fun s =>
  match sum_of s.1 (DataInfo.content (Request.msg r)) with
  | ((code, None), x) => ((code, None), (x, s.2))
  | ((code, Some bs), x) =>
      let '(b, m) := malloc (zlen bs) bs s.2 in
      ((code, (fun b => Response.SetResult (DataInfo.mk (Some b) (zlen bs)) (Response.ctor (Some r))) <$> b), (x, m))
  end.

#[local] Instance summing : Algorithm := {|
  algorithms := Z;
  no_algorithms := 0;
  infer_mode := fun _ => Some PLUGIN_SYNC_INFER;
  sync_process := fun _ => sum_process;
  async_process := fun _ _ m => ((RETCODE_FAILURE, []), m);
  prepare := fun _ _ _ m => ((RETCODE_SUCCESS, DataInfo.null), m);
  release_algorithm := fun _ _ _ _ m => (RETCODE_SUCCESS, m);
  set_option := fun _ _ _ m => (RETCODE_SUCCESS, m);
  get_option := fun _ _ _ m => ((RETCODE_SUCCESS, DataInfo.null), m);
|}.

Definition no_blocks (x : algorithms) : gset nat := ∅.

Lemma summing_implements algo : SyncCallFacts.implements algo no_blocks True eq sum_of.
Proof.
  intros g x d <- _ r m W _ _ Ec _. cbn. unfold sum_process. cbn [fst snd]. rewrite Ec.
  destruct (sum_of g (DataInfo.content d)) as [[code [bs|]] x'] eqn:E.
  - assert (zlen bs = 1) as N by (unfold sum_of in E; by case_bool_decide; simplify_eq).
    pose proof (malloc_spec (zlen bs) bs m W) as M. unfold wp in M.
    destruct (malloc (zlen bs) bs m) as [[b|] m']; cbn in M; destruct M as (W' & B & Ok & M); [|done].
    destruct M as (Eb & Hn & L). eexists code, _, x', m'. split; [reflexivity|]. cbn. unfold SyncCallFacts.result_bytes, no_blocks.
    unfold IpcFacts.owned, DataInfo.content. cbn. rewrite Eb. split_and!; try done; try set_solver.
    intros ? [= <-]. unfold IpcFacts.di_ok. cbn. rewrite Eb, N. by vm_compute.
  - eexists code, None, x', m. split; [reflexivity|]. cbn. unfold no_blocks. split_and!; try done; set_solver.
Qed.

Definition session_id : Z := SaServerAdapter.GetTransactionId (SaServerAdapter.ctor 3) 4.
Definition one_session : Adapters.t :=
  Adapters.mk (Executor.StartEngine session_id sample_info DataInfo.null (Executor.init Mem.empty SaAsyncHandler.ctor)).2
    {[3 := SaServerAdapter.ctor 3]} 3 true.
Definition one_server : SaServer.t := SaServer.mk one_session (Ipc.os sender) SHM_KEY_START io_init io_init.
Definition sum_algorithm : AlgorithmInfo.t := AlgorithmInfo.mk 1 false 1 1 false 7 8 500 (DataInfo.data large).
#[local] Instance one_connection : Connection := server_connection 0 1 0.
Definition one_net : net := one_server.
Definition one_client : ClientProxy.t := ClientProxy.mk sender one_net true 0.

Lemma one_calling : SyncCallFacts.calling 0 1 0 one_client.
Proof.
  split; [done|apply mem_wf_empty|vm_compute; split; [discriminate|done]|].
  change (segments (Ipc.os (ClientProxy.ipc one_client))) with busy. vm_compute. discriminate.
Qed.

Lemma one_serving : SyncCallFacts.serving 64 0 (started_engine Handler.Sync) 1 no_blocks 3 4 one_server.
Proof.
  split; [|vm_compute; by intros ?|unfold no_blocks; set_solver|vm_compute; split; [discriminate|done]]. split.
  - exists (SaServerAdapter.ctor 3). split; vm_compute; reflexivity.
  - split; vm_compute; reflexivity.
  - eexists _, _; (split_and!; [vm_compute; reflexivity|vm_compute; reflexivity|]). apply (QueueFacts.rep_ctor 64); lia.
Qed.

Lemma one_inputs : Forall IpcFacts.di_ok [small; large; DataInfo.null; small].
Proof. repeat constructor; vm_compute; repeat split; discriminate. Qed.

Lemma sync_calls_answered_witness :
  let '(rs, p') := SyncCallFacts.sync_calls 0 1 0 sample_client sum_algorithm [small; large; DataInfo.null; small] one_client in
  SyncCallFacts.answer <$> rs =
    [(RETCODE_SUCCESS, [6]); (RETCODE_SUCCESS, [154]); (RETCODE_ALGORITHM_PROCESS_ERROR, []); (RETCODE_SUCCESS, [160])] /\
  SyncCallFacts.handed_out (Mem.live (Ipc.mem (ClientProxy.ipc one_client))) rs (Mem.live (Ipc.mem (ClientProxy.ipc p'))).
Proof.
  pose proof (sync_calls_answered eq sum_of no_blocks 64 0 (started_engine Handler.Sync) 1 0 1 0 sample_client sum_algorithm
    [small; large; DataInfo.null; small] 0 one_client) as T.
  destruct (SyncCallFacts.sync_calls _ _ _ _ _ _ one_client) as [rs p'].
  destruct (SyncCallFacts.machine_run _ _ _) as [answers x'] eqn:Em.
  destruct T as (-> & _ & HS); [done|done|vm_compute; discriminate|unfold MAX_SYNC_MSG_NUM; lia|apply divides_64
    |lia|apply summing_implements|vm_compute; reflexivity|apply one_calling|apply one_serving|done|..|apply one_inputs|];
    [vm_compute; repeat split; discriminate..|]. split; [|apply HS].
  change answers with (answers, x').1. rewrite <- Em. vm_compute. reflexivity.
Defined.
