(* ===== verification/Admission.v ===== *)
(** * Admission: the first requests of a client to a new server

    A server that has just started gives a client its number, loads the plugin the
    client asks for, starts its engine and prepares the algorithm: the way from
    [ID_INIT_ENGINE] and [ID_LOAD_ALGORITHM] through sa_server.c, the adapters and
    the executor, and back to the proxies of the client.  It ends where [SyncCall]
    begins.  The last request is here as well: the server forgets the client. *)

From Stdlib Require Import ZArith Lia Ascii String.
From stdpp Require Import gmap strings list.
From S2P Require Import Prelude Protocol Encdec Sync Queue Thread Pools PluginManager FutureFactory Executor ExecutorProps Ipc ClientProxy ServerAdapter SaServer Client ClientProps EndToEnd AdapterProps SyncCall.

#[local] Open Scope Z_scope.

Module AdmissionFacts.
Import Executor ExecutorFacts SyncCallFacts.

(** ** The executor *)

Section executor.
  Context {X : Type} `{!Allocator, !DynLib, !Pthread, !Algorithm}.
  Implicit Types (w : @world X _).

(** Nothing has been loaded. *)
Definition fresh w : Prop := exists f k g, w = mk_world f ∅ 0 QueuePool.statics0 None None ∅ 0 ∅ ∅ k g.

(** The algorithm that the client asks for has a library that can be loaded. *)
Record installed (ai : AlgorithmInfo.t) : Prop := {
  in_label : new_label 1 = true;
  in_id : GetAlgorithmIdByType (AlgorithmInfo.algorithmType ai) <> ALGORITHM_ID_INVALID;
  in_loads : exists path real,
    PluginLabel.GetLibPath (GetAlgorithmIdByType (AlgorithmInfo.algorithmType ai)) (AlgorithmInfo.algorithmVersion ai) = (RETCODE_SUCCESS, path) /\
    (String.length LIB_PATH <= String.length path)%nat /\ realpath path = Some real /\ String.prefix LIB_PATH real = true /\
    dlopen 0 real = true /\ has_interface path = true /\ make_plugin 1 path = true;
}.

(** The engine of the first algorithm, once a session uses it. *)
Definition first_engine : Engine.t := Engine.mk 1 2 (Some 0%nat) 0 (Some (sync_handler 0 1)).

Record started (transactionId : Z) w : Prop := {
  sd_runs : runs 0 (sync_handler 0 1) first_engine w;
  sd_queue : has_queue MAX_SYNC_MSG_NUM 0 [] w;
  sd_client : clientEngines_ w !! transactionId = Some 0%nat;
}.

Context (new_works : forall k, new_ok k = true) (attr_works : forall n, pthread_attr_init n = 0)
        (create_works : forall n, pthread_create n = 0) (sync_mode : infer_mode 1 = Some PLUGIN_SYNC_INFER).

(** Only the count of allocations differs. *)
Definition ticked (m m' : Mem.t) : Prop := exists n, m' = m <| Mem.tick := n |>.

#[global] Instance ticked_preorder : PreOrder ticked.
Proof. split; [intros []; by eexists|]. intros m1 m2 m3 [n ->] [k ->]. by eexists. Qed.

Definition refill (m : Mem.t) (f : @FutureFactory.t X) : @FutureFactory.t X := f <| FutureFactory.mem := m |>.

Lemma wp_world_new (Q : bool -> @world X _ -> Prop) w :
  (forall m, ticked (mem w) m -> Q true (w <| futures := refill m (futures w) |>)) -> wp (on_mem AIE_NEW) Q w.
Proof.
  intros HQ. unfold on_mem. do 2 apply wp_on_field. unfold wp, AIE_NEW. rewrite new_works. cbn [fst snd].
  apply HQ. by eexists.
Qed.

(** The plugin manager loads the library and its algorithm. *)
Definition first_plugin (key : string * Z) : PluginManager.t :=
  PluginManager.mk {[key := 2%nat]} {[2%nat := Plugin.mk (Some 1%nat) key.1 key.2 (Some 0%nat)]} [2%nat] 3 2 {[0%nat]} {[1%nat]} false
    true 2.

(** The end of the temporary that [LoadPlugin] copies. *)
Lemma dtor_first aid version : PluginManager.dtor (Plugin.ctor aid version) PluginManager.ctor =
  (tt, PluginManager.ctor <| PluginManager.labels := 1%nat |>).
Proof.
  unfold PluginManager.dtor, PluginManager.UnloadPluginAlgorithm, PluginManager.GetPluginLabel.
  cbv [mbind ST_bind mret ST_ret gets modify]. cbn. by destruct (new_label 0).
Qed.

Lemma label_first : new_label 1 = true ->
  PluginManager.GetPluginLabel (PluginManager.ctor <| PluginManager.labels := 1%nat |>) =
  (true, PluginManager.ctor <| PluginManager.labels := 2%nat |> <| PluginManager.label := true |>).
Proof.
  intros Hl. unfold PluginManager.GetPluginLabel. cbv [mbind ST_bind mret ST_ret gets modify]. cbn. by rewrite Hl.
Qed.

Lemma GetPlugin_first ai :
  installed ai -> let key := (GetAlgorithmIdByType (AlgorithmInfo.algorithmType ai), AlgorithmInfo.algorithmVersion ai) in
  PluginManager.GetPlugin key.1 key.2 PluginManager.ctor = ((RETCODE_SUCCESS, Some 2%nat), first_plugin key).
Proof.
  intros [Hlab _ (path & real & L & Hlen & R & Hp & D & Hi & Hm)]. cbn [fst snd].
  match goal with |- ?m ?s = (?a, ?b) => assert (wp m (fun r s' => r = a /\ s' = b) s) as U end.
  { unfold PluginManager.GetPlugin, PluginManager.FindPlugin. wp_flow.
    change (PluginManager.pluginMap_ PluginManager.ctor) with (∅ : gmap (string * Z) nat). rewrite lookup_empty.
    unfold PluginManager.LoadPlugin. apply wp_bind. unfold wp at 1. rewrite dtor_first. cbn [fst snd].
    unfold PluginManager.LoadPluginAlgorithm. apply wp_bind, wp_bind. unfold wp at 1. rewrite label_first by done.
    cbn [fst snd negb Plugin.aid_ Plugin.version_ Plugin.ctor].
    rewrite L, Z.eqb_refl. cbn [negb]. wp_flow. unfold PluginManager.AieDlopen.
    rewrite (proj2 (Nat.ltb_ge _ _)), R, Hp by done. cbn [negb]. wp_flow.
    match goal with |- context [dlopen ?n] => change n with 0%nat end. rewrite D. wp_flow. rewrite Hi. cbn [negb]. wp_flow.
    match goal with |- context [make_plugin ?n] => change n with 1%nat end. rewrite Hm. cbn [negb]. wp_flow.
    rewrite Z.eqb_refl. cbn [negb]. wp_flow. unfold PluginManager.AddPlugin. wp_flow. split; [done|].
    unfold first_plugin. reflexivity. }
  unfold wp in U. destruct (PluginManager.GetPlugin _ _ _). cbn [fst snd] in U. by destruct U as [-> ->].
Qed.

Lemma wp_on_manager {A} (none : A) (m : ST PluginManager.t A) Q w p :
  pluginManager w = Some p -> wp m (fun a p' => Q a (w <| pluginManager := Some p' |>)) p -> wp (on_plugins none m) Q w.
Proof. intros E. unfold wp, on_plugins. rewrite E. by destruct (m p). Qed.

Lemma wp_on_thread_pool {A} (none : A) (m : ST ThreadPool.t A) Q w p :
  threadPool w = Some p -> wp m (fun a p' => Q a (w <| threadPool := Some p' |>)) p -> wp (on_thread_pool none m) Q w.
Proof. intros E. unfold wp, on_thread_pool. rewrite E. by destruct (m p). Qed.

Lemma wp_on_queue_pool {A} (none : A) (m : ST (@QueuePool.t Task.t) A) Q w p :
  QueuePool.instance_ (queuePool w) = Some p ->
  wp m (fun a p' => Q a (w <| queuePool := QueuePool.mk_statics (Some p') (QueuePool.singleQueueCapacity_ (queuePool w)) |>)) p ->
  wp (on_queue_pool none m) Q w.
Proof. intros E. unfold wp, on_queue_pool. rewrite E. by destruct (m p). Qed.

Lemma wp_on_algorithm {A} (m : ST (algorithms * Mem.t) A) Q w :
  wp m (fun a s => Q a (w <| plugin_states := s.1 |> <| futures := refill s.2 (futures w) |>)) (plugin_states w, mem w) ->
  wp (on_algorithm m) Q w.
Proof. unfold wp, on_algorithm. by destruct (m _) as [? []]. Qed.

(** A world written out. *)
Ltac state := lazymatch goal with |- wp ?m ?Q ?s =>
  let s' := eval cbv beta iota delta [set_field futures notifiers next_notifier queuePool threadPool pluginManager
    objects next_engine engines_ clientEngines_ pthreads plugin_states] in s in change (wp m Q s') end.

(** The worlds of a new server before and after it has made its first engine. *)
Definition empty_world (f : FutureFactory.t) (k : nat) g : @world X _ :=
  mk_world f ∅ 0 QueuePool.statics0 None None ∅ 0 ∅ ∅ k g.
Definition first_pool : ThreadPool.t := (ThreadPool.Pop true ThreadPool.ctor).2.
Definition first_queues : @QueuePool.t Task.t := QueuePool.mk {[0%nat := Queue.ctor MAX_SYNC_MSG_NUM]} 1 [] 1.
Definition first_world (f : FutureFactory.t) (k : nat) g key tp (e : Engine.t) es cs : @world X _ :=
  mk_world f ∅ 0 (QueuePool.mk_statics (Some first_queues) MAX_SYNC_MSG_NUM)
    (Some tp) (Some (first_plugin key)) {[0%nat := e]} 1 es cs k g.

Lemma Initialize_first (Q : Z -> @world X _ -> Prop) f k g key :
  (forall m tp, ticked (FutureFactory.mem f) m -> Q RETCODE_SUCCESS
     (first_world (refill m f) (S k) g key tp (first_engine <| Engine.refCount_ := 0 |>) ∅ ∅)) ->
  wp (Initialize 0) Q (first_world f k g key first_pool (Engine.ctor 2 0 0) ∅ ∅).
Proof using new_works attr_works create_works sync_mode.
  intros HQ. unfold Initialize, first_world. apply wp_bind, wp_gets. unfold engine_of. cbn [objects]. rewrite lookup_singleton_eq.
  apply wp_bind, wp_gets. change (algorithm_of (Engine.plugin_ (Engine.ctor 2 0 0)) _) with (Some 1%nat).
  apply wp_bind, wp_world_new. intros m T. cbn [negb]. state. unfold IsSyncMode. rewrite sync_mode, String.eqb_refl.
  apply wp_bind. unfold upd_engine. apply wp_modify. state. cbn [Engine.thread_ Engine.ctor].
  apply wp_bind. unfold StartThread. apply wp_bind, wp_gets, wp_bind, wp_modify. state.
  eapply wp_on_thread_pool; [reflexivity|].
  destruct (ClientFacts.begin_start_ok k 0 (ThreadPool.thread_of first_pool 0) (conj new_works (conj attr_works create_works)) eq_refl) as [th E].
  cbn [pthreads]. unfold wp at 1. rewrite E. cbn [fst snd negb]. rewrite alter_singleton_eq. by apply wp_ret, HQ.
Qed.

Lemma CreateEngine_first ai (Q : Z * option nat -> @world X _ -> Prop) f k g :
  installed ai -> let key := (GetAlgorithmIdByType (AlgorithmInfo.algorithmType ai), AlgorithmInfo.algorithmVersion ai) in
  (forall m tp, ticked (FutureFactory.mem f) m -> Q (RETCODE_SUCCESS, Some 0%nat)
     (first_world (refill m f) (S k) g key tp (first_engine <| Engine.refCount_ := 0 |>) ∅ ∅)) ->
  wp (CreateEngine key) Q (empty_world f k g).
Proof using new_works attr_works create_works sync_mode.
  intros I key HQ. pose proof (GetPlugin_first ai I) as G. cbv zeta in G. fold key in G.
  unfold empty_world, CreateEngine, GetPluginManager. apply wp_bind, wp_bind, wp_gets. cbn [pluginManager].
  apply wp_bind, wp_world_new. intros m1 T1. apply wp_bind, wp_modify, wp_ret. cbn [negb]. state.
  apply wp_bind. eapply wp_on_manager; [reflexivity|]. unfold wp at 1. rewrite G. cbn [fst snd]. state.
  apply wp_bind. unfold GetThreadPool. apply wp_bind, wp_gets. cbn [threadPool]. apply wp_bind, wp_world_new. intros m2 T2.
  apply wp_bind, wp_modify, wp_ret. cbn [negb]. state.
  apply wp_bind, wp_world_new. intros m3 T3. state.
  apply wp_bind. eapply wp_on_thread_pool; [reflexivity|]. unfold wp at 1. change (ThreadPool.Pop true ThreadPool.ctor) with (Some 0%nat, first_pool).
  cbn [fst snd]. state.
  apply wp_bind. unfold GetQueuePool. apply wp_bind, wp_gets. cbn [queuePool QueuePool.instance_ QueuePool.statics0].
  apply wp_bind, wp_world_new. intros m4 T4. apply wp_bind, wp_modify, wp_ret. cbn [negb]. state.
  apply wp_bind, wp_world_new. intros m5 T5. state. apply wp_bind, wp_world_new. intros m6 T6. state. apply wp_bind, wp_gets.
  apply wp_bind. eapply wp_on_queue_pool; [reflexivity|]. unfold wp at 1. 
  change (QueuePool.Pop _ true true QueuePool.ctor) with (Some 0%nat, first_queues). cbn [fst snd]. state.
  apply wp_bind, wp_world_new. intros m7 T7. cbn [negb]. state. apply wp_bind, wp_gets, wp_bind, wp_modify. state.
  apply wp_bind. match goal with |- wp _ _ ?w => change w with (first_world (refill m7 f) k g key first_pool (Engine.ctor 2 0 0) ∅ ∅) end.
  apply Initialize_first. intros m8 tp T8. rewrite Z.eqb_refl. apply wp_ret, HQ.
  repeat (etransitivity; [eassumption|]). done.
Qed.

Lemma first_started f k g key tp es cs tid :
  cs !! tid = Some 0%nat -> started tid (first_world f k g key tp first_engine es cs).
Proof.
  intros E. split; [by split| |done]. exists first_queues, (Queue.ctor MAX_SYNC_MSG_NUM). split_and!; [done|done|].
  by apply QueueFacts.rep_ctor.
Qed.

(** [StartEngine] up to the call of [Prepare], and from there on. *)
Lemma StartEngine_first tid ai input (Q : Z * DataInfo.t -> @world X _ -> Prop) w :
  fresh w -> installed ai ->
  (forall m, ticked (mem w) m -> wp (prepare 1 tid input) (fun x s => x.1 = RETCODE_SUCCESS /\
     forall w', started tid w' -> plugin_states w' = s.1 -> mem w' = s.2 -> Q (RETCODE_SUCCESS, x.2) w') (plugin_states w, m)) ->
  wp (StartEngine tid ai input) Q w.
Proof using new_works attr_works create_works sync_mode.
  intros (f & k & g & ->) I HQ. unfold StartEngine. rewrite (proj2 (String.eqb_neq _ _) (in_id _ I)).
  apply wp_bind. unfold FindEngineByKey. apply wp_gets. cbn [engines_]. rewrite lookup_empty.
  apply wp_bind. unfold CreateEngineWithCheck, FindEngineByKey. apply wp_bind, wp_gets. cbn [engines_]. rewrite lookup_empty.
  apply wp_bind, CreateEngine_first; [done|]. intros m tp T. rewrite Z.eqb_refl. cbn [negb]. unfold first_world.
  apply wp_bind, wp_modify. state. apply wp_ret. rewrite Z.eqb_refl. cbn [negb].
  apply wp_bind, wp_gets. match goal with |- context [mbind ?h (engine_of 0 ?w)] => change (mbind h (engine_of 0 w)) with (Some 1%nat) end.
  cbv beta iota. apply wp_bind, wp_on_algorithm. cbn [plugin_states]. eapply wp_mono; [by apply HQ|].
  intros [c out] [g' m'] [Ec H']. cbn [fst snd] in *. subst c. rewrite Z.eqb_refl. cbn [negb]. state.
  apply wp_bind. unfold upd_engine. apply wp_modify. state. rewrite alter_singleton_eq.
  apply wp_bind. unfold RecordClient. apply wp_modify. state. apply wp_ret, H'; [|done|done].
  apply first_started, lookup_insert_eq.
Qed.

End executor.
(** ** The adapter *)

Section adapters.
  Context `{!Allocator, !DynLib, !Pthread, !Algorithm}.
  Context (new_works : forall k, new_ok k = true) (attr_works : forall n, pthread_attr_init n = 0)
        (create_works : forall n, pthread_create n = 0) (sync_mode : infer_mode 1 = Some PLUGIN_SYNC_INFER).
  Import Adapters.
  Implicit Types (s : Adapters.t).

#[local] Notation ready := (ready MAX_SYNC_MSG_NUM 0 first_engine 1).

(** A new server makes its executor. *)
Record untouched s s' : Prop := {
  ut_fresh : fresh (exec s');
  ut_heap : ticked (heap s) (heap s');
  ut_states : states s' = states s;
  ut_clients : g_saServerAdapters s' = g_saServerAdapters s;
}.

Lemma untouched_trans s1 s2 s3 : untouched s1 s2 -> untouched s2 s3 -> untouched s1 s3.
Proof. intros [] []. split; [done|by etransitivity|congruence|congruence]. Qed.

Lemma wp_new_untouched (K : bool -> Adapters.t -> Prop) s :
  fresh (exec s) -> (forall s', untouched s s' -> K true s') -> wp (on_mem AIE_NEW) K s.
Proof using new_works.
  intros (f & k & g & E) HK. unfold on_mem, on_exec. apply wp_on_field, wp_world_new; [done|]. intros m T. apply HK.
  split; [|exact T|done|done]. exists (refill m f), k, g. cbn. by rewrite E.
Qed.

Lemma wp_first_executor {A} (none : A) (m : ST Adapters.t A) (K : A -> Adapters.t -> Prop) s :
  fresh (exec s) -> (forall s', untouched s s' -> wp m K s') -> wp (with_executor none m) K s.
Proof using new_works.
  intros Hf HK. unfold with_executor, GetServerExecutor. apply wp_bind, wp_bind, wp_gets.
  destruct (executor s); [by apply wp_ret, HK|].
  apply wp_bind, wp_new_untouched; [done|]. intros s1 U1. cbn [negb].
  apply wp_bind, wp_new_untouched; [apply U1|]. intros s2 U2. cbn [negb].
  apply wp_bind, wp_modify, wp_ret, HK. destruct (untouched_trans _ _ _ U1 U2). by split.
Qed.

Lemma LoadAlgoWrapper_first c ai input a (Q : Z * DataInfo.t -> Adapters.t -> Prop) s :
  g_saServerAdapters s !! ClientInfo.clientId c = Some a -> AlgorithmInfo.isAsync ai = false ->
  fresh (exec s) -> installed ai ->
  (forall m, ticked (heap s) m -> wp (prepare 1 (SaServerAdapter.GetTransactionId a (ClientInfo.sessionId c)) input)
     (fun x st => x.1 = RETCODE_SUCCESS /\ forall s', ready (ClientInfo.clientId c) (ClientInfo.sessionId c) s' ->
        states s' = st.1 -> heap s' = st.2 -> Q (RETCODE_SUCCESS, x.2) s') (states s, m)) ->
  wp (LoadAlgoWrapper (Some c) (Some ai) input) Q s.
Proof.
  intros Ea Ha Hf Hi HQ. unfold LoadAlgoWrapper, guarded, on_adapter. apply wp_bind, wp_gets. rewrite Ea.
  apply wp_bind, wp_modify, wp_bind, wp_bind. unfold LoadAlgorithm, on_adapter. apply wp_bind, wp_first_executor; [done|].
  intros s1 [Hf1 T1 G1 A1]. unfold on_exec. apply wp_on_field.
  apply (StartEngine_first new_works attr_works create_works sync_mode); [done|done|]. intros m T.
  change (plugin_states (exec s1)) with (states s1). rewrite G1.
  eapply wp_mono; [apply HQ; by etransitivity|]. intros [code out] st [Ec H']. cbn [fst snd] in *. subst code. split; [done|].
  intros w [S1 S2 S3] Es Em. cbn [fst]. rewrite Z.eqb_refl. cbn [negb]. apply wp_bind, wp_modify, wp_ret.
  rewrite Z.eqb_refl. cbn [negb]. rewrite Ha. apply wp_ret, wp_bind, wp_modify, wp_ret, H'; [|done|done].
  split; [|done|done]. eexists. split; [cbn; rewrite A1; cbn; rewrite !lookup_alter_eq, Ea; reflexivity|exact S3].
Qed.

End adapters.

(** ** The server *)

Section server.
  Context `{!Allocator, !DynLib, !Pthread, !Algorithm, !IpcIo, !IpcIoLaws, !Shm, !ShmLaws, !IpcFacts.ShmReliable,
            !Securec, !SecurecLaws}.
  Context (new_works : forall k, new_ok k = true) (malloc_works : malloc_serves) (attr_works : forall n, pthread_attr_init n = 0)
        (create_works : forall n, pthread_create n = 0) (sync_mode : infer_mode 1 = Some PLUGIN_SYNC_INFER).
  Context (own : algorithms -> gset nat).
  Import SaServer.
  Implicit Types (s : SaServer.t).

#[local] Notation serving := (serving MAX_SYNC_MSG_NUM 0 first_engine 1 own).
#[local] Notation undisturbed := (undisturbed MAX_SYNC_MSG_NUM first_engine).

(** What [Prepare] does of the state [g], whatever else is on the heap: it
    succeeds, uses only the blocks of the algorithms, leaves those of others alone
    and hands its output over in a new block. *)
Definition safe_prepare (g : algorithms) (Q : DataInfo.t -> algorithms -> Prop) : Prop := forall tid input m,
  mem_wf m -> own g ⊆ Mem.live m -> exists out g' m',
  prepare 1 tid input (g, m) = ((RETCODE_SUCCESS, out), (g', m')) /\ Q out g' /\ mem_wf m' /\ own g' ⊆ Mem.live m' /\
  IpcFacts.owned out ∪ (Mem.live m ∖ own g) ⊆ Mem.live m' ∖ own g' /\ IpcFacts.owned out ## Mem.live m ∖ own g /\ IpcFacts.di_ok out.

(** A new server to which the client is known. *)
Record awaiting (clientId : Z) s : Prop := {
  aw_fresh : fresh (Adapters.exec (adapters s));
  aw_client : is_Some (Adapters.g_saServerAdapters (adapters s) !! clientId);
  aw_mem : mem_wf (mem s);
  aw_own : own (states (adapters s)) ⊆ Mem.live (mem s);
  aw_key : IpcFacts.key_ok (g_shmKey s);
}.

Lemma fresh_set_mem m s : fresh (Adapters.exec (adapters s)) -> fresh (Adapters.exec (adapters (set_mem m s))).
Proof. intros (f & k & g & E). exists (refill m f), k, g. cbn. by rewrite E. Qed.

Lemma server_release d (Q : unit -> SaServer.t -> Prop) s :
  mem_wf (mem s) -> IpcFacts.owned d ⊆ Mem.live (mem s) ->
  (forall x, undisturbed (states (adapters s)) (adapters s) x -> mem_wf (heap x) -> Mem.live (heap x) = Mem.live (mem s) ∖ IpcFacts.owned d ->
     Q tt (s <| adapters := x |>)) ->
  wp (on_mem (free (DataInfo.data d))) Q s.
Proof.
  intros W L HQ. apply (server_free MAX_SYNC_MSG_NUM first_engine d (Mem.live (mem s) ∖ IpcFacts.owned d)); [done| |set_solver|].
  - apply union_difference_L. done.
  - intros x U Wx Lx _. by apply HQ.
Qed.

(** The end of [InvokeLoadAlgorithm]: the reply, and what the request brought is
    freed. *)
Lemma answer_loaded c a d out cid sid s :
  content (reply s) = [] -> 215 <= room (reply s) -> IpcFacts.di_ok out -> IpcFacts.key_ok (g_shmKey s) ->
  Z.of_nat (size (segments (os s))) + 1 <= SHM_KEY_END - SHM_KEY_START ->
  ready MAX_SYNC_MSG_NUM 0 first_engine 1 cid sid (adapters s) -> mem_wf (mem s) -> own (states (adapters s)) ⊆ Mem.live (mem s) ->
  let X1 := IpcFacts.owned (Wire.client_ext c) in let X2 := IpcFacts.owned (Wire.algorithm_ext a) in let X3 := IpcFacts.owned d in
  IpcFacts.owned out ∪ X1 ∪ X2 ∪ X3 ⊆ Mem.live (mem s) ∖ own (states (adapters s)) ->
  IpcFacts.owned out ## X1 ∪ X2 ∪ X3 -> X1 ## X2 -> X3 ## X1 ∪ X2 ->
  wp (on_reply (Ipc.WriteInt32 RETCODE_SUCCESS) ;; on_reply (Ipc.ParcelDataInfo out (ClientInfo.clientUid c)) ;;
      on_mem (FreeDataInfo out) ;; on_mem (FreeClientInfo c) ;; on_mem (FreeAlgorithmInfo a) ;;
      on_mem (FreeDataInfo d) ;; mret RETCODE_SUCCESS)
    (fun r s' => exists items, r = RETCODE_SUCCESS /\ content (reply s') = I32 RETCODE_SUCCESS :: items /\
       IpcFacts.carried (segments (os s')) out items /\ segments (os s) = IpcFacts.without items (segments (os s')) /\
       states (adapters s') = states (adapters s) /\ serving cid sid s') s.
Proof.
  intros R Room Hdi Hk Hl Hr W HO X1 X2 X3 L D0 D1 D2.
  apply (reply_spec MAX_SYNC_MSG_NUM first_engine); [done..|]. intros s3 items C3 Car S3 K3 U3 M3.
  apply wp_bind, (server_release out); rewrite ?M3; [done|set_solver|]. intros x4 U4 W4 L4.
  apply wp_bind, (server_release (Wire.client_ext c)); [exact W4|change (mem _) with (heap x4); rewrite L4; fold X1; set_solver|].
  change (mem (s3 <| adapters := x4 |>)) with (heap x4). intros x5 U5 W5 L5.
  apply wp_bind, (server_release (Wire.algorithm_ext a)); [exact W5|change (mem _) with (heap x5); rewrite L5, L4; fold X1 X2; set_solver|].
  change (mem (s3 <| adapters := x4 |> <| adapters := x5 |>)) with (heap x5). intros x6 U6 W6 L6.
  apply wp_bind, (server_release d); [exact W6|change (mem _) with (heap x6); rewrite L6, L5, L4; fold X1 X2 X3; set_solver|].
  change (mem (s3 <| adapters := x4 |> <| adapters := x5 |> <| adapters := x6 |>)) with (heap x6). intros x7 U7 W7 L7. apply wp_ret.
  pose proof (undisturbed_steps _ _ _ _ _ U3 (undisturbed_steps _ _ _ _ _ U4 (undisturbed_steps _ _ _ _ _ U5 (undisturbed_steps _ _ _ _ _ U6 U7)))) as U.
  exists items. split_and!; [done|done|done|done|exact (undisturbed_states _ _ _ _ _ U)|].
  split; [exact (ready_undisturbed _ _ _ _ _ _ _ _ _ U Hr)|exact W7| |exact K3].
  change (adapters (_ <| adapters := x7 |>)) with x7. change (mem (_ <| adapters := x7 |>)) with (heap x7).
  rewrite (undisturbed_states _ _ _ _ _ U), L7, L6, L5, L4. fold X1 X2 X3. set_solver.
Qed.

Lemma InvokeLoadAlgorithm_answers c a d i1 i2 i3 base (Q : DataInfo.t -> algorithms -> Prop) s :
  content (req s) = Wire.request_items c a d i1 i2 i3 -> content (reply s) = [] -> 215 <= room (reply s) ->
  IpcFacts.carried (segments (os s)) (Wire.client_ext c) i1 ->
  IpcFacts.carried (IpcFacts.without i1 (segments (os s))) (Wire.algorithm_ext a) i2 ->
  IpcFacts.carried (IpcFacts.without i2 (IpcFacts.without i1 (segments (os s)))) d i3 ->
  base = IpcFacts.without i3 (IpcFacts.without i2 (IpcFacts.without i1 (segments (os s)))) ->
  Z.of_nat (size base) + 1 <= SHM_KEY_END - SHM_KEY_START ->
  AlgorithmInfo.isAsync a = false -> installed a -> awaiting (ClientInfo.clientId c) s -> safe_prepare (states (adapters s)) Q ->
  wp InvokeLoadAlgorithm (fun r s' => exists out items,
    r = RETCODE_SUCCESS /\ content (reply s') = I32 RETCODE_SUCCESS :: items /\
    IpcFacts.carried (segments (os s')) out items /\ base = IpcFacts.without items (segments (os s')) /\
    Q out (states (adapters s')) /\ serving (ClientInfo.clientId c) (ClientInfo.sessionId c) s') s.
Proof.
  intros C R0 Room Car1 Car2 Car3 E Hkeys Ha Hi [Hf [ad Had] W HO Hk] Hsafe.
  rewrite <- (app_nil_r (Wire.request_items _ _ _ _ _ _)) in C. unfold InvokeLoadAlgorithm. apply wp_bind, ServerFacts.wp_on_req.
  eapply wp_mono; [by apply (Wire.UnParcelInfo_spec malloc_works c a d base _ i1 i2 i3 [])|].
  intros x i (c' & a' & d' & -> & Sc & Sa & Ld & Cd & _ & S1 & (W' & L & D & B & K) & D1 & D2). cbn in W', L, D, B, K.
  destruct Sc as [Hc _], Sa as [Ha' _]. unfold Wire.client_header, Wire.algorithm_header in Hc, Ha'.
  injection Hc as _ Hcid Hsid _ Huid. injection Ha' as _ Hasync Hty Hver _ _ _.
  cbv beta iota. rewrite Z.eqb_refl. cbn [negb].
  set (s1 := set_mem _ _). assert (mem s1 = Ipc.mem i) as M1 by done.
  assert (fresh (Adapters.exec (adapters s1))) as F1 by by apply fresh_set_mem.
  assert (undisturbed (states (adapters s)) (adapters s) (adapters s1)) as U1 by exact (set_mem_undisturbed MAX_SYNC_MSG_NUM first_engine (Ipc.mem i) s).
  assert (content (reply s1) = [] /\ 215 <= room (reply s1) /\ g_shmKey s1 = g_shmKey s /\ segments (os s1) = base) as (R1 & Room1 & K1 & B1).
  { split_and!; [done|done|exact K|exact S1]. }
  clearbody s1. rewrite <- M1 in W', L. pose proof (undisturbed_states _ _ _ _ _ U1) as G1.
  set (X1 := IpcFacts.owned (Wire.client_ext c')). set (X2 := IpcFacts.owned (Wire.algorithm_ext a')). set (X3 := IpcFacts.owned d').
  fold X1 X2 X3 in L, D, D1, D2. apply wp_bind. unfold on_adapters. apply wp_on_field.
  apply (LoadAlgoWrapper_first new_works attr_works create_works sync_mode c' a' d' ad).
  { rewrite Hcid. by rewrite (un_clients _ _ _ _ _ U1). }
  { by rewrite Hasync. }
  { done. }
  { destruct Hi. split; by rewrite ?Hty, ?Hver. }
  intros m [tk Em]. assert (mem_wf m /\ Mem.live m = X1 ∪ X2 ∪ X3 ∪ Mem.live (mem s)) as [Wm Lm].
  { rewrite Em. split; [exact W'|exact L]. }
  destruct (Hsafe (SaServerAdapter.GetTransactionId ad (ClientInfo.sessionId c')) d' m Wm ltac:(set_solver))
    as (out & g' & m' & EP & HQ & W2 & O2 & Keep & Dis & Hdi).
  unfold wp at 1. rewrite G1, EP. cbn [fst snd]. split; [done|]. intros x2 Hready2 G2 M2. rewrite Hcid, Hsid in Hready2.
  set (s2 := s1 <| adapters := x2 |>). change (heap x2) with (mem s2) in M2. change (states x2) with (states (adapters s2)) in G2.
  subst g' m'. eapply wp_mono.
  { apply (answer_loaded c' a' d' out (ClientInfo.clientId c) (ClientInfo.sessionId c) s2); fold X1 X2 X3; try done.
    - change (g_shmKey s2) with (g_shmKey s1). by rewrite K1.
    - change (os s2) with (os s1). by rewrite B1.
    - rewrite Lm in Keep. clear -Keep D HO. set_solver.
    - rewrite Lm in Dis. clear -Dis D HO. set_solver. }
  intros r s3 (items & -> & C3 & Car & S3 & G3 & HS). exists out, items. change (os s2) with (os s1) in S3.
  rewrite B1 in S3. rewrite G3. done.
Qed.

(** A new server with room for another client. *)
Record open_server s : Prop := {
  op_fresh : fresh (Adapters.exec (adapters s));
  op_counter : 0 <= Adapters.g_clientIdAtomic (adapters s) <= INT_MAX;
  op_room : Z.of_nat (size (Adapters.g_saServerAdapters (adapters s))) <= Adapters.MAX_NUM_CLIENTS;
  op_mem : mem_wf (mem s);
  op_own : own (states (adapters s)) ⊆ Mem.live (mem s);
  op_key : IpcFacts.key_ok (g_shmKey s);
}.

Lemma FindValidClientId_finds (a : Adapters.t) :
  0 <= Adapters.g_clientIdAtomic a <= INT_MAX -> Z.of_nat (size (Adapters.g_saServerAdapters a)) <= Adapters.MAX_NUM_CLIENTS ->
  wp Adapters.FindValidClientId (fun id a' => 1 <= id <= INT_MAX /\ a' = a <| Adapters.g_clientIdAtomic := id |>) a.
Proof.
  unfold INT_MAX, Adapters.MAX_NUM_CLIENTS. intros Hc Hs. unfold wp, Adapters.FindValidClientId, Adapters.MAX_NUM_CLIENTS, Adapters.STARTING_CLIENT_ID.
  rewrite (proj2 (Z.ltb_ge _ _)) by lia.
  set (used := fun id => bool_decide (is_Some (Adapters.g_saServerAdapters a !! id))).
  destruct (bump_while_total 32 1 ltac:(lia) ltac:(lia) used (dom (Adapters.g_saServerAdapters a))
    (S (size (Adapters.g_saServerAdapters a))) (Adapters.g_clientIdAtomic a)) as [id Hid]; rewrite ?size_dom; [lia| |lia|lia|].
  - intros y. unfold used. rewrite bool_decide_eq_true. by rewrite elem_of_dom.
  - rewrite Hid. apply bump_while_some in Hid as [? _]; [|lia..]. cbn. split; [lia|done].
Qed.

Lemma GenerateClient_finds (Q : Z -> Adapters.t -> Prop) (a : Adapters.t) :
  0 <= Adapters.g_clientIdAtomic a <= INT_MAX -> Z.of_nat (size (Adapters.g_saServerAdapters a)) <= Adapters.MAX_NUM_CLIENTS ->
  (forall id m, 1 <= id <= INT_MAX -> ticked (heap a) m ->
     Q id (Adapters.mk ((Adapters.exec a) <| futures := refill m (futures (Adapters.exec a)) |>)
       (<[id := SaServerAdapter.ctor id]> (Adapters.g_saServerAdapters a)) id (Adapters.executor a))) ->
  wp Adapters.GenerateClient Q a.
Proof using new_works.
  intros Hc Hs HQ. unfold Adapters.GenerateClient. apply wp_bind.
  eapply wp_mono; [by apply FindValidClientId_finds|]. intros id ? [Hid ->].
  rewrite (proj2 (Z.eqb_neq _ _)) by (unfold INVALID_CLIENT_ID; lia). unfold Adapters.AllocateClientAdapter.
  apply wp_bind, wp_gets, wp_bind. unfold Adapters.on_mem, Adapters.on_exec. apply wp_on_field.
  apply wp_world_new; [done|]. intros m T. cbn [negb]. apply wp_bind, wp_modify, wp_ret. by apply HQ.
Qed.

Lemma write_reply i s (Q : unit -> SaServer.t -> Prop) :
  item_size i <= room (reply s) ->
  (forall s', content (reply s') = content (reply s) ++ [i] -> room (reply s') = room (reply s) - item_size i -> os s' = os s ->
     mem s' = mem s -> g_shmKey s' = g_shmKey s -> states (adapters s') = states (adapters s) ->
     Adapters.g_saServerAdapters (adapters s') = Adapters.g_saServerAdapters (adapters s) ->
     (fresh (Adapters.exec (adapters s)) -> fresh (Adapters.exec (adapters s'))) -> Q tt s') ->
  wp (on_reply (Ipc.write i)) Q s.
Proof.
  intros R HQ. apply ServerFacts.wp_on_reply. eapply wp_mono; [by apply IpcFacts.write_spec|].
  intros [] j (C & M & O & K & R'). cbn in C, M, O, K, R'. apply HQ; try done.
  intros (f & k & g & E). exists (refill (Ipc.mem j) f), k, g. cbn. by rewrite E.
Qed.

Lemma InvokeInitSaEngine_answers uid s :
  content (reply s) = [] -> 8 <= room (reply s) -> open_server s ->
  wp (InvokeInitSaEngine uid) (fun _ s' => exists id, 1 <= id /\ content (reply s') = [I32 id; U32 uid] /\
    os s' = os s /\ awaiting id s' /\ states (adapters s') = states (adapters s) /\ ticked (mem s) (mem s')) s.
Proof using new_works.
  intros R Room [Hf Hc Hn W HO Hk]. unfold InvokeInitSaEngine. apply wp_bind, ServerFacts.wp_on_req.
  unfold Ipc.ReadString, Ipc.read. apply wp_bind, wp_on_field. unfold wp at 1. apply wp_ret.
  match goal with |- wp _ _ ?s' => set (s1 := s') end.
  assert (fresh (Adapters.exec (adapters s1))) as F1 by by apply fresh_set_mem.
  apply wp_bind. unfold InitEngine. apply wp_bind. unfold on_adapters. apply wp_on_field.
  apply GenerateClient_finds; [done|done|]. intros id m Hid [n Em]. rewrite (proj2 (Z.leb_gt _ _)) by lia. apply wp_ret.
  match goal with |- wp _ _ ?s' => set (s2 := s') end.
  assert (fresh (Adapters.exec (adapters s2))) as F2.
  { destruct F1 as (f & k & g & E). exists (refill m f), k, g. change (adapters s2) with
      (Adapters.mk ((Adapters.exec (adapters s1)) <| futures := refill m (futures (Adapters.exec (adapters s1))) |>)
       (<[id := SaServerAdapter.ctor id]> (Adapters.g_saServerAdapters (adapters s1))) id (Adapters.executor (adapters s1))). cbn [Adapters.exec]. by rewrite E. }
  apply wp_bind, write_reply; [change (reply s2) with (reply s); cbn; lia|].
  intros s3 C3 R3 O3 M3 K3 S3 A3 F3. change (reply s2) with (reply s) in C3, R3. rewrite R in C3. cbn in R3.
  apply wp_bind, write_reply; [cbn; lia|]. intros s4 C4 R4 O4 M4 K4 S4 A4 F4. apply wp_ret.
  change (heap (adapters s1)) with (mem s) in Em. rewrite C3 in C4. rewrite M3 in M4. change (mem s2) with m in M4.
  exists id. split_and!; [lia|done|by rewrite O4, O3| |by rewrite S4, S3|by rewrite M4; exists n].
  split; [auto|rewrite A4, A3; eexists; apply lookup_insert_eq| | |by rewrite K4, K3].
  - by rewrite M4, Em.
  - rewrite M4, S4, S3, Em. exact HO.
Qed.

End server.

(** ** The client *)

Section client.
  Context `{!Allocator, !DynLib, !Pthread, !Algorithm, !IpcIo, !IpcIoLaws, !Shm, !ShmLaws, !IpcFacts.ShmReliable,
            !Securec, !SecurecLaws}.
  Context (new_works : forall k, new_ok k = true) (malloc_works : malloc_serves) (attr_works : forall n, pthread_attr_init n = 0)
        (create_works : forall n, pthread_create n = 0) (sync_mode : infer_mode 1 = Some PLUGIN_SYNC_INFER).
  Context (room_works : 700 <= room io_init).
  Context (own : algorithms -> gset nat) (getuid : Z) (fuel : nat) (now : Z).
#[local] Hint Extern 0 Connection => exact (this_connection getuid fuel now) : typeclass_instances.
Implicit Types (p : ClientProxy.t).

#[local] Notation kernel p := (segments (Ipc.os (ClientProxy.ipc p))).
#[local] Notation client_heap p := (Ipc.mem (ClientProxy.ipc p)).
#[local] Notation server_states p := (states (SaServer.adapters (ClientProxy.remote p))).
#[local] Notation delivered := (delivered getuid fuel now).
#[local] Notation replied := (replied getuid fuel now).

(** The client has got the number [id]; nothing else has happened to either side. *)
Record welcomed (p : ClientProxy.t) (id : Z) (p' : ClientProxy.t) : Prop := {
  wc_invoke : ClientProxy.Invoke p' = ClientProxy.Invoke p;
  wc_heap : client_heap p' = client_heap p;
  wc_os : Ipc.os (ClientProxy.ipc p') = Ipc.os (ClientProxy.ipc p);
  wc_key : Ipc.g_shmKey (ClientProxy.ipc p') = Ipc.g_shmKey (ClientProxy.ipc p);
  wc_server : awaiting own id (ClientProxy.remote p');
  wc_states : server_states p' = server_states p;
  wc_mem : ticked (SaServer.mem (ClientProxy.remote p)) (SaServer.mem (ClientProxy.remote p'));
}.

Lemma open_delivered p : open_server own (ClientProxy.remote p) -> open_server own (delivered p).
Proof. intros []. by split. Qed.

Lemma awaiting_delivered id p : awaiting own id (ClientProxy.remote p) -> awaiting own id (delivered p).
Proof. intros []. by split. Qed.

Lemma InitSaEngine_welcomes cfg c p :
  ClientProxy.Invoke p = true -> open_server own (ClientProxy.remote p) ->
  wp (ClientProxy.InitSaEngine cfg c) (fun r p' => exists id, id <> INVALID_CLIENT_ID /\
    r = (RETCODE_SUCCESS, c <| ClientInfo.clientId := id |> <| ClientInfo.serverUid := getuid |>) /\ welcomed p id p') p.
Proof.
  intros Hi HO. unfold ClientProxy.InitSaEngine. apply wp_bind, wp_modify, wp_bind, wp_on_field.
  unfold Ipc.WriteString, Ipc.write. apply wp_modify, wp_bind, wp_gets.
  match goal with |- wp _ _ ?s => set (p1 := s) end. change (ClientProxy.Invoke p1) with (ClientProxy.Invoke p).
  rewrite Hi. cbn [negb]. change (ClientProxy.remote p) with (ClientProxy.remote p1) in HO.
  apply open_delivered in HO.
  assert (8 <= room (SaServer.reply (delivered p1))) as Hr by (cbn; lia).
  pose proof (InvokeInitSaEngine_answers new_works own getuid (delivered p1) io_init_content Hr HO) as A.
  unfold wp in A. destruct (SaServer.InvokeInitSaEngine getuid (delivered p1)) as [rc q'] eqn:E. cbn [fst snd] in A.
  destruct A as (id & Hid & C & O & HA & G & T).
  assert (SaServer.Invoke getuid fuel now ID_INIT_ENGINE (delivered p1) = (true, q')) as EI.
  { unfold SaServer.Invoke. cbn -[SaServer.InvokeInitSaEngine]. unfold mbind, ST_bind. by rewrite E. }
  apply wp_bind. unfold wp at 1. rewrite (call_answered getuid fuel now _ q' p1 EI). cbn [fst snd].
  apply wp_bind. unfold ClientProxy.Callback, ClientProxy.on_ipc. apply wp_bind, wp_on_field.
  eapply wp_mono; [by apply (Wire.ReadInt32_spec id [U32 getuid])|]. intros ? i1 (-> & C1 & M1 & O1 & K1).
  apply wp_bind, wp_on_field. eapply wp_mono; [by apply (Wire.ReadUint32_spec getuid [])|]. intros ? i2 (-> & C2 & M2 & O2 & K2).
  do 2 apply wp_ret. exists id. split; [unfold INVALID_CLIENT_ID; lia|]. split; [done|].
  change (Ipc.os (ClientProxy.ipc (replied q' p1))) with (SaServer.os q') in O1.
  cbn in M2, O2, K2. split; [done|cbn..|exact HA|exact G|exact T].
  - by rewrite M2, M1.
  - by rewrite O2, O1, O.
  - by rewrite K2, K1.
Qed.

Lemma Invoke_load q : SaServer.Invoke getuid fuel now ID_LOAD_ALGORITHM q = (true, (SaServer.InvokeLoadAlgorithm q).2).
Proof. unfold SaServer.Invoke. cbn -[SaServer.InvokeLoadAlgorithm]. unfold mbind, ST_bind. by destruct (SaServer.InvokeLoadAlgorithm q). Qed.

(** The algorithm is loaded and prepared, and its output is what the caller gets. *)
Lemma LoadAlgorithmProxy_spec c a d o Q p :
  calling getuid fuel now p -> awaiting own (ClientInfo.clientId c) (ClientProxy.remote p) ->
  AlgorithmInfo.isAsync a = false -> installed a ->
  IpcFacts.di_ok (Wire.client_ext c) -> IpcFacts.di_ok (Wire.algorithm_ext a) -> IpcFacts.di_ok d ->
  safe_prepare own (server_states p) Q ->
  wp (ClientProxy.LoadAlgorithmProxy c a d o) (fun r p' => exists out,
    Q out (server_states p') /\ r.1 = RETCODE_SUCCESS /\
    DataInfo.content r.2 = DataInfo.content out /\ DataInfo.length r.2 = zlen (DataInfo.content r.2) /\
    calling getuid fuel now p' /\
    serving MAX_SYNC_MSG_NUM 0 first_engine 1 own (ClientInfo.clientId c) (ClientInfo.sessionId c) (ClientProxy.remote p') /\
    Mem.live (client_heap p') = IpcFacts.owned r.2 ∪ Mem.live (client_heap p) /\ IpcFacts.owned r.2 ## Mem.live (client_heap p)) p.
Proof.
  intros [Hi W Hk Hkeys] HS Ha Hin Hc Had Hd Hsafe. unfold ClientProxy.LoadAlgorithmProxy, ClientProxy.IpcIoInit.
  apply wp_bind, wp_modify. set (p1 := p <| ClientProxy.ipc ::= _ |>).
  apply wp_bind. unfold ClientProxy.on_ipc. apply wp_on_field.
  eapply wp_mono; [apply (Wire.ParcelRequest_spec c a d (ClientProxy.ipc p1)); done|].
  intros [] i (i1 & i2 & i3 & C & M & Car1 & Car2 & Car3 & Seg & K). cbn in C, M, Seg. rewrite io_init_content in C. cbn [app] in C.
  set (p2 := p1 <| ClientProxy.ipc := i |>). change (ClientProxy.remote p) with (ClientProxy.remote p2) in HS. apply awaiting_delivered in HS.
  pose proof (InvokeLoadAlgorithm_answers new_works malloc_works attr_works create_works sync_mode own c a d i1 i2 i3 (kernel p) Q (delivered p2)
    C io_init_content ltac:(cbn; lia) Car1 Car2 Car3 Seg ltac:(lia) Ha Hin HS Hsafe) as A.
  pose proof (Invoke_load (delivered p2)) as EI. unfold wp in A.
  destruct (SaServer.InvokeLoadAlgorithm (delivered p2)) as [rc q']. cbn [fst snd] in A, EI.
  destruct A as (out & items & _ & CR & Car & S3 & HQ & HS2).
  apply (wp_invoke_buff malloc_works getuid fuel now _ o RETCODE_SUCCESS out items q'); [done|done|done|done|change (client_heap p2) with (Ipc.mem i); by rewrite M|].
  intros di k Cd Ld S5 K5 W5 L5 D5 B5. change (client_heap p2) with (Ipc.mem i) in L5, D5, B5. rewrite M in L5, D5, B5. rewrite <- S3 in S5.
  exists out. split_and!; try done. split; cbn; [done|done|by rewrite K5|by rewrite S5].
Qed.

End client.

(** ** The farewell *)

Section farewell.
  Context `{!Allocator, !DynLib, !Pthread, !Algorithm, !IpcIo, !IpcIoLaws, !Shm, !ShmLaws, !IpcFacts.ShmReliable,
            !Securec, !SecurecLaws, !Outgoing}.
  Context (malloc_works : malloc_serves).
Import SaServer.

(** The executor, whether it is there or not, knows nothing of the clients. *)
Lemma with_executor_adapters {A} none (m : ST Adapters.t A) (x : Adapters.t) (P : gmap Z SaServerAdapter.t -> Prop) :
  P (Adapters.g_saServerAdapters x) ->
  (forall x0, Adapters.g_saServerAdapters x0 = Adapters.g_saServerAdapters x -> wp m (fun _ x' => P (Adapters.g_saServerAdapters x')) x0) ->
  wp (Adapters.with_executor none m) (fun _ x' => P (Adapters.g_saServerAdapters x')) x.
Proof.
  intros HP Hm. unfold Adapters.with_executor, Adapters.GetServerExecutor, Adapters.on_mem, Adapters.on_exec.
  apply wp_bind, wp_bind, wp_gets. destruct (Adapters.executor x); [by apply wp_ret, Hm|].
  apply wp_bind, wp_on_field. unfold wp at 1. destruct (Executor.on_mem AIE_NEW _) as [[] w1]; cbn [fst snd negb]; [|by do 2 apply wp_ret].
  apply wp_bind, wp_on_field. unfold wp at 1. destruct (Executor.on_mem AIE_NEW _) as [[] w2]; cbn [fst snd negb].
  - by apply wp_bind, wp_modify, wp_ret, Hm.
  - apply wp_bind, wp_on_field. unfold wp at 1. by do 2 apply wp_ret.
Qed.

(** Stopping the engines of a client leaves the other clients alone. *)
Lemma Uninitialize_adapters a (x : Adapters.t) :
  wp (Adapters.Uninitialize a) (fun _ x' => Adapters.g_saServerAdapters x' = Adapters.g_saServerAdapters x) x.
Proof.
  unfold Adapters.Uninitialize.
  apply (with_executor_adapters tt _ x (fun g => g = Adapters.g_saServerAdapters x)); [done|]. intros x0 E0.
  apply (wp_for_each (fun x' => Adapters.g_saServerAdapters x' = Adapters.g_saServerAdapters x)); [exact E0|].
  intros tid x1 _ E. apply wp_bind. unfold Adapters.on_exec. apply wp_on_field. unfold wp at 1. by apply wp_ret.
Qed.

Lemma RemoveAdapterWrapper_forgets c (x : Adapters.t) :
  wp (Adapters.RemoveAdapterWrapper c) (fun _ x' =>
    Adapters.g_saServerAdapters x' = delete (ClientInfo.clientId c) (Adapters.g_saServerAdapters x)) x.
Proof.
  unfold Adapters.RemoveAdapterWrapper, Adapters.FindAdapter. apply wp_bind, wp_gets.
  destruct (Adapters.g_saServerAdapters x !! ClientInfo.clientId c) as [a|] eqn:E.
  - apply wp_bind. eapply wp_mono; [apply Uninitialize_adapters|]. intros ? x1 E1. apply wp_bind, wp_modify, wp_ret.
    cbn. by rewrite E1.
  - apply wp_ret. by rewrite delete_id.
Qed.

Lemma InvokeDestroyEngine_forgets c items s :
  content (req s) = Wire.client_header c ++ items -> IpcFacts.carried (segments (os s)) (Wire.client_ext c) items ->
  mem_wf (mem s) ->
  wp InvokeDestroyEngine (fun _ s' => Adapters.g_saServerAdapters (adapters s') =
    delete (ClientInfo.clientId c) (Adapters.g_saServerAdapters (adapters s))) s.
Proof.
  intros C Car W. unfold InvokeDestroyEngine. apply wp_bind, ServerFacts.wp_on_req. rewrite <- (app_nil_r items) in C.
  eapply wp_mono; [by apply (Wire.UnParcelClientInfo_spec malloc_works c ClientInfo.zero items [])|].
  intros [code c'] i (Ecode & [Hh _] & _). cbn in Ecode. subst code. unfold Wire.client_header in Hh. injection Hh as _ Hid _ _ _.
  cbn [fst snd] in Hid. cbv beta iota. rewrite Z.eqb_refl. cbn [negb].
  apply wp_bind. unfold on_adapters. apply wp_on_field. eapply wp_mono; [apply RemoveAdapterWrapper_forgets|].
  intros rc x E. apply wp_bind. unfold on_mem, on_adapters, Adapters.on_mem, Adapters.on_exec. do 2 apply wp_on_field.
  unfold wp at 1. apply wp_bind, ServerFacts.wp_on_reply, wp_modify, wp_ret. by rewrite <- Hid.
Qed.

Lemma Invoke_destroy getuid fuel now q :
  SaServer.Invoke getuid fuel now ID_DESTROY_ENGINE q = (true, (SaServer.InvokeDestroyEngine q).2).
Proof. unfold SaServer.Invoke. cbn -[SaServer.InvokeDestroyEngine]. unfold mbind, ST_bind. by destruct (SaServer.InvokeDestroyEngine q). Qed.

End farewell.
End AdmissionFacts.

(** The other end of the farewell: when the client library of a process is
    connected to this server, the end of its last session makes the server forget
    the client, and no other. *)
Theorem last_session_is_forgotten
    `{!Allocator, !DynLib, !Pthread, !Algorithm, !IpcIo, !IpcIoLaws, !Shm, !ShmLaws, !IpcFacts.ShmReliable,
      !Securec, !SecurecLaws, !Outgoing, !Environment}
    (uid : Z) (fuel : nat) (now : Z) (tid : nat) (cfg : ConfigInfo.t) (wc c : ClientInfo.t) (ty : Z) :
  let _ : Connection := server_connection uid fuel now in
  malloc_serves -> ClientFacts.resources -> forall s : Client.t,
  Client.proxy_ s = true -> ClientFacts.can_tell wc (Client.px s) ->
  Client.connectMgrThread_ s = Some tid -> Client.connectMgrWorker_ s = Some (cfg, wc) -> Client.thread_active s = true ->
  ClientInfo.sessionId c <> INVALID_SESSION_ID -> Client.sessionInfos_ s = {[ClientInfo.sessionId c := ty]} ->
  mem_wf (SaServer.mem (ClientProxy.remote (Client.px s))) ->
  Adapters.g_saServerAdapters (SaServer.adapters (ClientProxy.remote (Client.px (Client.ClientDestroy c s).2))) =
  delete (ClientInfo.clientId wc) (Adapters.g_saServerAdapters (SaServer.adapters (ClientProxy.remote (Client.px s)))).
Proof.
  intros conn HM HR s Hp HT Ht Hw Hact Hc Hs W.
  pose proof (ClientFacts.ClientDestroy_spec tid cfg wc c ty s HR Hp HT Ht Hw Hact Hc Hs) as U.
  unfold wp in U. destruct (Client.ClientDestroy c s) as [r s']. destruct U as (_ & _ & _ & _ & _ & _ & m & os & items & C & Car & _ & R).
  cbn [snd] in R |- *. rewrite R. clear R. set (q := (ClientProxy.remote (Client.px s) : SaServer.t) <| SaServer.os := os |> <| SaServer.req := m |> <| SaServer.reply := io_init |>).
  pose proof (AdmissionFacts.InvokeDestroyEngine_forgets HM wc items q C Car W) as F.
  change (invoke ID_DESTROY_ENGINE m os (ClientProxy.remote (Client.px s))) with
    (let '(answered, q') := SaServer.Invoke uid fuel now ID_DESTROY_ENGINE q in
     (if (answered : bool) then Some (SaServer.reply q') else None, SaServer.os q', q')).
  rewrite (AdmissionFacts.Invoke_destroy uid fuel now q). exact F.
Qed.
