(* ===== verification/Memory.v ===== *)
(** * Memory: the byte heap behind the raw pointers of the feature code

    The feature processors, the iterator over audio samples and the plugins hand
    raw pointers into their own buffers to each other.  A pointer is a block and
    an offset; [Memory.t] maps the blocks to their bytes, next to the allocator
    state of [Protocol.Mem].  An access outside a block, through a null pointer
    or to freed storage sets [ub]; nothing is known of a run afterwards.

    securec is third-party: what [memcpy_s], [memmove_s] and [memset_s] do to
    memory is a parameter ([SecurecMemory]), what its documentation promises of
    them a class of laws ([SecurecMemoryLaws]), with [SecurecSample.Securec_ref] an
    instance for the concrete runs. *)

From Stdlib Require Import ZArith Lia.
From stdpp Require Import gmap list.
From S2P Require Import Prelude Protocol Encdec.

Module Ptr.
Record t := mk { block : nat; off : Z }.
#[global] Instance eq_dec : EqDecision t.
Proof. solve_decision. Defined.
(** [p + n] on a [char *] *)
Definition add (p : t) (n : Z) : t := mk (block p) (off p + n).
End Ptr.

Definition ptr_add (p : option Ptr.t) (n : Z) : option Ptr.t := (fun q => Ptr.add q n) <$> p.

Abbreviation cell_map := (gmap nat (list Z)).

(** [n] bytes from [p] lie inside a live block. *)
Definition in_range (c : cell_map) (p : Ptr.t) (n : Z) : bool :=
  match c !! Ptr.block p with
  | Some l => (0 <=? Ptr.off p) && (0 <=? n) && (Ptr.off p + n <=? zlen l)
  | None => false
  end.

Definition valid (c : cell_map) (p : option Ptr.t) (n : Z) : bool :=
  match p with Some q => in_range c q n | None => false end.

Definition overlap (p q : Ptr.t) (n : Z) : bool :=
  bool_decide (Ptr.block p = Ptr.block q) &&
  (Ptr.off p <? Ptr.off q + n) && (Ptr.off q <? Ptr.off p + n).

Definition peek (c : cell_map) (p : Ptr.t) (n : Z) : list Z :=
  match c !! Ptr.block p with
  | Some l => read_at l (Z.to_nat (Ptr.off p)) (Z.to_nat n)
  | None => []
  end.

Definition poke (c : cell_map) (p : Ptr.t) (bs : list Z) : cell_map :=
  match c !! Ptr.block p with
  | Some l => <[Ptr.block p := write_at l (Z.to_nat (Ptr.off p)) bs]> c
  | None => c
  end.

Module Memory.

Record t := mk { mem : Mem.t; cells : cell_map; ub : bool }.
#[global] Instance eta_memory : Eta t := fun r => mk (mem r) (cells r) (ub r).

Definition empty : t := mk Mem.empty ∅ false.

(** Blocks with bytes are live blocks. *)
Definition wf (h : t) : Prop := mem_wf (mem h) /\ dom (cells h) ⊆ Mem.live (mem h).

End Memory.

Class SecurecMemory := {
  memcpy_at : option Ptr.t -> Z -> option Ptr.t -> Z -> cell_map -> Z * cell_map;
  memmove_at : option Ptr.t -> Z -> option Ptr.t -> Z -> cell_map -> Z * cell_map;
  memset_at : option Ptr.t -> Z -> Z -> Z -> cell_map -> Z * cell_map;
  new_bytes : nat -> Z;
}.

Class SecurecMemoryLaws `{SecurecMemory} := {
  memcpy_at_ok (d s : Ptr.t) (destMax n : Z) (c : cell_map) :
    0 < n -> n <= destMax -> destMax <= SECUREC_MEM_MAX_LEN ->
    in_range c d n -> in_range c s n -> overlap d s n = false ->
    memcpy_at (Some d) destMax (Some s) n c = (EOK, poke c d (peek c s n));
  memmove_at_ok (d s : Ptr.t) (destMax n : Z) (c : cell_map) :
    0 <= n -> n <= destMax -> 0 < destMax -> destMax <= SECUREC_MEM_MAX_LEN ->
    in_range c d n -> in_range c s n ->
    memmove_at (Some d) destMax (Some s) n c = (EOK, poke c d (peek c s n));
  memset_at_ok (d : Ptr.t) (destMax v n : Z) (c : cell_map) :
    0 < n -> n <= destMax -> destMax <= SECUREC_MEM_MAX_LEN -> in_range c d n -> 0 <= v < 2 ^ 8 ->
    memset_at (Some d) destMax v n c = (EOK, poke c d (replicate (Z.to_nat n) v));
}.

(** ** Operations on memory *)

Section operations.
  Context `{!Allocator, !SecurecMemory}.

(** [new(std::nothrow) char[size]] *)
Definition new_array (size : Z) : ST Memory.t (option Ptr.t) := fun h =>
  let '(b, m) := malloc size [] (Memory.mem h) in
  match b with
  | None => (None, h <| Memory.mem := m |>)
  | Some b => (Some (Ptr.mk (Block.addr b) 0),
               h <| Memory.mem := m |>
                 <| Memory.cells ::= insert (Block.addr b) (new_bytes <$> seq 0 (Z.to_nat size)) |>)
  end.

(** [AIE_DELETE_ARRAY(p)]; the caller's pointer becomes null. *)
Definition delete_array (p : option Ptr.t) : ST Memory.t unit := fun h =>
  match p with
  | None => (tt, h)
  | Some q =>
      let '(_, m) := free (Some (Block.mk (Ptr.block q) [])) (Memory.mem h) in
      (tt, h <| Memory.mem := m |> <| Memory.cells ::= delete (Ptr.block q) |>
             <| Memory.ub := Memory.ub h || negb (valid (Memory.cells h) (Some (Ptr.mk (Ptr.block q) 0)) 0)
                                         || negb (Ptr.off q =? 0) |>)
  end.

(** Read and write [n] bytes through a pointer. *)
Definition load (p : option Ptr.t) (n : Z) : ST Memory.t (list Z) := fun h =>
  match p with
  | Some q => if in_range (Memory.cells h) q n then (peek (Memory.cells h) q n, h)
              else ([], h <| Memory.ub := true |>)
  | None => ([], h <| Memory.ub := true |>)
  end.

Definition store (p : option Ptr.t) (bs : list Z) : ST Memory.t unit := fun h =>
  match p with
  | Some q => if in_range (Memory.cells h) q (zlen bs) then (tt, h <| Memory.cells ::= fun c => poke c q bs |>)
              else (tt, h <| Memory.ub := true |>)
  | None => (tt, h <| Memory.ub := true |>)
  end.

(** A bounds-checked copy still trusts its caller that the blocks are there. *)
Definition checked (ok : bool) (f : cell_map -> Z * cell_map) : ST Memory.t Z := fun h =>
  let '(r, c) := f (Memory.cells h) in
  (r, h <| Memory.cells := c |> <| Memory.ub := Memory.ub h || negb ok |>).

Definition memcpy_s (dst : option Ptr.t) (destMax : Z) (src : option Ptr.t) (count : Z) : ST Memory.t Z := fun h =>
  let c := Memory.cells h in
  checked ((destMax <? count) || bool_decide (dst = None) || bool_decide (src = None) ||
           (valid c dst count && valid c src count)) (memcpy_at dst destMax src count) h.

Definition memmove_s (dst : option Ptr.t) (destMax : Z) (src : option Ptr.t) (count : Z) : ST Memory.t Z := fun h =>
  let c := Memory.cells h in
  checked ((destMax <? count) || bool_decide (dst = None) || bool_decide (src = None) ||
           (valid c dst count && valid c src count)) (memmove_at dst destMax src count) h.

Definition memset_s (dst : option Ptr.t) (destMax value count : Z) : ST Memory.t Z := fun h =>
  let c := Memory.cells h in
  checked ((destMax <? count) || bool_decide (dst = None) || valid c dst count) (memset_at dst destMax value count) h.

End operations.

(** ** Objects over memory

    A member function of a class whose object is a [T] is an [ST (T * Memory.t)]. *)

Section objects.
  Context {T : Type}.

Definition self {A} (f : T -> A) : ST (T * Memory.t) A := fun s => (f s.1, s).
Definition set_self (f : T -> T) : ST (T * Memory.t) unit := fun s => (tt, (f s.1, s.2)).
Definition on_memory {A} (m : ST Memory.t A) : ST (T * Memory.t) A := fun s =>
  let '(a, h) := m s.2 in (a, (s.1, h)).
(** Call a member function of a member object. *)
Definition on_member {U A} (proj : T -> U) {setter : FieldSetter proj} (m : ST (U * Memory.t) A) :
    ST (T * Memory.t) A := fun s =>
  let '(a, (u, h)) := m (proj s.1, s.2) in (a, (s.1 <| proj := u |>, h)).

End objects.

(** Well-formedness of a given memory is decided by evaluation. *)
Lemma wf_decide h :
  bool_decide (set_Forall (fun a => (a < Mem.next (Memory.mem h))%nat) (Mem.live (Memory.mem h))) &&
  bool_decide (dom (Memory.cells h) ⊆ Mem.live (Memory.mem h)) = true -> Memory.wf h.
Proof. rewrite andb_true_iff, !bool_decide_eq_true. intros [F D]. split; [exact F|exact D]. Qed.

(** ** Lemmas: blocks and pointers *)

Lemma in_range_inv c p n :
  in_range c p n -> exists l, c !! Ptr.block p = Some l /\ 0 <= Ptr.off p /\ 0 <= n /\ Ptr.off p + n <= zlen l.
Proof.
  unfold in_range. destruct (c !! _) as [l|]; [|done]. intros Hr. exists l.
  apply andb_True in Hr as [[?%Is_true_true%Z.leb_le ?%Is_true_true%Z.leb_le]%andb_True ?%Is_true_true%Z.leb_le].
  done.
Qed.

Lemma in_range_intro c p n l :
  c !! Ptr.block p = Some l -> 0 <= Ptr.off p -> 0 <= n -> Ptr.off p + n <= zlen l -> in_range c p n = true.
Proof. intros E ???. unfold in_range. rewrite E, !andb_true_iff, !Z.leb_le. done. Qed.

Lemma in_range_at c b o n l :
  c !! b = Some l -> 0 <= o -> 0 <= n -> o + n <= zlen l -> in_range c (Ptr.mk b o) n.
Proof. intros E ???. rewrite (in_range_intro _ (Ptr.mk b o) n l); done. Qed.

Lemma peek_at c b o n l : c !! b = Some l -> peek c (Ptr.mk b o) n = read_at l (Z.to_nat o) (Z.to_nat n).
Proof. intros E. unfold peek. cbn. by rewrite E. Qed.

Lemma length_peek c p n : in_range c p n -> length (peek c p n) = Z.to_nat n.
Proof.
  intros (l & E & ? & ? & ?)%in_range_inv. unfold peek. rewrite E. apply length_read_at. unfold zlen in *. lia.
Qed.

Lemma lookup_poke_same c p bs l :
  c !! Ptr.block p = Some l -> poke c p bs !! Ptr.block p = Some (write_at l (Z.to_nat (Ptr.off p)) bs).
Proof. intros E. unfold poke. by rewrite E, lookup_insert_eq. Qed.

Lemma lookup_poke_other c p bs b : b <> Ptr.block p -> poke c p bs !! b = c !! b.
Proof. intros Hb. unfold poke. destruct (c !! Ptr.block p); [by rewrite lookup_insert_ne|done]. Qed.

Lemma dom_poke c p bs : dom (poke c p bs) = dom c.
Proof.
  unfold poke. destruct (c !! Ptr.block p) as [l|] eqn:E; [|done].
  rewrite dom_insert_L. apply elem_of_dom_2 in E. set_solver.
Qed.

Lemma in_range_poke c p bs q n :
  in_range c p (zlen bs) -> in_range (poke c p bs) q n = in_range c q n.
Proof.
  intros (l & E & ? & ? & ?)%in_range_inv. unfold in_range. unfold zlen in *.
  destruct (decide (Ptr.block q = Ptr.block p)) as [->|Hne].
  - rewrite (lookup_poke_same _ _ _ _ E), E, length_write_at by lia. done.
  - by rewrite lookup_poke_other.
Qed.

Lemma peek_poke_same c p bs : in_range c p (zlen bs) -> peek (poke c p bs) p (zlen bs) = bs.
Proof.
  intros (l & E & ? & ? & ?)%in_range_inv. unfold peek. rewrite (lookup_poke_same _ _ _ _ E).
  unfold zlen in *. rewrite Nat2Z.id. apply read_write_at. lia.
Qed.

Lemma peek_poke_other c p bs q n : Ptr.block q <> Ptr.block p -> peek (poke c p bs) q n = peek c q n.
Proof. intros. unfold peek. by rewrite lookup_poke_other. Qed.

(** A part of what was read. *)
Lemma read_at_sub (l stream : list Z) o w m :
  read_at l 0 m = take m stream -> (o + w <= m)%nat -> read_at l o w = take w (drop o stream).
Proof.
  unfold read_at. rewrite drop_0. intros E ?. replace w with (w `min` (m - o))%nat at 1 2 by lia.
  rewrite <- !take_take. f_equal. rewrite !take_drop_commute. replace (o + (m - o))%nat with m by lia. by rewrite E.
Qed.

Lemma peek_sub c p (x : list Z) m o w :
  in_range c p (Z.of_nat m) -> peek c p (Z.of_nat m) = x -> (o + w <= m)%nat ->
  in_range c (Ptr.add p (Z.of_nat o)) (Z.of_nat w) /\
  peek c (Ptr.add p (Z.of_nat o)) (Z.of_nat w) = take w (drop o x).
Proof.
  intros (l & E & ? & ? & ?)%in_range_inv <- ?. split.
  - apply (in_range_at _ _ _ _ l); [done|lia|lia|]. cbn. lia.
  - unfold peek. cbn [Ptr.add Ptr.block Ptr.off]. rewrite E, !Nat2Z.id, Z2Nat.inj_add, Nat2Z.id by lia.
    rewrite <- (read_at_sub (drop (Z.to_nat (Ptr.off p)) l) _ o w m); [|unfold read_at; by rewrite take_take, Nat.min_id|done].
    unfold read_at. by rewrite drop_drop.
Qed.

Lemma valid_range c p n : in_range c p n -> valid c (Some p) n = true.
Proof. intros. by apply Is_true_true. Qed.

(** ** Frames *)

(** Nothing but block [b] has changed. *)
Record frame (b : nat) (h h' : Memory.t) : Prop := {
  frame_mem : Memory.mem h' = Memory.mem h;
  frame_ub : Memory.ub h' = Memory.ub h;
  frame_other : forall b', b' <> b -> Memory.cells h' !! b' = Memory.cells h !! b';
  frame_dom : dom (Memory.cells h') = dom (Memory.cells h);
}.

#[global] Instance frame_preorder b : PreOrder (frame b).
Proof.
  split; [by split|]. intros h1 h2 h3 [A1 A2 A3 A4] [B1 B2 B3 B4].
  split; try congruence. intros b' Hb. by rewrite B3, A3.
Qed.

Lemma frame_poke b o bs (h : Memory.t) :
  frame b h (h <| Memory.cells ::= fun c => poke c (Ptr.mk b o) bs |>).
Proof. split; [done|done| |apply dom_poke]. intros b' Hb. by apply lookup_poke_other. Qed.

Lemma frame_in_range b h h' p n :
  frame b h h' -> Ptr.block p <> b -> in_range (Memory.cells h) p n -> in_range (Memory.cells h') p n.
Proof. intros F Hb. unfold in_range. by rewrite (frame_other _ _ _ F). Qed.

Lemma frame_peek b h h' p n :
  frame b h h' -> Ptr.block p <> b -> peek (Memory.cells h') p n = peek (Memory.cells h) p n.
Proof. intros F Hb. unfold peek. by rewrite (frame_other _ _ _ F). Qed.

Lemma frame_wf b h h' : frame b h h' -> Memory.wf h -> Memory.wf h'.
Proof. intros F [W D]. split; [by rewrite (frame_mem _ _ _ F)|by rewrite (frame_dom _ _ _ F), (frame_mem _ _ _ F)]. Qed.

(** ** Blocks without bytes *)

(** The live blocks that code does not access by address, those of messages, stay
    what they are. *)
Definition spares (h h' : Memory.t) : Prop := forall b,
  b ∈ Mem.live (Memory.mem h) -> Memory.cells h !! b = None ->
  b ∈ Mem.live (Memory.mem h') /\ Memory.cells h' !! b = None.

Lemma spares_refl h : spares h h.
Proof. done. Qed.

Lemma spares_trans h1 h2 h3 : spares h1 h2 -> spares h2 h3 -> spares h1 h3.
Proof. intros S1 S2 b L C. destruct (S1 b L C). by apply S2. Qed.

(** Writing into the blocks that are there. *)
Lemma spares_dom h h' :
  Mem.live (Memory.mem h) ⊆ Mem.live (Memory.mem h') -> dom (Memory.cells h') = dom (Memory.cells h) -> spares h h'.
Proof. intros L D b Hb C. split; [by apply L|]. apply not_elem_of_dom. rewrite D. by apply not_elem_of_dom. Qed.

(** A new block among those accessed by address. *)
Lemma spares_new h h' b x :
  Mem.live (Memory.mem h) ⊆ Mem.live (Memory.mem h') -> b ∉ Mem.live (Memory.mem h) ->
  Memory.cells h' = <[b := x]> (Memory.cells h) -> spares h h'.
Proof. intros L Hb E b' Hb' C. split; [by apply L|]. rewrite E, lookup_insert_ne; [done|]. intros ->. done. Qed.

Lemma frame_spares b h h' : frame b h h' -> spares h h'.
Proof. intros F. apply spares_dom; [by rewrite (frame_mem _ _ _ F)|by rewrite (frame_dom _ _ _ F)]. Qed.

(** ** Lemmas: operations *)

Section operation_facts.
  Context `{!Allocator, !SecurecMemory}.
  Implicit Types (h : Memory.t).

Lemma wp_load p n (Q : list Z -> Memory.t -> Prop) h :
  in_range (Memory.cells h) p n -> Q (peek (Memory.cells h) p n) h -> wp (load (Some p) n) Q h.
Proof. intros R HQ. unfold wp, load. by rewrite (proj1 (Is_true_true _) R). Qed.

Lemma wp_store p bs (Q : unit -> Memory.t -> Prop) h :
  in_range (Memory.cells h) p (zlen bs) -> Q tt (h <| Memory.cells ::= fun c => poke c p bs |>) ->
  wp (store (Some p) bs) Q h.
Proof. intros R HQ. unfold wp, store. by rewrite (proj1 (Is_true_true _) R). Qed.

Lemma wp_checked ok f r c (Q : Z -> Memory.t -> Prop) h :
  ok = true -> f (Memory.cells h) = (r, c) -> Q r (h <| Memory.cells := c |>) -> wp (checked ok f) Q h.
Proof.
  intros -> E HQ. unfold wp, checked. rewrite E. cbn [fst snd negb]. destruct h as [m ce u].
  cbn in *. by rewrite orb_false_r.
Qed.

(** A new array is a block nobody holds. *)
Lemma wp_new_array size (Q : option Ptr.t -> Memory.t -> Prop) h :
  Memory.wf h ->
  (forall h', Memory.wf h' -> Memory.cells h' = Memory.cells h -> Memory.ub h' = Memory.ub h ->
     malloc_ok (Mem.tick (Memory.mem h)) size = false -> Q None h') ->
  (forall b bs h', Memory.wf h' -> Memory.cells h !! b = None -> zlen bs = Z.max 0 size ->
     Memory.cells h' = <[b := bs]> (Memory.cells h) -> Memory.ub h' = Memory.ub h -> spares h h' ->
     Q (Some (Ptr.mk b 0)) h') ->
  wp (new_array size) Q h.
Proof.
  intros [W D] Hn Hs. pose proof (malloc_spec size [] (Memory.mem h) W) as S. unfold wp in S |- *. unfold new_array.
  destruct (malloc size [] (Memory.mem h)) as [[b|] m]; cbn [fst snd] in S |- *.
  - destruct S as (W' & _ & _ & _ & Hb & L). eapply Hs with (bs := new_bytes <$> seq 0 (Z.to_nat size)); try done.
    + split; [done|]. cbn. rewrite L, dom_insert_L. set_solver.
    + apply not_elem_of_dom. set_solver.
    + unfold zlen. rewrite length_fmap, length_seq. lia.
    + eapply spares_new; [cbn; rewrite L; set_solver|exact Hb|done].
  - destruct S as (W' & _ & Hok & L). apply Hn; try done.
    split; [done|]. cbn. by rewrite L.
Qed.

Context `{!SecurecMemoryLaws}.

Lemma wp_memcpy_s d s destMax n (Q : Z -> Memory.t -> Prop) h :
  0 < n -> n <= destMax -> destMax <= SECUREC_MEM_MAX_LEN ->
  in_range (Memory.cells h) d n -> in_range (Memory.cells h) s n -> overlap d s n = false ->
  Q EOK (h <| Memory.cells ::= fun c => poke c d (peek c s n) |>) ->
  wp (memcpy_s (Some d) destMax (Some s) n) Q h.
Proof.
  intros ??? Rd Rs ? HQ. unfold memcpy_s. eapply wp_checked; [|by apply memcpy_at_ok|exact HQ].
  rewrite (valid_range _ _ _ Rd), (valid_range _ _ _ Rs). cbn. by rewrite !orb_true_r.
Qed.

Lemma wp_memmove_s d s destMax n (Q : Z -> Memory.t -> Prop) h :
  0 <= n -> n <= destMax -> 0 < destMax -> destMax <= SECUREC_MEM_MAX_LEN ->
  in_range (Memory.cells h) d n -> in_range (Memory.cells h) s n ->
  Q EOK (h <| Memory.cells ::= fun c => poke c d (peek c s n) |>) ->
  wp (memmove_s (Some d) destMax (Some s) n) Q h.
Proof.
  intros ???? Rd Rs HQ. unfold memmove_s. eapply wp_checked; [|by apply memmove_at_ok|exact HQ].
  rewrite (valid_range _ _ _ Rd), (valid_range _ _ _ Rs). cbn. by rewrite !orb_true_r.
Qed.

Lemma wp_memset_s d destMax v n (Q : Z -> Memory.t -> Prop) h :
  0 < n -> n <= destMax -> destMax <= SECUREC_MEM_MAX_LEN -> in_range (Memory.cells h) d n -> 0 <= v < 2 ^ 8 ->
  Q EOK (h <| Memory.cells ::= fun c => poke c d (replicate (Z.to_nat n) v) |>) ->
  wp (memset_s (Some d) destMax v n) Q h.
Proof.
  intros ??? Rd ? HQ. unfold memset_s. eapply wp_checked; [|by apply memset_at_ok|exact HQ].
  rewrite (valid_range _ _ _ Rd). cbn. by rewrite !orb_true_r.
Qed.

(** A loop that fills [n] consecutive elements of [osz] bytes in block [b]. *)
Lemma wp_fill b (off osz n : nat) (g : nat -> list Z) (body : nat -> ST Memory.t unit) l h :
  Memory.cells h !! b = Some l -> (off + n * osz <= length l)%nat ->
  (forall i, (i < n)%nat -> length (g i) = osz) ->
  (forall i h', (i < n)%nat -> frame b h h' ->
     (forall l', Memory.cells h' !! b = Some l' -> length l' = length l) -> is_Some (Memory.cells h' !! b) ->
     wp (body i) (fun _ h'' => h'' = h' <| Memory.cells ::= fun c => poke c (Ptr.mk b (Z.of_nat (off + i * osz))) (g i) |>) h') ->
  wp (for_each body (seq 0 n)) (fun _ h' => frame b h h' /\ exists l', Memory.cells h' !! b = Some l' /\
    length l' = length l /\ read_at l' off (n * osz) = concat (g <$> seq 0 n)) h.
Proof.
  intros Hl Hfit Hg Hbody.
  assert (Loop : forall k j h', (j + k = n)%nat -> frame b h h' ->
    (exists l', Memory.cells h' !! b = Some l' /\ length l' = length l /\
       read_at l' off (j * osz) = concat (g <$> seq 0 j)) ->
    wp (for_each body (seq j k)) (fun _ h'' => frame b h h'' /\ exists l', Memory.cells h'' !! b = Some l' /\
      length l' = length l /\ read_at l' off (n * osz) = concat (g <$> seq 0 n)) h').
  { induction k as [|k IH]; intros j h' Hj F (l' & L1 & L2 & L3); cbn [seq for_each].
    - apply wp_ret. split; [done|]. exists l'. by replace n with j by lia.
    - apply wp_bind. eapply wp_mono; [apply Hbody; [lia|done| |by eexists]|].
      { intros l2 E. rewrite L1 in E. by injection E as <-. }
      intros _ h'' ->. apply IH; [lia|etrans; [done|apply frame_poke]|].
      assert (length (g j) = osz) as Lg by (apply Hg; lia).
      assert (off + j * osz + osz <= length l')%nat by nia.
      eexists. split_and!.
      + cbn. unfold poke. cbn. rewrite L1, lookup_insert_eq, Nat2Z.id. reflexivity.
      + rewrite length_write_at; lia.
      + change (S j * osz)%nat with (osz + j * osz)%nat. rewrite (Nat.add_comm osz (j * osz)), seq_S, fmap_app, concat_app, <- L3. cbn.
        rewrite app_nil_r. unfold read_at. rewrite <- take_take_drop, drop_drop. f_equal.
        * rewrite !take_drop_commute. by rewrite take_write_at_le by lia.
        * rewrite <- Lg. apply read_write_at. lia. }
  apply (Loop n 0%nat); [done|done|]. exists l. split_and!; done.
Qed.

End operation_facts.

(** ** Lemmas: objects *)

Section object_facts.
  Context {T : Type}.
  Implicit Types (o : T) (h : Memory.t).

Lemma wp_self {A} (f : T -> A) (Q : A -> T * Memory.t -> Prop) o h : Q (f o) (o, h) -> wp (self f) Q (o, h).
Proof. done. Qed.

Lemma wp_set_self (f : T -> T) (Q : unit -> T * Memory.t -> Prop) o h : Q tt (f o, h) -> wp (set_self f) Q (o, h).
Proof. done. Qed.

Lemma wp_on_memory {A} (m : ST Memory.t A) (Q : A -> T * Memory.t -> Prop) o h :
  wp m (fun a h' => Q a (o, h')) h -> wp (on_memory m) Q (o, h).
Proof. unfold wp, on_memory. cbn. by destruct (m h). Qed.

Lemma wp_on_member {U A} (proj : T -> U) {setter : FieldSetter proj} (m : ST (U * Memory.t) A) Q o h :
  wp m (fun a s => Q a (o <| proj := s.1 |>, s.2)) (proj o, h) -> wp (on_member proj m) Q (o, h).
Proof. unfold wp, on_member. cbn. by destruct (m (proj o, h)) as [a [u h']]. Qed.

End object_facts.

(** ** A reference implementation of securec *)

Module SecurecSample.

(** Overlapping operands of [memcpy_s] reset the destination. *)
Definition EOVERLAP_AND_RESET : Z := 54 + 128.
Definition ERANGE_AND_RESET : Z := 34 + 128.
Definition EINVAL : Z := 22.

Definition securec_copy (overlapping : Ptr.t -> Ptr.t -> Z -> bool) (d : option Ptr.t) (destMax : Z)
    (s : option Ptr.t) (n : Z) (c : cell_map) : Z * cell_map :=
  match d, s with
  | Some d, Some s =>
      if destMax <? n then (ERANGE_AND_RESET, poke c d (replicate (Z.to_nat destMax) 0))
      else if bool_decide (d = s) then (EOK, c)
      else if overlapping d s n then (EOVERLAP_AND_RESET, poke c d (replicate (Z.to_nat destMax) 0))
      else (EOK, poke c d (peek c s n))
  | _, _ => (EINVAL, c)
  end.

#[export] Instance Securec_ref : SecurecMemory := {|
  memcpy_at := securec_copy overlap;
  memmove_at := securec_copy (fun _ _ _ => false);
  memset_at := fun d destMax v n c =>
    match d with
    | Some d => if destMax <? n then (ERANGE_AND_RESET, poke c d (replicate (Z.to_nat destMax) v))
                else (EOK, poke c d (replicate (Z.to_nat n) v))
    | None => (EINVAL, c)
    end;
  new_bytes := fun _ => 0xCD;
|}.

Lemma poke_peek_self c p n : in_range c p n -> poke c p (peek c p n) = c.
Proof.
  intros (l & E & ? & ? & ?)%in_range_inv. unfold poke, peek. rewrite E. apply insert_id.
  rewrite E. f_equal. unfold write_at, read_at. unfold zlen in *.
  rewrite length_take, length_drop. rewrite <- drop_drop, Nat.min_l by lia. by rewrite !take_drop.
Qed.

#[export] Instance Securec_ref_laws : SecurecMemoryLaws.
Proof.
  split.
  - intros d s destMax n c ??? Rd Rs Ho. cbn. rewrite (proj2 (Z.ltb_ge _ _)), Ho by done.
    case_bool_decide as E; [subst; by rewrite poke_peek_self|done].
  - intros d s destMax n c ???? Rd Rs. cbn. rewrite (proj2 (Z.ltb_ge _ _)) by done.
    case_bool_decide as E; [subst; by rewrite poke_peek_self|done].
  - intros d destMax v n c ??? Rd ?. cbn. by rewrite (proj2 (Z.ltb_ge _ _)).
Qed.

End SecurecSample.
