(* ===== verification/FileOperation.v ===== *)
(** * FileOperation: the size and the contents of files

    file_operation.cpp over the streams of the C library.  The library is the
    parameter [Stdio]; a stream is its address, and [open_streams] are those that
    [fopen] has returned and [fclose] has not been given. *)

From Stdlib Require Import ZArith Lia.
From stdpp Require Import gmap strings list.
From S2P Require Import Prelude Protocol Encdec Memory.

#[local] Open Scope Z_scope.

Class Stdio := {
  stdio : Type;
  open_streams : stdio -> gset nat;
  SEEK_SET : Z;
  SEEK_END : Z;
  fopen : string -> string -> ST stdio (option nat);
  fseek : nat -> Z -> Z -> ST stdio Z;
  ftell : nat -> ST stdio Z;
  fread : option Ptr.t -> Z -> Z -> nat -> ST (stdio * Memory.t) Z;
  fclose : nat -> ST stdio Z;
}.

(** The C standard on streams: [fclose] ends the use of a stream even when it
    reports an error, and [fread] returns at most the number of elements asked
    for. *)
Class StdioLaws `{Stdio} := {
  fopen_opens f m s :
    match fopen f m s with
    | (Some fp, s') => fp ∉ open_streams s /\ open_streams s' = {[fp]} ∪ open_streams s
    | (None, s') => open_streams s' = open_streams s
    end;
  fseek_keeps fp o w s : open_streams (fseek fp o w s).2 = open_streams s;
  ftell_keeps fp s : open_streams (ftell fp s).2 = open_streams s;
  fread_keeps b n c fp s : open_streams (fread b n c fp s).2.1 = open_streams s.1;
  fread_count b n c fp s : 0 <= c -> 0 <= (fread b n c fp s).1 <= c;
  fclose_closes fp s : open_streams (fclose fp s).2 = open_streams s ∖ {[fp]};
}.

Definition FILE_OPERATION_SUCCESS : Z := 0.

Section operations.
  Context `{!Stdio}.

(** [GetFileSize(fileName, fileSize)]: the code and what [fileSize] holds then. *)
Definition GetFileSize (fileName : string) (fileSize : Z) : ST stdio (Z * Z) :=
  fp ← fopen fileName "rb";
  match fp with
  | None => mret (RETCODE_FAILURE, fileSize)
  | Some fp =>
      r ← fseek fp 0 SEEK_END;
      if negb (r =? FILE_OPERATION_SUCCESS) then fclose fp ;; mret (RETCODE_FAILURE, fileSize) else
      fileSize ← ftell fp;
      if fileSize <=? 0 then fclose fp ;; mret (RETCODE_FAILURE, fileSize) else
      r ← fseek fp 0 SEEK_SET;
      if negb (r =? FILE_OPERATION_SUCCESS) then fclose fp ;; mret (RETCODE_FAILURE, fileSize) else
      retCode ← fclose fp;
      if negb (retCode =? FILE_OPERATION_SUCCESS) then mret (RETCODE_FAILURE, fileSize)
      else mret (RETCODE_SUCCESS, fileSize)
  end.

(** A call of the library while memory stays as it is. *)
Definition on_lib {A} (m : ST stdio A) : ST (stdio * Memory.t) A := fun s =>
  let '(a, l) := m s.1 in (a, (l, s.2)).

(** [ReadFile].  The arguments of [fread] are [size_t]s, its result is kept in
    an [int]. *)
Definition ReadFile (fileName : string) (fileSize countNumber : Z) (buffer : option Ptr.t) :
    ST (stdio * Memory.t) Z :=
  if bool_decide (buffer = None) then mret RETCODE_FAILURE else
  fp ← on_lib (fopen fileName "rb");
  match fp with
  | None => mret RETCODE_FAILURE
  | Some fp =>
      count ← fread buffer (u64 fileSize) (u64 countNumber) fp;
      let readNumber := s32 count in
      if negb (readNumber =? countNumber) then on_lib (fclose fp) ;; mret RETCODE_FAILURE else
      retCode ← on_lib (fclose fp);
      if negb (retCode =? FILE_OPERATION_SUCCESS) then mret RETCODE_FAILURE else mret RETCODE_SUCCESS
  end.

End operations.

Module FileFacts.

Section facts.
  Context `{!Stdio, !StdioLaws}.

Lemma fclose_wp fp X (Q : Z -> stdio -> Prop) s :
  fp ∉ X -> open_streams s = {[fp]} ∪ X ->
  (forall s', open_streams s' = X -> Q (fclose fp s).1 s') -> wp (fclose fp) Q s.
Proof. intros Hf Ho HQ. apply HQ. rewrite fclose_closes, Ho. set_solver. Qed.

Lemma fopen_wp f m (Q : option nat -> stdio -> Prop) s :
  (forall fp s', fp ∉ open_streams s -> open_streams s' = {[fp]} ∪ open_streams s -> Q (Some fp) s') ->
  (forall s', open_streams s' = open_streams s -> Q None s') -> wp (fopen f m) Q s.
Proof.
  intros H1 H2. unfold wp. pose proof (fopen_opens f m s) as L. destruct (fopen f m s) as [[fp|] s']; cbn.
  - destruct L. by apply H1.
  - by apply H2.
Qed.

Lemma wp_on_lib {A} (m : ST stdio A) (Q : A -> stdio * Memory.t -> Prop) s :
  wp m (fun a l => Q a (l, s.2)) s.1 -> wp (on_lib m) Q s.
Proof. unfold wp, on_lib. by destruct (m s.1). Qed.

End facts.
End FileFacts.

(** However the calls of the library turn out, [GetFileSize] and [ReadFile] leave
    no stream open that they have opened; a size is reported only when it is
    positive. *)
Theorem files_closed `{!Stdio, !StdioLaws} (fileName : string) (size0 size count : Z) (buffer : option Ptr.t) :
  (forall s, let '((code, fileSize), s') := GetFileSize fileName size0 s in
     open_streams s' = open_streams s /\ (code = RETCODE_SUCCESS -> 0 < fileSize)) /\
  (forall s, open_streams (ReadFile fileName size count buffer s).2.1 = open_streams s.1).
Proof.
  split.
  - intros s. enough (wp (GetFileSize fileName size0) (fun r s' => open_streams s' = open_streams s /\
      (r.1 = RETCODE_SUCCESS -> 0 < r.2)) s) as U.
    { unfold wp in U. by destruct (GetFileSize fileName size0 s) as [[code n] s']. }
    apply wp_bind, FileFacts.fopen_wp; [intros fp s1 Hf E1|intros s1 E1; by apply wp_ret].
    assert (forall (r : Z * Z) s2, open_streams s2 = {[fp]} ∪ open_streams s -> r.1 <> RETCODE_SUCCESS ->
      wp (fclose fp ;; mret r) (fun r s' => open_streams s' = open_streams s /\ (r.1 = RETCODE_SUCCESS -> 0 < r.2)) s2) as HF.
    { intros r s2 E2 Hr. apply wp_bind, (FileFacts.fclose_wp _ (open_streams s)); [done|done|]. intros s3 E3.
      by apply wp_ret. }
    apply wp_bind. unfold wp at 1. set (s2 := (fseek fp 0 SEEK_END s1).2).
    assert (open_streams s2 = {[fp]} ∪ open_streams s) as E2 by by unfold s2; rewrite fseek_keeps.
    case_match; [by apply HF|]. apply wp_bind. unfold wp at 1.
    set (n := (ftell fp s2).1). set (s3 := (ftell fp s2).2).
    assert (open_streams s3 = {[fp]} ∪ open_streams s) as E3 by by unfold s3; rewrite ftell_keeps.
    destruct (Z.leb_spec n 0); [by apply HF|]. apply wp_bind. unfold wp at 1. set (s4 := (fseek fp 0 SEEK_SET s3).2).
    assert (open_streams s4 = {[fp]} ∪ open_streams s) as E4 by by unfold s4; rewrite fseek_keeps.
    case_match; [by apply HF|].
    apply wp_bind, (FileFacts.fclose_wp _ (open_streams s)); [done|done|]. intros s5 E5. by case_match; apply wp_ret.
  - intros s. enough (wp (ReadFile fileName size count buffer) (fun _ s' => open_streams s'.1 = open_streams s.1) s) as U by done.
    unfold ReadFile. case_match; [by apply wp_ret|].
    apply wp_bind, FileFacts.wp_on_lib, FileFacts.fopen_wp; [intros fp s1 Hf E1|intros s1 E1; by apply wp_ret].
    apply wp_bind. unfold wp at 1. set (s2 := (fread _ _ _ _ _).2).
    assert (open_streams s2.1 = {[fp]} ∪ open_streams s.1) as E2 by by unfold s2; rewrite fread_keeps.
    case_match; apply wp_bind, FileFacts.wp_on_lib, (FileFacts.fclose_wp _ (open_streams s.1)); try done;
      intros s3 E3; try case_match; by apply wp_ret.
Qed.

(** [ReadFile] succeeds only when every element asked for has been read; but a
    count that does not fit an [int] is refused even then. *)
Theorem read_file_counts `{!Stdio, !StdioLaws} (fileName : string) (size count : Z) (buffer : option Ptr.t)
    (s : stdio * Memory.t) :
  0 <= count < 2 ^ 63 -> (ReadFile fileName size count buffer s).1 = RETCODE_SUCCESS ->
  count < 2 ^ 31 /\ exists fp l,
    fopen fileName "rb" s.1 = (Some fp, l) /\ (fread buffer (u64 size) count fp (l, s.2)).1 = count.
Proof.
  intros Hc. unfold ReadFile. case_match; [done|]. unfold mbind, ST_bind, on_lib.
  destruct (fopen fileName "rb" s.1) as [[fp|] l] eqn:E; [|done].
  rewrite (wrap_u_small 64 count) by lia.
  pose proof (fread_count buffer (u64 size) count fp (l, s.2) ltac:(lia)) as B.
  destruct (fread buffer (u64 size) count fp (l, s.2)) as [r [l' h']] eqn:E2. cbn in B.
  pose proof (wrap_s_range 32 r ltac:(done)) as R. change (2 ^ (32 - 1)) with (2 ^ 31) in R.
  destruct (Z.eqb_spec (s32 r) count) as [Er|]; cbn [negb fst snd]; [|by destruct (fclose fp l')].
  intros _. split; [lia|]. exists fp, l. split; [done|]. rewrite E2. cbn.
  by rewrite wrap_s_small in Er by (change (2 ^ (32 - 1)) with (2 ^ 31); lia).
Qed.

(** A library with one file of eight bytes. *)
#[local] Instance one_file : Stdio :=
  {| stdio := gset nat; open_streams := id; SEEK_SET := 0; SEEK_END := 2;
     fopen := fun f _ s => if decide (f = "model") then (Some (fresh s), {[fresh s]} ∪ s) else (None, s);
     fseek := fun _ _ _ s => (0, s); ftell := fun _ s => (8, s);
     fread := fun _ _ c _ s => (Z.min (Z.max 0 c) 8, s); fclose := fun fp s => (0, s ∖ {[fp]}) |}.

#[local] Instance one_file_laws : StdioLaws.
Proof.
  split; try done.
  - intros f m s. cbn. destruct (decide (f = "model")); [|done]. split; [apply is_fresh|done].
  - intros. cbn. lia.
Qed.

Definition no_streams : @stdio one_file := (∅ : gset nat).

Example size_of_model : (GetFileSize "model" 0 no_streams).1 = (RETCODE_SUCCESS, 8).
Proof. by vm_compute. Qed.

Lemma read_file_counts_witness :
  8 < 2 ^ 31 /\ exists fp l, fopen "model" "rb" no_streams = (Some fp, l) /\
    (fread (Some (Ptr.mk 0 0)) (u64 1) 8 fp (l, Memory.empty)).1 = 8.
Proof.
  apply (read_file_counts "model" 1 8 (Some (Ptr.mk 0 0)) (no_streams, Memory.empty)); [lia|by vm_compute].
Defined.
