(* ===== verification/Float32.v ===== *)
(** * Float32: IEEE binary32 numbers and their representation

    The [float] of the feature library, on the specification of floating-point
    arithmetic of the Standard Library ([SpecFloat], 24 bits of precision,
    exponents below 128, rounding to nearest even).  A NaN has one
    representation here; the hardware may keep another payload. *)

From Stdlib Require Import ZArith Lia SpecFloat.
From stdpp Require Import list.
From S2P Require Import Prelude Encdec.

#[local] Open Scope Z_scope.

Abbreviation prec := 24.
Abbreviation emax := 128.

Definition float_of_Z (z : Z) : spec_float := binary_normalize prec emax z 0 false.

(** Narrowing a [double] to [float]. *)
Definition float_of_double (d : spec_float) : spec_float :=
  match d with
  | S754_finite s m e => binary_normalize prec emax (cond_Zopp s (Zpos m)) e s
  | _ => d
  end.

Definition float_sub : spec_float -> spec_float -> spec_float := SFsub prec emax.
Definition float_mul : spec_float -> spec_float -> spec_float := SFmul prec emax.
Definition float_div : spec_float -> spec_float -> spec_float := SFdiv prec emax.

(** The integer part, rounded toward zero. *)
Definition trunc (f : spec_float) : option Z :=
  match f with
  | S754_zero _ => Some 0
  | S754_finite s m e =>
      Some (cond_Zopp s (if 0 <=? e then Zpos m * 2 ^ e else Zpos m / 2 ^ (- e)))
  | _ => None
  end.

(** ** Representation: sign, biased exponent, fraction *)

Definition float_of_bits (b : Z) : spec_float :=
  let s := Z.testbit b 31 in
  let ex := Z.land (Z.shiftr b 23) 0xff in
  let fr := Z.land b 0x7fffff in
  if ex =? 0xff then (if fr =? 0 then S754_infinity s else S754_nan)
  else if ex =? 0 then (if fr =? 0 then S754_zero s else S754_finite s (Z.to_pos fr) (-149))
  else S754_finite s (Z.to_pos (fr + 0x800000)) (ex - 150).

Definition sign_bit (s : bool) : Z := if s then 2 ^ 31 else 0.

Definition bits_of_float (f : spec_float) : Z :=
  match f with
  | S754_zero s => sign_bit s
  | S754_infinity s => sign_bit s + 0x7f800000
  | S754_nan => 0x7fc00000
  | S754_finite s m e =>
      if Zpos m <? 0x800000 then sign_bit s + Zpos m
      else sign_bit s + (e + 150) * 2 ^ 23 + (Zpos m - 0x800000)
  end.

Definition float_bytes (f : spec_float) : list Z := le 4 (bits_of_float f).

#[global] Arguments float_bytes : simpl never.

Lemma length_float_bytes f : length (float_bytes f) = 4%nat.
Proof. apply length_le. Qed.

(** The numbers a [float] holds: a canonical mantissa and exponent. *)
Definition is_float (f : spec_float) : Prop :=
  match f with
  | S754_finite _ m e =>
      Zpos m < 0x800000 /\ e = -149 \/ 0x800000 <= Zpos m < 0x1000000 /\ -149 <= e <= 104
  | _ => True
  end.

Lemma land_low z n : 0 <= n -> Z.land z (2 ^ n - 1) = z mod 2 ^ n.
Proof. intros. rewrite <- Z.land_ones by done. by rewrite Z.ones_equiv. Qed.

(** The three fields of a word, read back. *)
Lemma bits_fields (s : bool) ex fr :
  0 <= ex < 2 ^ 8 -> 0 <= fr < 2 ^ 23 ->
  let b := sign_bit s + ex * 2 ^ 23 + fr in
  Z.testbit b 31 = s /\ Z.land (Z.shiftr b 23) 0xff = ex /\ Z.land b 0x7fffff = fr.
Proof.
  intros He Hf b.
  change 0xff with (2 ^ 8 - 1). change 0x7fffff with (2 ^ 23 - 1). rewrite !land_low by lia.
  assert (B : b = (if s then 2 ^ 8 else 0) * 2 ^ 23 + ex * 2 ^ 23 + fr) by (subst b; unfold sign_bit; by destruct s).
  split_and!.
  - rewrite Z.testbit_eqb by lia.
    assert (b / 2 ^ 31 = if s then 1 else 0) as -> by (symmetry; apply (Z.div_unique _ _ _ (ex * 2 ^ 23 + fr)); destruct s; lia).
    by destruct s.
  - rewrite Z.shiftr_div_pow2 by lia.
    assert (b / 2 ^ 23 = (if s then 2 ^ 8 else 0) + ex) as -> by (symmetry; apply (Z.div_unique _ _ _ fr); lia).
    destruct s; [|by rewrite Z.mod_small by lia].
    rewrite <- (Z.mod_unique (2 ^ 8 + ex) (2 ^ 8) 1 ex); lia.
  - symmetry. apply (Z.mod_unique _ _ ((if s then 2 ^ 8 else 0) + ex)); lia.
Qed.

(** Every number survives being stored and read back. *)
Lemma float_bits_roundtrip f : is_float f -> float_of_bits (bits_of_float f) = f.
Proof.
  intros Hf. destruct f as [s|s| |s m e]; cbn [bits_of_float].
  - by destruct s.
  - by destruct s.
  - done.
  - cbn in Hf. destruct (Z.ltb_spec (Zpos m) 0x800000) as [Hm|Hm].
    + destruct Hf as [[_ ->]|Hf]; [|lia].
      pose proof (bits_fields s 0 (Zpos m) ltac:(lia) ltac:(lia)) as (F1 & F2 & F3).
      rewrite Z.add_0_r in F1, F2, F3. unfold float_of_bits. by rewrite F1, F2, F3.
    + destruct Hf as [Hf|Hf]; [lia|].
      pose proof (bits_fields s (e + 150) (Zpos m - 0x800000) ltac:(lia) ltac:(lia)) as (F1 & F2 & F3).
      unfold float_of_bits. rewrite F1, F2, F3.
      rewrite !(proj2 (Z.eqb_neq _ _)) by lia.
      replace (Zpos m - 0x800000 + 0x800000) with (Zpos m) by lia. cbn. f_equal. lia.
Qed.

Lemma bits_of_float_range f : is_float f -> 0 <= bits_of_float f < 2 ^ 32.
Proof.
  intros Hf. destruct f as [s|s| |s m e]; cbn [bits_of_float]; [by destruct s..|done|]. cbn in Hf.
  unfold sign_bit. destruct (Z.ltb_spec (Zpos m) 0x800000), s; lia.
Qed.

(** A number stored in memory is the number read back. *)
Lemma float_bytes_roundtrip f : is_float f -> float_of_bits (le_val (float_bytes f)) = f.
Proof.
  intros Hf. unfold float_bytes. rewrite le_val_le, Z.mod_small; [by apply float_bits_roundtrip|].
  by apply bits_of_float_range.
Qed.

(** 16-bit integers are numbers of the type; decided by evaluation. *)
Definition is_float_b (f : spec_float) : bool :=
  match f with
  | S754_finite _ m e => (Zpos m <? 0x800000) && (e =? -149) ||
                         (0x800000 <=? Zpos m) && (Zpos m <? 0x1000000) && (-149 <=? e) && (e <=? 104)
  | _ => true
  end.

Lemma is_float_b_ok f : is_float_b f = true -> is_float f.
Proof. destruct f; cbn; [done..|]. lia. Qed.

(** [P] holds of the [k] integers from [z]. *)
Fixpoint range_all (k : nat) (z : Z) (P : Z -> bool) : bool :=
  match k with O => true | S k' => P z && range_all k' (z + 1) P end.

Lemma range_all_ok k lo P z : range_all k lo P = true -> lo <= z < lo + Z.of_nat k -> P z = true.
Proof.
  revert lo. induction k as [|k IH]; intros lo B Hz; [lia|]. cbn in B. apply andb_true_iff in B as [B1 B2].
  destruct (decide (z = lo)) as [->|]; [done|]. apply (IH (lo + 1)); [done|lia].
Qed.

Lemma float_of_uint16 z : 0 <= z < 2 ^ 16 -> is_float (float_of_Z z).
Proof.
  intros Hz. apply is_float_b_ok.
  assert (B : range_all (Z.to_nat (2 ^ 16)) 0 (fun z => is_float_b (float_of_Z z)) = true) by (vm_compute; reflexivity).
  apply (range_all_ok _ _ _ _ B). rewrite Z2Nat.id by lia. lia.
Qed.
