(* ===== verification/Feature.v ===== *)
(** * Feature: the sliding window and the type converter of the feature library

    [SlideWindowProcessor] (slide_window_processor.cpp) and [TypeConverter]
    (type_converter.cpp) over the byte memory of [Memory], with the data types
    and the [FeatureData] of feature_processor.h.  Numbers are decoded from and
    encoded to their object representations; a [float] is a number of [Float32]. *)

From Stdlib Require Import ZArith Lia SpecFloat.
From stdpp Require Import gmap list.
From S2P Require Import Prelude Protocol Encdec Memory Float32.

#[local] Open Scope Z_scope.

(** ** feature_processor.h *)

Definition MAX_SAMPLE_SIZE : Z := 20000.

Inductive DataType := UINT8 | UINT16 | UINT32 | INT8 | INT16 | INT32 | FLOAT | UNKNOWN.
#[global] Instance DataType_eq_dec : EqDecision DataType.
Proof. solve_decision. Defined.

Definition DataType_value (t : DataType) : Z :=
  match t with
  | UINT8 => 1
  | UINT16 => 2
  | UINT32 => 4
  | INT8 => Z.lor 1 (Z.shiftl 1 3)
  | INT16 => Z.lor 2 (Z.shiftl 1 3)
  | INT32 => Z.lor 4 (Z.shiftl 1 3)
  | FLOAT => Z.lor 4 (Z.shiftl 1 4)
  | UNKNOWN => Z.lor 4 (Z.shiftl 1 4) + 1
  end.

Definition CONVERT_DATATYPE_TO_SIZE (t : DataType) : Z := u8 (Z.land (DataType_value t) 7).

Module FeatureData.
Record t := mk { dataType : DataType; data : option Ptr.t; size : Z }.
#[global] Instance eta_feature_data : Eta t := fun r => mk (dataType r) (data r) (size r).
Definition empty (ty : DataType) : t := mk ty None 0.
End FeatureData.

(** The elements behind a [FeatureData], as bytes. *)
Definition feature_bytes (d : FeatureData.t) : Z :=
  FeatureData.size d * CONVERT_DATATYPE_TO_SIZE (FeatureData.dataType d).

(** [Process(input, output)] returns its code with the output it leaves. *)
Abbreviation outcome := (Z * FeatureData.t)%type.

(** ** [SlideWindowProcessor] *)

Module SlideWindow.

Definition ILLEGAL_BUFFER_MULTIPLIER : Z := 0.

Record config := Config { dataType : DataType; bufferMultiplier : Z; stepSize : Z; windowSize : Z }.

Record t := mk {
  isInitialized_ : bool;
  workBuffer_ : option Ptr.t;
  inputFeature_ : option Ptr.t;
  inType_ : DataType;
  typeSize_ : Z;
  startIndex_ : Z;
  initIndex_ : Z;
  bufferSize_ : Z;
  windowSize_ : Z;
  stepSize_ : Z;
}.
#[global] Instance eta_slide_window : Eta t := fun r =>
  mk (isInitialized_ r) (workBuffer_ r) (inputFeature_ r) (inType_ r) (typeSize_ r) (startIndex_ r)
     (initIndex_ r) (bufferSize_ r) (windowSize_ r) (stepSize_ r).

Definition ctor : t := mk false None None UNKNOWN 0 0 0 0 0 0.

Section operations.
  Context `{!Allocator, !SecurecMemory}.

Definition Init (cfg : option config) : ST (t * Memory.t) Z :=
  initialized ← self isInitialized_;
  if (initialized : bool) then mret RETCODE_FAILURE else
  match cfg with
  | None => mret RETCODE_FAILURE
  | Some localConfig =>
      if bool_decide (dataType localConfig = UNKNOWN) then mret RETCODE_FAILURE else
      if windowSize localConfig <? stepSize localConfig then mret RETCODE_FAILURE else
      if bufferMultiplier localConfig =? ILLEGAL_BUFFER_MULTIPLIER then mret RETCODE_FAILURE else
      let ts := CONVERT_DATATYPE_TO_SIZE (dataType localConfig) in
      let ws := windowSize localConfig in
      let ss := u64 (stepSize localConfig * ts) in
      let ii := u32 (u64 (ws * ts) - ss) in
      let bs := u32 (u64 (u64 (ws * bufferMultiplier localConfig) * ts)) in
      set_self (fun s => s <| inType_ := dataType localConfig |> <| typeSize_ := ts |> <| windowSize_ := ws |>
                           <| stepSize_ := ss |> <| initIndex_ := ii |> <| startIndex_ := ii |>
                           <| bufferSize_ := bs |>) ;;
      if MAX_SAMPLE_SIZE <? ws then mret RETCODE_FAILURE else
      p ← on_memory (new_array bs);
      set_self (fun s => s <| workBuffer_ := p |>) ;;
      match p with
      | None => mret RETCODE_FAILURE
      | Some _ =>
          on_memory (memset_s p bs 0 bs) ;;
          set_self (fun s => s <| inputFeature_ := p |> <| isInitialized_ := true |>) ;;
          mret RETCODE_SUCCESS
      end
  end.

Definition Release : ST (t * Memory.t) unit :=
  p ← self workBuffer_;
  on_memory (delete_array p) ;;
  set_self (fun s => s <| workBuffer_ := None |> <| inputFeature_ := None |> <| isInitialized_ := false |>).

(** The buffer is full: keep what the next window shares with this one. *)
Definition PostProcess (output : FeatureData.t) : ST (t * Memory.t) outcome :=
  s ← self id;
  if u32 (bufferSize_ s - startIndex_ s) <? stepSize_ s then
    retCode ← on_memory (memmove_s (workBuffer_ s) (bufferSize_ s) (inputFeature_ s) (initIndex_ s));
    if negb (retCode =? EOK) then mret (RETCODE_FAILURE, output) else
    set_self (fun s => s <| startIndex_ := initIndex_ s |> <| inputFeature_ := workBuffer_ s |>) ;;
    mret (RETCODE_SUCCESS, output)
  else mret (RETCODE_SUCCESS, output).

Definition Process (input output : FeatureData.t) : ST (t * Memory.t) outcome :=
  s ← self id;
  if negb (isInitialized_ s) then mret (RETCODE_FAILURE, output) else
  if negb (bool_decide (FeatureData.dataType input = inType_ s)) then mret (RETCODE_FAILURE, output) else
  if bool_decide (FeatureData.data input = None) || (FeatureData.size input =? 0)
  then mret (RETCODE_FAILURE, output) else
  let inputBytes := u64 (FeatureData.size input * typeSize_ s) in
  if negb (inputBytes =? stepSize_ s) then mret (RETCODE_FAILURE, output) else
  if negb (bool_decide (FeatureData.data output = None)) || negb (FeatureData.size output =? 0)
  then mret (RETCODE_FAILURE, output) else
  let output := output <| FeatureData.dataType := inType_ s |> in
  retCode ← on_memory (memcpy_s (ptr_add (workBuffer_ s) (startIndex_ s)) (u32 (bufferSize_ s - startIndex_ s))
                                (FeatureData.data input) inputBytes);
  if negb (retCode =? EOK) then mret (RETCODE_FAILURE, output) else
  let output := output <| FeatureData.data := inputFeature_ s |> <| FeatureData.size := windowSize_ s |> in
  set_self (fun s => s <| startIndex_ ::= fun i => u32 (i + stepSize_ s) |>
                       <| inputFeature_ ::= fun p => ptr_add p (stepSize_ s) |>) ;;
  PostProcess output.

End operations.
End SlideWindow.

(** ** Elements: reading, converting and writing one number *)

Inductive number := Int (z : Z) | Flt (f : spec_float).

Definition elem_size (t : DataType) : nat := Z.to_nat (CONVERT_DATATYPE_TO_SIZE t).

(** The value of [bs] as an object of the type. *)
Definition read_number (t : DataType) (bs : list Z) : number :=
  match t with
  | INT8 | INT16 | INT32 => Int (wrap_s (8 * Z.of_nat (elem_size t)) (le_val bs))
  | FLOAT => Flt (float_of_bits (le_val bs))
  | _ => Int (le_val bs)
  end.

(** The values an integer type holds. *)
Definition type_range (t : DataType) (z : Z) : bool :=
  let w := 8 * Z.of_nat (elem_size t) in
  match t with
  | INT8 | INT16 | INT32 => (- 2 ^ (w - 1) <=? z) && (z <? 2 ^ (w - 1))
  | _ => (0 <=? z) && (z <? 2 ^ w)
  end.

(** [output = input] between arithmetic types.  Integers wrap around; a floating
    number outside the range of the integer type has no defined conversion. *)
Definition convert (to : DataType) (x : number) : option (list Z) :=
  match to, x with
  | FLOAT, Int z => Some (float_bytes (float_of_Z z))
  | FLOAT, Flt f => Some (float_bytes f)
  | _, Int z => Some (le (elem_size to) z)
  | _, Flt f => z ← trunc f; if type_range to z then Some (le (elem_size to) z) else None
  end.

Definition undefined : ST Memory.t unit := modify (fun h => h <| Memory.ub := true |>).

(** ** [TypeConverter] *)

Module TypeConverter.

Record config := Config { dataType : DataType; size : Z }.

Record t := mk { isInitialized_ : bool; workBuffer_ : FeatureData.t }.
#[global] Instance eta_type_converter : Eta t := fun r => mk (isInitialized_ r) (workBuffer_ r).

Definition ctor : t := mk false (FeatureData.mk UNKNOWN None 0).

Section operations.
  Context `{!Allocator, !SecurecMemory}.

(** [output[i] = input[i]] *)
Definition convert_item (inT outT : DataType) (input output : option Ptr.t) (i : nat) : ST Memory.t unit :=
  bs ← load (ptr_add input (Z.of_nat (i * elem_size inT))) (Z.of_nat (elem_size inT));
  match convert outT (read_number inT bs) with
  | Some out => store (ptr_add output (Z.of_nat (i * elem_size outT))) out
  | None => undefined
  end.

Definition TYPE_CONVERT_ITEMS (inT outT : DataType) (input output : option Ptr.t) (n : Z) : ST Memory.t unit :=
  for_each (convert_item inT outT input output) (seq 0 (Z.to_nat n)).

(** The template instance for the input type [inT]. *)
Definition DoCast (inT : DataType) (inputAddr : option Ptr.t) (inputSize : Z) (buffer : FeatureData.t) : ST Memory.t Z :=
  match FeatureData.dataType buffer with
  | UNKNOWN => mret RETCODE_FAILURE
  | outT => TYPE_CONVERT_ITEMS inT outT inputAddr (FeatureData.data buffer) inputSize ;; mret RETCODE_SUCCESS
  end.

Definition Init (cfg : option config) : ST (t * Memory.t) Z :=
  initialized ← self isInitialized_;
  if (initialized : bool) then mret RETCODE_FAILURE else
  match cfg with
  | None => mret RETCODE_FAILURE
  | Some localConfig =>
      if bool_decide (dataType localConfig = UNKNOWN) then mret RETCODE_FAILURE else
      set_self (fun s => s <| workBuffer_ ::= fun w =>
        w <| FeatureData.dataType := dataType localConfig |> <| FeatureData.size := size localConfig |> |>) ;;
      let bufferSize := u64 (size localConfig * CONVERT_DATATYPE_TO_SIZE (dataType localConfig)) in
      if MAX_SAMPLE_SIZE <? bufferSize then mret RETCODE_FAILURE else
      p ← on_memory (new_array bufferSize);
      set_self (fun s => s <| workBuffer_ ::= fun w => w <| FeatureData.data := p |> |>) ;;
      match p with
      | None => mret RETCODE_FAILURE
      | Some _ => set_self (fun s => s <| isInitialized_ := true |>) ;; mret RETCODE_SUCCESS
      end
  end.

(** [AIE_DELETE_ARRAY] nulls a local copy: [workBuffer_.data] keeps the pointer. *)
Definition Release : ST (t * Memory.t) unit :=
  initialized ← self isInitialized_;
  if (initialized : bool) then
    bufferAddr ← self (fun s => FeatureData.data (workBuffer_ s));
    on_memory (delete_array bufferAddr) ;;
    set_self (fun s => s <| isInitialized_ := false |>)
  else mret tt.

Definition InnerProcess (input : FeatureData.t) : ST (t * Memory.t) Z :=
  w ← self workBuffer_;
  match FeatureData.dataType input with
  | UNKNOWN => mret RETCODE_FAILURE
  | inT => on_memory (DoCast inT (FeatureData.data input) (FeatureData.size input) w)
  end.

Definition Process (input output : FeatureData.t) : ST (t * Memory.t) outcome :=
  if negb (bool_decide (FeatureData.data output = None)) || negb (FeatureData.size output =? 0)
  then mret (RETCODE_FAILURE, output) else
  if bool_decide (FeatureData.data input = None) || (FeatureData.size input =? 0)
  then mret (RETCODE_FAILURE, output) else
  w ← self workBuffer_;
  if negb (FeatureData.size input =? FeatureData.size w) then mret (RETCODE_FAILURE, output) else
  r ← InnerProcess input;
  if negb (r =? RETCODE_SUCCESS) then mret (RETCODE_FAILURE, output) else
  mret (RETCODE_SUCCESS, w).

End operations.
End TypeConverter.
