(* ===== verification/SlideProps.v ===== *)
(** * SlideProps: the sliding window shows the right bytes

    [SlideWindow.Process] keeps the stream it has seen in a buffer that is
    filled from left to right and compacted when it is full.  The invariant
    relates the buffer to the history of the stream; the theorems compare the
    windows a caller reads with the reference [windows_of]. *)

From Stdlib Require Import ZArith Lia.
From stdpp Require Import gmap list.
From S2P Require Import Prelude Protocol Encdec Memory Feature.

#[local] Open Scope Z_scope.

(** ** The reference: the last [n] bytes of a stream that starts with zeros *)

Definition recent (n : nat) (hist : list Z) : list Z := drop (length hist) (replicate n 0 ++ hist).

Fixpoint windows_of (w : nat) (hist : list Z) (chunks : list (list Z)) : list (list Z) :=
  match chunks with
  | [] => []
  | c :: cs => recent w (hist ++ c) :: windows_of w (hist ++ c) cs
  end.

Lemma length_recent n hist : length (recent n hist) = n.
Proof. unfold recent. rewrite length_drop, length_app, length_replicate. lia. Qed.

Lemma recent_nil n : recent n [] = replicate n 0.
Proof. unfold recent. cbn. by rewrite app_nil_r. Qed.

Lemma recent_shrink k n hist : recent n hist = drop k (recent (k + n) hist).
Proof.
  unfold recent. rewrite drop_drop, replicate_add, <- app_assoc, Nat.add_comm, <- drop_drop.
  f_equal. symmetry. apply drop_app_length'. by rewrite length_replicate.
Qed.

Lemma recent_app n hist c : recent (length c + n) (hist ++ c) = recent n hist ++ c.
Proof.
  unfold recent. rewrite length_app, replicate_add, <- app_assoc, Nat.add_comm, <- drop_drop.
  rewrite (drop_app_length' (replicate (length c) 0)) by (by rewrite length_replicate).
  rewrite app_assoc, drop_app_le; [done|]. rewrite length_app. lia.
Qed.

(** ** Windows of a buffer *)

Section buffer.
  Implicit Types l bs : list Z.

Lemma read_at_split l o a b : read_at l o (a + b) = read_at l o a ++ read_at l (o + a) b.
Proof. unfold read_at. rewrite <- drop_drop. by rewrite take_take_drop. Qed.

Lemma read_at_before l pos bs o n :
  (o + n <= pos)%nat -> (pos <= length l)%nat -> read_at (write_at l pos bs) o n = read_at l o n.
Proof.
  intros. unfold read_at. rewrite !take_drop_commute, take_write_at_le by lia. done.
Qed.

Lemma read_at_after l pos bs o n :
  (pos + length bs <= o)%nat -> (pos + length bs <= length l)%nat -> read_at (write_at l pos bs) o n = read_at l o n.
Proof. intros. unfold read_at. by rewrite drop_write_at. Qed.

Lemma read_at_tail l o a b x y :
  read_at l o (a + b) = x ++ y -> length x = a -> (o + a <= length l)%nat -> read_at l (o + a) b = y.
Proof.
  intros E Hx Hl. rewrite read_at_split in E. apply app_inj_1 in E as [_ E]; [done|].
  rewrite Hx. apply length_read_at. done.
Qed.

End buffer.

(** One step of the window: the chunk goes behind the known part, and the buffer
    is compacted to what the next window shares with this one. *)
Section slide.
  Context (l hist chunk : list Z) (o i st : nat).
  Context (Hfit : (o + (st + i) <= length l)%nat) (Hchunk : length chunk = st).
  Context (Hknown : read_at l o i = recent i hist).
  #[local] Notation l1 := (write_at l (o + i) chunk).
  #[local] Notation W := (recent (st + i) (hist ++ chunk)).

Lemma slide_length : length l1 = length l.
Proof. apply length_write_at. lia. Qed.

Lemma slide_window : read_at l1 o (st + i) = W.
Proof.
  rewrite <- Hchunk, recent_app, (Nat.add_comm (length chunk) i), read_at_split, read_at_before, Hknown by lia.
  f_equal. apply read_write_at. lia.
Qed.

Lemma slide_next : read_at l1 (o + st) i = recent i (hist ++ chunk).
Proof.
  apply (read_at_tail _ _ _ _ (take st W)).
  - rewrite slide_window, (recent_shrink st i). by rewrite take_drop.
  - rewrite length_take, length_recent. lia.
  - rewrite slide_length. lia.
Qed.

#[local] Notation l2 := (write_at l1 0 (read_at l1 (o + st) i)).

Lemma compact_count : length (read_at l1 (o + st) i) = i.
Proof. rewrite slide_next. apply length_recent. Qed.

Lemma compact_length : length l2 = length l.
Proof. rewrite length_write_at, slide_length; [done|]. rewrite compact_count, slide_length. lia. Qed.

Lemma compact_next : read_at l2 0 i = recent i (hist ++ chunk).
Proof.
  rewrite <- slide_next. pose proof (read_write_at l1 0 (read_at l1 (o + st) i) ltac:(lia)) as R.
  by rewrite compact_count in R.
Qed.

Lemma compact_apart : (i <= o)%nat -> read_at l2 o (st + i) = W.
Proof.
  intros. rewrite read_at_after, slide_window; [done|rewrite compact_count; lia|].
  rewrite compact_count, slide_length. lia.
Qed.

Lemma compact_overlapping : o = 0%nat -> read_at l2 0 (st + i) = drop st W ++ drop i W.
Proof.
  intros E. rewrite (Nat.add_comm st i) at 1. rewrite read_at_split. f_equal.
  - rewrite compact_next. apply recent_shrink.
  - rewrite Nat.add_0_l, read_at_after; [|rewrite compact_count; lia|rewrite compact_count, slide_length; lia].
    apply (read_at_tail _ 0 i st (take i W)).
    + rewrite take_drop, <- slide_window, E, (Nat.add_comm i st). done.
    + rewrite length_take, length_recent. lia.
    + rewrite slide_length. lia.
Qed.

End slide.

Module SlideWindowFacts.
Import SlideWindow.

Section facts.
  Context `{!Allocator, !SecurecMemory, !SecurecMemoryLaws}.

(** The configurations [Init] accepts. *)
Record cfg_ok (cfg : config) : Prop := {
  ok_type : dataType cfg <> UNKNOWN;
  ok_multiplier : 0 < bufferMultiplier cfg < 2 ^ 8;
  ok_step : 0 < stepSize cfg <= windowSize cfg;
  ok_window : windowSize cfg <= MAX_SAMPLE_SIZE;
}.

Definition type_size (cfg : config) : nat := Z.to_nat (CONVERT_DATATYPE_TO_SIZE (dataType cfg)).
Definition step_bytes (cfg : config) : nat := Z.to_nat (stepSize cfg) * type_size cfg.
Definition window_bytes (cfg : config) : nat := Z.to_nat (windowSize cfg) * type_size cfg.
Definition init_bytes (cfg : config) : nat := window_bytes cfg - step_bytes cfg.
Definition buffer_bytes (cfg : config) : nat := Z.to_nat (bufferMultiplier cfg) * window_bytes cfg.

(** What a successful [Init] leaves and every [Process] keeps. *)
Record configured (cfg : config) (s : t) : Prop := {
  is_init : isInitialized_ s = true;
  in_type : inType_ s = dataType cfg;
  is_size : typeSize_ s = Z.of_nat (type_size cfg);
  is_window : windowSize_ s = windowSize cfg;
  is_step : stepSize_ s = Z.of_nat (step_bytes cfg);
  is_start : initIndex_ s = Z.of_nat (init_bytes cfg);
  is_buffer : bufferSize_ s = Z.of_nat (buffer_bytes cfg);
}.

(** The buffer in block [b] holds, from the current position [o], all of the
    next window that is already known. *)
Record inv (cfg : config) (b : nat) (hist : list Z) (s : t) (h : Memory.t) : Prop := {
  inv_cfg : configured cfg s;
  inv_work : workBuffer_ s = Some (Ptr.mk b 0);
  inv_pos : exists (o : nat) l,
    inputFeature_ s = Some (Ptr.mk b (Z.of_nat o)) /\
    startIndex_ s = Z.of_nat (o + init_bytes cfg) /\
    (o + window_bytes cfg <= buffer_bytes cfg)%nat /\
    Memory.cells h !! b = Some l /\ length l = buffer_bytes cfg /\
    read_at l o (init_bytes cfg) = recent (init_bytes cfg) hist;
}.

Lemma type_size_bounds cfg : dataType cfg <> UNKNOWN -> (1 <= type_size cfg <= 4)%nat.
Proof. unfold type_size. destruct (dataType cfg); intros; vm_compute; try done; lia. Qed.

Section bounds.
  Context (cfg : config) (OK : cfg_ok cfg).

Lemma step_pos : (0 < step_bytes cfg)%nat.
Proof. pose proof (ok_step _ OK). pose proof (type_size_bounds _ (ok_type _ OK)). unfold step_bytes. nia. Qed.

Lemma step_le_window : (step_bytes cfg <= window_bytes cfg)%nat.
Proof. pose proof (ok_step _ OK). apply Nat.mul_le_mono_r. lia. Qed.

Lemma window_split : window_bytes cfg = (step_bytes cfg + init_bytes cfg)%nat.
Proof. pose proof step_le_window. unfold init_bytes. lia. Qed.

Lemma window_bound : Z.of_nat (window_bytes cfg) <= 80000.
Proof.
  pose proof (ok_step _ OK). pose proof (ok_window _ OK) as W. pose proof (type_size_bounds _ (ok_type _ OK)).
  unfold window_bytes, MAX_SAMPLE_SIZE in *. rewrite Nat2Z.inj_mul, Z2Nat.id by lia.
  apply (Z.mul_le_mono_nonneg _ 20000 _ 4); lia.
Qed.

Lemma buffer_bound : Z.of_nat (buffer_bytes cfg) <= 20480000.
Proof.
  pose proof window_bound. pose proof (ok_multiplier _ OK). unfold buffer_bytes.
  rewrite Nat2Z.inj_mul, Z2Nat.id by lia. apply (Z.mul_le_mono_nonneg _ 256 _ 80000); lia.
Qed.

Lemma window_le_buffer : (window_bytes cfg <= buffer_bytes cfg)%nat.
Proof. pose proof (ok_multiplier _ OK). unfold buffer_bytes. nia. Qed.

End bounds.

Lemma step_bytes_Z cfg : Z.of_nat (step_bytes cfg) = Z.max 0 (stepSize cfg) * CONVERT_DATATYPE_TO_SIZE (dataType cfg).
Proof. unfold step_bytes, type_size. rewrite Nat2Z.inj_mul, !ZifyInst.of_nat_to_nat_eq. by destruct (dataType cfg). Qed.

Lemma window_bytes_Z cfg : Z.of_nat (window_bytes cfg) = Z.max 0 (windowSize cfg) * CONVERT_DATATYPE_TO_SIZE (dataType cfg).
Proof. unfold window_bytes, type_size. rewrite Nat2Z.inj_mul, !ZifyInst.of_nat_to_nat_eq. by destruct (dataType cfg). Qed.

(** [Init] fails only for want of memory, and starts with an all-zero history. *)
Lemma slide_init_spec cfg h :
  cfg_ok cfg -> Memory.wf h ->
  wp (Init (Some cfg)) (fun r s =>
    Memory.ub s.2 = Memory.ub h /\
    (r = RETCODE_FAILURE /\ malloc_ok (Mem.tick (Memory.mem h)) (Z.of_nat (buffer_bytes cfg)) = false \/
     r = RETCODE_SUCCESS /\ exists b, Memory.cells h !! b = None /\ inv cfg b [] s.1 s.2 /\ Memory.wf s.2 /\ spares h s.2 /\
       forall b', b' <> b -> Memory.cells s.2 !! b' = Memory.cells h !! b')) (ctor, h).
Proof.
  intros OK W. pose proof (window_split _ OK) as WS. pose proof (buffer_bound _ OK) as BB.
  pose proof (window_bound _ OK) as WB. pose proof (window_le_buffer _ OK) as WL. pose proof (step_pos _ OK) as SP.
  pose proof (ok_step _ OK) as OS. pose proof (ok_window _ OK) as OW. pose proof (ok_multiplier _ OK) as OM.
  pose proof (step_bytes_Z cfg) as ES. pose proof (window_bytes_Z cfg) as EW. rewrite Z.max_r in ES, EW by lia.
  assert (BE : Z.of_nat (buffer_bytes cfg) = windowSize cfg * bufferMultiplier cfg * CONVERT_DATATYPE_TO_SIZE (dataType cfg)).
  { unfold buffer_bytes. rewrite Nat2Z.inj_mul, EW, Z2Nat.id by lia. lia. }
  unfold Init. apply wp_bind, wp_self. cbn [isInitialized_ ctor].
  rewrite bool_decide_eq_false_2 by apply OK. rewrite (proj2 (Z.ltb_ge _ _)) by lia.
  rewrite (proj2 (Z.eqb_neq _ _)) by (unfold ILLEGAL_BUFFER_MULTIPLIER; lia).
  assert (E1 : u64 (stepSize cfg * CONVERT_DATATYPE_TO_SIZE (dataType cfg)) = Z.of_nat (step_bytes cfg)).
  { rewrite <- ES. apply wrap_u_small. lia. }
  assert (E2 : u32 (u64 (windowSize cfg * CONVERT_DATATYPE_TO_SIZE (dataType cfg)) - Z.of_nat (step_bytes cfg))
               = Z.of_nat (init_bytes cfg)).
  { rewrite <- EW, (wrap_u_small 64), wrap_u_small by lia. lia. }
  assert (E3 : u32 (u64 (u64 (windowSize cfg * bufferMultiplier cfg) * CONVERT_DATATYPE_TO_SIZE (dataType cfg)))
               = Z.of_nat (buffer_bytes cfg)).
  { unfold MAX_SAMPLE_SIZE in OW.
    assert (0 <= windowSize cfg * bufferMultiplier cfg <= 20000 * 256) by (split; [apply Z.mul_nonneg_nonneg; lia|apply Z.mul_le_mono_nonneg; lia]).
    rewrite (wrap_u_small 64 (_ * bufferMultiplier _)), <- BE, (wrap_u_small 64), wrap_u_small by lia. done. }
  rewrite E1, E2, E3. apply wp_bind, wp_set_self. rewrite (proj2 (Z.ltb_ge _ _)) by lia.
  apply wp_bind, wp_on_memory, wp_new_array; [done| |].
  - intros h' W' C' U' M'. apply wp_bind, wp_set_self, wp_ret. split; [done|]. by left.
  - intros b bs h' W' Hb L' C' U' Sp. apply wp_bind, wp_set_self, wp_bind, wp_on_memory.
    assert (R : in_range (Memory.cells h') (Ptr.mk b 0) (Z.of_nat (buffer_bytes cfg)) = true).
    { apply in_range_intro with (l := bs); cbn; [by rewrite C', lookup_insert_eq|lia..]. }
    apply wp_memset_s; [lia..|unfold SECUREC_MEM_MAX_LEN; lia|by rewrite R|lia|].
    apply wp_bind, wp_set_self, wp_ret. cbn [fst snd].
    split; [done|]. right. split; [done|]. exists b. split; [done|]. split_and!.
    + split; [split; try done; cbn; unfold type_size; by destruct (dataType cfg)|done|].
      assert (E : Memory.cells h' !! Ptr.block (Ptr.mk b 0) = Some bs) by (by rewrite C', lookup_insert_eq).
      assert (length bs = buffer_bytes cfg) as LB by (unfold zlen in L'; lia).
      exists 0%nat. eexists. split_and!; [done|done|lia| | |].
      * cbn. by rewrite (lookup_poke_same _ (Ptr.mk b 0) _ _ E).
      * rewrite Nat2Z.id, length_write_at; [done|]. rewrite length_replicate. cbn. lia.
      * rewrite Nat2Z.id, recent_nil. cbn. unfold read_at, write_at. rewrite length_replicate.
        change (Z.to_nat 0) with 0%nat. rewrite !drop_0, take_0, Nat.add_0_l, <- LB, drop_all, app_nil_l, app_nil_r, LB.
        rewrite take_replicate. f_equal. lia.
    + destruct W' as [WM WD]. split; [done|]. cbn. by rewrite dom_poke.
    + eapply spares_trans; [exact Sp|]. apply spares_dom; [done|cbn; by rewrite dom_poke].
    + intros b' Hb'. cbn. rewrite lookup_poke_other by done. rewrite C'. by rewrite lookup_insert_ne.
Qed.

(** What a caller sees who reads the window after [Process]: with the buffer
    multiplier 1 the compaction has already run over it. *)
Definition shown (cfg : config) (hist : list Z) : list Z :=
  let W := recent (window_bytes cfg) hist in
  if bufferMultiplier cfg =? 1 then drop (step_bytes cfg) W ++ drop (init_bytes cfg) W else W.

Definition input_of (cfg : config) (p : Ptr.t) : FeatureData.t := FeatureData.mk (dataType cfg) (Some p) (stepSize cfg).
Definition window_at (cfg : config) (b o : nat) : FeatureData.t :=
  FeatureData.mk (dataType cfg) (Some (Ptr.mk b (Z.of_nat o))) (windowSize cfg).

Definition stepped (cfg : config) (b : nat) (hist : list Z) (h : Memory.t) (r : outcome) (s : t * Memory.t) : Prop :=
  exists o, r = (RETCODE_SUCCESS, window_at cfg b o) /\ inv cfg b hist s.1 s.2 /\ frame b h s.2 /\
    in_range (Memory.cells s.2) (Ptr.mk b (Z.of_nat o)) (Z.of_nat (window_bytes cfg)) /\
    peek (Memory.cells s.2) (Ptr.mk b (Z.of_nat o)) (Z.of_nat (window_bytes cfg)) = shown cfg hist.

(** The buffer has just received the chunk; the position has moved on. *)
Record slid (cfg : config) (b o : nat) (hist chunk l : list Z) (s : t) (h : Memory.t) : Prop := {
  slid_cfg : configured cfg s;
  slid_work : workBuffer_ s = Some (Ptr.mk b 0);
  slid_input : inputFeature_ s = Some (Ptr.mk b (Z.of_nat (o + step_bytes cfg)));
  slid_start : startIndex_ s = Z.of_nat (o + window_bytes cfg);
  slid_fit : (o + window_bytes cfg <= buffer_bytes cfg)%nat;
  slid_cell : Memory.cells h !! b = Some (write_at l (o + init_bytes cfg) chunk);
  slid_len : length l = buffer_bytes cfg;
  slid_chunk : length chunk = step_bytes cfg;
  slid_known : read_at l o (init_bytes cfg) = recent (init_bytes cfg) hist;
}.

Lemma shown_no_compaction cfg b o hist chunk l s h :
  cfg_ok cfg -> slid cfg b o hist chunk l s h -> (o + window_bytes cfg + step_bytes cfg <= buffer_bytes cfg)%nat ->
  stepped cfg b (hist ++ chunk) h (RETCODE_SUCCESS, window_at cfg b o) (s, h).
Proof.
  intros OK S Hroom. pose proof (window_split _ OK) as WS. pose proof (step_pos _ OK) as SP. destruct S.
  assert (Hfit : (o + (step_bytes cfg + init_bytes cfg) <= length l)%nat) by lia.
  pose proof (slide_length _ chunk o _ _ Hfit slid_chunk0) as SL.
  exists o. split_and!; [done| |by split| |]; cbn [fst snd].
  - split; [done..|]. exists (o + step_bytes cfg)%nat. eexists. split_and!; [done| |lia|done|lia|].
    + rewrite slid_start0. lia.
    + by apply slide_next.
  - apply (in_range_at _ _ _ _ _ slid_cell0); unfold zlen; lia.
  - rewrite (peek_at _ _ _ _ _ slid_cell0), !Nat2Z.id. unfold shown.
    rewrite (proj2 (Z.eqb_neq _ _)).
    + rewrite WS. by apply slide_window.
    + intros M. unfold buffer_bytes in *. rewrite M in *. cbn in *. lia.
Qed.

Lemma shown_compaction cfg b o hist chunk l s h s' h' :
  cfg_ok cfg -> slid cfg b o hist chunk l s h -> (buffer_bytes cfg < o + window_bytes cfg + step_bytes cfg)%nat ->
  s' = s <| startIndex_ := initIndex_ s |> <| inputFeature_ := workBuffer_ s |> ->
  h' = h <| Memory.cells ::= fun c => poke c (Ptr.mk b 0)
             (peek c (Ptr.mk b (Z.of_nat (o + step_bytes cfg))) (Z.of_nat (init_bytes cfg))) |> ->
  stepped cfg b (hist ++ chunk) h (RETCODE_SUCCESS, window_at cfg b o) (s', h').
Proof.
  intros OK S Hfull -> ->. pose proof (window_split _ OK) as WS. pose proof (step_pos _ OK) as SP. destruct S.
  assert (Hfit : (o + (step_bytes cfg + init_bytes cfg) <= length l)%nat) by lia.
  pose proof (compact_length _ hist _ o _ _ Hfit slid_chunk0 slid_known0) as CL.
  set (c' := poke (Memory.cells h) (Ptr.mk b 0)
    (peek (Memory.cells h) (Ptr.mk b (Z.of_nat (o + step_bytes cfg))) (Z.of_nat (init_bytes cfg)))).
  assert (C : c' !! b = Some (write_at (write_at l (o + init_bytes cfg) chunk) 0
            (read_at (write_at l (o + init_bytes cfg) chunk) (o + step_bytes cfg) (init_bytes cfg)))).
  { subst c'. unfold poke, peek. cbn. rewrite slid_cell0, lookup_insert_eq, !Nat2Z.id. done. }
  exists o. split_and!; [done| |split; try done| |]; cbn [fst snd].
  - split; [by destruct slid_cfg0|done|]. exists 0%nat. eexists. split_and!; [done| |apply (window_le_buffer _ OK)|exact C|lia|].
    + cbn. by rewrite (is_start _ _ slid_cfg0).
    + by apply compact_next.
  - intros b' Hb'. cbn. by apply lookup_poke_other.
  - cbn. apply dom_poke.
  - cbn. apply (in_range_at _ _ _ _ _ C); unfold zlen; lia.
  - cbn. rewrite (peek_at _ _ _ _ _ C), !Nat2Z.id. unfold shown. pose proof (ok_multiplier _ OK) as OM.
    destruct (Z.eqb_spec (bufferMultiplier cfg) 1) as [M|M].
    + assert (o = 0)%nat as -> by (unfold buffer_bytes in *; rewrite M in *; cbn in *; lia).
      rewrite WS. by apply compact_overlapping.
    + rewrite WS. apply compact_apart; [done..|]. unfold buffer_bytes in *. nia.
Qed.

Lemma post_process_spec cfg b o hist chunk l s h :
  cfg_ok cfg -> slid cfg b o hist chunk l s h ->
  wp (PostProcess (window_at cfg b o)) (stepped cfg b (hist ++ chunk) h) (s, h).
Proof.
  intros OK S. pose proof (window_split _ OK) as WS. pose proof (step_pos _ OK) as SP. pose proof (buffer_bound _ OK).
  pose proof (window_le_buffer _ OK). pose proof S as S0. destruct S0. destruct slid_cfg0.
  unfold PostProcess. apply wp_bind, wp_self. cbn [id]. rewrite is_buffer0, slid_start0, is_step0.
  rewrite wrap_u_small by lia. destruct (Z.ltb_spec (Z.of_nat (buffer_bytes cfg) - Z.of_nat (o + window_bytes cfg))
    (Z.of_nat (step_bytes cfg))).
  - rewrite slid_work0, slid_input0, is_start0. apply wp_bind, wp_on_memory.
    assert (slide_length' : length (write_at l (o + init_bytes cfg) chunk) = length l) by (apply length_write_at; lia).
    apply wp_memmove_s; [lia..|unfold SECUREC_MEM_MAX_LEN; lia| | |].
    1-2: apply (in_range_at _ _ _ _ _ slid_cell0); unfold zlen; lia.
    cbn. apply wp_bind, wp_set_self, wp_ret. eapply shown_compaction; [done|exact S|lia|done|done].
  - apply wp_ret. apply (shown_no_compaction cfg b o hist chunk l s h); [done..|lia].
Qed.

Lemma slide_process_spec cfg b hist chunk pin ty s h :
  cfg_ok cfg -> inv cfg b hist s h -> Ptr.block pin <> b -> length chunk = step_bytes cfg ->
  in_range (Memory.cells h) pin (Z.of_nat (step_bytes cfg)) ->
  peek (Memory.cells h) pin (Z.of_nat (step_bytes cfg)) = chunk ->
  wp (Process (input_of cfg pin) (FeatureData.empty ty)) (stepped cfg b (hist ++ chunk) h) (s, h).
Proof.
  intros OK [IC IW (o & l & I1 & I2 & I3 & I4 & I5 & I6)] Hb Hc Hr Hp.
  pose proof (window_split _ OK) as WS. pose proof (step_pos _ OK) as SP. pose proof (buffer_bound _ OK).
  pose proof (step_bytes_Z cfg) as ES. pose proof (ok_step _ OK) as OS. rewrite Z.max_r in ES by lia.
  pose proof (window_le_buffer _ OK). pose proof IC as IC0. destruct IC0.
  unfold Process. apply wp_bind, wp_self. cbn [id]. rewrite is_init0, in_type0. cbn -[CONVERT_DATATYPE_TO_SIZE].
  rewrite bool_decide_eq_true_2 by done. cbn -[CONVERT_DATATYPE_TO_SIZE].
  rewrite (proj2 (Z.eqb_neq (stepSize cfg) 0)) by lia. rewrite is_size0, is_step0.
  assert (E1 : u64 (stepSize cfg * Z.of_nat (type_size cfg)) = Z.of_nat (step_bytes cfg)).
  { rewrite wrap_u_small; unfold type_size; rewrite Z2Nat.id by (by destruct (dataType cfg)); lia. }
  rewrite E1, Z.eqb_refl. cbn -[CONVERT_DATATYPE_TO_SIZE].
  rewrite IW, I2, is_buffer0. rewrite wrap_u_small by lia.
  assert (R : in_range (Memory.cells h) (Ptr.add (Ptr.mk b 0) (Z.of_nat (o + init_bytes cfg))) (Z.of_nat (step_bytes cfg))).
  { apply (in_range_at _ b (0 + Z.of_nat (o + init_bytes cfg)) _ _ I4); unfold zlen; lia. }
  apply wp_bind, wp_on_memory, wp_memcpy_s; [lia..|unfold SECUREC_MEM_MAX_LEN; lia|exact R|exact Hr| |].
  { unfold overlap. cbn. by rewrite bool_decide_eq_false_2. }
  cbn -[CONVERT_DATATYPE_TO_SIZE]. apply wp_bind, wp_set_self. rewrite I1, is_window0.
  eapply wp_mono; [eapply (post_process_spec cfg b o hist chunk l)|].
  - done.
  - split; try done; cbn -[CONVERT_DATATYPE_TO_SIZE].
    + rewrite I1, is_step0. cbn. unfold Ptr.add. cbn. do 2 f_equal. lia.
    + rewrite I2, is_step0, wrap_u_small by lia. lia.
    + rewrite Hp. unfold poke. cbn. rewrite I4, lookup_insert_eq. do 2 f_equal. lia.
  - intros r [s' h'] (o' & -> & Hi & F & Hr' & Hp'). exists o'. split_and!; try done.
    destruct F as [F1 F2 F3 F4]. cbn in F1, F2, F3, F4. split; [done|done| |].
    + intros b' Hb'. rewrite F3 by done. by apply lookup_poke_other.
    + cbn [fst snd]. by rewrite F4, dom_poke.
Qed.

(** ** A caller that streams chunks through one input buffer

    The window is read through the returned pointer after [Process] came back. *)
Definition feed (cfg : config) (pin : Ptr.t) (chunk : list Z) : ST (t * Memory.t) (Z * list Z) :=
  on_memory (store (Some pin) chunk) ;;
  r ← Process (input_of cfg pin) (FeatureData.empty (dataType cfg));
  w ← on_memory (load (FeatureData.data r.2) (feature_bytes r.2));
  mret (r.1, w).

Fixpoint feed_all (cfg : config) (pin : Ptr.t) (chunks : list (list Z)) : ST (t * Memory.t) (list (Z * list Z)) :=
  match chunks with
  | [] => mret []
  | c :: cs => r ← feed cfg pin c; rs ← feed_all cfg pin cs; mret (r :: rs)
  end.

Lemma feed_spec cfg b hist chunk pin s h :
  cfg_ok cfg -> inv cfg b hist s h -> Ptr.block pin <> b -> length chunk = step_bytes cfg ->
  in_range (Memory.cells h) pin (Z.of_nat (step_bytes cfg)) ->
  wp (feed cfg pin chunk) (fun r s' => r = (RETCODE_SUCCESS, shown cfg (hist ++ chunk)) /\
    inv cfg b (hist ++ chunk) s'.1 s'.2 /\ in_range (Memory.cells s'.2) pin (Z.of_nat (step_bytes cfg)) /\
    Memory.ub s'.2 = Memory.ub h) (s, h).
Proof.
  intros OK I Hb Hc R. assert (EZ : zlen chunk = Z.of_nat (step_bytes cfg)) by (unfold zlen; lia).
  unfold feed. apply wp_bind, wp_on_memory, wp_store; [by rewrite EZ|]. apply wp_bind. cbn [fst snd].
  eapply wp_mono; [eapply (slide_process_spec cfg b hist chunk); try done|].
  - destruct I as [I1 I2 (o & l & I3 & I4 & I5 & I6 & I7)]. split; [done..|]. exists o, l.
    split_and!; try done; [|apply I7..]. cbn. by rewrite lookup_poke_other.
  - cbn. by rewrite in_range_poke by (by rewrite EZ).
  - cbn. rewrite <- EZ. apply peek_poke_same. by rewrite EZ.
  - intros r [s' h'] (o & -> & I' & F & R' & P). cbn [fst snd] in *.
    assert (EB : feature_bytes (window_at cfg b o) = Z.of_nat (window_bytes cfg)).
    { rewrite window_bytes_Z, Z.max_r by (pose proof (ok_step _ OK); lia). done. }
    apply wp_bind, wp_on_memory. unfold window_at at 1. cbn [FeatureData.data].
    rewrite EB. apply wp_load; [done|]. rewrite P. apply wp_ret. destruct F as [_ FU FO FD]. cbn [fst snd].
    split_and!; [done|done| |by rewrite FU].
    unfold in_range. rewrite FO by done. change (in_range (poke (Memory.cells h) pin chunk) pin (Z.of_nat (step_bytes cfg))).
    by rewrite in_range_poke by (by rewrite EZ).
Qed.

Lemma feed_all_spec cfg b pin chunks hist s h :
  cfg_ok cfg -> inv cfg b hist s h -> Ptr.block pin <> b -> Forall (fun c => length c = step_bytes cfg) chunks ->
  in_range (Memory.cells h) pin (Z.of_nat (step_bytes cfg)) ->
  wp (feed_all cfg pin chunks) (fun rs s' => Memory.ub s'.2 = Memory.ub h /\
    rs = (fun W => (RETCODE_SUCCESS, if bufferMultiplier cfg =? 1
                                     then drop (step_bytes cfg) W ++ drop (init_bytes cfg) W else W)) <$>
         windows_of (window_bytes cfg) hist chunks) (s, h).
Proof.
  revert hist s h. induction chunks as [|c cs IH]; intros hist s h OK I Hb HF R; [by apply wp_ret|].
  apply Forall_cons in HF as [Hc HF]. cbn [feed_all windows_of]. apply wp_bind.
  eapply wp_mono; [by apply (feed_spec cfg b hist)|]. intros r [s' h'] (-> & I' & R' & U'). cbn [fst snd] in *.
  apply wp_bind. eapply wp_mono; [by apply (IH (hist ++ c))|]. intros rs s2 (U2 & ->). apply wp_ret.
  split; [by rewrite U2|done].
Qed.

(** From construction: [Init], then the stream. *)
Definition stream (cfg : config) (pin : Ptr.t) (chunks : list (list Z)) : ST (t * Memory.t) (Z * list (Z * list Z)) :=
  r ← Init (Some cfg); rs ← feed_all cfg pin chunks; mret (r, rs).

Lemma stream_spec cfg pin chunks h :
  cfg_ok cfg -> Memory.wf h -> in_range (Memory.cells h) pin (Z.of_nat (step_bytes cfg)) ->
  malloc_ok (Mem.tick (Memory.mem h)) (Z.of_nat (buffer_bytes cfg)) = true ->
  Forall (fun c => length c = step_bytes cfg) chunks ->
  wp (stream cfg pin chunks) (fun r s =>
    Memory.ub s.2 = Memory.ub h /\
    r = (RETCODE_SUCCESS, (fun W => (RETCODE_SUCCESS, if bufferMultiplier cfg =? 1
                             then drop (step_bytes cfg) W ++ drop (init_bytes cfg) W else W)) <$>
                          windows_of (window_bytes cfg) [] chunks)) (ctor, h).
Proof.
  intros OK W R M HF. unfold stream. apply wp_bind. eapply wp_mono; [by apply slide_init_spec|].
  intros r [s h'] (U & [[_ E]|(-> & b & Hb & I & W' & _ & F)]); [congruence|]. cbn [fst snd] in *.
  assert (Ptr.block pin <> b) as Hne.
  { intros E. apply in_range_inv in R as (l & E' & _). rewrite E in E'. congruence. }
  apply wp_bind. eapply wp_mono; [apply (feed_all_spec cfg b pin chunks []); try done|].
  - unfold in_range in *. by rewrite F.
  - intros rs s2 (U2 & ->). apply wp_ret. split; [by rewrite U2|done].
Qed.
End facts.
End SlideWindowFacts.

(** ** Properties *)

Import SlideWindow SlideWindowFacts.

(** C28. With a buffer multiplier of at least 2 the window a caller reads after
    the k-th [Process] is exactly the last [windowSize] elements of the stream of
    all chunks so far, preceded by zeros; compacting the buffer never shows, and
    no access leaves a block. *)
Theorem slide_window_streams `{!Allocator, !SecurecMemory, !SecurecMemoryLaws}
    (cfg : config) (pin : Ptr.t) (chunks : list (list Z)) (h : Memory.t) :
  cfg_ok cfg -> 2 <= bufferMultiplier cfg ->
  Memory.wf h -> in_range (Memory.cells h) pin (Z.of_nat (step_bytes cfg)) ->
  malloc_ok (Mem.tick (Memory.mem h)) (Z.of_nat (buffer_bytes cfg)) = true ->
  Forall (fun c => length c = step_bytes cfg) chunks ->
  let '((r, rs), s) := stream cfg pin chunks (ctor, h) in
  r = RETCODE_SUCCESS /\ rs = pair RETCODE_SUCCESS <$> windows_of (window_bytes cfg) [] chunks /\
  Memory.ub s.2 = Memory.ub h.
Proof.
  intros OK M W R A HF. pose proof (stream_spec cfg pin chunks h OK W R A HF) as S. unfold wp in S.
  destruct (stream _ _ _ (ctor, h)) as [[r rs] s]. cbn [fst snd] in S. destruct S as [U [= -> ->]].
  rewrite (proj2 (Z.eqb_neq _ _)) by lia. done.
Qed.

(** With the buffer multiplier 1, which [Init] accepts, every [Process] moves
    the overlap of the next window over the window it has just returned: the
    caller reads the next window's beginning instead of this window's, although
    [Process] reports success. *)
Theorem slide_window_multiplier_one `{!Allocator, !SecurecMemory, !SecurecMemoryLaws}
    (cfg : config) (pin : Ptr.t) (chunks : list (list Z)) (h : Memory.t) :
  cfg_ok cfg -> bufferMultiplier cfg = 1 ->
  Memory.wf h -> in_range (Memory.cells h) pin (Z.of_nat (step_bytes cfg)) ->
  malloc_ok (Mem.tick (Memory.mem h)) (Z.of_nat (buffer_bytes cfg)) = true ->
  Forall (fun c => length c = step_bytes cfg) chunks ->
  let '((r, rs), s) := stream cfg pin chunks (ctor, h) in
  r = RETCODE_SUCCESS /\ rs = (fun W => (RETCODE_SUCCESS, drop (step_bytes cfg) W ++ drop (init_bytes cfg) W)) <$>
                             windows_of (window_bytes cfg) [] chunks.
Proof.
  intros OK M W R A HF. pose proof (stream_spec cfg pin chunks h OK W R A HF) as S. unfold wp in S.
  destruct (stream _ _ _ (ctor, h)) as [[r rs] s]. cbn [fst snd] in S. destruct S as [U [= -> ->]]. by rewrite M.
Qed.

(** ** Witnesses *)

Import SecurecSample.
#[local] Existing Instance always_alloc.

Definition sample_config (m : Z) : config := Config UINT8 m 2 5.
Definition caller_memory : Memory.t := (new_array 8 Memory.empty).2.
Definition caller_buffer : Ptr.t := Ptr.mk 0 0.
Definition sample_chunks : list (list Z) := [[1; 2]; [3; 4]; [5; 6]; [7; 8]].

Lemma sample_config_ok m : 0 < m < 2 ^ 8 -> cfg_ok (sample_config m).
Proof. split; cbn; [done|lia|lia|unfold MAX_SAMPLE_SIZE; lia]. Qed.

Lemma caller_memory_wf : Memory.wf caller_memory.
Proof. apply wf_decide. vm_compute. reflexivity. Qed.

(** Windows of five elements, stepping by two. *)
Lemma slide_window_streams_witness :
  let '((r, rs), s) := stream (sample_config 2) caller_buffer sample_chunks (ctor, caller_memory) in
  r = RETCODE_SUCCESS /\ rs = pair RETCODE_SUCCESS <$> windows_of (window_bytes (sample_config 2)) [] sample_chunks /\
  Memory.ub s.2 = Memory.ub caller_memory.
Proof.
  apply (slide_window_streams (sample_config 2) caller_buffer sample_chunks caller_memory);
    [by apply sample_config_ok|done|apply caller_memory_wf|done|done|by repeat constructor].
Defined.

Lemma slide_window_multiplier_one_witness :
  let '((r, rs), s) := stream (sample_config 1) caller_buffer sample_chunks (ctor, caller_memory) in
  r = RETCODE_SUCCESS /\
  rs = (fun W => (RETCODE_SUCCESS, drop (step_bytes (sample_config 1)) W ++ drop (init_bytes (sample_config 1)) W)) <$>
       windows_of (window_bytes (sample_config 1)) [] sample_chunks.
Proof.
  apply (slide_window_multiplier_one (sample_config 1) caller_buffer sample_chunks caller_memory);
    [by apply sample_config_ok|done|apply caller_memory_wf|done|done|by repeat constructor].
Defined.

(** What the two configurations return for the same stream: the third window is
    [2;3;4;5;6], and the multiplier 1 shows [4;5;6;5;6]. *)
Example multiplier_two_shows :
  ((stream (sample_config 2) caller_buffer sample_chunks (ctor, caller_memory)).1).2 =
  pair RETCODE_SUCCESS <$> [[0; 0; 0; 1; 2]; [0; 1; 2; 3; 4]; [2; 3; 4; 5; 6]; [4; 5; 6; 7; 8]].
Proof. vm_compute. reflexivity. Qed.

Example multiplier_one_shows :
  ((stream (sample_config 1) caller_buffer sample_chunks (ctor, caller_memory)).1).2 =
  pair RETCODE_SUCCESS <$> [[0; 1; 2; 1; 2]; [2; 3; 4; 3; 4]; [4; 5; 6; 5; 6]; [6; 7; 8; 7; 8]].
Proof. vm_compute. reflexivity. Qed.
