(* ===== verification/NormProcessor.v ===== *)
(** * NormProcessor: channel-wise normalisation of features

    norm_processor.cpp over [Memory] and [Feature]: the mean and the standard
    deviation of each channel are read from two text files, [Process] turns an
    input of any element type into floats and normalises it into the processor's
    buffer.  The file system and [atof] belong to the platform and are the
    parameter [Files]. *)

From Stdlib Require Import ZArith Lia SpecFloat.
From stdpp Require Import gmap strings list.
From S2P Require Import Prelude Protocol Encdec Memory Float32 Feature.

#[local] Open Scope Z_scope.

(** [realpath], the bytes of the file [fopen] opens, and [atof] (a [double]). *)
Class Files := {
  realpath : string -> option string;
  fopen : string -> option (list Z);
  atof : list Z -> spec_float;
}.

Definition NUMBER_DELIMITER : Z := 32.
Definition SIZEOF_FLOAT : Z := 4.

(** [1e-6] as a [double], narrowed. *)
Definition EPSILON : spec_float :=
  float_of_double (SFdiv 53 1024 (binary_normalize 53 1024 1 0 false) (binary_normalize 53 1024 1000000 0 false)).

Module NormProcessor.

Record config := Config {
  meanFilePath : string;
  stdFilePath : string;
  numChannels : Z;
  inputSize : Z;
  scale : spec_float;
}.

Record t := mk {
  isInitialized_ : bool;
  workBuffer_ : option Ptr.t;
  mean_ : option Ptr.t;
  std_ : option Ptr.t;
  config_ : config;
  converter_ : option TypeConverter.t;
}.
#[global] Instance eta_norm_processor : Eta t := fun r =>
  mk (isInitialized_ r) (workBuffer_ r) (mean_ r) (std_ r) (config_ r) (converter_ r).

Definition ctor : t := mk false None None None (Config "" "" 0 0 (float_of_Z 1)) None.

Section operations.
  Context `{!Allocator, !SecurecMemory, !Files}.

(** [data[count] = atof(token.c_str())] *)
Definition put_number (data : option Ptr.t) (count : Z) (token : list Z) : ST Memory.t unit :=
  store (ptr_add data (count * SIZEOF_FLOAT)) (float_bytes (float_of_double (atof token))).

(** The [do]-[while] over the characters that are left in the file. *)
Fixpoint read_loop (data : option Ptr.t) (length : Z) (chars token : list Z) (count : Z) : ST Memory.t (list Z * Z) :=
  match chars with
  | [] => mret (token, count)
  | c :: rest =>
      if c =? NUMBER_DELIMITER then
        put_number data count token ;;
        if count + 1 <? length then read_loop data length rest [] (count + 1) else mret ([], count + 1)
      else if count <? length then read_loop data length rest (token ++ [c]) count
      else mret (token ++ [c], count)
  end.

Definition LoadInfoFromFile (chars : list Z) (data : option Ptr.t) (length : Z) : ST Memory.t Z :=
  r ← read_loop data length chars [] 0;
  let '(token, count) := r in
  match token with
  | [] => mret (s32 count)
  | _ => if length <=? count then mret (s32 length)
         else put_number data count token ;; mret (s32 (count + 1))
  end.

Definition ReadFixedLenFloatData (filePath : string) (data : option Ptr.t) (length : Z) : ST Memory.t Z :=
  match realpath filePath with
  | None => mret RETCODE_FAILURE
  | Some realPath =>
      match fopen realPath with
      | None => mret RETCODE_FAILURE
      | Some chars =>
          readLen ← LoadInfoFromFile chars data length;
          if negb (u64 readLen =? length) then mret RETCODE_FAILURE else mret RETCODE_SUCCESS
      end
  end.

Definition LoadMeanAndStd (meanFilePath stdFilePath : string) (mean std : option Ptr.t) (length : Z) : ST Memory.t Z :=
  retCode ← ReadFixedLenFloatData meanFilePath mean length;
  if negb (retCode =? RETCODE_SUCCESS) then mret RETCODE_FAILURE else
  retCode ← ReadFixedLenFloatData stdFilePath std length;
  if negb (retCode =? RETCODE_SUCCESS) then mret RETCODE_FAILURE else
  mret RETCODE_SUCCESS.

(** Call a member function of [*converter_]; a null pointer has none. *)
Definition on_converter {A} (dflt : A) (m : ST (TypeConverter.t * Memory.t) A) : ST (t * Memory.t) A := fun s =>
  match converter_ s.1 with
  | Some c => let '(a, (c', h)) := m (c, s.2) in (a, (s.1 <| converter_ := Some c' |>, h))
  | None => (dflt, (s.1, s.2 <| Memory.ub := true |>))
  end.

(** [converter_ = c]: the old converter is destroyed. *)
Definition reset_converter (c : option TypeConverter.t) : ST (t * Memory.t) unit :=
  old ← self converter_;
  match old with Some _ => on_converter tt TypeConverter.Release | None => mret tt end ;;
  set_self (fun s => s <| converter_ := c |>).

Definition Release : ST (t * Memory.t) unit :=
  s ← self id;
  on_memory (delete_array (workBuffer_ s)) ;;
  on_memory (delete_array (mean_ s)) ;;
  on_memory (delete_array (std_ s)) ;;
  set_self (fun s => s <| workBuffer_ := None |> <| mean_ := None |> <| std_ := None |>) ;;
  reset_converter None ;;
  set_self (fun s => s <| isInitialized_ := false |>).

(** [new(std::nothrow) TypeConverter()] *)
Definition new_converter : ST Memory.t (option TypeConverter.t) := fun h =>
  let '(ok, m) := AIE_NEW (Memory.mem h) in
  (if (ok : bool) then Some TypeConverter.ctor else None, h <| Memory.mem := m |>).

Definition Init (cfg : option config) : ST (t * Memory.t) Z :=
  initialized ← self isInitialized_;
  if (initialized : bool) then mret RETCODE_FAILURE else
  match cfg with
  | None => mret RETCODE_FAILURE
  | Some c =>
      set_self (fun s => s <| config_ := c |>) ;;
      if (inputSize c =? 0) || (numChannels c =? 0) then mret RETCODE_FAILURE else
      if negb (inputSize c mod numChannels c =? 0) then mret RETCODE_FAILURE else
      conv ← on_memory new_converter;
      reset_converter conv ;;
      match conv with
      | None => mret RETCODE_FAILURE
      | Some _ =>
          r ← on_converter RETCODE_FAILURE (TypeConverter.Init (Some (TypeConverter.Config FLOAT (inputSize c))));
          if negb (r =? RETCODE_SUCCESS) then mret RETCODE_FAILURE else
          if (MAX_SAMPLE_SIZE <? numChannels c) || (MAX_SAMPLE_SIZE <? inputSize c) then mret RETCODE_FAILURE else
          m ← on_memory (new_array (numChannels c * SIZEOF_FLOAT));
          set_self (fun s => s <| mean_ := m |>) ;;
          d ← on_memory (new_array (numChannels c * SIZEOF_FLOAT));
          set_self (fun s => s <| std_ := d |>) ;;
          w ← on_memory (new_array (inputSize c * SIZEOF_FLOAT));
          set_self (fun s => s <| workBuffer_ := w |>) ;;
          if bool_decide (m = None) || bool_decide (d = None) || bool_decide (w = None)
          then Release ;; mret RETCODE_FAILURE else
          retCode ← on_memory (LoadMeanAndStd (meanFilePath c) (stdFilePath c) m d (numChannels c));
          if negb (retCode =? RETCODE_SUCCESS) then Release ;; mret RETCODE_FAILURE else
          set_self (fun s => s <| isInitialized_ := true |>) ;;
          mret RETCODE_SUCCESS
      end
  end.

(** [p[i]] of a [float *] *)
Definition load_float (p : option Ptr.t) (i : Z) : ST Memory.t spec_float :=
  bs ← load (ptr_add p (i * SIZEOF_FLOAT)) SIZEOF_FLOAT; mret (float_of_bits (le_val bs)).

Definition store_float (p : option Ptr.t) (i : Z) (f : spec_float) : ST Memory.t unit :=
  store (ptr_add p (i * SIZEOF_FLOAT)) (float_bytes f).

(** [(std::abs(stdVal) < EPSILON) ? 0.0f : ((x - meanVal) / stdVal) * scale] *)
Definition normalise (x meanVal stdVal sc : spec_float) : spec_float :=
  if SFltb (SFabs stdVal) EPSILON then S754_zero false
  else float_mul (float_div (float_sub x meanVal) stdVal) sc.

Definition normalise_item (s : t) (data : option Ptr.t) (i : nat) : ST Memory.t unit :=
  stdVal ← load_float (std_ s) (Z.of_nat i mod numChannels (config_ s));
  meanVal ← load_float (mean_ s) (Z.of_nat i mod numChannels (config_ s));
  x ← load_float data (Z.of_nat i);
  store_float (workBuffer_ s) (Z.of_nat i) (normalise x meanVal stdVal (scale (config_ s))).

Definition Process (input output : FeatureData.t) : ST (t * Memory.t) outcome :=
  s ← self id;
  if negb (isInitialized_ s) then mret (RETCODE_FAILURE, output) else
  if negb (bool_decide (FeatureData.data output = None)) || negb (FeatureData.size output =? 0)
  then mret (RETCODE_FAILURE, output) else
  if bool_decide (FeatureData.data input = None) || (FeatureData.size input =? 0)
  then mret (RETCODE_FAILURE, output) else
  if bool_decide (FeatureData.dataType input = UNKNOWN) then mret (RETCODE_FAILURE, output) else
  if negb (FeatureData.size input =? inputSize (config_ s)) then mret (RETCODE_FAILURE, output) else
  output ← (if bool_decide (FeatureData.dataType input = FLOAT) then mret input
            else r ← on_converter (RETCODE_FAILURE, output) (TypeConverter.Process input output); mret r.2);
  on_memory (for_each (normalise_item s (FeatureData.data output)) (seq 0 (Z.to_nat (FeatureData.size output)))) ;;
  mret (RETCODE_SUCCESS, output <| FeatureData.data := workBuffer_ s |> <| FeatureData.dataType := FLOAT |>).

End operations.
End NormProcessor.
