(* ===== verification/FeatureProps.v ===== *)
(** * FeatureProps: conversion and normalisation of features

    [TypeConverter.Process] casts every element of its input into its own
    buffer; [NormProcessor.Process] normalises every element by its channel.
    The lemmas give the bytes a caller finds behind the returned pointer and say
    that nothing but the processor's buffers changed. *)

From Stdlib Require Import ZArith Lia SpecFloat.
From stdpp Require Import gmap strings list.
From S2P Require Import Prelude Protocol Encdec Memory Float32 Feature NormProcessor.

#[local] Open Scope Z_scope.

(** The [i]-th object of [sz] bytes behind [p]. *)
Definition elem (c : cell_map) (p : Ptr.t) (sz i : nat) : list Z :=
  peek c (Ptr.add p (Z.of_nat (i * sz))) (Z.of_nat sz).

Definition elems (c : cell_map) (p : Ptr.t) (sz n : nat) : list (list Z) := elem c p sz <$> seq 0 n.

Lemma elem_in_range c p sz n i :
  in_range c p (Z.of_nat (n * sz)) -> (i < n)%nat -> in_range c (Ptr.add p (Z.of_nat (i * sz))) (Z.of_nat sz).
Proof.
  intros (l & E & H1 & _ & H3)%in_range_inv Hi. destruct p as [b o]. cbn in *.
  assert (i * sz + sz <= n * sz)%nat by nia.
  apply (in_range_at _ b (o + Z.of_nat (i * sz)) _ _ E); lia.
Qed.

Lemma frame_elem b h h' p sz i :
  frame b h h' -> Ptr.block p <> b -> elem (Memory.cells h') p sz i = elem (Memory.cells h) p sz i.
Proof. intros F Hb. apply (frame_peek b); [done|by destruct p]. Qed.

(** Objects that are written in sequence are the elements of the block. *)
Lemma elem_of_concat c b l sz n (g : nat -> list Z) i :
  c !! b = Some l -> (forall i, (i < n)%nat -> length (g i) = sz) -> read_at l 0 (n * sz) = concat (g <$> seq 0 n) ->
  (i < n)%nat -> elem c (Ptr.mk b 0) sz i = g i.
Proof.
  intros E Hg HR Hi. unfold elem, Ptr.add. cbn [Ptr.block Ptr.off].
  rewrite (peek_at _ _ _ _ _ E), Z.add_0_l, !Nat2Z.id.
  assert (L : forall k, (k <= n)%nat -> length (concat (g <$> seq 0 k)) = (k * sz)%nat).
  { induction k as [|k IH]; intros Hk; [done|].
    rewrite seq_S, fmap_app, concat_app, length_app, IH by lia. cbn. rewrite app_nil_r, Hg by lia. lia. }
  replace n with (i + (1 + (n - S i)))%nat in HR at 2 by lia.
  rewrite seq_app, fmap_app, concat_app in HR. cbn in HR.
  apply (f_equal (fun x => take sz (drop (i * sz) x))) in HR.
  rewrite drop_app_length' in HR by (rewrite L; lia).
  rewrite take_app_length' in HR by (rewrite Hg; lia). rewrite <- HR.
  assert (i * sz + sz <= n * sz)%nat by nia.
  unfold read_at. rewrite drop_0, !take_drop_commute, take_take. do 2 f_equal. lia.
Qed.

(** ** [TypeConverter] *)

Module TypeConverterFacts.
Import TypeConverter.

Section facts.
  Context `{!Allocator, !SecurecMemory}.

(** An initialised converter of [n] elements whose buffer is block [b]. *)
Record ready (outT : DataType) (n b : nat) (s : t) (h : Memory.t) : Prop := {
  rd_init : isInitialized_ s = true;
  rd_type : outT <> UNKNOWN;
  rd_buffer : workBuffer_ s = FeatureData.mk outT (Some (Ptr.mk b 0)) (Z.of_nat n);
  rd_cell : exists l, Memory.cells h !! b = Some l /\ length l = (n * elem_size outT)%nat;
}.

Lemma converter_ready_frame outT n b s h h' b' : b' <> b -> frame b' h h' -> ready outT n b s h -> ready outT n b s h'.
Proof. intros Hb F [R1 R2 R3 R4]. split; [done..|]. rewrite (frame_other _ _ _ F); done. Qed.

Lemma elem_size_Z ty : Z.of_nat (elem_size ty) = CONVERT_DATATYPE_TO_SIZE ty.
Proof. by destruct ty. Qed.

Lemma convert_length to x out : to <> UNKNOWN -> convert to x = Some out -> length out = elem_size to.
Proof.
  intros Ht E. destruct x as [z|f].
  - destruct to; unfold convert in E; try done; apply (inj Some) in E as <-; first [apply length_float_bytes|apply length_le].
  - destruct to; unfold convert, mbind, option_bind in E; try done; try (apply (inj Some) in E as <-; apply length_float_bytes).
    all: destruct (trunc f); [|done].
    all: destruct (type_range _ _); [apply (inj Some) in E as <-; apply length_le|done].
Qed.

(** All the conversions are defined, and [g] gives their results. *)
Definition converts (inT outT : DataType) (c : cell_map) (p : Ptr.t) (n : nat) (g : nat -> list Z) : Prop :=
  forall i, (i < n)%nat -> convert outT (read_number inT (elem c p (elem_size inT) i)) = Some (g i).

Lemma do_cast_spec inT outT b n pin g h l :
  outT <> UNKNOWN -> Ptr.block pin <> b -> in_range (Memory.cells h) pin (Z.of_nat (n * elem_size inT)) ->
  Memory.cells h !! b = Some l -> length l = (n * elem_size outT)%nat ->
  converts inT outT (Memory.cells h) pin n g ->
  wp (TYPE_CONVERT_ITEMS inT outT (Some pin) (Some (Ptr.mk b 0)) (Z.of_nat n)) (fun _ h' => frame b h h' /\
    (exists l', Memory.cells h' !! b = Some l' /\ length l' = length l) /\
    forall i, (i < n)%nat -> elem (Memory.cells h') (Ptr.mk b 0) (elem_size outT) i = g i) h.
Proof.
  intros Ho Hb Hr Hl Hlen Hg. unfold TYPE_CONVERT_ITEMS. rewrite Nat2Z.id.
  assert (Lg : forall i, (i < n)%nat -> length (g i) = elem_size outT) by (intros i Hi; eapply convert_length; [done|by apply Hg]).
  eapply wp_mono; [apply (wp_fill b 0 (elem_size outT) n g); [exact Hl|lia|exact Lg|]|].
  - intros i h' Hi F Hcell (l' & El'). pose proof (Hcell _ El') as Ll'. unfold convert_item.
    apply wp_bind, wp_load.
    { apply (frame_in_range b h); [done|by destruct pin|]. by apply (elem_in_range _ _ _ n). }
    change (peek (Memory.cells h') _ _) with (elem (Memory.cells h') pin (elem_size inT) i).
    rewrite (frame_elem b h) by done. rewrite (Hg i Hi). apply wp_store; [|done].
    assert (i * elem_size outT + elem_size outT <= n * elem_size outT)%nat by nia.
    apply (in_range_at _ b (0 + Z.of_nat (i * elem_size outT)) _ _ El'); unfold zlen; rewrite ?Lg by done; lia.
  - intros _ h' (F & l' & E1 & E2 & E3). split; [done|]. split; [by exists l'|]. intros i Hi.
    by apply (elem_of_concat _ _ l' _ n).
Qed.

Lemma converter_process_spec inT outT n b s pin g ty h :
  ready outT n b s h -> inT <> UNKNOWN -> (0 < n)%nat -> Ptr.block pin <> b ->
  in_range (Memory.cells h) pin (Z.of_nat (n * elem_size inT)) -> converts inT outT (Memory.cells h) pin n g ->
  wp (Process (FeatureData.mk inT (Some pin) (Z.of_nat n)) (FeatureData.empty ty)) (fun r s' =>
    r = (RETCODE_SUCCESS, workBuffer_ s) /\ s'.1 = s /\ frame b h s'.2 /\ ready outT n b s s'.2 /\
    forall i, (i < n)%nat -> elem (Memory.cells s'.2) (Ptr.mk b 0) (elem_size outT) i = g i) (s, h).
Proof.
  intros [R1 R2 R3 (l & R4 & R5)] Hin Hn Hb Hr Hg. unfold Process. cbn.
  rewrite (proj2 (Z.eqb_neq (Z.of_nat n) 0)) by lia. cbn. apply wp_bind, wp_self. rewrite R3. cbn.
  rewrite Z.eqb_refl. cbn. apply wp_bind. unfold InnerProcess. apply wp_bind, wp_self. rewrite R3. cbn.
  assert (C : wp (on_memory (DoCast inT (Some pin) (Z.of_nat n) (FeatureData.mk outT (Some (Ptr.mk b 0)) (Z.of_nat n))))
    (fun r s' => r = RETCODE_SUCCESS /\ s'.1 = s /\ frame b h s'.2 /\
      (exists l', Memory.cells s'.2 !! b = Some l' /\ length l' = length l) /\
      forall i, (i < n)%nat -> elem (Memory.cells s'.2) (Ptr.mk b 0) (elem_size outT) i = g i) (s, h)).
  { apply wp_on_memory. unfold DoCast. cbn. destruct outT; try done; apply wp_bind;
      (eapply wp_mono; [by eapply do_cast_spec|]); intros _ h' (F & L & E); apply wp_ret; by split_and!. }
  destruct inT; try done; (eapply wp_mono; [exact C|]); intros r [s' h'] (-> & E & F & (l' & L1 & L2) & G);
    cbn [fst snd] in *; rewrite Z.eqb_refl; cbn; apply wp_ret; split_and!; try done;
    (split; [done..|exists l'; split; [done|by rewrite L2]]).
Qed.

End facts.
End TypeConverterFacts.

(** ** [NormProcessor]: loading the parameters *)

(** The numbers of a file: what stands before each delimiter, and what follows the last. *)
Fixpoint tokens (chars cur : list Z) : list (list Z) :=
  match chars with
  | [] => match cur with [] => [] | _ => [cur] end
  | c :: rest => if c =? NUMBER_DELIMITER then cur :: tokens rest [] else tokens rest (cur ++ [c])
  end.

Module NormProcessorFacts.
Import NormProcessor.

Section loading.
  Context `{!Files} (b n : nat).

Definition number_bytes (tok : list Z) : list Z := float_bytes (float_of_double (atof tok)).

(** Block [b] has room for [n] floats and starts with the numbers [toks]. *)
Definition filled (toks : list (list Z)) (h : Memory.t) : Prop :=
  exists l, Memory.cells h !! b = Some l /\ length l = (n * 4)%nat /\ (length toks <= n)%nat /\
    read_at l 0 (length toks * 4) = concat (number_bytes <$> toks).

Lemma put_number_spec toks tok h :
  filled toks h -> (length toks < n)%nat ->
  wp (put_number (Some (Ptr.mk b 0)) (Z.of_nat (length toks)) tok)
    (fun _ h' => frame b h h' /\ filled (toks ++ [tok]) h') h.
Proof.
  intros (l & E & L & _ & R) Hn. unfold put_number. set (k := length toks) in *.
  replace (ptr_add (Some (Ptr.mk b 0)) (Z.of_nat k * SIZEOF_FLOAT)) with (Some (Ptr.mk b (Z.of_nat (k * 4))))
    by (unfold ptr_add, Ptr.add, SIZEOF_FLOAT; cbn; do 2 f_equal; lia).
  apply wp_store.
  { apply (in_range_at _ _ _ _ _ E); unfold zlen; rewrite ?length_float_bytes; lia. }
  split; [apply frame_poke|]. eexists. split_and!.
  - cbn. unfold poke. cbn. rewrite E, lookup_insert_eq, Nat2Z.id. reflexivity.
  - rewrite length_write_at; [done|]. rewrite length_float_bytes. lia.
  - rewrite length_app. cbn. fold k. lia.
  - rewrite length_app, fmap_app, concat_app, <- R. fold k. cbn [length].
    replace ((k + 1) * 4)%nat with (k * 4 + 4)%nat by lia.
    unfold read_at. rewrite !drop_0.
    pose proof (take_write_at l (k * 4) (float_bytes (float_of_double (atof tok))) ltac:(lia)) as T.
    rewrite length_float_bytes in T. rewrite T. cbn. by rewrite app_nil_r.
Qed.

Lemma read_loop_spec chars : forall tok toks h,
  filled toks h -> (length toks < n)%nat ->
  wp (read_loop (Some (Ptr.mk b 0)) (Z.of_nat n) chars tok (Z.of_nat (length toks))) (fun r h' => frame b h h' /\
    exists toks', r.2 = Z.of_nat (length toks') /\ filled toks' h' /\
      (length toks' = n /\ r.1 = [] /\ toks' = take n (toks ++ tokens chars tok) \/
       (length toks' < n)%nat /\ toks' ++ tokens [] r.1 = toks ++ tokens chars tok)) h.
Proof.
  induction chars as [|c rest IH]; intros tok toks h HF Hn; cbn [read_loop tokens].
  { apply wp_ret. split; [done|]. exists toks. split_and!; [done..|]. by right. }
  destruct (c =? NUMBER_DELIMITER).
  - apply wp_bind. eapply wp_mono; [by apply put_number_spec|]. intros _ h1 [F1 HF1].
    assert (E : toks ++ tok :: tokens rest [] = (toks ++ [tok]) ++ tokens rest []) by (by rewrite <- app_assoc).
    rewrite E. assert (EL : Z.of_nat (length toks) + 1 = Z.of_nat (length (toks ++ [tok]))) by (rewrite length_app; cbn; lia).
    rewrite EL. destruct (Z.ltb_spec (Z.of_nat (length (toks ++ [tok]))) (Z.of_nat n)) as [Hlt|Hge].
    + eapply wp_mono; [apply IH; [done|lia]|]. intros r h2 [F2 R]. split; [by etrans|done].
    + apply wp_ret. split; [done|]. exists (toks ++ [tok]). split_and!; [done..|]. left.
      assert (length (toks ++ [tok]) = n) as Hl by (rewrite length_app in *; cbn in *; lia).
      split_and!; [done..|]. rewrite <- Hl. by rewrite take_app_length.
  - rewrite (proj2 (Z.ltb_lt _ _)) by lia. by apply IH.
Qed.

Lemma load_info_spec chars h :
  (0 < n)%nat -> Z.of_nat n <= INT_MAX -> filled [] h ->
  wp (LoadInfoFromFile chars (Some (Ptr.mk b 0)) (Z.of_nat n)) (fun r h' => frame b h h' /\
    r = Z.of_nat (Nat.min n (length (tokens chars []))) /\ filled (take n (tokens chars [])) h') h.
Proof.
  intros Hn Hmax HF. unfold LoadInfoFromFile, INT_MAX in *. apply wp_bind.
  assert (S : forall k, (k <= n)%nat -> s32 (Z.of_nat k) = Z.of_nat k) by (intros; apply wrap_s_small; lia).
  eapply wp_mono; [apply (read_loop_spec chars [] [] h HF Hn)|]. intros [tok count] h1 (F & toks & E & HF1 & D).
  cbn [fst snd app] in *. subst count. destruct D as [(L & -> & T)|(L & T)].
  - apply wp_ret. split; [done|]. split; [|by rewrite <- T].
    rewrite L, S by lia. assert (n <= length (tokens chars []))%nat by (rewrite <- L, T, length_take; lia). lia.
  - rewrite <- T. destruct tok as [|c tok]; cbn [tokens].
    + apply wp_ret. rewrite app_nil_r, take_ge, S by lia. split_and!; [done|lia|done].
    + rewrite (proj2 (Z.leb_gt _ _)) by lia. apply wp_bind. eapply wp_mono; [by apply put_number_spec|].
      intros _ h2 [F2 HF2]. apply wp_ret. split; [by etrans|].
      assert (EL : Z.of_nat (length toks) + 1 = Z.of_nat (length (toks ++ [c :: tok]))) by (rewrite length_app; cbn; lia).
      assert (length (toks ++ [c :: tok]) <= n)%nat by (rewrite length_app; cbn; lia).
      rewrite EL, S, take_ge by lia. split; [lia|done].
Qed.

(** The file is accepted if it has at least [n] numbers; what follows is ignored. *)
Lemma read_file_spec path real chars h :
  (0 < n)%nat -> Z.of_nat n <= INT_MAX -> filled [] h -> realpath path = Some real -> fopen real = Some chars ->
  wp (ReadFixedLenFloatData path (Some (Ptr.mk b 0)) (Z.of_nat n)) (fun r h' => frame b h h' /\
    if decide (n <= length (tokens chars []))%nat
    then r = RETCODE_SUCCESS /\ filled (take n (tokens chars [])) h' else r = RETCODE_FAILURE) h.
Proof.
  intros Hn Hmax HF E1 E2. unfold ReadFixedLenFloatData. rewrite E1, E2. apply wp_bind.
  eapply wp_mono; [by apply load_info_spec|]. intros r h1 (F & -> & HF1). unfold INT_MAX in *.
  rewrite wrap_u_small by lia. case_decide.
  - rewrite Nat.min_l, Z.eqb_refl by done. by apply wp_ret.
  - rewrite (proj2 (Z.eqb_neq _ _)) by lia. by apply wp_ret.
Qed.

End loading.

Section process.
  Context `{!Allocator, !SecurecMemory, !Files}.

Definition float_at (c : cell_map) (b i : nat) : spec_float := float_of_bits (le_val (elem c (Ptr.mk b 0) 4 i)).

(** The blocks of an initialised processor, and the block of its converter. *)
Record blocks := Blocks { bwork : nat; bmean : nat; bstd : nat; bconv : nat }.

Record ready (n ch : nat) (bl : blocks) (s : t) (h : Memory.t) : Prop := {
  np_init : isInitialized_ s = true;
  np_ptrs : workBuffer_ s = Some (Ptr.mk (bwork bl) 0) /\ mean_ s = Some (Ptr.mk (bmean bl) 0) /\
            std_ s = Some (Ptr.mk (bstd bl) 0);
  np_size : inputSize (config_ s) = Z.of_nat n /\ numChannels (config_ s) = Z.of_nat ch /\ (0 < ch)%nat;
  np_cells : (exists l, Memory.cells h !! bwork bl = Some l /\ length l = (n * 4)%nat) /\
             (exists l, Memory.cells h !! bmean bl = Some l /\ length l = (ch * 4)%nat) /\
             (exists l, Memory.cells h !! bstd bl = Some l /\ length l = (ch * 4)%nat);
  np_conv : exists c, converter_ s = Some c /\ TypeConverterFacts.ready FLOAT n (bconv bl) c h;
  np_distinct : NoDup [bwork bl; bmean bl; bstd bl; bconv bl];
}.

(** The [float] that [Process] reads for an element [bs] of the input. *)
Definition as_float (inT : DataType) (bs : list Z) : spec_float :=
  match read_number inT bs with
  | Flt f => f
  | Int z => float_of_bits (le_val (float_bytes (float_of_Z z)))
  end.

(** The normalised [i]-th element. *)
Definition normed (s : t) (ch : nat) (bl : blocks) (c : cell_map) (x : spec_float) (i : nat) : spec_float :=
  normalise x (float_at c (bmean bl) (i mod ch)) (float_at c (bstd bl) (i mod ch)) (scale (config_ s)).

Lemma wp_load_float b i l (Q : spec_float -> Memory.t -> Prop) h :
  Memory.cells h !! b = Some l -> (i * 4 + 4 <= length l)%nat -> Q (float_at (Memory.cells h) b i) h ->
  wp (load_float (Some (Ptr.mk b 0)) (Z.of_nat i)) Q h.
Proof.
  intros E L HQ. unfold load_float, float_at in *. unfold elem, Ptr.add in HQ. cbn [Ptr.block Ptr.off] in HQ. apply wp_bind.
  assert (EP : ptr_add (Some (Ptr.mk b 0)) (Z.of_nat i * SIZEOF_FLOAT) = Some (Ptr.mk b (0 + Z.of_nat (i * 4)))).
  { unfold ptr_add, Ptr.add, SIZEOF_FLOAT. cbn. do 2 f_equal. lia. }
  rewrite EP. apply wp_load; [|by apply wp_ret].
  apply (in_range_at _ _ _ _ _ E); unfold zlen, SIZEOF_FLOAT; lia.
Qed.

Lemma normalise_loop n ch bl s p h :
  ready n ch bl s h -> p <> bwork bl -> (exists l, Memory.cells h !! p = Some l /\ length l = (n * 4)%nat) ->
  wp (for_each (normalise_item s (Some (Ptr.mk p 0))) (seq 0 n)) (fun _ h' => frame (bwork bl) h h' /\
    (exists l', Memory.cells h' !! bwork bl = Some l' /\ length l' = (n * 4)%nat) /\
    forall i, (i < n)%nat -> elem (Memory.cells h') (Ptr.mk (bwork bl) 0) 4 i =
      float_bytes (normed s ch bl (Memory.cells h) (float_at (Memory.cells h) p i) i)) h.
Proof.
  intros [_ (P1 & P2 & P3) (_ & S2 & S3) ((lw & W1 & W2) & (lm & M1 & M2) & (ls & D1 & D2)) _ ND] Hp (lp & L1 & L2).
  set (g := fun i => float_bytes (normed s ch bl (Memory.cells h) (float_at (Memory.cells h) p i) i)).
  assert (bmean bl <> bwork bl /\ bstd bl <> bwork bl) as [Hm Hs].
  { apply NoDup_cons in ND as [ND _]. split; intros E; apply ND; rewrite <- E; set_solver. }
  eapply wp_mono; [apply (wp_fill (bwork bl) 0 4 n g); [exact W1|lia|intros; apply length_float_bytes|]|].
  - intros i h' Hi F Hcell (lw' & EW). pose proof (Hcell _ EW) as LW. unfold normalise_item. rewrite P1, P2, P3, S2.
    assert (EM : Z.of_nat i mod Z.of_nat ch = Z.of_nat (i mod ch)) by (by rewrite Nat2Z.inj_mod).
    assert (i mod ch < ch)%nat by (apply Nat.mod_upper_bound; lia).
    rewrite EM. apply wp_bind. apply (wp_load_float _ _ ls); [by rewrite (frame_other _ _ _ F)|lia|].
    apply wp_bind. apply (wp_load_float _ _ lm); [by rewrite (frame_other _ _ _ F)|lia|].
    apply wp_bind. apply (wp_load_float _ _ lp); [by rewrite (frame_other _ _ _ F)|lia|].
    unfold store_float.
    replace (ptr_add (Some (Ptr.mk (bwork bl) 0)) (Z.of_nat i * SIZEOF_FLOAT)) with (Some (Ptr.mk (bwork bl) (Z.of_nat (i * 4))))
      by (unfold ptr_add, Ptr.add, SIZEOF_FLOAT; cbn; do 2 f_equal; lia).
    assert (FA : forall b j, b <> bwork bl -> float_at (Memory.cells h') b j = float_at (Memory.cells h) b j).
    { intros b j Hb. unfold float_at. by rewrite (frame_elem (bwork bl) h). }
    rewrite !FA by done. apply wp_store; [|done].
    apply (in_range_at _ _ _ _ _ EW); unfold zlen; rewrite ?length_float_bytes; lia.
  - intros _ h' (F & l' & E1 & E2 & E3). split; [done|]. split; [exists l'; split; [done|lia]|].
    intros i Hi. apply (elem_of_concat _ _ l' 4 n g); [done|intros; apply length_float_bytes|done|done].
Qed.

Lemma norm_ready_frame n ch bl s h h' b :
  frame b h h' -> b <> bwork bl -> b <> bmean bl -> b <> bstd bl -> b <> bconv bl -> ready n ch bl s h -> ready n ch bl s h'.
Proof.
  intros F B1 B2 B3 B4 [R1 R2 R3 (R4 & R5 & R6) (c & R7 & R8) R9]. split; try done.
  - by rewrite !(frame_other _ _ _ F).
  - exists c. split; [done|]. by apply (TypeConverterFacts.converter_ready_frame _ _ _ _ h _ b).
Qed.

(** The input after the conversion to [float] lies in block [p]. *)
Definition floats_in (inT : DataType) (n p : nat) (pin : Ptr.t) (c c' : cell_map) : Prop :=
  (exists l, c' !! p = Some l /\ length l = (n * 4)%nat) /\
  forall i, (i < n)%nat -> float_at c' p i = as_float inT (elem c pin (elem_size inT) i).

Lemma wp_on_converter {A} (dflt : A) m Q s c h :
  converter_ s = Some c -> wp m (fun a s' => Q a (s <| converter_ := Some s'.1 |>, s'.2)) (c, h) ->
  wp (on_converter dflt m) Q (s, h).
Proof. intros E. unfold wp, on_converter. cbn [fst snd]. rewrite E. by destruct (m (c, h)) as [a [c' h']]. Qed.

#[local] Arguments TypeConverter.Process : simpl never.

Lemma norm_process_spec n ch bl s inT pin ty h :
  ready n ch bl s h -> inT <> UNKNOWN -> (0 < n)%nat ->
  Ptr.block pin <> bwork bl -> Ptr.block pin <> bconv bl -> inT <> FLOAT ->
  in_range (Memory.cells h) pin (Z.of_nat (n * elem_size inT)) ->
  wp (Process (FeatureData.mk inT (Some pin) (Z.of_nat n)) (FeatureData.empty ty)) (fun r s' =>
    r = (RETCODE_SUCCESS, FeatureData.mk FLOAT (Some (Ptr.mk (bwork bl) 0)) (Z.of_nat n)) /\ s'.1 = s /\
    ready n ch bl s s'.2 /\
    (exists h1, frame (bconv bl) h h1 /\ frame (bwork bl) h1 s'.2) /\
    forall i, (i < n)%nat -> elem (Memory.cells s'.2) (Ptr.mk (bwork bl) 0) 4 i =
      float_bytes (normed s ch bl (Memory.cells h) (as_float inT (elem (Memory.cells h) pin (elem_size inT) i)) i)) (s, h).
Proof.
  intros R Hin Hn B1 B2 Hf Hr. pose proof R as [R1 (P1 & P2 & P3) (S1 & S2 & S3) RC (c & C1 & C2) ND].
  assert (bwork bl <> bconv bl /\ bmean bl <> bconv bl /\ bstd bl <> bconv bl /\ bmean bl <> bwork bl /\ bstd bl <> bwork bl) as (N1 & N2 & N3 & N4 & N5).
  { rewrite !NoDup_cons, !elem_of_cons in ND. intuition congruence. }
  unfold Process. apply wp_bind, wp_self. cbn [id]. rewrite R1. cbn. rewrite (proj2 (Z.eqb_neq (Z.of_nat n) 0)) by lia.
  rewrite (bool_decide_eq_false_2 (inT = UNKNOWN)), S1, Z.eqb_refl, bool_decide_eq_false_2 by done. cbn.
  apply wp_bind, wp_bind. set (g := fun i => float_bytes (match read_number inT (elem (Memory.cells h) pin (elem_size inT) i) with
    Int z => float_of_Z z | Flt f => f end)).
  assert (CV : TypeConverterFacts.converts inT FLOAT (Memory.cells h) pin n g).
  { intros i Hi. unfold g. destruct (read_number _ _); done. }
  eapply wp_on_converter; [done|]. eapply wp_mono; [by apply (TypeConverterFacts.converter_process_spec inT FLOAT n (bconv bl) c pin g)|].
  intros r [c' h1] (-> & E' & F1 & C3 & G). cbn [fst snd] in *. subst c'. rewrite (TypeConverterFacts.rd_buffer _ _ _ _ _ C2).
  apply wp_ret. apply wp_bind, wp_on_memory. cbn [snd FeatureData.data FeatureData.size]. rewrite Nat2Z.id.
  assert (R' : ready n ch bl s h1).
  { split; try done; [by rewrite !(frame_other _ _ _ F1)|by exists c]. }
  assert (Es : s <| converter_ := Some c |> = s) by (destruct s; cbn in C1; by rewrite C1).
  rewrite Es. eapply wp_mono; [eapply (normalise_loop n ch bl s (bconv bl) h1); [done|done|apply C3]|].
  intros _ h2 (F2 & Wc & E). apply wp_ret. cbn [fst snd]. rewrite P1. split_and!; [done|done| |by exists h1|].
  - destruct R' as [Q1 Q2 Q3 (Q4 & Q5 & Q6) (c2 & Q7 & Q8) Q9]. split; try done.
    + split; [done|]. by rewrite !(frame_other _ _ _ F2).
    + exists c2. split; [done|]. by apply (TypeConverterFacts.converter_ready_frame _ _ _ _ h1 _ (bwork bl)).
  - intros i Hi. rewrite (E i Hi). unfold normed, float_at at 1. change 4%nat with (elem_size FLOAT) at 1. rewrite (G i Hi).
    unfold float_at. rewrite !(frame_elem (bconv bl) h h1) by done. unfold g, as_float.
    destruct inT; done.
Qed.

End process.

Section initialising.
  Context `{!Allocator, !SecurecMemory, !Files}.
  Context (Hmalloc : forall t n, 0 <= n <= 2 ^ 34 -> malloc_ok t n = true) (Hnew : forall t, new_ok t = true).

(** A number of a file as [Process] reads it back from the array. *)
Definition stored (tok : list Z) : spec_float := float_of_bits (le_val (number_bytes tok)).

(** The configurations [Init] accepts; the converter's limit of 20000 bytes is
    the one that bounds [inputSize]. *)
Record cfg_ok (cfg : config) (n ch : nat) (mchars dchars : list Z) : Prop := {
  co_size : inputSize cfg = Z.of_nat n;
  co_channels : numChannels cfg = Z.of_nat ch;
  co_pos : (0 < ch)%nat /\ (0 < n)%nat;
  co_div : (n mod ch = 0)%nat;
  co_max : Z.of_nat n * 4 <= MAX_SAMPLE_SIZE;
  co_mean : exists real, realpath (meanFilePath cfg) = Some real /\ fopen real = Some mchars;
  co_std : exists real, realpath (stdFilePath cfg) = Some real /\ fopen real = Some dchars;
  co_numbers : (ch <= length (tokens mchars []))%nat /\ (ch <= length (tokens dchars []))%nat;
}.

Definition loaded (b ch : nat) (chars : list Z) (h : Memory.t) : Prop :=
  exists l, Memory.cells h !! b = Some l /\ length l = (ch * 4)%nat /\
    forall i, (i < ch)%nat -> float_at (Memory.cells h) b i = stored (nth i (tokens chars []) []).

Lemma filled_loaded b ch chars h :
  (ch <= length (tokens chars []))%nat -> filled b ch (take ch (tokens chars [])) h -> loaded b ch chars h.
Proof.
  intros L (l & E & El & _ & R). exists l. split_and!; [done..|]. intros i Hi. unfold float_at, stored. do 2 f_equal.
  rewrite length_take, Nat.min_l in R by done.
  assert (EQ : number_bytes <$> take ch (tokens chars []) = (fun i => number_bytes (nth i (tokens chars []) [])) <$> seq 0 ch).
  { apply list_eq. intros j. rewrite !list_lookup_fmap. destruct (decide (j < ch)%nat).
    - rewrite lookup_take_lt, lookup_seq_lt by done. cbn.
      destruct (lookup_lt_is_Some_2 (tokens chars []) j ltac:(lia)) as [x Hx]. rewrite Hx. cbn. by rewrite (nth_lookup_Some _ _ _ _ Hx).
    - rewrite lookup_take_ge, lookup_seq_ge by lia. done. }
  rewrite EQ in R.
  exact (elem_of_concat _ _ _ 4 ch (fun i => number_bytes (nth i (tokens chars []) [])) i E (fun _ _ => length_float_bytes _) R Hi).
Qed.

Lemma new_array_ok size (Q : option Ptr.t -> Memory.t -> Prop) h :
  0 <= size <= 2 ^ 34 -> Memory.wf h ->
  (forall b bs h', Memory.wf h' -> Memory.cells h !! b = None -> zlen bs = Z.max 0 size ->
     Memory.cells h' = <[b := bs]> (Memory.cells h) -> Memory.ub h' = Memory.ub h -> spares h h' ->
     Q (Some (Ptr.mk b 0)) h') ->
  wp (new_array size) Q h.
Proof. intros Hs W HQ. apply wp_new_array; [done| |done]. intros h' _ _ _ E. by rewrite Hmalloc in E. Qed.

Lemma converter_init ty n c0 h :
  c0 = TypeConverter.ctor -> Memory.wf h -> ty <> UNKNOWN -> Z.of_nat (n * elem_size ty) <= MAX_SAMPLE_SIZE ->
  wp (TypeConverter.Init (Some (TypeConverter.Config ty (Z.of_nat n)))) (fun r s' => r = RETCODE_SUCCESS /\
    Memory.wf s'.2 /\ Memory.ub s'.2 = Memory.ub h /\ exists b bs, Memory.cells h !! b = None /\
    Memory.cells s'.2 = <[b := bs]> (Memory.cells h) /\ spares h s'.2 /\ TypeConverterFacts.ready ty n b s'.1 s'.2) (c0, h).
Proof.
  intros -> W Hty Hmax. unfold TypeConverter.Init, MAX_SAMPLE_SIZE in *. apply wp_bind, wp_self.
  cbn -[CONVERT_DATATYPE_TO_SIZE]. rewrite bool_decide_eq_false_2 by done. apply wp_bind, wp_set_self.
  rewrite <- TypeConverterFacts.elem_size_Z, <- Nat2Z.inj_mul, wrap_u_small by lia.
  rewrite (proj2 (Z.ltb_ge _ _)) by lia. apply wp_bind, wp_on_memory, new_array_ok; [lia|done|].
  intros b bs h' W' Hb Hz C U S. apply wp_bind, wp_set_self, wp_bind, wp_set_self, wp_ret. cbn [fst snd].
  split_and!; [done..|]. exists b, bs. split_and!; [done..|]. split; [done..|]. exists bs.
  split; [by rewrite C, lookup_insert_eq|]. unfold zlen in *. lia.
Qed.

(** [s] says what [Init] has set up; [b0] are blocks that were there before. *)
Lemma load_spec cfg n ch mchars dchars bm bs h :
  cfg_ok cfg n ch mchars dchars -> bm <> bs ->
  (exists l, Memory.cells h !! bm = Some l /\ length l = (ch * 4)%nat) ->
  (exists l, Memory.cells h !! bs = Some l /\ length l = (ch * 4)%nat) ->
  wp (LoadMeanAndStd (meanFilePath cfg) (stdFilePath cfg) (Some (Ptr.mk bm 0)) (Some (Ptr.mk bs 0)) (Z.of_nat ch))
    (fun r h' => r = RETCODE_SUCCESS /\ (exists h1, frame bm h h1 /\ frame bs h1 h') /\
       loaded bm ch mchars h' /\ loaded bs ch dchars h') h.
Proof.
  intros OK Hne (lm & M1 & M2) (ld & D1 & D2).
  destruct (co_mean _ _ _ _ _ OK) as (mr & MR1 & MR2), (co_std _ _ _ _ _ OK) as (dr & DR1 & DR2).
  destruct (co_numbers _ _ _ _ _ OK) as [NM ND]. destruct (co_pos _ _ _ _ _ OK) as [P1 P2].
  assert (Hmax : Z.of_nat ch <= INT_MAX).
  { pose proof (co_max _ _ _ _ _ OK). pose proof (co_div _ _ _ _ _ OK) as D. apply Nat.Div0.mod_divides in D as [k Ek].
    assert (ch <= n)%nat by (destruct k; nia). unfold MAX_SAMPLE_SIZE, INT_MAX in *. lia. }
  assert (F0 : forall b l h0, Memory.cells h0 !! b = Some l -> length l = (ch * 4)%nat -> filled b ch [] h0).
  { intros b l h0 E L. exists l. split_and!; [done..|cbn; lia|done]. }
  unfold LoadMeanAndStd. apply wp_bind. eapply wp_mono; [eapply (read_file_spec bm ch); try done; by eapply F0|].
  intros r h1 [F1 R1]. rewrite decide_True in R1 by done. destruct R1 as [-> L1]. rewrite Z.eqb_refl. cbn [negb].
  apply wp_bind. eapply wp_mono; [eapply (read_file_spec bs ch); try done; eapply (F0 _ ld); [by rewrite (frame_other _ _ _ F1)|done]|].
  intros r h2 [F2 R2]. rewrite decide_True in R2 by done. destruct R2 as [-> L2]. rewrite Z.eqb_refl. apply wp_ret.
  split_and!; [done|by exists h1| |by apply filled_loaded].
  destruct (filled_loaded _ _ _ _ NM L1) as (l & E1 & E2 & E3). exists l. split; [by rewrite (frame_other _ _ _ F2)|].
  split; [done|]. intros i Hi. rewrite <- E3 by done. unfold float_at. by rewrite (frame_elem bs h1).
Qed.

Lemma norm_init_spec cfg n ch mchars dchars h :
  cfg_ok cfg n ch mchars dchars -> Memory.wf h ->
  wp (Init (Some cfg)) (fun r s' => r = RETCODE_SUCCESS /\ Memory.ub s'.2 = Memory.ub h /\ Memory.wf s'.2 /\ spares h s'.2 /\ exists bl,
    ready n ch bl s'.1 s'.2 /\ config_ s'.1 = cfg /\
    loaded (bmean bl) ch mchars s'.2 /\ loaded (bstd bl) ch dchars s'.2 /\
    (forall b, is_Some (Memory.cells h !! b) -> Memory.cells s'.2 !! b = Memory.cells h !! b /\
       b ∉ [bwork bl; bmean bl; bstd bl; bconv bl])) (ctor, h).
Proof.
  intros OK W. pose proof OK as [S1 S2 [S3 S3'] S4 S5 _ _ _]. unfold MAX_SAMPLE_SIZE in S5.
  assert (ch <= n)%nat as Hle by (apply Nat.Div0.mod_divides in S4 as [k ->]; destruct k; nia).
  unfold Init. apply wp_bind, wp_self. cbn [isInitialized_ ctor]. apply wp_bind, wp_set_self. rewrite S1, S2.
  rewrite !(proj2 (Z.eqb_neq (Z.of_nat _) 0)) by lia. cbn [orb].
  rewrite <- Nat2Z.inj_mod, S4, Z.eqb_refl. cbn [negb].
  apply wp_bind, wp_on_memory. unfold new_converter, wp at 1. cbn. rewrite Hnew.
  set (h0 := h <| Memory.mem := _ |>). assert (W0 : Memory.wf h0) by (destruct W; split; done).
  change (Memory.cells h) with (Memory.cells h0). change (Memory.ub h) with (Memory.ub h0). change (spares h) with (spares h0). clearbody h0. clear W h. rename h0 into h, W0 into W.
  apply wp_bind. unfold reset_converter. apply wp_bind, wp_self. cbn. apply wp_bind, wp_ret, wp_set_self.
  apply wp_bind. eapply wp_on_converter; [done|]. eapply wp_mono; [apply (converter_init FLOAT n); [done|done|done|change (elem_size FLOAT) with 4%nat; unfold MAX_SAMPLE_SIZE; lia]|].
  intros r [c h1] (-> & W1 & U1 & bc & cs & B1 & C1 & Sp1 & RC). cbn [fst snd] in *. rewrite Z.eqb_refl. cbn [negb].
  unfold MAX_SAMPLE_SIZE. rewrite !(proj2 (Z.ltb_ge _ _)) by lia. cbn [orb].
  apply wp_bind, wp_on_memory, new_array_ok; [unfold SIZEOF_FLOAT; lia|done|]. intros bm ms h2 W2 B2 L2 C2 U2 Sp2. apply wp_bind, wp_set_self.
  apply wp_bind, wp_on_memory, new_array_ok; [unfold SIZEOF_FLOAT; lia|done|]. intros bd ds h3 W3 B3 L3 C3 U3 Sp3. apply wp_bind, wp_set_self.
  apply wp_bind, wp_on_memory, new_array_ok; [unfold SIZEOF_FLOAT; lia|done|]. intros bw ws h4 W4 B4 L4 C4 U4 Sp4. apply wp_bind, wp_set_self. cbn.
  unfold SIZEOF_FLOAT, zlen in *.
  rewrite C3, C2, C1 in B4. rewrite C2, C1 in B3. rewrite C1 in B2.
  apply lookup_insert_None in B2 as [B2 N2]. apply lookup_insert_None in B3 as [[B3 N3]%lookup_insert_None N3'].
  apply lookup_insert_None in B4 as [[[B4 N4]%lookup_insert_None N4']%lookup_insert_None N4''].
  assert (E4 : Memory.cells h4 = <[bw := ws]> (<[bd := ds]> (<[bm := ms]> (<[bc := cs]> (Memory.cells h))))) by congruence.
  assert (Cm : Memory.cells h4 !! bm = Some ms) by (rewrite E4, !lookup_insert_ne by done; by rewrite lookup_insert_eq).
  assert (Cd : Memory.cells h4 !! bd = Some ds) by (rewrite E4, lookup_insert_ne by done; by rewrite lookup_insert_eq).
  assert (Cw : Memory.cells h4 !! bw = Some ws) by (rewrite E4; by rewrite lookup_insert_eq).
  assert (Cc : Memory.cells h4 !! bc = Some cs) by (rewrite E4, !lookup_insert_ne by done; by rewrite lookup_insert_eq).
  apply wp_bind, wp_on_memory.
  eapply wp_mono; [eapply (load_spec cfg n ch mchars dchars bm bd); [done|done|exists ms; split; [done|lia]|exists ds; split; [done|lia]]|].
  intros r h5 (-> & (hx & F1 & F2) & LM & LD). rewrite Z.eqb_refl. cbn [negb]. apply wp_bind, wp_set_self, wp_ret. cbn [fst snd].
  assert (KE : forall b, b <> bm -> b <> bd -> Memory.cells h5 !! b = Memory.cells h4 !! b).
  { intros b ??. by rewrite (frame_other _ _ _ F2), (frame_other _ _ _ F1). }
  split_and!; [done|by rewrite (frame_ub _ _ _ F2), (frame_ub _ _ _ F1), U4, U3, U2|by eapply frame_wf, frame_wf| |].
  { repeat (eapply spares_trans; [eassumption|]). eapply spares_trans; [by eapply frame_spares|by eapply frame_spares]. } exists (Blocks bw bm bd bc). split_and!; [|done|done|done|].
  - split; cbn; try done.
    + destruct LM as (? & ? & ? & _), LD as (? & ? & ? & _). split_and!; [|by eexists..]. exists ws. rewrite KE by done. split; [done|lia].
    + exists c. split; [done|]. destruct RC as [T1 T2 T3 (l & T4 & T5)]. split; [done..|]. exists l. rewrite KE by done.
      rewrite C1, lookup_insert_eq in T4. by rewrite Cc.
    + repeat (apply NoDup_cons; split; [set_solver by congruence|]). by apply NoDup_nil.
  - intros b Hb. assert (b <> bw /\ b <> bm /\ b <> bd /\ b <> bc) as (X1 & X2 & X3 & X4).
    { split_and!; intros ->; destruct Hb as [? Hb]; congruence. }
    split; [|cbn; set_solver]. rewrite KE, E4 by done. by rewrite !lookup_insert_ne by done.
Qed.

End initialising.
End NormProcessorFacts.

(** Samples of the audio input convert exactly. *)
Lemma as_float_uint16 bs : length bs = 2%nat -> Forall (fun b => 0 <= b < 2 ^ 8) bs ->
  NormProcessorFacts.as_float UINT16 bs = float_of_Z (le_val bs).
Proof.
  intros L F. unfold NormProcessorFacts.as_float. cbn [read_number]. apply float_bytes_roundtrip, float_of_uint16.
  destruct bs as [|x [|y []]]; try done. cbn [le_val].
  apply Forall_cons in F as [Hx [Hy _]%Forall_cons]. lia.
Qed.

(** ** Properties *)

Import NormProcessor NormProcessorFacts.

Definition init_and_process `{!Allocator, !SecurecMemory, !Files} (cfg : config) (input : FeatureData.t) :
    ST (t * Memory.t) (Z * outcome) :=
  r ← Init (Some cfg); o ← Process input (FeatureData.empty FLOAT); mret (r, o).

(** C29. With parameter files that hold at least one number per channel, an
    initialised processor turns element [i] of an input of any integer type into
    ((x_i - mean_c) / std_c) * scale in single precision, with [c] the channel
    [i mod numChannels] and 0 where the deviation is below 1e-6; the numbers of
    the files are taken in order and what follows the last channel's is ignored.
    No access leaves a block. *)
Theorem norm_processor_normalises `{!Allocator, !SecurecMemory, !Files}
    (cfg : config) (n ch : nat) (mchars dchars : list Z) (inT : DataType) (pin : Ptr.t) (h : Memory.t) :
  (forall t n, 0 <= n <= 2 ^ 34 -> malloc_ok t n = true) -> (forall t, new_ok t = true) ->
  cfg_ok cfg n ch mchars dchars -> Memory.wf h -> inT <> UNKNOWN -> inT <> FLOAT ->
  in_range (Memory.cells h) pin (Z.of_nat (n * elem_size inT)) ->
  let '((r, (code, out)), s) := init_and_process cfg (FeatureData.mk inT (Some pin) (Z.of_nat n)) (ctor, h) in
  r = RETCODE_SUCCESS /\ code = RETCODE_SUCCESS /\ Memory.ub s.2 = Memory.ub h /\
  exists p, out = FeatureData.mk FLOAT (Some p) (Z.of_nat n) /\ forall i, (i < n)%nat ->
    elem (Memory.cells s.2) p 4 i = float_bytes (normalise (as_float inT (elem (Memory.cells h) pin (elem_size inT) i))
      (stored (nth (i mod ch) (tokens mchars []) [])) (stored (nth (i mod ch) (tokens dchars []) [])) (scale cfg)).
Proof.
  intros Hm Hw OK W N1 N2 R.
  assert (U : wp (init_and_process cfg (FeatureData.mk inT (Some pin) (Z.of_nat n))) (fun r s => r.1 = RETCODE_SUCCESS /\
    r.2.1 = RETCODE_SUCCESS /\ Memory.ub s.2 = Memory.ub h /\
    exists p, r.2.2 = FeatureData.mk FLOAT (Some p) (Z.of_nat n) /\ forall i, (i < n)%nat ->
      elem (Memory.cells s.2) p 4 i = float_bytes (normalise (as_float inT (elem (Memory.cells h) pin (elem_size inT) i))
      (stored (nth (i mod ch) (tokens mchars []) [])) (stored (nth (i mod ch) (tokens dchars []) [])) (scale cfg))) (ctor, h)).
  { unfold init_and_process. apply wp_bind. eapply wp_mono; [by eapply norm_init_spec|].
    intros r [s h1] (-> & U1 & _ & _ & bl & RD & EC & LM & LD & K). cbn [fst snd] in *.
    assert (exists l, Memory.cells h !! Ptr.block pin = Some l) as [lp Hp] by (by apply in_range_inv in R as (l & ? & _); exists l).
    destruct (K (Ptr.block pin)) as [Kp Np]; [by eexists|]. destruct (co_pos _ _ _ _ _ OK) as [P1 P2].
    assert (EP : peek (Memory.cells h1) = peek (Memory.cells h1)) by done.
    apply wp_bind. eapply wp_mono; [apply (norm_process_spec n ch bl s inT pin FLOAT h1); try done|].
    - intros E. apply Np. rewrite E. set_solver.
    - intros E. apply Np. rewrite E. set_solver.
    - unfold in_range in *. by rewrite Kp.
    - intros r [s2 h2] (-> & _ & _ & (hx & F1 & F2) & E). apply wp_ret. cbn [fst snd] in *.
      split_and!; [done|done|by rewrite (frame_ub _ _ _ F2), (frame_ub _ _ _ F1)|].
      eexists. split; [done|]. intros i Hi. rewrite (E i Hi). unfold normed. rewrite EC.
      assert (i mod ch < ch)%nat by (apply Nat.mod_upper_bound; lia).
      destruct LM as (? & _ & _ & LM), LD as (? & _ & _ & LD). rewrite LM, LD by done.
      unfold elem, peek. cbn. by rewrite Kp. }
  unfold wp in U. destruct (init_and_process _ _ (ctor, h)) as [[r [code out]] s]. exact U.
Qed.

(** ** Witnesses *)

Import SecurecSample.

(** Two channels: means 1 and 2, deviations 0.5 and 0, in files with a third
    number; [atof] knows the four tokens. *)
#[export] Instance sample_files : Files := {|
  realpath := Some;
  fopen := fun s => if decide (s = "mean"%string) then Some [49; 32; 50; 32; 51]
                    else if decide (s = "std"%string) then Some [53; 32; 48; 32] else None;
  atof := fun tok => match tok with
                     | [49] => SFone 53 1024
                     | [50] => SFadd 53 1024 (SFone 53 1024) (SFone 53 1024)
                     | [53] => SFdiv 53 1024 (SFone 53 1024) (SFadd 53 1024 (SFone 53 1024) (SFone 53 1024))
                     | _ => S754_zero false
                     end
|}.

Definition sample_norm : config := Config "mean" "std" 2 4 (float_of_Z 4096).
Definition samples_in : Memory.t := ((new_array (H := always_alloc) 8 ;; store (Some (Ptr.mk 0 0)) [3; 0; 7; 0; 0; 1; 9; 0]) Memory.empty).2.

Lemma samples_in_wf : Memory.wf samples_in.
Proof. apply wf_decide. vm_compute. reflexivity. Qed.

Lemma sample_norm_ok : cfg_ok sample_norm 4 2 [49; 32; 50; 32; 51] [53; 32; 48; 32].
Proof. split; cbn; try done; [lia|eexists; split; vm_compute; reflexivity..|lia]. Qed.

Lemma norm_processor_normalises_witness :
  let '((r, (code, out)), s) := init_and_process (H := always_alloc) sample_norm
                                  (FeatureData.mk UINT16 (Some (Ptr.mk 0 0)) (Z.of_nat 4)) (ctor, samples_in) in
  r = RETCODE_SUCCESS /\ code = RETCODE_SUCCESS /\ Memory.ub s.2 = Memory.ub samples_in /\
  exists p, out = FeatureData.mk FLOAT (Some p) (Z.of_nat 4) /\ forall i, (i < 4)%nat ->
    elem (Memory.cells s.2) p 4 i = float_bytes (normalise (as_float UINT16 (elem (Memory.cells samples_in) (Ptr.mk 0 0) (elem_size UINT16) i))
      (stored (nth (i mod 2) (tokens [49; 32; 50; 32; 51] []) [])) (stored (nth (i mod 2) (tokens [53; 32; 48; 32] []) []))
      (scale sample_norm)).
Proof.
  apply (norm_processor_normalises (H := always_alloc) sample_norm 4 2 [49; 32; 50; 32; 51] [53; 32; 48; 32] UINT16
    (Ptr.mk 0 0) samples_in); [done|done|apply sample_norm_ok|apply samples_in_wf|done|done|done].
Defined.

(** (3 - 1) / 0.5 * 4096 and (256 - 1) / 0.5 * 4096; the second channel has no deviation. *)
Example normalised_samples :
  let '((_, (_, out)), s) := init_and_process (H := always_alloc) sample_norm
                               (FeatureData.mk UINT16 (Some (Ptr.mk 0 0)) 4) (ctor, samples_in) in
  (load (FeatureData.data out) 16 s.2).1 =
  float_bytes (float_of_Z 16384) ++ float_bytes (S754_zero false) ++
  float_bytes (float_of_Z 2088960) ++ float_bytes (S754_zero false).
Proof. vm_compute. reflexivity. Qed.
