(* ===== verification/PluginBase.v ===== *)
(** * PluginBase: what the algorithm plugins share

    The inference engine (engine_adapter.h; NNIE is a board library), the
    configuration of a model (plugin_helper.h), and the use of [EncdecFacade]
    and [DataDecoder] over the byte memory of [Memory]. *)

From Stdlib Require Import ZArith Lia.
From stdpp Require Import gmap strings list.
From S2P Require Import Prelude Protocol Encdec EncdecFacts EncdecProps Memory.

#[local] Open Scope Z_scope.

Definition SIZEOF_INT32 : nat := 4.
Definition SIZEOF_UINT32 : nat := 4.
Definition SIZEOF_INTPTR : nat := 8.

Definition OPTION_GET_INPUT_SIZE : Z := 1001.
Definition OPTION_GET_OUTPUT_SIZE : Z := 1002.
Definition OPTION_SET_OUTPUT_SIZE : Z := 2002.

(** ** [EngineAdapter]

    The adapter has a state of its own and works on the memory it shares with
    the plugin; [new_adapter] is the adapter the build provides, if any. *)

Class EngineAdapter := {
  adapter : Type;
  new_adapter : option adapter;
  engine_Init : string -> ST (adapter * Memory.t) (Z * Z);
  engine_Deinit : ST (adapter * Memory.t) Z;
  engine_Invoke : Z -> ST (adapter * Memory.t) Z;
  engine_GetInputAddr : Z -> Z -> ST (adapter * Memory.t) (Z * (option Ptr.t * Z));
  engine_GetOutputAddr : Z -> Z -> ST (adapter * Memory.t) (Z * (option Ptr.t * Z));
  engine_ReleaseHandle : Z -> ST (adapter * Memory.t) Z;
}.

(** The engine reads the input buffer of the model, [n] bytes at [pin], and fills
    its output buffer of [m] numbers at [pout]. *)
Definition engine_runs `{!EngineAdapter} (handle : Z) (pin pout : Ptr.t) (n m : nat) (run_model : list Z -> list Z) : Prop :=
  forall a h, in_range (Memory.cells h) pin (Z.of_nat n) -> in_range (Memory.cells h) pout (Z.of_nat (m * SIZEOF_INT32)) ->
  wp (engine_Invoke handle) (fun r s => r = RETCODE_SUCCESS /\
    s.2 = h <| Memory.cells ::= fun cs => poke cs pout (run_model (peek cs pin (Z.of_nat n))) |>) (a, h).

(** The engine loads the model at [path] under [handle] and says where its buffers
    are: [inSize] and [outSize] are what it reports of them. *)
Record engine_loads `{!EngineAdapter} (path : string) (inNode outNode handle : Z) (pin pout : Ptr.t) (inSize outSize : Z) : Prop := {
  el_new : is_Some new_adapter;
  el_init : forall a h, wp (engine_Init path) (fun r s => r = (RETCODE_SUCCESS, handle) /\ s.2 = h) (a, h);
  el_input : forall a h, wp (engine_GetInputAddr handle inNode) (fun r s => r = (RETCODE_SUCCESS, (Some pin, inSize)) /\ s.2 = h) (a, h);
  el_output : forall a h, wp (engine_GetOutputAddr handle outNode) (fun r s => r = (RETCODE_SUCCESS, (Some pout, outSize)) /\ s.2 = h) (a, h);
}.

(** Call [adapter_->m]; a null [adapter_] has no operations. *)
Definition call {A : Type} {T R} (proj : T -> option A) {setter : FieldSetter proj} (dflt : R)
    (m : ST (A * Memory.t) R) : ST (T * Memory.t) R := fun s =>
  match proj s.1 with
  | Some a => let '(r, (a', h)) := m (a, s.2) in (r, (s.1 <| proj := Some a' |>, h))
  | None => (dflt, (s.1, s.2 <| Memory.ub := true |>))
  end.

(** ** [PluginConfig] *)

Module PluginConfig.
Record t := mk { inputSize : Z; outputSize : Z; inputAddr : option Ptr.t; outputAddr : option Ptr.t }.
#[global] Instance eta_plugin_config : Eta t := fun r => mk (inputSize r) (outputSize r) (inputAddr r) (outputAddr r).
End PluginConfig.

(** ** Messages *)

(** The allocator state inside the memory. *)
Definition on_mem {A} (m : ST Mem.t A) : ST Memory.t A := fun h =>
  let '(a, m') := m (Memory.mem h) in (a, h <| Memory.mem := m' |>).

(** An object of [n] bytes, and its value. *)
Definition obj (n : nat) (z : Z) : value := VObj (le n z).
Definition obj_val (v : value) : Z := match v with VObj bs => le_val bs | _ => 0 end.

(** [intptr_t] *)
Definition handle_obj (h : Z) : value := obj SIZEOF_INTPTR h.
Definition handle_val (v : value) : Z := wrap_s (8 * Z.of_nat SIZEOF_INTPTR) (obj_val v).

(** A decoded array: the decoder has left its elements in a block of its own. *)
Module Arr.
Record t := mk { data : option Ptr.t; size : Z }.
End Arr.

Section messages.
  Context `{!Allocator, !Securec}.

(** [EncdecFacade::ProcessDecode(inputInfo, ..., array)]: the parameters before
    the array allocate nothing, so the array is in the block that was allocated
    first. *)
Definition ProcessDecodeArray (d : DataInfo.t) (tys : list type) (elemSize : nat) : ST Memory.t (Z * (list value * Arr.t)) :=
  fun h =>
  let addr := Mem.next (Memory.mem h) in
  let '((r, vs), m) := EncdecFacade.ProcessDecode d (tys ++ [TArray elemSize false]) (Memory.mem h) in
  let h := h <| Memory.mem := m |> in
  match last vs with
  | Some (VArray es) =>
      if r =? RETCODE_SUCCESS
      then ((r, (vs, Arr.mk (Some (Ptr.mk addr 0)) (zlen es))), h <| Memory.cells ::= <[addr := concat es]> |>)
      else ((r, (vs, Arr.mk None 0)), h)
  | _ => ((r, (vs, Arr.mk None 0)), h)
  end.

(** [response = IResponse::Create(request); response->SetResult(outputInfo);] *)
Definition respond (request : Request.t) (outputInfo : DataInfo.t) : ST Memory.t (option Response.t) :=
  r ← on_mem (Response.Create (Some request));
  match r with
  | Some r => mret (Some (Response.SetResult outputInfo r))
  | None => modify (fun h => h <| Memory.ub := true |>) ;; mret None
  end.

End messages.

(** ** Lemmas *)

Section facts.
  Context {A T R : Type} (proj : T -> option A) {setter : FieldSetter proj}.

Lemma wp_call (dflt : R) m Q o a h :
  proj o = Some a -> wp m (fun r s => Q r (o <| proj := Some s.1 |>, s.2)) (a, h) -> wp (call proj dflt m) Q (o, h).
Proof. intros E. unfold wp, call. cbn [fst snd]. rewrite E. by destruct (m (a, h)) as [r [a' h']]. Qed.

End facts.

Lemma wp_on_mem {A} (m : ST Mem.t A) (Q : A -> Memory.t -> Prop) h :
  wp m (fun a m' => Q a (h <| Memory.mem := m' |>)) (Memory.mem h) -> wp (on_mem m) Q h.
Proof. unfold wp, on_mem. by destruct (m (Memory.mem h)). Qed.

(** ** Lemmas: where the decoder puts an array *)

(** The ledger after one more allocation. *)
Definition granted (m : Mem.t) : Mem.t :=
  m <| Mem.tick ::= S |> <| Mem.next ::= S |> <| Mem.live ::= union {[Mem.next m]} |>.

Section ledger.
  Context `{!Allocator, !Securec}.
  Import DataDecoder.

Definition keeps_ledger {A} (m : ST DataDecoder.t A) : Prop := forall s, wp m (fun _ s' => mem s' = mem s) s.

Lemma DecodeObj_ledger n : keeps_ledger (DecodeObj n).
Proof.
  intros s. unfold DecodeObj. destruct (n =? 0); [by apply wp_ret|]. apply wp_bind, wp_gets.
  case_match; [by apply wp_ret|]. destruct (negb (_ =? EOK)); [by apply wp_ret|].
  apply wp_bind. unfold take_bytes, wp at 1. cbn [fst snd]. by apply wp_ret.
Qed.

Lemma DecodeSize_ledger : keeps_ledger DecodeSize.
Proof. intros s. unfold DecodeSize. apply wp_bind. eapply wp_mono; [apply DecodeObj_ledger|]. intros r s' E. by apply wp_ret. Qed.

Lemma DecodeElems_ledger n sz : keeps_ledger (DecodeElems n sz).
Proof.
  induction n as [|n IH]; intros s; cbn [DecodeElems]; [by apply wp_ret|].
  apply wp_bind. eapply wp_mono; [apply DecodeObj_ledger|]. intros r s' E. cbn beta in E.
  case_match; [by apply wp_ret|]. apply wp_bind. eapply wp_mono; [apply IH|]. intros rs s2 E2. cbn beta in E2. apply wp_ret. congruence.
Qed.

Lemma DecodeArray_ledger sz s :
  wp (DecodeArray sz false) (fun r s' => r.1 = RETCODE_SUCCESS -> mem s' = granted (mem s)) s.
Proof.
  unfold DecodeArray. apply wp_bind. eapply wp_mono; [apply DecodeSize_ledger|]. intros [c n] s1 E1. cbn beta in E1.
  case_match; [by apply wp_ret|]. apply wp_bind, wp_on_field. unfold malloc, wp at 1.
  destruct (malloc_ok _ _); cbn [fst snd]; [|by apply wp_ret].
  apply wp_bind. eapply wp_mono; [apply DecodeElems_ledger|]. intros rs s2 E2. cbn beta in E2.
  case_match.
  - apply wp_bind, wp_on_field. unfold wp at 1. destruct (free _ _). by apply wp_ret.
  - apply wp_ret. intros _. rewrite E2. cbn. by rewrite E1.
Qed.

Definition is_obj (ty : type) : Prop := match ty with TObj _ => True | _ => False end.

Lemma RecursiveDecode_ledger tys sz s :
  Forall is_obj tys ->
  wp (RecursiveDecode (tys ++ [TArray sz false])) (fun r s' => r.1 = RETCODE_SUCCESS -> mem s' = granted (mem s)) s.
Proof.
  intros HF. revert s. induction HF as [|ty tys Hty _ IH]; intros s; cbn [app RecursiveDecode].
  - apply wp_bind. cbn [DecodeOneParameter]. eapply wp_mono; [apply DecodeArray_ledger|]. intros r s1 E1. cbn beta in E1.
    destruct (Z.eqb_spec r.1 RETCODE_SUCCESS) as [E|E]; cbn [negb]; [|by apply wp_ret].
    apply wp_bind, wp_ret, wp_ret. intros _. by apply E1.
  - destruct ty as [n| |]; try done. apply wp_bind. cbn [DecodeOneParameter]. apply wp_bind.
    eapply wp_mono; [apply DecodeObj_ledger|]. intros r s1 E1. cbn beta in E1. apply wp_ret. cbn [fst snd].
    destruct (Z.eqb_spec r.1 RETCODE_SUCCESS) as [E|E]; cbn [negb]; [|by apply wp_ret].
    apply wp_bind. eapply wp_mono; [apply IH|]. intros rs s2 E2. apply wp_ret. cbn [fst]. rewrite <- E1. exact E2.
Qed.

Lemma CheckDataEnd_ledger : keeps_ledger CheckDataEnd.
Proof.
  intros s. unfold CheckDataEnd. apply wp_bind. eapply wp_mono; [apply DecodeSize_ledger|].
  intros [c n] s1 E1. cbn beta in E1. destruct (negb (c =? RETCODE_SUCCESS)); [by apply wp_ret|].
  by apply wp_gets.
Qed.

Lemma DecodeBody_ledger tys sz s :
  Forall is_obj tys ->
  wp (EncdecFacade.DecodeBody (tys ++ [TArray sz false]))
     (fun r s' => r.1 = RETCODE_SUCCESS -> mem s' = granted (mem s)) s.
Proof.
  intros HF. unfold EncdecFacade.DecodeBody. apply wp_bind. eapply wp_mono; [by apply RecursiveDecode_ledger|].
  intros [c vs] s1 E1. cbn [fst snd] in *. destruct (Z.eqb_spec c RETCODE_SUCCESS) as [E|E]; cbn [negb]; [|by apply wp_ret].
  apply wp_bind. eapply wp_mono; [apply CheckDataEnd_ledger|]. intros ok s2 E2. cbn beta in E2.
  destruct ok; cbn [negb]; apply wp_ret; [|done]. intros _. rewrite E2. by apply E1.
Qed.

Lemma RecursiveDecode_objects tys : Forall is_obj tys -> keeps_ledger (RecursiveDecode tys).
Proof.
  induction 1 as [|ty tys Hty _ IH]; intros s; cbn [RecursiveDecode]; [by apply wp_ret|].
  destruct ty as [n| |]; try done. apply wp_bind. cbn [DecodeOneParameter]. apply wp_bind.
  eapply wp_mono; [apply DecodeObj_ledger|]. intros r s1 E1. cbn beta in E1. apply wp_ret. cbn [fst snd].
  destruct (negb (r.1 =? RETCODE_SUCCESS)); [by apply wp_ret|].
  apply wp_bind. eapply wp_mono; [apply IH|]. intros rs s2 E2. cbn beta in E2. apply wp_ret. congruence.
Qed.

Lemma DecodeBody_objects tys : Forall is_obj tys -> keeps_ledger (EncdecFacade.DecodeBody tys).
Proof.
  intros HF s. unfold EncdecFacade.DecodeBody. apply wp_bind. eapply wp_mono; [by apply RecursiveDecode_objects|].
  intros rs s1 E1. cbn beta in E1. destruct (negb _); [by apply wp_ret|].
  apply wp_bind. eapply wp_mono; [apply CheckDataEnd_ledger|]. intros ok s2 E2. cbn beta in E2.
  destruct ok; apply wp_ret; congruence.
Qed.

End ledger.

(** [d] is the message that carries the values. *)
Record carries (d : DataInfo.t) (vs : list value) : Prop := {
  carries_ok : message_ok d;
  carries_wf : Forall value_wf vs;
  carries_bytes : DataInfo.content d = trailer (ser_all vs);
  carries_length : DataInfo.length d = zlen (trailer (ser_all vs));
}.

(** The message in a block of its own. *)
Definition message (addr : nat) (vs : list value) : DataInfo.t :=
  DataInfo.mk (Some (Block.mk addr (trailer (ser_all vs)))) (zlen (trailer (ser_all vs))).

Lemma message_carries addr vs :
  Forall value_wf vs -> Forall DecoderFacts.is_byte (ser_all vs) -> zlen (ser_all vs) + 8 <= INT_MAX ->
  carries (message addr vs) vs.
Proof.
  intros Hwf Hb Hl. pose proof (zlen_nonneg (ser_all vs)).
  assert (L : zlen (trailer (ser_all vs)) = zlen (ser_all vs) + 8) by (unfold trailer; rewrite zlen_app, zlen_size_t; done).
  split; [|done|done|done]. unfold message_ok. change (DataInfo.content (message addr vs)) with (trailer (ser_all vs)).
  change (DataInfo.length (message addr vs)) with (zlen (trailer (ser_all vs))). rewrite L. split; [lia|]. split; [lia|]. apply Forall_app. split; [done|apply DecoderFacts.le_bytes].
Qed.

Lemma carries_data d vs : carries d vs -> bool_decide (DataInfo.data d = None) || (DataInfo.length d <=? 0) = false.
Proof.
  intros [([Hp Hl] & _) _ _ _]. apply orb_false_iff. split; [|lia].
  apply bool_decide_eq_false_2. intros E. unfold DataInfo.content in Hl. rewrite E in Hl. unfold zlen in Hl. cbn in Hl. lia.
Qed.

Lemma memory_wf_granted h b bs :
  Memory.wf h -> b = Mem.next (Memory.mem h) ->
  Memory.wf (h <| Memory.mem := granted (Memory.mem h) |> <| Memory.cells ::= <[b := bs]> |>) /\
  Memory.cells h !! b = None.
Proof.
  intros [W D] ->. split.
  - split; cbn.
    + intros a [->%elem_of_singleton|Ha]%elem_of_union; cbn; [lia|]. specialize (W a Ha). lia.
    + rewrite dom_insert_L. set_solver.
  - apply not_elem_of_dom. intros Hin. specialize (W _ (D _ Hin)). lia.
Qed.

Section decode_array.
  Context `{!Allocator, !Securec}.

Lemma decode_array_spec d vs es h :
  resources -> Memory.wf h -> carries d (vs ++ [VArray es]) -> Forall (fun v => is_obj (type_of v)) vs ->
  wp (ProcessDecodeArray d (type_of <$> vs) (length (hd [] es))) (fun r h' => exists b,
    r = (RETCODE_SUCCESS, (vs ++ [VArray es], Arr.mk (Some (Ptr.mk b 0)) (zlen es))) /\
    Memory.cells h !! b = None /\ Memory.cells h' = <[b := concat es]> (Memory.cells h) /\
    Memory.ub h' = Memory.ub h /\ Memory.wf h' /\ b ∈ Mem.live (Memory.mem h') /\
    b ∉ Mem.live (Memory.mem h) /\ Mem.live (Memory.mem h) ⊆ Mem.live (Memory.mem h')) h.
Proof.
  intros HR W [Hok Hwf Hb Hl] Hobj. unfold ProcessDecodeArray, wp.
  assert (EL : (type_of <$> vs) ++ [TArray (length (hd [] es)) false] = type_of <$> (vs ++ [VArray es])) by by rewrite fmap_app.
  pose proof (DecodeBody_parses d (vs ++ [VArray es]) (Memory.mem h) HR Hwf Hok Hb Hl) as P.
  assert (HF : Forall is_obj (type_of <$> vs)) by by apply Forall_fmap.
  pose proof (DecodeBody_ledger (type_of <$> vs) (length (hd [] es)) (DataDecoder.ctor (Memory.mem h) d) HF) as G.
  rewrite <- EL in P. unfold wp in P, G. unfold EncdecFacade.ProcessDecode.
  pose proof (carries_data _ _ (Build_carries d _ Hok Hwf Hb Hl)) as [N1%bool_decide_eq_false_1 N2]%orb_false_iff.
  destruct (DataInfo.data d) as [blk|]; [|done]. rewrite N2.
  destruct (EncdecFacade.DecodeBody _ _) as [[r xs] s]. cbn [fst snd] in P, G |- *. injection P as -> ->. specialize (G eq_refl).
  assert (ED : decoded <$> (vs ++ [VArray es]) = vs ++ [VArray es]).
  { rewrite fmap_app. f_equal. clear -Hobj. induction Hobj as [|v vs Hv _ IH]; [done|]. cbn. rewrite IH. by destruct v. }
  rewrite ED, last_snoc, Z.eqb_refl. cbn [fst snd]. change (DataDecoder.mem (DataDecoder.ctor (Memory.mem h) d)) with (Memory.mem h) in G.
  rewrite G. destruct (memory_wf_granted h _ (concat es) W eq_refl) as [W' Hf].
  exists (Mem.next (Memory.mem h)). split_and!; try done; [cbn; set_solver| |cbn; set_solver].
  intros Hin. destruct W as [W _]. apply W in Hin. lia.
Qed.

End decode_array.

Lemma wrap_s_mod w z : 0 < w -> wrap_s w (z mod 2 ^ w) = wrap_s w z.
Proof. intros Hw. unfold wrap_s. by rewrite Zplus_mod_idemp_l. Qed.

Lemma handle_val_obj h : - 2 ^ 63 <= h < 2 ^ 63 -> handle_val (handle_obj h) = h.
Proof.
  intros Hh. unfold handle_val, handle_obj, obj, obj_val. rewrite le_val_le.
  change (8 * Z.of_nat SIZEOF_INTPTR) with 64. rewrite wrap_s_mod by lia. by apply wrap_s_small.
Qed.

Lemma obj_val_obj n z : 0 <= z < 2 ^ (8 * Z.of_nat n) -> obj_val (obj n z) = z.
Proof. intros Hz. unfold obj, obj_val. rewrite le_val_le. by apply Z.mod_small. Qed.
