(* ===== verification/Handover.v ===== *)
(** * Handover: blocks that pass between plugin, server and client

    What the holder of a message relies on when other code runs on the same
    memory ([kept]; [spares] of [Memory]), and what it gets ([handed]). *)

From Stdlib Require Import ZArith Lia.
From stdpp Require Import gmap strings list.
From S2P Require Import Prelude Protocol Encdec EncdecFacts EncdecProps Ipc Memory PluginBase.

#[local] Open Scope Z_scope.

(** The memory of the caller is as it was, up to allocations. *)
Record kept (h h' : Memory.t) : Prop := {
  kept_wf : Memory.wf h';
  kept_cells : Memory.cells h' = Memory.cells h;
  kept_ub : Memory.ub h' = Memory.ub h;
}.

(** A block of messages: live, and not one that code accesses by address. *)
Definition owned (h : Memory.t) (d : DataInfo.t) : Prop := forall blk, DataInfo.data d = Some blk ->
  Block.addr blk ∈ Mem.live (Memory.mem h) /\ Memory.cells h !! Block.addr blk = None.

(** The length is that of the bytes. *)
Definition whole (d : DataInfo.t) : Prop :=
  DataInfo.length d = zlen (DataInfo.content d) /\ (is_Some (DataInfo.data d) -> 0 < DataInfo.length d).

(** A message that code has made: it is in a new block, and the blocks of other
    messages stay. *)
Record handed (h h' : Memory.t) (out : DataInfo.t) : Prop := {
  handed_wf : Memory.wf h';
  handed_spares : spares h h';
  handed_whole : whole out;
  handed_owned : owned h' out;
  handed_fresh : forall blk, DataInfo.data out = Some blk -> Block.addr blk ∈ Mem.live (Memory.mem h) ->
    is_Some (Memory.cells h !! Block.addr blk);
}.

Lemma kept_refl h : Memory.wf h -> kept h h.
Proof. by split. Qed.

Lemma kept_trans h1 h2 h3 : kept h1 h2 -> kept h2 h3 -> kept h1 h3.
Proof. intros [] []. split; [done|congruence..]. Qed.

Lemma spares_owned h h' d : spares h h' -> owned h d -> owned h' d.
Proof. intros S HO blk E. destruct (HO blk E). by apply S. Qed.

Lemma whole_null : whole DataInfo.null.
Proof. split; [done|]. by intros []. Qed.

Lemma whole_ok d : whole d -> DataInfo.length d <= MAX_SHM_DATA_SIZE -> IpcFacts.di_ok d.
Proof.
  intros [L P] M. unfold IpcFacts.di_ok. unfold DataInfo.content in L. destruct (DataInfo.data d) as [blk|] eqn:E; cbn in L.
  - split; [done|]. split; [by apply P|done].
  - by rewrite L.
Qed.

Lemma ok_whole d : IpcFacts.di_ok d -> whole d.
Proof.
  unfold IpcFacts.di_ok, whole, DataInfo.content. destruct (DataInfo.data d) as [blk|]; cbn.
  - intros [-> ?]. split; [done|]. lia.
  - intros ->. split; [done|]. by intros [].
Qed.

Lemma handed_null h : Memory.wf h -> handed h h DataInfo.null.
Proof. intros W. split; [done|apply spares_refl|apply whole_null|by intros ?|by intros ?]. Qed.

(** Work before the message was made. *)
Lemma handed_after h h1 h2 out : spares h h1 -> handed h1 h2 out -> handed h h2 out.
Proof.
  intros S [W S2 Hw O F]. split; [done|by eapply spares_trans|done|done|].
  intros blk E L. destruct (Memory.cells h !! Block.addr blk) eqn:C; [by eexists|].
  destruct (S _ L C) as [L1 C1]. destruct (F blk E L1). congruence.
Qed.

(** Work afterwards that allocates no block. *)
Lemma handed_before h h1 h2 out :
  handed h h1 out -> Mem.live (Memory.mem h2) = Mem.live (Memory.mem h1) -> Memory.cells h2 = Memory.cells h1 ->
  mem_wf (Memory.mem h2) -> handed h h2 out.
Proof.
  intros [[W D] S Hw O F] L C WM. split; [|  |done| |done].
  - split; [done|]. by rewrite L, C.
  - intros b Hb Hc. rewrite L, C. by apply S.
  - intros blk E. rewrite L, C. by apply O.
Qed.

(** The encoder's message. *)
Lemma encode_handed `{!Allocator, !Securec, !AllocatorLaws} (vs : list value) h :
  resources -> Memory.wf h -> Forall value_wf vs -> zlen (ser_all vs) + 8 <= INT_MAX ->
  wp (on_mem (EncdecFacade.ProcessEncode vs)) (fun r h' => r.1 = RETCODE_SUCCESS /\ is_Some (DataInfo.data r.2) /\
    DataInfo.content r.2 = trailer (ser_all vs) /\ handed h h' r.2 /\
    Memory.cells h' = Memory.cells h /\ Memory.ub h' = Memory.ub h) h.
Proof.
  intros HR [W D] Hwf Hl. apply wp_on_mem. unfold INT_MAX in Hl.
  eapply wp_mono; [apply EncoderFacts.ProcessEncode_spec; [done|done|unfold ADDRESS_SPACE; lia]|].
  intros [r d] m' (W' & _ & HO & HS). cbn [fst snd] in *. specialize (HS HR ltac:(unfold INT_MAX; lia)). subst r.
  unfold EncoderFacts.handed_over in HO. rewrite decide_True in HO by done. destruct HO as (L & Pos & blk & E & B & Fr & Lv).
  assert (DataInfo.content d = trailer (ser_all vs)) as Hc by (unfold DataInfo.content; by rewrite E).
  set (h' := h <| Memory.mem := m' |>). assert (Mem.live (Memory.mem h) ⊆ Mem.live (Memory.mem h')) as LL by (cbn; rewrite Lv; set_solver).
  assert (Cn : Memory.cells h !! Block.addr blk = None) by (apply not_elem_of_dom; set_solver).
  split_and!; try done. split.
  - split; cbn; [done|]. rewrite Lv. set_solver.
  - by apply spares_dom.
  - split; [by rewrite L, Hc|]. rewrite L. lia.
  - intros blk' E'. assert (blk' = blk) as -> by congruence. cbn. split; [rewrite Lv; set_solver|done].
  - intros blk' E' L'. assert (blk' = blk) as -> by congruence. done.
Qed.

Lemma content_nonempty d : DataInfo.content d <> [] -> is_Some (DataInfo.data d).
Proof. unfold DataInfo.content. by destruct (DataInfo.data d). Qed.
