(* ===== verification/IcPlugin.v ===== *)
(** * IcPlugin: the image classification plugin

    ic_plugin.cpp over [PluginBase]: the plugin keeps one configuration per
    handle of the engine, copies the slices of an image into the model's input
    and, with the last slice, runs the model and returns the best classes.  The
    heap algorithms of the C++ library may be implemented in many ways: [StdHeap]
    takes an implementation, [StdHeapLaws] states what the standard promises.
    The guards of [mutex_] are left out: one call runs at a time. *)

From Stdlib Require Import ZArith Lia.
From stdpp Require Import gmap strings list sorting.
From S2P Require Import Prelude Protocol Encdec Memory PluginBase.

#[local] Open Scope Z_scope.

Definition PLUGIN_MODEL_PATH : string := "/storage/data/image_classification.wk".
Definition DEFAULT_INFER_MODE : string := "SYNC".
Definition ALGORITHM_NAME_IC : string := "IC".
Definition ALGOTYPE_VERSION_IC : Z := 20001001.
Definition MODEL_INPUT_NODE_ID : Z := 0.
Definition MODEL_OUTPUT_NODE_ID : Z := 0.
Definition DEFAULT_OUTPUT_SIZE : Z := 5.
Definition EMPTY_UINTPTR : Z := 0.

(** ** The heap algorithms of the C++ library *)

Section comparison.
  Context {A : Type}.
  Implicit Types (comp : A -> A -> bool) (l : list A).

(** No element is greater than its parent. *)
Definition is_heap comp l : Prop :=
  forall i x y, (0 < i)%nat -> l !! i = Some x -> l !! ((i - 1) / 2)%nat = Some y -> comp y x = false.

Definition is_sorted comp l : Prop := StronglySorted (fun x y => comp y x = false) l.

End comparison.

Class StdHeap := {
  make_heap {A} : (A -> A -> bool) -> list A -> list A;
  pop_heap {A} : (A -> A -> bool) -> list A -> list A;
  push_heap {A} : (A -> A -> bool) -> list A -> list A;
  sort_heap {A} : (A -> A -> bool) -> list A -> list A;
}.

(** A strict weak ordering, given by a key. *)
Definition key_order {A} (key : A -> Z) (comp : A -> A -> bool) : Prop := forall x y, comp x y = (key x <? key y).

Class StdHeapLaws `{StdHeap} := {
  make_heap_ok {A} (key : A -> Z) comp (l : list A) :
    key_order key comp -> make_heap comp l ≡ₚ l /\ is_heap comp (make_heap comp l);
  pop_heap_ok {A} (key : A -> Z) comp (x : A) (l : list A) :
    key_order key comp -> is_heap comp (x :: l) ->
    exists l', pop_heap comp (x :: l) = l' ++ [x] /\ l' ≡ₚ l /\ is_heap comp l';
  push_heap_ok {A} (key : A -> Z) comp (l : list A) (x : A) :
    key_order key comp -> is_heap comp l ->
    push_heap comp (l ++ [x]) ≡ₚ l ++ [x] /\ is_heap comp (push_heap comp (l ++ [x]));
  sort_heap_ok {A} (key : A -> Z) comp (l : list A) :
    key_order key comp -> is_heap comp l -> sort_heap comp l ≡ₚ l /\ is_sorted comp (sort_heap comp l);
}.

(** ** [GetTopK] *)

Module Item.
Record t := mk { first : Z; second : Z }.
End Item.

Definition heapComparer (x y : Item.t) : bool := Item.second y <? Item.second x.

(** [data[index]] of an [int32_t *] *)
Definition load_int32 (data : option Ptr.t) (index : nat) : ST Memory.t Z :=
  bs ← load (ptr_add data (Z.of_nat (index * SIZEOF_INT32))) (Z.of_nat SIZEOF_INT32); mret (wrap_s 32 (le_val bs)).

Section top_k.
  Context `{!StdHeap}.

(** [result.emplace_back(index, data[index])] *)
Definition emplace_back (data : option Ptr.t) (index : nat) (result : list Item.t) : ST Memory.t (list Item.t) :=
  x ← load_int32 data index; mret (result ++ [Item.mk (s32 (Z.of_nat index)) x]).

Fixpoint first_loop (data : option Ptr.t) (n index : nat) (result : list Item.t) : ST Memory.t (list Item.t) :=
  match n with
  | O => mret result
  | S n' => result ← emplace_back data index result; first_loop data n' (S index) result
  end.

(** One round of the second loop; [front()] of an empty vector is undefined. *)
Definition replace_front (data : option Ptr.t) (index : nat) (result : list Item.t) : ST Memory.t (list Item.t) :=
  match result with
  | [] => modify (fun h => h <| Memory.ub := true |>) ;; mret result
  | front :: _ =>
      x ← load_int32 data index;
      if Item.second front <? x then
        result ← emplace_back data index (removelast (pop_heap heapComparer result));
        mret (push_heap heapComparer result)
      else mret result
  end.

Fixpoint second_loop (data : option Ptr.t) (n index : nat) (result : list Item.t) : ST Memory.t (list Item.t) :=
  match n with
  | O => mret result
  | S n' => result ← replace_front data index result; second_loop data n' (S index) result
  end.

(** [result] is empty when [GetTopK] is called. *)
Definition GetTopK (data : option Ptr.t) (size topK : Z) : ST Memory.t (Z * list Item.t) :=
  match data with
  | None => mret (RETCODE_FAILURE, [])
  | Some _ =>
      let topK := if size <? topK then size else topK in
      let k := Z.to_nat topK in
      result ← first_loop data k 0 [];
      result ← second_loop data (Z.to_nat size - k) k (make_heap heapComparer result);
      mret (RETCODE_SUCCESS, sort_heap heapComparer result)
  end.

End top_k.

(** ** [ICPlugin] *)

Module ICPluginConfig.
Record t := mk { base : PluginConfig.t; maxOutputSize : Z }.
#[global] Instance eta_ic_config : Eta t := fun r => mk (base r) (maxOutputSize r).
End ICPluginConfig.

Module ICPlugin.

Section plugin.
  Context `{!Allocator, !Securec, !SecurecMemory, !StdHeap, !EngineAdapter}.

Record t := mk { adapter_ : option adapter; handles_ : gmap Z ICPluginConfig.t }.
#[global] Instance eta_ic_plugin : Eta t := fun r => mk (adapter_ r) (handles_ r).

Definition ctor : t := mk None ∅.

Definition engine {R} (dflt : R) (m : ST (adapter * Memory.t) R) : ST (t * Memory.t) R := call adapter_ dflt m.

Definition GetVersion : Z := ALGOTYPE_VERSION_IC.
Definition GetName : string := ALGORITHM_NAME_IC.
Definition GetInferMode : string := DEFAULT_INFER_MODE.

(** The keys of a [std::map], in order. *)
Definition keys {V} (m : gmap Z V) : list Z := merge_sort Z.le (map_to_list m).*1.

Definition ReleaseAllHandles : ST (t * Memory.t) unit :=
  hs ← self handles_;
  for_each (fun h => engine RETCODE_FAILURE (engine_ReleaseHandle h) ;; mret tt) (keys hs) ;;
  engine RETCODE_FAILURE engine_Deinit ;;
  set_self (fun s => s <| handles_ := ∅ |>).

Definition dtor : ST (t * Memory.t) unit := ReleaseAllHandles.

Definition BuildConfig (handle : Z) : ST (t * Memory.t) (Z * ICPluginConfig.t) :=
  let none := ICPluginConfig.mk (PluginConfig.mk 0 0 None None) 0 in
  i ← engine (RETCODE_FAILURE, (None, 0)) (engine_GetInputAddr handle MODEL_INPUT_NODE_ID);
  if negb (i.1 =? RETCODE_SUCCESS) then mret (RETCODE_FAILURE, none) else
  o ← engine (RETCODE_FAILURE, (None, 0)) (engine_GetOutputAddr handle MODEL_OUTPUT_NODE_ID);
  if negb (o.1 =? RETCODE_SUCCESS) then mret (RETCODE_FAILURE, none) else
  mret (RETCODE_SUCCESS,
    ICPluginConfig.mk (PluginConfig.mk i.2.2 DEFAULT_OUTPUT_SIZE i.2.1 o.2.1) o.2.2).

Definition Prepare (outputInfo : DataInfo.t) : ST (t * Memory.t) (Z * DataInfo.t) :=
  a ← self adapter_;
  (match a with None => set_self (fun s => s <| adapter_ := new_adapter |>) | Some _ => mret tt end) ;;
  a ← self adapter_;
  match a with
  | None => mret (RETCODE_FAILURE, outputInfo)
  | Some _ =>
      r ← engine (RETCODE_FAILURE, EMPTY_UINTPTR) (engine_Init PLUGIN_MODEL_PATH);
      if negb (r.1 =? RETCODE_SUCCESS) then mret (RETCODE_FAILURE, outputInfo) else
      hs ← self handles_;
      match hs !! r.2 with
      | Some _ => mret (RETCODE_SUCCESS, outputInfo)
      | None =>
          c ← BuildConfig r.2;
          if negb (c.1 =? RETCODE_SUCCESS) then mret (RETCODE_FAILURE, outputInfo) else
          set_self (fun s => s <| handles_ ::= <[r.2 := c.2]> |>) ;;
          on_memory (on_mem (EncdecFacade.ProcessEncode [handle_obj r.2]))
      end
  end.

Definition Release (isFullUnload : bool) (inputInfo : DataInfo.t) : ST (t * Memory.t) Z :=
  a ← self adapter_;
  match a with
  | None => mret RETCODE_FAILURE
  | Some _ =>
      r ← on_memory (on_mem (EncdecFacade.ProcessDecode inputInfo [TObj SIZEOF_INTPTR]));
      if negb (r.1 =? RETCODE_SUCCESS) then mret RETCODE_FAILURE else
      let handle := handle_val (nth 0 r.2 (VObj [])) in
      hs ← self handles_;
      match hs !! handle with
      | None => mret RETCODE_NULL_PARAM
      | Some _ =>
          retCode ← engine RETCODE_FAILURE (engine_ReleaseHandle handle);
          if negb (retCode =? RETCODE_SUCCESS) then mret RETCODE_FAILURE else
          set_self (fun s => s <| handles_ ::= delete handle |>) ;;
          if isFullUnload then
            retCode ← engine RETCODE_FAILURE engine_Deinit;
            if negb (retCode =? RETCODE_SUCCESS) then mret RETCODE_FAILURE else mret RETCODE_SUCCESS
          else mret RETCODE_SUCCESS
      end
  end.

Definition SetOption (optionType : Z) (inputInfo : DataInfo.t) : ST (t * Memory.t) Z :=
  if bool_decide (DataInfo.data inputInfo = None) || (DataInfo.length inputInfo <=? 0) then mret RETCODE_NULL_PARAM else
  if optionType =? OPTION_SET_OUTPUT_SIZE then
    r ← on_memory (on_mem (EncdecFacade.ProcessDecode inputInfo [TObj SIZEOF_INTPTR; TObj SIZEOF_UINT32]));
    if negb (r.1 =? RETCODE_SUCCESS) then mret r.1 else
    let handle := handle_val (nth 0 r.2 (VObj [])) in
    let outputSize := obj_val (nth 1 r.2 (VObj [])) in
    hs ← self handles_;
    match hs !! handle with
    | None => mret RETCODE_FAILURE
    | Some c =>
        (if (0 <? outputSize) && (outputSize <=? ICPluginConfig.maxOutputSize c)
         then set_self (fun s => s <| handles_ ::= <[handle := c <| ICPluginConfig.base ::= fun b =>
                                                         b <| PluginConfig.outputSize := outputSize |> |>]> |>)
         else mret tt) ;;
        mret RETCODE_SUCCESS
    end
  else mret RETCODE_FAILURE.

Definition GetOption (optionType : Z) (inputInfo outputInfo : DataInfo.t) : ST (t * Memory.t) (Z * DataInfo.t) :=
  if bool_decide (DataInfo.data inputInfo = None) || (DataInfo.length inputInfo <=? 0)
  then mret (RETCODE_NULL_PARAM, outputInfo) else
  r ← on_memory (on_mem (EncdecFacade.ProcessDecode inputInfo [TObj SIZEOF_INTPTR]));
  if negb (r.1 =? RETCODE_SUCCESS) then mret (r.1, outputInfo) else
  let handle := handle_val (nth 0 r.2 (VObj [])) in
  hs ← self handles_;
  match hs !! handle with
  | None => mret (RETCODE_FAILURE, outputInfo)
  | Some c =>
      let outputInfo := outputInfo <| DataInfo.length := 0 |> in
      let encode n := on_memory (on_mem (EncdecFacade.ProcessEncode [handle_obj handle; obj SIZEOF_SIZE_T n])) in
      if optionType =? OPTION_GET_INPUT_SIZE then encode (PluginConfig.inputSize (ICPluginConfig.base c))
      else if optionType =? OPTION_GET_OUTPUT_SIZE then encode (PluginConfig.outputSize (ICPluginConfig.base c))
      else mret (RETCODE_FAILURE, outputInfo)
  end.

Definition item_bytes (x : Item.t) : list Z * list Z := (le 4 (Item.first x), le 4 (Item.second x)).

Definition MakeInference (handle : Z) (config : ICPluginConfig.t) : ST (t * Memory.t) (Z * DataInfo.t) :=
  retCode ← engine RETCODE_FAILURE (engine_Invoke handle);
  if negb (retCode =? RETCODE_SUCCESS) then mret (RETCODE_FAILURE, DataInfo.null) else
  r ← on_memory (GetTopK (PluginConfig.outputAddr (ICPluginConfig.base config)) (ICPluginConfig.maxOutputSize config)
                         (PluginConfig.outputSize (ICPluginConfig.base config)));
  if negb (r.1 =? RETCODE_SUCCESS) then mret (r.1, DataInfo.null) else
  on_memory (on_mem (EncdecFacade.ProcessEncode [handle_obj handle; VItems (item_bytes <$> r.2)])).

Definition DoProcess (handle : Z) (config : ICPluginConfig.t) (request : Request.t) (response : option Response.t) :
    ST (t * Memory.t) (Z * option Response.t) :=
  r ← MakeInference handle config;
  if negb (r.1 =? RETCODE_SUCCESS) then mret (r.1, response) else
  response ← on_memory (respond request r.2);
  mret (RETCODE_SUCCESS, response).

(** The code with the response it leaves in its reference argument. *)
Definition SyncProcess (request : option Request.t) (response : option Response.t) :
    ST (t * Memory.t) (Z * option Response.t) :=
  a ← self adapter_;
  match a, request with
  | None, _ => mret (RETCODE_FAILURE, response)
  | _, None => mret (RETCODE_NULL_PARAM, response)
  | Some _, Some req =>
      let inputInfo := Request.msg req in
      if bool_decide (DataInfo.data inputInfo = None) || (DataInfo.length inputInfo <=? 0)
      then mret (RETCODE_NULL_PARAM, response) else
      r ← on_memory (ProcessDecodeArray inputInfo [TObj SIZEOF_INTPTR; TObj SIZEOF_UINT32] 1);
      let '(retCode, (vs, slicedImage)) := r in
      if negb (retCode =? RETCODE_SUCCESS) then mret (retCode, response) else
      let handle := handle_val (nth 0 vs (VObj [])) in
      let slicedIndex := obj_val (nth 1 vs (VObj [])) in
      hs ← self handles_;
      match hs !! handle with
      | None => mret (RETCODE_FAILURE, response)
      | Some c =>
          let inputSize := PluginConfig.inputSize (ICPluginConfig.base c) in
          if inputSize <? u64 (slicedIndex + Arr.size slicedImage) then mret (RETCODE_FAILURE, response) else
          retCopy ← on_memory (memcpy_s (ptr_add (PluginConfig.inputAddr (ICPluginConfig.base c)) slicedIndex)
                                        (u64 (inputSize - slicedIndex)) (Arr.data slicedImage) (Arr.size slicedImage));
          if negb (retCopy =? EOK) then mret (RETCODE_FAILURE, response) else
          if u64 (slicedIndex + Arr.size slicedImage) =? inputSize then
            r ← DoProcess handle c req response;
            if negb (r.1 =? RETCODE_SUCCESS) then mret r else mret (RETCODE_SUCCESS, r.2)
          else mret (RETCODE_SUCCESS, response)
      end
  end.

Definition AsyncProcess (request : option Request.t) : ST (t * Memory.t) Z := mret RETCODE_SUCCESS.

End plugin.
End ICPlugin.

(** ** An implementation of the heap algorithms: a sorted list is a heap *)

Module HeapSample.

Section sorted.
  Context {A : Type} (comp : A -> A -> bool).

Fixpoint insert_down (x : A) (l : list A) : list A :=
  match l with
  | [] => [x]
  | y :: l' => if comp y x then x :: l else y :: insert_down x l'
  end.

Definition sort_down (l : list A) : list A := foldr insert_down [] l.

  Context (key : A -> Z) (Hkey : key_order key comp).

#[local] Notation down := (StronglySorted (fun x y => key y <= key x)).

Lemma insert_down_perm x l : insert_down x l ≡ₚ x :: l.
Proof. induction l as [|y l IH]; cbn; [done|]. destruct (comp y x); [done|]. rewrite IH. constructor. Qed.

Lemma insert_down_sorted x l : down l -> down (insert_down x l).
Proof.
  induction l as [|y l IH]; cbn; intros Hd; [repeat constructor|]. rewrite Hkey.
  apply StronglySorted_inv in Hd as [Hd HF]. destruct (Z.ltb_spec (key y) (key x)).
  - constructor; [by constructor|]. constructor; [lia|]. eapply Forall_impl; [exact HF|]. cbn. lia.
  - constructor; [by apply IH|]. rewrite insert_down_perm. constructor; [lia|done].
Qed.

Lemma sort_down_perm l : sort_down l ≡ₚ l.
Proof. induction l as [|x l IH]; cbn; [done|]. by rewrite insert_down_perm, IH. Qed.

Lemma sort_down_sorted l : down (sort_down l).
Proof. induction l as [|x l IH]; cbn; [constructor|]. by apply insert_down_sorted. Qed.

Lemma sorted_lookup l i j x y : down l -> (j < i)%nat -> l !! i = Some x -> l !! j = Some y -> key x <= key y.
Proof.
  intros Hd. revert i j. induction Hd as [|z l Hd IH HF]; intros i j Hij Hi Hj; [done|].
  destruct i as [|i]; [lia|]. cbn in Hi. destruct j as [|j]; [|apply (IH i j); [lia|done|done]].
  cbn in Hj. simplify_eq. rewrite Forall_forall in HF. apply HF. by eapply list_elem_of_lookup_2.
Qed.

Lemma sort_down_heap l : is_heap comp (sort_down l).
Proof.
  intros i x y Hi Hx Hy. rewrite Hkey. apply Z.ltb_ge.
  apply (sorted_lookup (sort_down l) i ((i - 1) / 2)); [apply sort_down_sorted| |done|done].
  apply Nat.Div0.div_lt_upper_bound. lia.
Qed.

Lemma reverse_up l : down l -> is_sorted comp (reverse l).
Proof.
  induction 1 as [|x l Hd IH HF]; [constructor|]. rewrite reverse_cons. unfold is_sorted in *.
  assert (G : forall k, StronglySorted (fun a b => comp b a = false) k -> Forall (fun a => comp x a = false) k ->
              StronglySorted (fun a b => comp b a = false) (k ++ [x])).
  { induction k as [|a k IHk]; intros Hk HFk; cbn; [repeat constructor|].
    apply StronglySorted_inv in Hk as [Hk HFa]. apply Forall_cons in HFk as [Ha HFk].
    constructor; [by apply IHk|]. apply Forall_app. split; [done|]. by repeat constructor. }
  apply G; [done|]. rewrite reverse_Permutation. eapply Forall_impl; [exact HF|]. intros y Hy. cbn in Hy. rewrite Hkey. apply Z.ltb_ge. lia.
Qed.

End sorted.

#[export] Instance sorted_heap : StdHeap := {|
  make_heap := @sort_down;
  pop_heap := fun A comp l => match l with [] => [] | x :: l' => sort_down comp l' ++ [x] end;
  push_heap := @sort_down;
  sort_heap := fun A comp l => reverse (sort_down comp l);
|}.

#[export] Instance sorted_heap_laws : StdHeapLaws.
Proof.
  split.
  - intros A key comp l K. split; [apply sort_down_perm|by eapply sort_down_heap].
  - intros A key comp x l K Hh. exists (sort_down comp l). split_and!; [done|apply sort_down_perm|by eapply sort_down_heap].
  - intros A key comp l x K Hh. split; [apply sort_down_perm|by eapply sort_down_heap].
  - intros A key comp l K Hh. split; [cbn; by rewrite reverse_Permutation, sort_down_perm|].
    eapply reverse_up; [done|]. by eapply sort_down_sorted.
Qed.

End HeapSample.
