(* ===== verification/IcProps.v ===== *)
(** * IcProps: the image classification plugin is right

    [GetTopK] returns the best classes in order, whatever implementation of the
    heap algorithms the library has; slices of an image that arrive in order
    assemble the model's input, and only the last one runs the model. *)

From Stdlib Require Import ZArith Lia.
From stdpp Require Import gmap strings list sorting.
From S2P Require Import Prelude Protocol Ipc Encdec EncdecFacts EncdecProps Memory PluginBase Handover IcPlugin.

#[local] Open Scope Z_scope.

(** ** The top of a heap *)

Lemma heap_front {A} (key : A -> Z) comp (x : A) l y :
  key_order key comp -> is_heap comp (x :: l) -> y ∈ x :: l -> key y <= key x.
Proof.
  intros K Hh (i & Hi)%list_elem_of_lookup. revert y Hi. induction i as [i IH] using lt_wf_ind. intros y Hi.
  destruct (decide (i = 0)%nat) as [->|Hne]; [cbn in Hi; by simplify_eq|].
  assert ((i - 1) / 2 < i)%nat as Hlt by (apply Nat.Div0.div_lt_upper_bound; lia).
  destruct (lookup_lt_is_Some_2 (x :: l) ((i - 1) / 2)) as [z Hz].
  { apply lookup_lt_Some in Hi. lia. }
  pose proof (IH _ Hlt _ Hz) as Hle. pose proof (Hh i y z ltac:(lia) Hi Hz) as C. rewrite K in C. lia.
Qed.

(** ** [GetTopK] *)

(** The [i]-th score in the output [out] of the model. *)
Definition score_of (out : list Z) (i : nat) : Z := wrap_s 32 (le_val (read_at out (i * SIZEOF_INT32) SIZEOF_INT32)).

Section top_k.
  Context (n : nat) (score : nat -> Z).

Definition entry (i : nat) : Item.t := Item.mk (Z.of_nat i) (score i).

(** After the first [j] scores [res] holds the [k] best of them. *)
Record best (k j : nat) (res : list Item.t) : Prop := {
  best_heap : is_heap heapComparer res;
  best_length : length res = k;
  best_entries : exists ixs, res ≡ₚ (entry <$> ixs) /\ NoDup ixs /\ (forall i, i ∈ ixs -> (i < j)%nat) /\
    forall i m, (i < j)%nat -> i ∉ ixs -> m ∈ ixs -> score i <= score m;
}.

(** The [k] best classes, best first. *)
Record top (k : nat) (res : list Item.t) : Prop := {
  top_length : length res = k;
  top_sorted : StronglySorted (fun x y => Item.second y <= Item.second x) res;
  top_best : exists ixs, res = entry <$> ixs /\ NoDup ixs /\ (forall i, i ∈ ixs -> (i < n)%nat) /\
    forall i m, (i < n)%nat -> i ∉ ixs -> m ∈ ixs -> score i <= score m;
}.

  Context `{!StdHeap, !StdHeapLaws}.
  Context (p : Ptr.t) (h : Memory.t).
  Context (Hr : in_range (Memory.cells h) p (Z.of_nat (n * SIZEOF_INT32))) (Hmax : Z.of_nat n <= INT_MAX).
  Context (Hscore : forall i, (i < n)%nat -> score i = score_of (peek (Memory.cells h) p (Z.of_nat (n * SIZEOF_INT32))) i).

#[local] Notation key := (fun x => - Item.second x).

Lemma heapComparer_order : key_order key heapComparer.
Proof. intros x y. unfold heapComparer. destruct (Z.ltb_spec (Item.second y) (Item.second x)), (Z.ltb_spec (- Item.second x) (- Item.second y)); lia. Qed.

Lemma wp_load_int32 i (Q : Z -> Memory.t -> Prop) :
  (i < n)%nat -> Q (score i) h -> wp (load_int32 (Some p) i) Q h.
Proof.
  intros Hi HQ. unfold load_int32. apply wp_bind. unfold ptr_add. cbn [fmap option_fmap option_map].
  apply in_range_inv in Hr as (l & E & Hp1 & _ & Hp3). specialize (Hscore i Hi). destruct p as [b o]. cbn in *.
  unfold SIZEOF_INT32 in *.
  apply wp_load; [apply (in_range_at _ b (o + Z.of_nat (i * 4)) _ _ E); lia|]. apply wp_ret.
  assert (EV : read_at (peek (Memory.cells h) (Ptr.mk b o) (Z.of_nat (n * 4))) (i * 4) 4 =
               peek (Memory.cells h) (Ptr.mk b (o + Z.of_nat (i * 4))) (Z.of_nat 4)).
  { rewrite !(peek_at _ _ _ _ _ E). unfold read_at. rewrite !Nat2Z.id, !take_drop_commute, drop_drop, take_take.
    f_equal; [lia|f_equal; lia]. }
  unfold Ptr.add. cbn [Ptr.block Ptr.off]. rewrite <- EV. unfold score_of, SIZEOF_INT32 in Hscore. rewrite <- Hscore. exact HQ.
Qed.

Lemma wp_emplace_back i res (Q : list Item.t -> Memory.t -> Prop) :
  (i < n)%nat -> Q (res ++ [entry i]) h -> wp (emplace_back (Some p) i res) Q h.
Proof.
  intros Hi HQ. unfold emplace_back. apply wp_bind, wp_load_int32; [done|]. apply wp_ret.
  rewrite wrap_s_small; [exact HQ|lia|]. unfold INT_MAX in *. lia.
Qed.

Lemma first_loop_spec m index res :
  (index + m <= n)%nat ->
  wp (first_loop (Some p) m index res) (fun r h' => h' = h /\ r = res ++ (entry <$> seq index m)) h.
Proof.
  revert index res. induction m as [|m IH]; intros index res Hm; cbn [first_loop seq].
  - apply wp_ret. by rewrite app_nil_r.
  - apply wp_bind, wp_emplace_back; [lia|]. eapply wp_mono; [apply IH; lia|].
    intros r h' [-> ->]. by rewrite <- app_assoc.
Qed.

Lemma replace_front_spec k j res :
  (0 < k)%nat -> (j < n)%nat -> best k j res ->
  wp (replace_front (Some p) j res) (fun r h' => h' = h /\ best k (S j) r) h.
Proof.
  intros Hk Hj [Hh Hl (ixs & P & ND & Hlt & Hbest)].
  destruct res as [|front l]; [cbn in Hl; lia|]. unfold replace_front.
  assert (exists i0 ixs', front = entry i0 /\ ixs ≡ₚ i0 :: ixs' /\ l ≡ₚ (entry <$> ixs')) as (i0 & ixs' & -> & Pi & Pl).
  { assert (front ∈ entry <$> ixs) as (i0 & -> & Hi0)%list_elem_of_fmap by (rewrite <- P; by left).
    apply elem_of_Permutation in Hi0 as [ixs' Pi]. exists i0, ixs'. split_and!; [done..|].
    rewrite Pi in P. cbn in P. by apply Permutation_cons_inv in P. }
  assert (Hmin : forall m, m ∈ ixs -> score i0 <= score m).
  { intros m Hm. assert (entry m ∈ entry i0 :: l) as Hin by (rewrite P; apply list_elem_of_fmap; by exists m).
    pose proof (heap_front key heapComparer (entry i0) l (entry m) heapComparer_order Hh Hin) as HK. cbn in HK. lia. }
  rewrite Pi in ND. apply NoDup_cons in ND as [Ni ND].
  apply wp_bind, wp_load_int32; [done|]. cbn [Item.second entry]. destruct (Z.ltb_spec (score i0) (score j)) as [Hless|Hge].
  - destruct (pop_heap_ok key heapComparer (entry i0) l heapComparer_order Hh) as (l' & E & Pl' & Hh'). rewrite E, removelast_last.
    apply wp_bind, wp_emplace_back; [done|]. apply wp_ret. split; [done|].
    destruct (push_heap_ok key heapComparer l' (entry j) heapComparer_order Hh') as [Pp Hp].
    split; [done| |].
    + rewrite Pp, length_app, Pl'. cbn in *. lia.
    + assert (j ∉ ixs') as Nj by (intros Hin; specialize (Hlt j); rewrite Pi in Hlt; specialize (Hlt ltac:(by right)); lia).
      exists (ixs' ++ [j]). split_and!.
      * by rewrite Pp, Pl', Pl, fmap_app.
      * apply NoDup_app. split_and!; [done| |apply NoDup_singleton]. intros i Hi ->%list_elem_of_singleton. done.
      * intros i [Hi| ->%list_elem_of_singleton]%elem_of_app; [|lia]. specialize (Hlt i). rewrite Pi in Hlt. specialize (Hlt ltac:(by right)). lia.
      * intros i m Hi Hn Hm. apply not_elem_of_app in Hn as [Hn Hnj]. rewrite list_elem_of_singleton in Hnj.
        assert (score i0 <= score m) as Hm0.
        { apply elem_of_app in Hm as [Hm| ->%list_elem_of_singleton]; [apply Hmin; rewrite Pi; by right|lia]. }
        destruct (decide (i = i0)) as [->|Hne]; [done|].
        etrans; [|exact Hm0]. apply Hbest; [lia| |rewrite Pi; by left]. rewrite Pi, not_elem_of_cons. done.
  - apply wp_ret. split; [done|]. split; [done|done|]. exists ixs. split_and!; [done|rewrite Pi; by apply NoDup_cons| |].
    + intros i Hi. specialize (Hlt i Hi). lia.
    + intros i m Hi Hn Hm. destruct (decide (i = j)) as [->|Hne]; [|apply Hbest; [lia|done|done]].
      pose proof (Hmin m Hm). lia.
Qed.

Lemma second_loop_spec k m j res :
  (0 < k)%nat -> (j + m <= n)%nat -> best k j res ->
  wp (second_loop (Some p) m j res) (fun r h' => h' = h /\ best k (j + m) r) h.
Proof.
  revert j res. induction m as [|m IH]; intros j res Hk Hm HB; cbn [second_loop].
  - apply wp_ret. by rewrite Nat.add_0_r.
  - apply wp_bind. eapply wp_mono; [apply (replace_front_spec k); [done|lia|done]|]. intros r h' [-> HB'].
    replace (j + S m)%nat with (S j + m)%nat by lia. apply IH; [done|lia|done].
Qed.

Lemma Permutation_fmap_inv {B C} (f : B -> C) (l : list C) (k : list B) :
  l ≡ₚ (f <$> k) -> exists k', l = f <$> k' /\ k' ≡ₚ k.
Proof.
  intros P. revert k P. induction l as [|x l IH]; intros k P.
  - apply Permutation_nil in P. destruct k; [|done]. by exists [].
  - assert (x ∈ f <$> k) as (y & -> & Hy)%list_elem_of_fmap by (rewrite <- P; by left).
    apply elem_of_Permutation in Hy as [k1 Pk]. rewrite Pk in P. cbn in P. apply Permutation_cons_inv in P.
    destruct (IH k1 P) as (k' & -> & P'). exists (y :: k'). split; [done|]. by rewrite Pk, P'.
Qed.

Lemma get_top_k_spec topK :
  0 < topK ->
  wp (GetTopK (Some p) (Z.of_nat n) topK) (fun r h' => h' = h /\ r.1 = RETCODE_SUCCESS /\
    top (Nat.min (Z.to_nat topK) n) r.2) h.
Proof.
  intros Hk. unfold GetTopK.
  assert (E : Z.to_nat (if Z.of_nat n <? topK then Z.of_nat n else topK) = Nat.min (Z.to_nat topK) n).
  { destruct (Z.ltb_spec (Z.of_nat n) topK); lia. }
  rewrite E, Nat2Z.id. set (k := Nat.min (Z.to_nat topK) n). assert (k <= n)%nat by (subst k; lia).
  apply wp_bind. eapply wp_mono; [apply first_loop_spec; lia|]. intros res0 h' [-> ->]. cbn [app].
  destruct (make_heap_ok key heapComparer (entry <$> seq 0 k) heapComparer_order) as [Pm Hm].
  set (r0 := make_heap heapComparer (entry <$> seq 0 k)) in *.
  assert (B0 : best k k r0).
  { split; [done|by rewrite Pm, length_fmap, length_seq|]. exists (seq 0 k). split_and!; [done|apply NoDup_seq| |].
    - intros i Hi%elem_of_seq. lia.
    - intros i m Hi Hn. exfalso. apply Hn, elem_of_seq. lia. }
  assert (L : wp (second_loop (Some p) (n - k) k r0) (fun r h' => h' = h /\ best k n r) h).
  { destruct (decide (k = 0)%nat) as [Ek|Ek].
    - assert (n = 0)%nat as En by (subst k; lia). rewrite Ek, En in *. by apply wp_ret.
    - pose proof (second_loop_spec k (n - k) k r0 ltac:(lia) ltac:(lia) B0) as L.
      by replace (k + (n - k))%nat with n in L by lia. }
  apply wp_bind. eapply wp_mono; [exact L|]. intros res h' [-> [Hh Hl (ixs & P & ND & Hlt & Hbest)]].
  apply wp_ret. split; [done|]. split; [done|]. cbn [fst snd].
  destruct (sort_heap_ok key heapComparer res heapComparer_order Hh) as [Ps Hs]. split.
  - by rewrite Ps.
  - eapply StronglySorted_ind; [constructor| |exact Hs]. intros x l _ IH HF. constructor; [done|].
    eapply Forall_impl; [exact HF|]. intros y. cbn. unfold heapComparer. lia.
  - pose proof (transitivity Ps P) as Ps2. destruct (Permutation_fmap_inv _ _ _ Ps2) as (ixs' & -> & Pi). exists ixs'.
    split_and!; [done|by rewrite Pi|intros i Hi; apply Hlt; by rewrite <- Pi|].
    intros i m Hi Hn Hm'. apply Hbest; [done|by rewrite <- Pi|by rewrite <- Pi].
Qed.

End top_k.

(** ** Slices *)

Module IcPluginFacts.
Import ICPlugin.

Section slices.
  Context `{!Allocator, !Securec, !AllocatorLaws, !SecurecMemory, !SecurecMemoryLaws, !StdHeap, !StdHeapLaws, !EngineAdapter}.
  Context (HR : resources) (Hnew : forall t, new_ok t = true).
  Context (handle : Z) (c : ICPluginConfig.t) (pin pout : Ptr.t) (n m : nat) (run_model : list Z -> list Z).
  Context (Hhandle : - 2 ^ 63 <= handle < 2 ^ 63) (Hn : Z.of_nat n <= 2 ^ 30) (Hm : Z.of_nat m <= 2 ^ 20).
  Context (Hblocks : Ptr.block pin <> Ptr.block pout).
  Context (Hin : PluginConfig.inputAddr (ICPluginConfig.base c) = Some pin)
          (Hinsize : PluginConfig.inputSize (ICPluginConfig.base c) = Z.of_nat n)
          (Hout : PluginConfig.outputAddr (ICPluginConfig.base c) = Some pout)
          (Houtsize : ICPluginConfig.maxOutputSize c = Z.of_nat m)
          (Htopk : 0 < PluginConfig.outputSize (ICPluginConfig.base c)).

Context (Hengine : engine_runs handle pin pout n m run_model) (Hmodel : forall i, length (run_model i) = (m * SIZEOF_INT32)%nat).

(** A plugin that has prepared the handle, in a memory that holds both buffers. *)
Record prepared (s : t) (h : Memory.t) : Prop := {
  pr_adapter : is_Some (adapter_ s);
  pr_handle : handles_ s !! handle = Some c;
  pr_wf : Memory.wf h;
  pr_in : in_range (Memory.cells h) pin (Z.of_nat n);
  pr_out : in_range (Memory.cells h) pout (Z.of_nat (m * SIZEOF_INT32));
}.

Definition slice_values (off : Z) (bs : list Z) : list value :=
  [handle_obj handle; obj SIZEOF_UINT32 off; VArray ((fun b => [b]) <$> bs)].

(** The request the client sends for a slice. *)
Definition slice_request (off : Z) (bs : list Z) : Request.t :=
  Request.ctor <| Request.msg := message 0 (slice_values off bs) |>.

Fixpoint send_slices (off : Z) (slices : list (list Z)) : ST (t * Memory.t) (list (Z * option Response.t)) :=
  match slices with
  | [] => mret []
  | bs :: rest => r ← SyncProcess (Some (slice_request off bs)) None; rs ← send_slices (off + zlen bs) rest; mret (r :: rs)
  end.

Lemma concat_singletons {A} (l : list A) : concat ((fun b => [b]) <$> l) = l.
Proof. induction l as [|x l IH]; [done|]. cbn. by rewrite IH. Qed.

Lemma slice_carries off bs :
  bs <> [] -> Forall DecoderFacts.is_byte bs -> zlen bs <= 2 ^ 30 ->
  carries (Request.msg (slice_request off bs)) (slice_values off bs).
Proof.
  intros Hne Hb Hlen. assert (L : zlen (ser_all (slice_values off bs)) = 20 + zlen bs).
  { unfold ser_all, slice_values. cbn -[le size_t_bytes]. rewrite app_nil_r, concat_singletons, !zlen_app, !zlen_size_t.
    unfold zlen. rewrite ?length_le. unfold SIZEOF_INTPTR, SIZEOF_UINT32. lia. }
  apply message_carries.
  - repeat apply Forall_cons_2; try apply Forall_nil_2; [done..|]. cbn. split; [by destruct bs|]. split; [by destruct bs|].
    unfold elems_wf. destruct bs as [|b bs]; [done|]. cbn. apply Forall_cons. split; [done|]. apply Forall_fmap. by apply Forall_forall.
  - unfold ser_all, slice_values. cbn -[le size_t_bytes]. rewrite app_nil_r, concat_singletons.
    repeat apply Forall_app_2; try apply DecoderFacts.le_bytes. done.
  - rewrite L. unfold INT_MAX. lia.
Qed.


(** Copying a slice behind the [k] bytes that are there. *)
Lemma peek_grow cs k bs :
  in_range cs pin (Z.of_nat n) -> (k + length bs <= n)%nat ->
  peek (poke cs (Ptr.add pin (Z.of_nat k)) bs) pin (Z.of_nat (k + length bs)) = peek cs pin (Z.of_nat k) ++ bs.
Proof.
  intros (l & E & H1' & _ & H3')%in_range_inv Hk. destruct pin as [b o]. cbn in *. unfold zlen in *.
  unfold poke. cbn. rewrite E. rewrite (peek_at _ _ _ _ _ (lookup_insert_eq _ _ _)), (peek_at _ _ _ _ _ E), !Nat2Z.id.
  unfold read_at. rewrite Z2Nat.inj_add, Nat2Z.id by lia. set (o' := Z.to_nat o).
  rewrite !take_drop_commute, Nat.add_assoc, take_write_at, drop_app_le by (rewrite ?length_take; lia). done.
Qed.

Lemma in_range_add cs k len :
  in_range cs pin (Z.of_nat n) -> (k + len <= n)%nat -> in_range cs (Ptr.add pin (Z.of_nat k)) (Z.of_nat len).
Proof.
  intros (l & E & H1' & _ & H3')%in_range_inv Hk. destruct pin as [b o]. cbn in *.
  apply (in_range_at _ b (o + Z.of_nat k) _ _ E); lia.
Qed.

(** What every slice does: its bytes get behind the [k] bytes already there. *)
Definition received (k : nat) (bs : list Z) (s : t) (h h' : Memory.t) : Prop :=
  prepared s h' /\ Memory.ub h' = Memory.ub h /\ spares h h' /\
  peek (Memory.cells h') pin (Z.of_nat (k + length bs)) = peek (Memory.cells h) pin (Z.of_nat k) ++ bs.

Definition last_slice (k : nat) (bs : list Z) : bool := (k + length bs =? n)%nat.

(** A slice is stored, and the last one is processed. *)
Lemma sync_process_slice s h k bs req (Q : Z * option Response.t -> t * Memory.t -> Prop) :
  prepared s h -> bs <> [] -> carries (Request.msg req) (slice_values (Z.of_nat k) bs) -> (k + length bs <= n)%nat ->
  (forall h', received k bs s h h' ->
     if last_slice k bs
     then wp (DoProcess handle c req None) (fun r s' => r.1 = RETCODE_SUCCESS /\ Q r s') (s, h')
     else Q (RETCODE_SUCCESS, None) (s, h')) ->
  wp (SyncProcess (Some req) None) Q (s, h).
Proof.
  intros [PA PH PW PI PO] Hne C Hk HQ. pose proof (zlen_nonneg bs) as Z0.
  assert (zlen bs <= 2 ^ 30) as Hz by (unfold zlen; lia). assert (zlen bs = Z.of_nat (length bs)) as EZ by done.
  assert (0 < length bs)%nat as Hpos by (destruct bs; [done|cbn; lia]).
  unfold SyncProcess. apply wp_bind, wp_self. destruct PA as [a PA]. rewrite PA, (carries_data _ _ C).
  apply wp_bind, wp_on_memory.
  pose proof (decode_array_spec (Request.msg req) [handle_obj handle; obj SIZEOF_UINT32 (Z.of_nat k)]
    ((fun b => [b]) <$> bs) h HR PW C ltac:(by repeat constructor)) as D.
  assert (E1 : type_of <$> [handle_obj handle; obj SIZEOF_UINT32 (Z.of_nat k)] = [TObj SIZEOF_INTPTR; TObj SIZEOF_UINT32]) by done.
  assert (E2 : length (hd [] ((fun b : Z => [b]) <$> bs)) = 1%nat) by (by destruct bs).
  rewrite E1, E2 in D. eapply wp_mono; [exact D|]. clear D. intros r h1 (b & -> & Hfresh & C1 & U1 & W1 & _ & Lb & L1).
  rewrite Z.eqb_refl. cbn [negb app nth]. rewrite handle_val_obj by done.
  rewrite obj_val_obj by (change (8 * Z.of_nat SIZEOF_UINT32) with 32; lia).
  assert (ES : zlen ((fun b0 : Z => [b0]) <$> bs) = zlen bs) by (unfold zlen; by rewrite length_fmap).
  apply wp_bind, wp_self. rewrite PH, Hinsize. cbn [Arr.size Arr.data]. rewrite ES, EZ.
  rewrite concat_singletons in C1. rewrite (wrap_u_small 64 (Z.of_nat k + _)), (wrap_u_small 64 (Z.of_nat n - _)) by lia.
  rewrite (proj2 (Z.ltb_ge _ _)) by lia. apply wp_bind, wp_on_memory. rewrite Hin. cbn [ptr_add fmap option_fmap option_map].
  assert (Nb : forall p l, in_range (Memory.cells h) p l -> Ptr.block p <> b).
  { intros p l Hp E. apply in_range_inv in Hp as (l' & E' & _). rewrite E in E'. congruence. }
  assert (KR : forall p l, in_range (Memory.cells h) p l -> in_range (Memory.cells h1) p l).
  { intros p l Hp. unfold in_range. rewrite C1, lookup_insert_ne by (apply not_eq_sym; by eapply Nb). exact Hp. }
  assert (SB : Memory.cells h1 !! b = Some bs) by (by rewrite C1, lookup_insert_eq).
  apply wp_memcpy_s; [lia|lia|unfold SECUREC_MEM_MAX_LEN; lia|apply in_range_add; [by apply KR|lia]| | |].
  { apply (in_range_at _ _ _ _ _ SB); unfold zlen; lia. }
  { unfold overlap. cbn [Ptr.block Ptr.add]. rewrite bool_decide_eq_false_2; [done|]. by eapply Nb. }
  rewrite Z.eqb_refl. cbn [negb]. set (h2 := h1 <| Memory.cells ::= _ |>).
  assert (C2 : Memory.cells h2 = poke (Memory.cells h1) (Ptr.add pin (Z.of_nat k)) bs).
  { subst h2. cbn. f_equal. rewrite (peek_at _ _ _ _ _ SB), Nat2Z.id. apply firstn_all. }
  assert (M2 : Memory.mem h2 = Memory.mem h1 /\ Memory.ub h2 = Memory.ub h1) by done. clearbody h2. destruct M2 as [M2 U2].
  assert (RV : received k bs s h h2).
  { assert (Rp : in_range (Memory.cells h1) (Ptr.add pin (Z.of_nat k)) (zlen bs)) by (rewrite EZ; apply in_range_add; [by apply KR|lia]).
    assert (S1 : spares h h1) by (by eapply spares_new).
    split; [split; [by exists a|done| | |]|split; [|split]].
    - destruct W1 as [W1 W2]. split; rewrite M2; [done|]. by rewrite C2, dom_poke.
    - rewrite C2, in_range_poke by done. by apply KR.
    - rewrite C2, in_range_poke by done. by apply KR.
    - congruence.
    - eapply spares_trans; [exact S1|]. apply spares_dom; [by rewrite M2|by rewrite C2, dom_poke].
    - rewrite C2, peek_grow by (done || by apply KR). f_equal. unfold peek.
      rewrite C1, lookup_insert_ne by (apply not_eq_sym; by eapply Nb). done. }
  specialize (HQ h2 RV). unfold last_slice in HQ. destruct (Nat.eqb_spec (k + length bs) n) as [El|El].
  - rewrite (proj2 (Z.eqb_eq _ _)) by lia. apply wp_bind. eapply wp_mono; [exact HQ|].
    intros [r resp] [s' h'] [E HQ']. cbn [fst snd] in *. subst r. by apply wp_ret.
  - rewrite (proj2 (Z.eqb_neq _ _)) by lia. by apply wp_ret.
Qed.

(** The answer to the last slice: the best classes of the model's output. *)
Definition answered (image : list Z) (r : Z * option Response.t) : Prop :=
  exists resp res, r = (RETCODE_SUCCESS, Some resp) /\
    DataInfo.content (Response.result resp) = trailer (ser_all [handle_obj handle; VItems (item_bytes <$> res)]) /\
    top m (score_of (run_model image)) (Nat.min (Z.to_nat (PluginConfig.outputSize (ICPluginConfig.base c))) m) res.

Lemma items_wf (res : list Item.t) : value_wf (VItems (item_bytes <$> res)).
Proof.
  split; unfold elems_wf; rewrite <- list_fmap_compose; apply Forall_fmap, Forall_forall; intros x _; apply length_le.
Qed.

Lemma zlen_answer (res : list Item.t) :
  (length res <= m)%nat -> zlen (ser_all [handle_obj handle; VItems (item_bytes <$> res)]) <= 2 ^ 24.
Proof.
  intros Hl. destruct (items_wf res) as [W1 W2].
  unfold ser_all. cbn -[le size_t_bytes]. rewrite app_nil_r, !zlen_app, !zlen_size_t.
  rewrite !(DecoderFacts.zlen_concat 4) by done. unfold zlen. rewrite !length_fmap. lia.
Qed.

(** The answer fits a message of the IPC layer. *)
Lemma zlen_answer_small (res : list Item.t) :
  (length res <= m)%nat -> Z.of_nat m <= 2 ^ 16 ->
  zlen (trailer (ser_all [handle_obj handle; VItems (item_bytes <$> res)])) <= 2 ^ 20.
Proof.
  intros Hl Hsmall. destruct (items_wf res) as [W1 W2].
  unfold trailer, ser_all. cbn -[le size_t_bytes]. rewrite app_nil_r, !zlen_app, !zlen_size_t.
  rewrite !(DecoderFacts.zlen_concat 4) by done. unfold zlen. rewrite !length_fmap. lia.
Qed.

Lemma do_process_spec s h image req :
  prepared s h -> peek (Memory.cells h) pin (Z.of_nat n) = image ->
  wp (DoProcess handle c req None) (fun r s' => r.1 = RETCODE_SUCCESS /\ answered image r /\ Memory.ub s'.2 = Memory.ub h /\
    handed h s'.2 (default DataInfo.null (Response.result <$> r.2)) /\ prepared s'.1 s'.2) (s, h).
Proof.
  intros [[a PA] PH PW PI PO] EI. unfold DoProcess, MakeInference. apply wp_bind, wp_bind.
  eapply wp_call; [exact PA|]. eapply wp_mono; [by apply Hengine|]. intros r [a' h1] [-> E1]. cbn [fst snd] in *.
  rewrite Z.eqb_refl. cbn [negb].
  assert (LM : zlen (run_model image) = Z.of_nat (m * SIZEOF_INT32)) by (unfold zlen; by rewrite Hmodel).
  assert (C1 : Memory.cells h1 = poke (Memory.cells h) pout (run_model image)).
  { rewrite E1. cbn. by rewrite EI. }
  assert (PO1 : in_range (Memory.cells h1) pout (Z.of_nat (m * SIZEOF_INT32))) by (rewrite C1, in_range_poke; by rewrite ?LM).
  assert (Hpeek : peek (Memory.cells h1) pout (Z.of_nat (m * SIZEOF_INT32)) = run_model image).
  { rewrite C1, <- LM. apply peek_poke_same. by rewrite LM. }
  apply wp_bind, wp_on_memory. rewrite Hout, Houtsize.
  eapply wp_mono; [apply (get_top_k_spec m (score_of (run_model image)) pout h1); [done|unfold INT_MAX; lia|by intros; rewrite Hpeek|done]|].
  intros [r res] h2 (-> & E2 & T). cbn [fst snd] in *. subst r. rewrite Z.eqb_refl. cbn [negb].
  pose proof (zlen_answer res ltac:(rewrite (top_length _ _ _ _ T); lia)) as LA.
  assert (M1 : Memory.mem h1 = Memory.mem h) by by rewrite E1.
  assert (W1 : Memory.wf h1) by (destruct PW; split; rewrite M1; [done|by rewrite C1, dom_poke]).
  assert (S1 : spares h h1) by (apply spares_dom; [by rewrite M1|by rewrite C1, dom_poke]).
  apply wp_on_memory. eapply wp_mono; [apply encode_handed; [done|done| |unfold INT_MAX; lia]|].
  { repeat apply Forall_cons_2; try apply Forall_nil_2; [done|apply items_wf]. }
  intros [r d] h3 (E & _ & HD & HH & C3 & U3). cbn [fst snd] in *. subst r.
  rewrite Z.eqb_refl. cbn [negb]. apply wp_bind, wp_on_memory. unfold respond. apply wp_bind, wp_on_mem.
  unfold Response.Create. apply wp_bind. unfold AIE_NEW, wp at 1. cbn. rewrite Hnew. apply wp_ret. cbn. apply wp_ret, wp_ret. cbn.
  split; [done|]. split; [eexists _, res; split; [done|]; split; [exact HD|done]|]. split; [by rewrite U3, E1|].
  split; [apply (handed_after h h1); [done|]; by apply (handed_before h1 h3); [|..|apply HH]|].
  assert (C4 : forall q l, in_range (Memory.cells h3) q l = in_range (Memory.cells h) q l).
  { intros q l. rewrite C3, C1. apply in_range_poke. by rewrite LM. }
  split; cbn; rewrite ?C4; try done; apply HH.
Qed.

Lemma send_slices_spec slices : forall k s h sent,
  prepared s h -> peek (Memory.cells h) pin (Z.of_nat k) = sent ->
  slices <> [] -> Forall (fun bs => bs <> [] /\ Forall DecoderFacts.is_byte bs) slices ->
  (k + length (concat slices) = n)%nat ->
  wp (send_slices (Z.of_nat k) slices) (fun rs s' => Memory.ub s'.2 = Memory.ub h /\ exists r,
    rs = replicate (length slices - 1) (RETCODE_SUCCESS, None) ++ [r] /\ answered (sent ++ concat slices) r) (s, h).
Proof.
  induction slices as [|bs rest IH]; intros k s h sent PR PS Hne HF Hlen; [done|].
  apply Forall_cons in HF as [[Hb1 Hb2] HF]. cbn [concat] in Hlen. rewrite length_app in Hlen.
  cbn [send_slices]. apply wp_bind. apply (sync_process_slice s h k bs); [done|done| |lia|].
  { apply slice_carries; [done|done|unfold zlen; lia]. }
  intros h1 (PR1 & U1 & _ & P1). rewrite PS in P1. unfold last_slice.
  assert (EK : Z.of_nat k + zlen bs = Z.of_nat (k + length bs)) by (unfold zlen; lia). rewrite EK.
  destruct (Nat.eqb_spec (k + length bs) n) as [El|El].
  - assert (rest = []) as ->.
    { destruct rest as [|b2 rest]; [done|]. apply Forall_cons in HF as [[Hr _] _]. cbn in Hlen. rewrite length_app in Hlen.
      destruct b2; [done|cbn in Hlen; lia]. }
    rewrite El in P1. eapply wp_mono; [by apply do_process_spec|]. intros r [s' h'] (E & A & U & _). cbn [fst snd] in *.
    split; [done|]. cbn [send_slices]. apply wp_bind, wp_ret, wp_ret. split; [cbn [fst snd]; congruence|].
    exists r. cbn. rewrite app_nil_r. by split.
  - apply wp_bind. eapply wp_mono; [apply (IH (k + length bs)%nat s h1 (sent ++ bs)); try done|].
    + intros ->. cbn in Hlen. lia.
    + lia.
    + intros rs s' (U & r & -> & A). apply wp_ret. split; [by rewrite U|]. exists r.
      rewrite <- app_assoc in A. split; [|exact A]. destruct rest as [|b2 rest]; [cbn in *; lia|]. cbn [length].
      rewrite Nat.sub_succ, Nat.sub_0_r. done.
Qed.
End slices.

(** ** Setting up *)

Section setting_up.
  Context `{!Allocator, !Securec, !AllocatorLaws, !EngineAdapter}.
  Context (HR : resources) (handle : Z) (pin pout : Ptr.t) (n m : nat).

(** The engine loads the classification model under [handle]. *)
Definition model_loads : Prop :=
  engine_loads PLUGIN_MODEL_PATH MODEL_INPUT_NODE_ID MODEL_OUTPUT_NODE_ID handle pin pout (Z.of_nat n) (Z.of_nat m).

(** What the plugin makes of it. *)
Definition model_config : ICPluginConfig.t :=
  ICPluginConfig.mk (PluginConfig.mk (Z.of_nat n) DEFAULT_OUTPUT_SIZE (Some pin) (Some pout)) (Z.of_nat m).

Lemma ic_build_config_spec a h :
  model_loads -> wp (BuildConfig handle) (fun r s => r = (RETCODE_SUCCESS, model_config) /\
    is_Some (adapter_ s.1) /\ handles_ s.1 = ∅ /\ s.2 = h) (mk (Some a) ∅, h).
Proof.
  intros [_ _ EI EO]. unfold BuildConfig, engine. apply wp_bind.
  eapply wp_call; [done|]. eapply wp_mono; [apply EI|]. intros r [a' h1] [-> E1]. cbn [fst snd] in *. subst h1.
  rewrite Z.eqb_refl. cbn [negb]. apply wp_bind. eapply wp_call; [done|]. eapply wp_mono; [apply EO|].
  intros r [a2 h1] [-> E1]. cbn [fst snd] in *. subst h1. rewrite Z.eqb_refl. cbn [negb]. apply wp_ret. split_and!; done.
Qed.

Lemma ic_prepare_spec h :
  model_loads -> Memory.wf h ->
  in_range (Memory.cells h) pin (Z.of_nat n) -> in_range (Memory.cells h) pout (Z.of_nat (m * SIZEOF_INT32)) ->
  wp (Prepare DataInfo.null) (fun r s => r.1 = RETCODE_SUCCESS /\
    DataInfo.content r.2 = trailer (ser_all [handle_obj handle]) /\ Memory.ub s.2 = Memory.ub h /\
    handed h s.2 r.2 /\ IpcFacts.di_ok r.2 /\ prepared handle model_config pin pout n m s.1 s.2) (ctor, h).
Proof.
  intros EL W Rin Rout. pose proof EL as [[a0 EN] EI _ _]. unfold Prepare. apply wp_bind, wp_self. cbn [adapter_ ctor].
  apply wp_bind, wp_set_self, wp_bind, wp_self. change (_ <| adapter_ := new_adapter |>) with (mk new_adapter ∅). rewrite EN. cbn [adapter_].
  apply wp_bind. unfold engine at 1. eapply wp_call; [done|]. eapply wp_mono; [apply EI|]. intros r [a1 h1] [-> E1].
  cbn [fst snd] in *. subst h1. rewrite Z.eqb_refl. cbn [negb]. apply wp_bind, wp_self.
  change (_ <| adapter_ := Some a1 |>) with (mk (Some a1) ∅). cbn [handles_]. rewrite lookup_empty.
  apply wp_bind. eapply wp_mono; [by apply ic_build_config_spec|]. intros r [s2 h2] (-> & HA & EH & E2). cbn [fst snd] in *. subst h2.
  rewrite Z.eqb_refl. cbn [negb]. apply wp_bind, wp_set_self, wp_on_memory.
  assert (LA : zlen (ser_all [handle_obj handle]) = 8) by (unfold zlen; cbn -[le]; by rewrite app_nil_r, length_le).
  eapply wp_mono; [apply (encode_handed [handle_obj handle]); [done|done|by repeat constructor|rewrite LA; unfold INT_MAX; lia]|].
  intros r h4 (E & _ & HD & HH & C4 & U4). cbn [fst snd]. split; [done|]. split; [done|]. split; [done|]. split; [done|].
  split; [apply whole_ok; [apply HH|]|].
  { rewrite (proj1 (handed_whole _ _ _ HH)), HD. unfold trailer. rewrite zlen_app, zlen_size_t, LA. by unfold MAX_SHM_DATA_SIZE. }
  split; cbn; rewrite ?EH, ?C4; [done|by rewrite lookup_insert_eq|apply HH|done|done].
Qed.

End setting_up.
End IcPluginFacts.

(** ** Properties *)

Import ICPlugin IcPluginFacts.

(** C26. [GetTopK] of [n] scores returns the [min topK n] best classes: every
    entry carries the index and the score of a class, no class twice, best first,
    and no class that is left out has a higher score than one that is returned.
    It reads nothing outside the [n] scores and changes no memory. *)
Theorem get_top_k_correct `{!StdHeap, !StdHeapLaws} (p : Ptr.t) (n : nat) (topK : Z) (h : Memory.t) :
  in_range (Memory.cells h) p (Z.of_nat (n * SIZEOF_INT32)) -> Z.of_nat n <= INT_MAX -> 0 < topK ->
  let out := peek (Memory.cells h) p (Z.of_nat (n * SIZEOF_INT32)) in
  let '((r, res), h') := GetTopK (Some p) (Z.of_nat n) topK h in
  r = RETCODE_SUCCESS /\ h' = h /\ top n (score_of out) (Nat.min (Z.to_nat topK) n) res.
Proof.
  intros Hr Hmax Hk out. pose proof (get_top_k_spec n (score_of out) p h Hr Hmax (fun _ _ => eq_refl) topK Hk) as U.
  unfold wp in U. destruct (GetTopK _ _ _ h) as [[r res] h']. cbn [fst snd] in U. naive_solver.
Qed.

(** An image of the model's input size that arrives in any number of
    non-empty slices, in order, is put together in the model's input: every
    slice but the last succeeds without a response, and the last one runs the
    model on exactly this image and answers with the handle and the best classes
    of its output, encoded.  No access leaves a block. *)
Theorem ic_slices_assemble
    `{!Allocator, !Securec, !AllocatorLaws, !SecurecMemory, !SecurecMemoryLaws, !StdHeap, !StdHeapLaws, !EngineAdapter}
    (handle : Z) (c : ICPluginConfig.t) (pin pout : Ptr.t) (n m : nat) (run_model : list Z -> list Z)
    (slices : list (list Z)) (s : t) (h : Memory.t) :
  resources -> (forall t, new_ok t = true) ->
  - 2 ^ 63 <= handle < 2 ^ 63 -> Z.of_nat n <= 2 ^ 30 -> Z.of_nat m <= 2 ^ 20 -> Ptr.block pin <> Ptr.block pout ->
  PluginConfig.inputAddr (ICPluginConfig.base c) = Some pin -> PluginConfig.inputSize (ICPluginConfig.base c) = Z.of_nat n ->
  PluginConfig.outputAddr (ICPluginConfig.base c) = Some pout -> ICPluginConfig.maxOutputSize c = Z.of_nat m ->
  0 < PluginConfig.outputSize (ICPluginConfig.base c) ->
  engine_runs handle pin pout n m run_model -> (forall i, length (run_model i) = (m * SIZEOF_INT32)%nat) ->
  prepared handle c pin pout n m s h -> slices <> [] ->
  Forall (fun bs => bs <> [] /\ Forall DecoderFacts.is_byte bs) slices -> length (concat slices) = n ->
  let '(rs, s') := send_slices handle 0 slices (s, h) in
  Memory.ub s'.2 = Memory.ub h /\ exists r,
    rs = replicate (length slices - 1) (RETCODE_SUCCESS, None) ++ [r] /\
    answered handle c m run_model (concat slices) r.
Proof.
  intros HR Hnew Hh Hn Hm Hb C1 C2 C3 C4 C5 He Hmod PR Hne HF Hlen.
  assert (P0 : peek (Memory.cells h) pin (Z.of_nat 0) = []).
  { unfold peek. case_match; [|done]. unfold read_at. by rewrite take_0. }
  pose proof (send_slices_spec HR Hnew handle c pin pout n m run_model Hh Hn Hm Hb C1 C2 C3 C4 C5 He Hmod slices 0%nat s h []
    PR P0 Hne HF Hlen) as U.
  unfold wp in U. change (Z.of_nat 0) with 0 in U. by destruct (send_slices handle 0 slices (s, h)) as [rs s'].
Qed.

(** ** Witnesses *)

Import SecurecSample HeapSample.
#[local] Existing Instances sys_alloc sys_securec sys_alloc_laws.

(** A model of three classes whose scores are the first three pixels. *)
Definition sample_model (image : list Z) : list Z := le 4 (nth 0 image 0) ++ le 4 (nth 1 image 0) ++ le 4 (nth 2 image 0).
Definition sample_in : Ptr.t := Ptr.mk 0 0.
Definition sample_out : Ptr.t := Ptr.mk 1 0.

#[local] Instance sample_engine : EngineAdapter := {|
  adapter := unit;
  new_adapter := Some tt;
  engine_Init := fun _ => mret (RETCODE_SUCCESS, 77);
  engine_Deinit := mret RETCODE_SUCCESS;
  engine_Invoke := fun _ s => (RETCODE_SUCCESS, (s.1, s.2 <| Memory.cells ::= fun cs =>
                     poke cs sample_out (sample_model (peek cs sample_in (Z.of_nat 4))) |>));
  engine_GetInputAddr := fun _ _ => mret (RETCODE_SUCCESS, (Some sample_in, 4));
  engine_GetOutputAddr := fun _ _ => mret (RETCODE_SUCCESS, (Some sample_out, 3));
  engine_ReleaseHandle := fun _ => mret RETCODE_SUCCESS;
|}.

Definition buffers : Memory.t := ((new_array 4 ;; new_array 12) Memory.empty).2.
Definition after_prepare : t * Memory.t := (Prepare DataInfo.null (ctor, buffers)).2.
Definition sample_cfg : ICPluginConfig.t := ICPluginConfig.mk (PluginConfig.mk 4 DEFAULT_OUTPUT_SIZE (Some sample_in) (Some sample_out)) 3.
Definition sample_slices : list (list Z) := [[5]; [9; 7]; [1]].

Lemma sample_prepared : prepared 77 sample_cfg sample_in sample_out 4 3 after_prepare.1 after_prepare.2.
Proof. split; [by eexists|done|apply wf_decide; vm_compute; reflexivity|done|done]. Qed.

Lemma get_top_k_correct_witness :
  let h := (store (Some sample_out) (sample_model [5; 9; 7]) buffers).2 in
  let out := peek (Memory.cells h) sample_out (Z.of_nat (3 * SIZEOF_INT32)) in
  let '((r, res), h') := GetTopK (Some sample_out) (Z.of_nat 3) 2 h in
  r = RETCODE_SUCCESS /\ h' = h /\ top 3 (score_of out) (Nat.min (Z.to_nat 2) 3) res.
Proof. apply (get_top_k_correct sample_out 3 2 (store (Some sample_out) (sample_model [5; 9; 7]) buffers).2); vm_compute; done. Defined.

Lemma ic_slices_assemble_witness :
  let '(rs, s') := send_slices 77 0 sample_slices (after_prepare.1, after_prepare.2) in
  Memory.ub s'.2 = Memory.ub after_prepare.2 /\ exists r,
    rs = replicate (length sample_slices - 1) (RETCODE_SUCCESS, None) ++ [r] /\
    answered 77 sample_cfg 3 sample_model (concat sample_slices) r.
Proof.
  apply (ic_slices_assemble 77 sample_cfg sample_in sample_out 4 3 sample_model sample_slices after_prepare.1 after_prepare.2);
    [apply sys_resources|done|vm_compute; split; done|vm_compute; done..|by intros a h ??|done|apply sample_prepared|done| |done].
  repeat constructor; done.
Defined.

(** The classes 1, 2 and 0 with the scores 9, 7 and 5. *)
Example sample_answer :
  let '(rs, _) := send_slices 77 0 sample_slices after_prepare in
  (fun r => DataInfo.content (Response.result r)) <$> (rs ≫= fun r => option_list r.2) =
  [trailer (ser_all [handle_obj 77; VItems [(le 4 1, le 4 9); (le 4 2, le 4 7); (le 4 0, le 4 5)]])].
Proof. vm_compute. reflexivity. Qed.

(** The arrays the slices are decoded into are never deleted: three of them and
    the encoded answer are live after the three requests. *)
Example slices_stay_allocated :
  let '(_, s') := send_slices 77 0 sample_slices after_prepare in
  size (Mem.live (Memory.mem s'.2)) = (size (Mem.live (Memory.mem after_prepare.2)) + 3 + 1)%nat.
Proof. vm_compute. reflexivity. Qed.

(** A plugin that is destroyed before [Prepare] has created an adapter uses a
    null pointer. *)
Lemma destroyed_before_prepare `{!EngineAdapter} h : Memory.ub (dtor (ctor, h)).2.2 = true.
Proof. done. Qed.
