(* ===== verification/KwsPlugin.v ===== *)
(** * KwsPlugin: the keyword spotting plugin

    kws_plugin.cpp over [PluginBase] and the feature processors: each handle has
    a workplace of a normaliser, a type converter and a sliding window; a request
    of audio samples goes through the three of them into the model's input.  The
    constants of kws_constants.h that the plugin does not use are in [KwsSdk].
    The guards of [mutex_] are left out: one call runs at a time. *)

From Stdlib Require Import ZArith Lia SpecFloat.
From stdpp Require Import gmap strings list sorting.
From S2P Require Import Prelude Protocol Encdec Memory Float32 Feature NormProcessor PluginBase.

#[local] Open Scope Z_scope.

(** ** kws_constants.h *)

Definition INVALID_KWS_HANDLE : Z := -1.
Definition CLIENT_VERSION_KWS : Z := 20001001.
Definition ALGOTYPE_VERSION_KWS : Z := 20001002.
Definition DEFAULT_SLIDE_WINDOW_SIZE : Z := 4000.
Definition DEFAULT_SLIDE_STEP_SIZE : Z := 400.
Definition DEFAULT_NORM_MEAN_FILE_PATH : string := "/storage/data/kws_mean.txt".
Definition DEFAULT_NORM_STD_FILE_PATH : string := "/storage/data/kws_std.txt".
Definition DEFAULT_NORM_INPUT_SIZE : Z := DEFAULT_SLIDE_STEP_SIZE.
Definition DEFAULT_NORM_NUM_CHANNELS : Z := 40.
Definition DEFAULT_NORM_SCALE : spec_float := float_of_Z 4096.

(** The multiplier a [SlideWindowProcessorConfig] starts with. *)
Definition DEFAULT_BUFFER_MULTIPLIER : Z := 4.

Definition PLUGIN_MODEL_PATH : string := "/storage/data/keyword_spotting.wk".
Definition DEFAULT_INFER_MODE : string := "SYNC".
Definition ALGORITHM_NAME_KWS : string := "KWS".
Definition MODEL_INPUT_NODE_ID : Z := 0.
Definition MODEL_OUTPUT_NODE_ID : Z := 0.

(** ** [KWSWorkplace] *)

Module KWSWorkplace.
Record t := mk {
  config : PluginConfig.t;
  normProcessor : NormProcessor.t;
  typeConverter : TypeConverter.t;
  slideProcessor : SlideWindow.t;
}.
#[global] Instance eta_kws_workplace : Eta t := fun r =>
  mk (config r) (normProcessor r) (typeConverter r) (slideProcessor r).
End KWSWorkplace.

Section workplace.
  Context `{!Allocator, !SecurecMemory, !Files}.
  Import KWSWorkplace.

Definition new_workplace (c : PluginConfig.t) : KWSWorkplace.t := mk c NormProcessor.ctor TypeConverter.ctor SlideWindow.ctor.

Definition InitWorkplace (slideCfg : SlideWindow.config) (convertCfg : TypeConverter.config)
    (normCfg : NormProcessor.config) : ST (KWSWorkplace.t * Memory.t) Z :=
  r ← on_member slideProcessor (SlideWindow.Init (Some slideCfg));
  if negb (r =? RETCODE_SUCCESS) then mret RETCODE_FAILURE else
  r ← on_member typeConverter (TypeConverter.Init (Some convertCfg));
  if negb (r =? RETCODE_SUCCESS) then mret RETCODE_FAILURE else
  r ← on_member normProcessor (NormProcessor.Init (Some normCfg));
  if negb (r =? RETCODE_SUCCESS) then mret RETCODE_FAILURE else
  mret RETCODE_SUCCESS.

(** The last reference to the processors goes: their destructors release them. *)
Definition destroy_processors : ST (KWSWorkplace.t * Memory.t) unit :=
  on_member slideProcessor SlideWindow.Release ;;
  on_member typeConverter TypeConverter.Release ;;
  on_member normProcessor NormProcessor.Release.

Definition slideWindowConfig : SlideWindow.config :=
  SlideWindow.Config INT32 DEFAULT_BUFFER_MULTIPLIER DEFAULT_SLIDE_STEP_SIZE DEFAULT_SLIDE_WINDOW_SIZE.
Definition convertConfig : TypeConverter.config := TypeConverter.Config INT32 DEFAULT_SLIDE_STEP_SIZE.
Definition normConfig : NormProcessor.config :=
  NormProcessor.Config DEFAULT_NORM_MEAN_FILE_PATH DEFAULT_NORM_STD_FILE_PATH DEFAULT_NORM_NUM_CHANNELS
    DEFAULT_NORM_INPUT_SIZE DEFAULT_NORM_SCALE.

Definition InitComponents : ST (KWSWorkplace.t * Memory.t) Z :=
  r ← InitWorkplace slideWindowConfig convertConfig normConfig;
  if negb (r =? RETCODE_SUCCESS) then destroy_processors ;; mret RETCODE_FAILURE
  else mret RETCODE_SUCCESS.

(** Normalise, convert to integers, slide. *)
Definition GetNormedFeatures (input : Arr.t) : ST (KWSWorkplace.t * Memory.t) (Z * Arr.t) :=
  let none := Arr.mk None 0 in
  n ← on_member normProcessor
        (NormProcessor.Process (FeatureData.mk UINT16 (Arr.data input) (Arr.size input)) (FeatureData.empty FLOAT));
  if negb (n.1 =? RETCODE_SUCCESS) then mret (RETCODE_FAILURE, none) else
  c ← on_member typeConverter (TypeConverter.Process n.2 (FeatureData.empty INT32));
  if negb (c.1 =? RETCODE_SUCCESS) then mret (RETCODE_FAILURE, none) else
  w ← on_member slideProcessor (SlideWindow.Process c.2 (FeatureData.empty INT32));
  if negb (w.1 =? RETCODE_SUCCESS) then mret (RETCODE_FAILURE, none) else
  mret (RETCODE_SUCCESS, Arr.mk (FeatureData.data w.2) (FeatureData.size w.2)).

End workplace.

(** Cut bytes into objects of [sz] bytes. *)
Fixpoint objects (n sz : nat) (bs : list Z) : list (list Z) :=
  match n with O => [] | S n' => take sz bs :: objects n' sz (drop sz bs) end.

(** The value [Array<int32_t>{data, size}] that is encoded. *)
Definition load_array (data : option Ptr.t) (size : Z) : ST Memory.t value :=
  match data with
  | None => mret (VArray [])
  | Some _ => bs ← load data (size * Z.of_nat SIZEOF_INT32); mret (VArray (objects (Z.to_nat size) SIZEOF_INT32 bs))
  end.

(** ** [KWSPlugin] *)

Module KWSPlugin.

Section plugin.
  Context `{!Allocator, !Securec, !SecurecMemory, !Files, !EngineAdapter}.

Record t := mk { adapter_ : option adapter; handles_ : gmap Z KWSWorkplace.t }.
#[global] Instance eta_kws_plugin : Eta t := fun r => mk (adapter_ r) (handles_ r).

Definition ctor : t := mk None ∅.

Definition engine {R} (dflt : R) (m : ST (adapter * Memory.t) R) : ST (t * Memory.t) R := call adapter_ dflt m.

Definition GetVersion : Z := ALGOTYPE_VERSION_KWS.
Definition GetName : string := ALGORITHM_NAME_KWS.
Definition GetInferMode : string := DEFAULT_INFER_MODE.

(** Run an operation of the workplace behind an iterator of [handles_]. *)
Definition on_workplace {R} (handle : Z) (dflt : R) (m : ST (KWSWorkplace.t * Memory.t) R) : ST (t * Memory.t) R := fun s =>
  match handles_ s.1 !! handle with
  | Some w => let '(r, (w', h)) := m (w, s.2) in (r, (s.1 <| handles_ ::= <[handle := w']> |>, h))
  | None => (dflt, s)
  end.

(** [handles_.erase(iter)] *)
Definition erase (handle : Z) : ST (t * Memory.t) unit :=
  on_workplace handle tt destroy_processors ;; set_self (fun s => s <| handles_ ::= delete handle |>).

Definition FreeHandle (handle : Z) : ST (t * Memory.t) unit :=
  hs ← self handles_;
  match hs !! handle with Some _ => erase handle | None => mret tt end.

(** The keys of a [std::map], in order. *)
Definition keys {V} (m : gmap Z V) : list Z := merge_sort Z.le (map_to_list m).*1.

Definition ReleaseAllHandles : ST (t * Memory.t) unit :=
  hs ← self handles_;
  for_each (fun h => engine RETCODE_FAILURE (engine_ReleaseHandle h) ;; mret tt) (keys hs) ;;
  engine RETCODE_FAILURE engine_Deinit ;;
  for_each erase (keys hs).

Definition dtor : ST (t * Memory.t) unit := ReleaseAllHandles.

Definition BuildConfig (handle : Z) : ST (t * Memory.t) (Z * PluginConfig.t) :=
  let none := PluginConfig.mk 0 0 None None in
  a ← self adapter_;
  match a with
  | None => mret (RETCODE_NULL_PARAM, none)
  | Some _ =>
      i ← engine (RETCODE_FAILURE, (None, 0)) (engine_GetInputAddr handle MODEL_INPUT_NODE_ID);
      if negb (i.1 =? RETCODE_SUCCESS) then mret (RETCODE_NULL_PARAM, none) else
      o ← engine (RETCODE_FAILURE, (None, 0)) (engine_GetOutputAddr handle MODEL_OUTPUT_NODE_ID);
      if negb (o.1 =? RETCODE_SUCCESS) then mret (RETCODE_NULL_PARAM, none) else
      mret (RETCODE_SUCCESS, PluginConfig.mk i.2.2 o.2.2 i.2.1 o.2.1)
  end.

(** The workplace is a local object until it is put into [handles_]. *)
Definition build_workplace (c : PluginConfig.t) : ST (t * Memory.t) (Z * KWSWorkplace.t) := fun s =>
  let '(r, (w, h)) := InitComponents (new_workplace c, s.2) in ((r, w), (s.1, h)).

Definition Prepare (outputInfo : DataInfo.t) : ST (t * Memory.t) (Z * DataInfo.t) :=
  a ← self adapter_;
  (match a with None => set_self (fun s => s <| adapter_ := new_adapter |>) | Some _ => mret tt end) ;;
  a ← self adapter_;
  match a with
  | None => mret (RETCODE_FAILURE, outputInfo)
  | Some _ =>
      r ← engine (RETCODE_FAILURE, 0) (engine_Init PLUGIN_MODEL_PATH);
      if negb (r.1 =? RETCODE_SUCCESS) then mret (RETCODE_FAILURE, outputInfo) else
      hs ← self handles_;
      match hs !! r.2 with
      | Some _ => mret (RETCODE_SUCCESS, outputInfo)
      | None =>
          c ← BuildConfig r.2;
          if negb (c.1 =? RETCODE_SUCCESS) then mret (RETCODE_FAILURE, outputInfo) else
          w ← build_workplace c.2;
          if negb (w.1 =? RETCODE_SUCCESS) then mret (RETCODE_FAILURE, outputInfo) else
          set_self (fun s => s <| handles_ ::= <[r.2 := w.2]> |>) ;;
          on_memory (on_mem (EncdecFacade.ProcessEncode [handle_obj r.2]))
      end
  end.

Definition MakeInference (handle : Z) (input : Arr.t) (config : PluginConfig.t) : ST (t * Memory.t) (Z * DataInfo.t) :=
  a ← self adapter_;
  if bool_decide (a = None :> option adapter) || bool_decide (PluginConfig.inputAddr config = None) ||
     bool_decide (PluginConfig.outputAddr config = None)
  then mret (RETCODE_NULL_PARAM, DataInfo.null) else
  if bool_decide (Arr.data input = None) || negb (Arr.size input =? PluginConfig.inputSize config)
  then mret (RETCODE_FAILURE, DataInfo.null) else
  let bufferSize := u64 (PluginConfig.inputSize config * Z.of_nat SIZEOF_INT32) in
  retCode ← on_memory (memcpy_s (PluginConfig.inputAddr config) bufferSize (Arr.data input) bufferSize);
  if negb (retCode =? EOK) then mret (RETCODE_NULL_PARAM, DataInfo.null) else
  ret ← engine RETCODE_FAILURE (engine_Invoke handle);
  if negb (ret =? RETCODE_SUCCESS) then mret (RETCODE_FAILURE, DataInfo.null) else
  result ← on_memory (load_array (PluginConfig.outputAddr config) (PluginConfig.outputSize config));
  on_memory (on_mem (EncdecFacade.ProcessEncode [handle_obj handle; result])).

(** The code with the response it leaves in its reference argument. *)
Definition SyncProcess (request : option Request.t) (response : option Response.t) :
    ST (t * Memory.t) (Z * option Response.t) :=
  match request with
  | None => mret (RETCODE_NULL_PARAM, response)
  | Some req =>
      let inputInfo := Request.msg req in
      if bool_decide (DataInfo.data inputInfo = None) || (DataInfo.length inputInfo <=? 0)
      then mret (RETCODE_NULL_PARAM, response) else
      r ← on_memory (ProcessDecodeArray inputInfo [TObj SIZEOF_INTPTR] 2);
      let '(ret, (vs, audioInput)) := r in
      if negb (ret =? RETCODE_SUCCESS) then mret (RETCODE_FAILURE, response) else
      let handle := handle_val (nth 0 vs (VObj [])) in
      hs ← self handles_;
      match hs !! handle with
      | None => mret (RETCODE_NULL_PARAM, response)
      | Some w =>
          f ← on_workplace handle (RETCODE_FAILURE, Arr.mk None 0) (GetNormedFeatures audioInput);
          if negb (f.1 =? RETCODE_SUCCESS) then mret (RETCODE_FAILURE, response) else
          r ← MakeInference handle f.2 (KWSWorkplace.config w);
          if negb (r.1 =? RETCODE_SUCCESS) then mret (RETCODE_FAILURE, response) else
          response ← on_memory (respond req r.2);
          mret (RETCODE_SUCCESS, response)
      end
  end.

Definition AsyncProcess (request : option Request.t) : ST (t * Memory.t) Z := mret RETCODE_SUCCESS.

Definition SetOption (optionType : Z) (inputInfo : DataInfo.t) : ST (t * Memory.t) Z :=
  if bool_decide (DataInfo.data inputInfo = None) then mret RETCODE_FAILURE else mret RETCODE_SUCCESS.

Definition GetOption (optionType : Z) (inputInfo outputInfo : DataInfo.t) : ST (t * Memory.t) (Z * DataInfo.t) :=
  if bool_decide (DataInfo.data inputInfo = None) || (DataInfo.length inputInfo <=? 0)
  then mret (RETCODE_FAILURE, outputInfo) else
  r ← on_memory (on_mem (EncdecFacade.ProcessDecode inputInfo [TObj SIZEOF_INTPTR]));
  if negb (r.1 =? RETCODE_SUCCESS) then mret (RETCODE_FAILURE, outputInfo) else
  let handle := handle_val (nth 0 r.2 (VObj [])) in
  hs ← self handles_;
  match hs !! handle with
  | None => mret (RETCODE_FAILURE, outputInfo)
  | Some w =>
      let outputInfo := outputInfo <| DataInfo.length := 0 |> in
      let encode n := on_memory (on_mem (EncdecFacade.ProcessEncode [handle_obj handle; obj SIZEOF_SIZE_T n])) in
      if optionType =? OPTION_GET_INPUT_SIZE then encode (PluginConfig.inputSize (KWSWorkplace.config w))
      else if optionType =? OPTION_GET_OUTPUT_SIZE then encode (PluginConfig.outputSize (KWSWorkplace.config w))
      else mret (RETCODE_FAILURE, outputInfo)
  end.

Definition Release (isFullUnload : bool) (inputInfo : DataInfo.t) : ST (t * Memory.t) Z :=
  a ← self adapter_;
  match a with
  | None => mret RETCODE_FAILURE
  | Some _ =>
      r ← on_memory (on_mem (EncdecFacade.ProcessDecode inputInfo [TObj SIZEOF_INTPTR]));
      if negb (r.1 =? RETCODE_SUCCESS) then mret RETCODE_FAILURE else
      let handle := handle_val (nth 0 r.2 (VObj [])) in
      ret ← engine RETCODE_FAILURE (engine_ReleaseHandle handle);
      if negb (ret =? RETCODE_SUCCESS) then mret RETCODE_FAILURE else
      FreeHandle handle ;;
      if isFullUnload then
        ret ← engine RETCODE_FAILURE engine_Deinit;
        if negb (ret =? RETCODE_SUCCESS) then mret RETCODE_FAILURE else mret RETCODE_SUCCESS
      else mret RETCODE_SUCCESS
  end.

End plugin.
End KWSPlugin.
