(* ===== verification/PluginHost.v ===== *)
(** * PluginHost: the plugins as the server's algorithms

    i_plugin.h: the interface of a plugin and the classes of the repository that
    implement it.  The server calls its algorithms through this interface; here a
    plugin, which runs on the memory of the process, becomes one of the
    algorithms of [Executor]. *)

From Stdlib Require Import ZArith Lia.
From stdpp Require Import gmap strings list.
From S2P Require Import Prelude Protocol Encdec Memory NormProcessor FutureFactory Executor PluginBase IcPlugin KwsPlugin.

#[local] Open Scope Z_scope.

(** The plugins [m] of [PLUGIN_INTERFACE]. *)
Module IPlugin.

Class t := {
  object : Type;
  PLUGIN_INTERFACE : object;
  GetVersion : Z;
  GetName : string;
  GetInferMode : string;
  SyncProcess : option Request.t -> option Response.t -> ST (object * Memory.t) (Z * option Response.t);
  (** with the calls of [callback->OnEvent] *)
  AsyncProcess : option Request.t -> ST (object * Memory.t) (Z * list (Future.PluginEvent * option Response.t));
  Prepare : Z -> DataInfo.t -> DataInfo.t -> ST (object * Memory.t) (Z * DataInfo.t);
  Release : bool -> Z -> DataInfo.t -> ST (object * Memory.t) Z;
  SetOption : Z -> DataInfo.t -> ST (object * Memory.t) Z;
  GetOption : Z -> DataInfo.t -> DataInfo.t -> ST (object * Memory.t) (Z * DataInfo.t);
}.

End IPlugin.

(** ** The classes that implement it *)

#[export] Instance ic_plugin `{!Allocator, !Securec, !SecurecMemory, !StdHeap, !EngineAdapter} : IPlugin.t := {|
  IPlugin.object := ICPlugin.t;
  IPlugin.PLUGIN_INTERFACE := ICPlugin.ctor;
  IPlugin.GetVersion := ICPlugin.GetVersion;
  IPlugin.GetName := ICPlugin.GetName;
  IPlugin.GetInferMode := ICPlugin.GetInferMode;
  IPlugin.SyncProcess := ICPlugin.SyncProcess;
  IPlugin.AsyncProcess := fun request => r ← ICPlugin.AsyncProcess request; mret (r, []);
  IPlugin.Prepare := fun _ _ outputInfo => ICPlugin.Prepare outputInfo;
  IPlugin.Release := fun isFullUnload _ inputInfo => ICPlugin.Release isFullUnload inputInfo;
  IPlugin.SetOption := ICPlugin.SetOption;
  IPlugin.GetOption := ICPlugin.GetOption;
|}.

#[export] Instance kws_plugin `{!Allocator, !Securec, !SecurecMemory, !Files, !EngineAdapter} : IPlugin.t := {|
  IPlugin.object := KWSPlugin.t;
  IPlugin.PLUGIN_INTERFACE := KWSPlugin.ctor;
  IPlugin.GetVersion := KWSPlugin.GetVersion;
  IPlugin.GetName := KWSPlugin.GetName;
  IPlugin.GetInferMode := KWSPlugin.GetInferMode;
  IPlugin.SyncProcess := KWSPlugin.SyncProcess;
  IPlugin.AsyncProcess := fun request => r ← KWSPlugin.AsyncProcess request; mret (r, []);
  IPlugin.Prepare := fun _ _ outputInfo => KWSPlugin.Prepare outputInfo;
  IPlugin.Release := fun isFullUnload _ inputInfo => KWSPlugin.Release isFullUnload inputInfo;
  IPlugin.SetOption := KWSPlugin.SetOption;
  IPlugin.GetOption := KWSPlugin.GetOption;
|}.

(** ** The algorithms of a server

    Every algorithm has an object of the plugin's class; they share the memory of
    the process: its heap is that of the executor, the bytes in its blocks belong
    to the plugins. *)

Module Hosted.

Section hosted.
  Context `{P : !IPlugin.t}.

Record t := mk { objects : nat -> IPlugin.object; cells : cell_map; ub : bool }.

Definition init : t := mk (fun _ => IPlugin.PLUGIN_INTERFACE) ∅ false.

(** The memory the plugins see when the heap is [m]. *)
Definition memory (g : t) (m : Mem.t) : Memory.t := Memory.mk m (cells g) (ub g).

Definition on_plugin {A} (algo : nat) (op : ST (IPlugin.object * Memory.t) A) : ST (t * Mem.t) A := fun s =>
  let '(a, (p, h)) := op (objects s.1 algo, memory s.1 s.2) in
  (a, (mk (fun i => if (i =? algo)%nat then p else objects s.1 i) (Memory.cells h) (Memory.ub h), Memory.mem h)).

#[export] Instance hosted : Algorithm := {|
  algorithms := t;
  no_algorithms := init;
  infer_mode := fun _ => Some IPlugin.GetInferMode;
  sync_process := fun algo request => on_plugin algo (IPlugin.SyncProcess (Some request) None);
  async_process := fun algo request => on_plugin algo (IPlugin.AsyncProcess (Some request));
  prepare := fun algo transactionId inputInfo => on_plugin algo (IPlugin.Prepare transactionId inputInfo DataInfo.null);
  release_algorithm := fun algo isFullUnload transactionId inputInfo =>
    on_plugin algo (IPlugin.Release isFullUnload transactionId inputInfo);
  set_option := fun algo optionType inputInfo => on_plugin algo (IPlugin.SetOption optionType inputInfo);
  get_option := fun algo optionType inputInfo => on_plugin algo (IPlugin.GetOption optionType inputInfo DataInfo.null);
|}.

(** The blocks the plugins access by address. *)
Definition blocks (g : t) : gset nat := dom (cells g).

End hosted.
End Hosted.
