(* ===== verification/KwsProps.v ===== *)
(** * KwsProps: the model sees the right window of features

    A request of audio samples is normalised, converted and put into the sliding
    window; the model of the keyword spotting plugin then runs on the features of
    the last ten requests.  The proofs compose the lemmas on the three processors
    with the ownership of their buffers. *)

From Stdlib Require Import ZArith Lia SpecFloat.
From stdpp Require Import gmap strings list.
From S2P Require Import Prelude Protocol Ipc Encdec EncdecFacts EncdecProps Memory Float32 Feature SlideProps NormProcessor FeatureProps PluginBase Handover KwsPlugin.

#[local] Open Scope Z_scope.

(** Consecutive objects, read at once. *)
Lemma peek_elems c p sz n (g : nat -> list Z) :
  in_range c p (Z.of_nat (n * sz)) -> (forall i, (i < n)%nat -> elem c p sz i = g i) ->
  peek c p (Z.of_nat (n * sz)) = concat (g <$> seq 0 n).
Proof.
  intros (l & E & H1' & _ & H3')%in_range_inv Hg. destruct p as [b o]. cbn in *. unfold zlen in *.
  induction n as [|n IH]; [rewrite (peek_at _ _ _ _ _ E); done|].
  rewrite seq_S, fmap_app, concat_app, <- IH by (try (intros; apply Hg); lia). cbn. rewrite app_nil_r, <- Hg by lia.
  unfold elem, Ptr.add. cbn [Ptr.block Ptr.off]. rewrite !(peek_at _ _ _ _ _ E), !Nat2Z.id.
  rewrite Z2Nat.inj_add, Nat2Z.id by lia. rewrite (Nat.add_comm sz). apply read_at_split.
Qed.

Module KwsFacts.
Import KWSWorkplace.

(** ** The features of a request *)

Definition SAMPLES : nat := 400.
Definition CHANNELS : nat := 40.

(** Parameters of the channels, as they are stored. *)
Record parameters := Parameters { mean_of : nat -> spec_float; std_of : nat -> spec_float }.

Section workplace.
  Context `{!Allocator, !SecurecMemory, !SecurecMemoryLaws, !Files} (par : parameters).

(** The integer feature of sample [i]; undefined when the normalised number
    does not fit an [int32_t]. *)
Definition feature (i : nat) (sample : list Z) : option (list Z) :=
  convert INT32 (read_number FLOAT (float_bytes
    (NormProcessor.normalise (NormProcessorFacts.as_float UINT16 sample)
       (mean_of par (i mod CHANNELS)) (std_of par (i mod CHANNELS)) DEFAULT_NORM_SCALE))).

(** Blocks of a workplace: the normaliser's, the converter's, the window's. *)
Record wblocks := WBlocks { bnorm : NormProcessorFacts.blocks; bcast : nat; bslide : nat }.

Definition all_blocks (bl : wblocks) : list nat :=
  [NormProcessorFacts.bwork (bnorm bl); NormProcessorFacts.bmean (bnorm bl); NormProcessorFacts.bstd (bnorm bl);
   NormProcessorFacts.bconv (bnorm bl); bcast bl; bslide bl].

Lemma work_in bl : NormProcessorFacts.bwork (bnorm bl) ∈ all_blocks bl.
Proof. unfold all_blocks. set_solver. Qed.

Lemma conv_in bl : NormProcessorFacts.bconv (bnorm bl) ∈ all_blocks bl.
Proof. unfold all_blocks. set_solver. Qed.

Lemma cast_in bl : bcast bl ∈ all_blocks bl.
Proof. unfold all_blocks. set_solver. Qed.

Lemma slide_in bl : bslide bl ∈ all_blocks bl.
Proof. unfold all_blocks. set_solver. Qed.

Record ready (bl : wblocks) (hist : list Z) (w : KWSWorkplace.t) (h : Memory.t) : Prop := {
  wr_norm : NormProcessorFacts.ready SAMPLES CHANNELS (bnorm bl) (normProcessor w) h;
  wr_scale : NormProcessor.scale (NormProcessor.config_ (normProcessor w)) = DEFAULT_NORM_SCALE;
  wr_params : forall i, (i < CHANNELS)%nat ->
    NormProcessorFacts.float_at (Memory.cells h) (NormProcessorFacts.bmean (bnorm bl)) i = mean_of par i /\
    NormProcessorFacts.float_at (Memory.cells h) (NormProcessorFacts.bstd (bnorm bl)) i = std_of par i;
  wr_cast : TypeConverterFacts.ready INT32 SAMPLES (bcast bl) (typeConverter w) h;
  wr_slide : SlideWindowFacts.inv slideWindowConfig (bslide bl) hist (slideProcessor w) h;
  wr_distinct : NoDup (all_blocks bl);
}.

(** Only blocks of the workplace change. *)
Record within (bl : wblocks) (h h' : Memory.t) : Prop := {
  within_mem : Memory.mem h' = Memory.mem h;
  within_ub : Memory.ub h' = Memory.ub h;
  within_other : forall b, b ∉ all_blocks bl -> Memory.cells h' !! b = Memory.cells h !! b;
  within_dom : dom (Memory.cells h') = dom (Memory.cells h);
}.

Lemma frame_within bl b h h' : frame b h h' -> b ∈ all_blocks bl -> within bl h h'.
Proof. intros [F1 F2 F3 F4] Hb. split; try done. intros b' Hb'. apply F3. by intros ->. Qed.

#[global] Instance within_preorder bl : PreOrder (within bl).
Proof.
  split; [by split|]. intros h1 h2 h3 [A1 A2 A3 A4] [B1 B2 B3 B4].
  split; try congruence. intros b Hb. by rewrite B3, A3.
Qed.

Lemma slide_inv_frame cfg b hist s h h' b' :
  b' <> b -> frame b' h h' -> SlideWindowFacts.inv cfg b hist s h -> SlideWindowFacts.inv cfg b hist s h'.
Proof.
  intros Hb F [I1 I2 (o & l & I3 & I4 & I5 & I6)]. split; [done..|]. exists o, l. rewrite (frame_other _ _ _ F) by done. done.
Qed.

Lemma slide_config_ok : SlideWindowFacts.cfg_ok slideWindowConfig.
Proof.
  split; cbn; [done|unfold DEFAULT_BUFFER_MULTIPLIER; lia| |];
    unfold DEFAULT_SLIDE_STEP_SIZE, DEFAULT_SLIDE_WINDOW_SIZE, MAX_SAMPLE_SIZE; lia.
Qed.

Lemma step_is : SlideWindowFacts.step_bytes slideWindowConfig = (SAMPLES * elem_size INT32)%nat.
Proof. reflexivity. Qed.

Definition WINDOW_BYTES : nat := SlideWindowFacts.window_bytes slideWindowConfig.

(** What [GetNormedFeatures] leaves: the window is extended by the features. *)
Definition featured (bl : wblocks) (hist : list Z) (c : PluginConfig.t) (h : Memory.t) (r : Z * Arr.t) (s : KWSWorkplace.t * Memory.t) : Prop :=
  exists o, r = (RETCODE_SUCCESS, Arr.mk (Some (Ptr.mk (bslide bl) o)) DEFAULT_SLIDE_WINDOW_SIZE) /\
    ready bl hist s.1 s.2 /\ config s.1 = c /\ within bl h s.2 /\
    in_range (Memory.cells s.2) (Ptr.mk (bslide bl) o) (Z.of_nat WINDOW_BYTES) /\
    peek (Memory.cells s.2) (Ptr.mk (bslide bl) o) (Z.of_nat WINDOW_BYTES) = recent WINDOW_BYTES hist.

Lemma samples_Z : Z.of_nat SAMPLES = DEFAULT_SLIDE_STEP_SIZE.
Proof. reflexivity. Qed.

Lemma samples_pos : (0 < SAMPLES)%nat.
Proof. unfold SAMPLES. lia. Qed.

Lemma channel_lt i : (i mod CHANNELS < CHANNELS)%nat.
Proof. by apply Nat.mod_upper_bound. Qed.

#[local] Opaque SAMPLES CHANNELS.

Lemma distinct_blocks bl :
  NoDup (all_blocks bl) ->
  NormProcessorFacts.bconv (bnorm bl) <> bcast bl /\ NormProcessorFacts.bconv (bnorm bl) <> bslide bl /\
  NormProcessorFacts.bwork (bnorm bl) <> bcast bl /\ NormProcessorFacts.bwork (bnorm bl) <> bslide bl /\
  NormProcessorFacts.bmean (bnorm bl) <> bcast bl /\ NormProcessorFacts.bmean (bnorm bl) <> bslide bl /\
  NormProcessorFacts.bstd (bnorm bl) <> bcast bl /\ NormProcessorFacts.bstd (bnorm bl) <> bslide bl /\
  NormProcessorFacts.bmean (bnorm bl) <> NormProcessorFacts.bconv (bnorm bl) /\
  NormProcessorFacts.bmean (bnorm bl) <> NormProcessorFacts.bwork (bnorm bl) /\
  NormProcessorFacts.bstd (bnorm bl) <> NormProcessorFacts.bconv (bnorm bl) /\
  NormProcessorFacts.bstd (bnorm bl) <> NormProcessorFacts.bwork (bnorm bl) /\
  bcast bl <> bslide bl.
Proof. unfold all_blocks. rewrite !NoDup_cons, !elem_of_cons. intuition congruence. Qed.

Lemma float_at_frame b b' h h' i :
  frame b' h h' -> b <> b' -> NormProcessorFacts.float_at (Memory.cells h') b i = NormProcessorFacts.float_at (Memory.cells h) b i.
Proof. intros F Hb. unfold NormProcessorFacts.float_at. by rewrite (frame_elem b' h h'). Qed.

#[local] Arguments NormProcessor.Process : simpl never.
#[local] Arguments TypeConverter.Process : simpl never.
#[local] Arguments SlideWindow.Process : simpl never.

Lemma get_normed_spec bl hist w h pin g :
  ready bl hist w h -> (Ptr.block pin ∉ all_blocks bl) ->
  in_range (Memory.cells h) pin (Z.of_nat (SAMPLES * elem_size UINT16)) ->
  (forall i, (i < SAMPLES)%nat -> feature i (elem (Memory.cells h) pin (elem_size UINT16) i) = Some (g i)) ->
  wp (GetNormedFeatures (Arr.mk (Some pin) (Z.of_nat SAMPLES)))
     (featured bl (hist ++ concat (g <$> seq 0 SAMPLES)) (config w) h) (w, h).
Proof.
  intros [R1 RS RP R2 R3 R4] Hpin Hr Hg.
  destruct (distinct_blocks _ R4) as (D1 & D2 & D3 & D4 & D5 & D6 & D7 & D8 & D9 & D10 & D11 & D12 & D13).
  assert (Hpw : Ptr.block pin <> NormProcessorFacts.bwork (bnorm bl)) by (intros E; apply Hpin; rewrite E; apply work_in).
  assert (Hpc : Ptr.block pin <> NormProcessorFacts.bconv (bnorm bl)) by (intros E; apply Hpin; rewrite E; apply conv_in).
  unfold GetNormedFeatures. cbn [Arr.data Arr.size].
  apply wp_bind, wp_on_member. eapply wp_mono; [eapply (NormProcessorFacts.norm_process_spec SAMPLES CHANNELS (bnorm bl)); try done; apply samples_pos|].
  intros r [np h2] (-> & E & RN2 & (h1 & F1 & F2) & G2). cbn [fst snd] in *. subst np.
  assert (Ew : w <| normProcessor := normProcessor w |> = w) by (by destruct w). rewrite Ew. clear Ew. rewrite Z.eqb_refl. cbn [negb].
  assert (RC2 : TypeConverterFacts.ready INT32 SAMPLES (bcast bl) (typeConverter w) h2).
  { eapply TypeConverterFacts.converter_ready_frame; [|exact F2|eapply TypeConverterFacts.converter_ready_frame; [|exact F1|exact R2]]; done. }
  assert (RI2 : SlideWindowFacts.inv slideWindowConfig (bslide bl) hist (slideProcessor w) h2).
  { eapply slide_inv_frame; [|exact F2|eapply slide_inv_frame; [|exact F1|exact R3]]; done. }
  set (bw := NormProcessorFacts.bwork (bnorm bl)) in *.
  apply wp_bind, wp_on_member. eapply wp_mono.
  { eapply (TypeConverterFacts.converter_process_spec FLOAT INT32 SAMPLES (bcast bl) _ (Ptr.mk bw 0) g INT32 h2); try done.
    - apply samples_pos.
    - destruct (NormProcessorFacts.np_cells _ _ _ _ _ RN2) as ((l & L1 & L2) & _).
      apply (in_range_at _ bw 0 _ _ L1); [done|apply Nat2Z.is_nonneg|]. unfold zlen. by rewrite L2, Z.add_0_l.
    - intros i Hi. change (elem_size FLOAT) with 4%nat. rewrite (G2 i Hi). unfold NormProcessorFacts.normed. rewrite RS.
      destruct (RP _ (channel_lt i)) as [-> ->]. by apply Hg. }
  intros r [tc h3] (-> & E & F3 & RC3 & G3). cbn [fst snd] in *. subst tc.
  assert (Ew : w <| typeConverter := typeConverter w |> = w) by (by destruct w). rewrite Ew. clear Ew. rewrite Z.eqb_refl. cbn [negb].
  rewrite (TypeConverterFacts.rd_buffer _ _ _ _ _ RC2), samples_Z.
  assert (P3 : peek (Memory.cells h3) (Ptr.mk (bcast bl) 0) (Z.of_nat (SlideWindowFacts.step_bytes slideWindowConfig))
               = concat (g <$> seq 0 SAMPLES) /\
               in_range (Memory.cells h3) (Ptr.mk (bcast bl) 0) (Z.of_nat (SlideWindowFacts.step_bytes slideWindowConfig))).
  { rewrite step_is. destruct (TypeConverterFacts.rd_cell _ _ _ _ _ RC3) as (l & L1 & L2).
    assert (in_range (Memory.cells h3) (Ptr.mk (bcast bl) 0) (Z.of_nat (SAMPLES * elem_size INT32))) as RI
      by (apply (in_range_at _ (bcast bl) 0 _ _ L1); [done|apply Nat2Z.is_nonneg|unfold zlen; by rewrite L2, Z.add_0_l]).
    split; [|done]. by apply peek_elems. }
  destruct P3 as [P3 Q3].
  assert (F13 : within bl h h3).
  { etrans; [|exact (frame_within _ _ _ _ F3 (cast_in bl))].
    exact (transitivity (frame_within _ _ _ _ F1 (conv_in bl)) (frame_within _ _ _ _ F2 (work_in bl))). }
  apply wp_bind, wp_on_member. eapply wp_mono.
  { eapply (SlideWindowFacts.slide_process_spec slideWindowConfig (bslide bl) hist (concat (g <$> seq 0 SAMPLES)) (Ptr.mk (bcast bl) 0) INT32 _ h3);
      [apply slide_config_ok|eapply slide_inv_frame; [|exact F3|exact RI2]; done|done| |exact Q3|exact P3].
    rewrite <- P3, length_peek by done. apply Nat2Z.id. }
  intros r [sw h4] (o & -> & RI4 & F4 & Q4 & P4). cbn [fst snd] in *. rewrite Z.eqb_refl. cbn [negb]. apply wp_ret.
  exists (Z.of_nat o). split; [done|]. cbn [fst snd]. split_and!; [|done|exact (transitivity F13 (frame_within _ _ _ _ F4 (slide_in bl)))|done|exact P4].
  split; cbn [normProcessor typeConverter slideProcessor]; try done.
  - apply (NormProcessorFacts.norm_ready_frame _ _ _ _ h3 _ (bslide bl)); try done.
    apply (NormProcessorFacts.norm_ready_frame _ _ _ _ h2 _ (bcast bl)); done.
  - intros i Hi. rewrite !(float_at_frame _ _ _ _ _ F4), !(float_at_frame _ _ _ _ _ F3), !(float_at_frame _ _ _ _ _ F2),
      !(float_at_frame _ _ _ _ _ F1) by done. by apply RP.
  - apply (TypeConverterFacts.converter_ready_frame _ _ _ _ h3 _ (bslide bl)); done.
Qed.

(** A workplace does not notice changes elsewhere. *)
Lemma ready_ext bl hist w h h' :
  (forall b, b ∈ all_blocks bl -> Memory.cells h' !! b = Memory.cells h !! b) -> ready bl hist w h -> ready bl hist w h'.
Proof.
  intros E [R1 RS RP R2 R3 R4]. unfold all_blocks in E.
  assert (E1 := E _ ltac:(by left)). assert (E2 := E _ ltac:(by right; left)). assert (E3 := E _ ltac:(by do 2 right; left)).
  assert (E4 := E _ ltac:(by do 3 right; left)). assert (E5 := E _ ltac:(by do 4 right; left)). assert (E6 := E _ ltac:(by do 5 right; left)).
  split; try done.
  - destruct R1 as [N1 N2 N3 N4 (c & N5 & [T1 T2 T3 T4]) N6]. split; try done.
    + by rewrite E1, E2, E3.
    + exists c. split; [done|]. split; try done. by rewrite E4.
  - intros i Hi. destruct (RP i Hi) as [P1 P2]. unfold NormProcessorFacts.float_at, elem, peek in *. cbn in *. by rewrite E2, E3.
  - destruct R2 as [T1 T2 T3 T4]. split; try done. by rewrite E5.
  - destruct R3 as [I1 I2 I3]. split; try done. by rewrite E6.
Qed.

Lemma ready_live bl hist w h b : ready bl hist w h -> b ∈ all_blocks bl -> is_Some (Memory.cells h !! b).
Proof.
  intros [R1 _ _ R2 R3 _] Hb. destruct R1 as [_ _ _ ((l1 & L1 & _) & (l2 & L2 & _) & (l3 & L3 & _)) (c & _ & [_ _ _ (l4 & L4 & _)]) _].
  destruct R2 as [_ _ _ (l5 & L5 & _)]. destruct R3 as [_ _ (o & l6 & _ & _ & _ & L6 & _)].
  unfold all_blocks in Hb. rewrite !elem_of_cons in Hb. destruct Hb as [->|[->|[->|[->|[->|[->|Hb]]]]]]; try by eexists.
  by apply elem_of_nil in Hb.
Qed.
End workplace.

(** ** Requests *)

Lemma window_Z : Z.of_nat WINDOW_BYTES = DEFAULT_SLIDE_WINDOW_SIZE * Z.of_nat SIZEOF_INT32.
Proof. vm_compute. reflexivity. Qed.

#[local] Opaque WINDOW_BYTES.

Lemma length_objects n sz bs : length (objects n sz bs) = n.
Proof. revert bs. induction n as [|n IH]; intros bs; [done|]. cbn. by rewrite IH. Qed.

Lemma objects_wf n sz bs : length bs = (n * sz)%nat -> elems_wf sz (objects n sz bs).
Proof.
  revert bs. induction n as [|n IH]; intros bs Hl; [constructor|]. cbn in Hl |- *.
  constructor; [rewrite length_take; lia|]. apply IH. rewrite length_drop. lia.
Qed.

Lemma zlen_objects n sz bs : length bs = (n * sz)%nat -> zlen (concat (objects n sz bs)) = Z.of_nat (n * sz).
Proof. intros Hl. rewrite (DecoderFacts.zlen_concat sz) by by apply objects_wf. unfold zlen. rewrite length_objects. lia. Qed.

Lemma fmap_nth_seq {A} (l : list A) d : (fun i => nth i l d) <$> seq 0 (length l) = l.
Proof.
  apply list_eq. intros j. rewrite list_lookup_fmap. destruct (decide (j < length l)%nat) as [Hj|Hj].
  - rewrite lookup_seq_lt by done. destruct (lookup_lt_is_Some_2 l j Hj) as [x Hx]. rewrite Hx. cbn. f_equal. by apply nth_lookup_Some.
  - rewrite lookup_seq_ge, lookup_ge_None_2 by lia. done.
Qed.

Section plugin.
  Context `{!Allocator, !Securec, !AllocatorLaws, !SecurecMemory, !SecurecMemoryLaws, !Files, !EngineAdapter}.
  Context (HR : resources) (Hnew : forall t, new_ok t = true).
  Context (par : parameters) (handle : Z) (pin pout : Ptr.t) (m : nat) (run_model : list Z -> list Z).
  Context (Hhandle : - 2 ^ 63 <= handle < 2 ^ 63) (Hm : 0 < Z.of_nat m <= 2 ^ 20) (Hblocks : Ptr.block pin <> Ptr.block pout).
  Context (Hengine : engine_runs handle pin pout WINDOW_BYTES m run_model)
          (Hmodel : forall i, length (run_model i) = (m * SIZEOF_INT32)%nat).
  Import KWSPlugin.

Definition model_config : PluginConfig.t := PluginConfig.mk DEFAULT_SLIDE_WINDOW_SIZE (Z.of_nat m) (Some pin) (Some pout).

(** A plugin that has prepared the handle, in a memory that holds its buffers
    and those of the model. *)
Record prepared (bl : wblocks) (hist : list Z) (s : t) (h : Memory.t) : Prop := {
  kp_adapter : is_Some (adapter_ s);
  kp_handle : exists w, handles_ s !! handle = Some w /\ config w = model_config /\ ready par bl hist w h;
  kp_wf : Memory.wf h;
  kp_in : in_range (Memory.cells h) pin (Z.of_nat WINDOW_BYTES);
  kp_out : in_range (Memory.cells h) pout (Z.of_nat (m * SIZEOF_INT32));
  kp_apart : (Ptr.block pin ∉ all_blocks bl) /\ (Ptr.block pout ∉ all_blocks bl);
}.

(** The answer to a request: the model's output for the window. *)
Definition answered (window : list Z) (r : Z * option Response.t) : Prop :=
  exists resp, r = (RETCODE_SUCCESS, Some resp) /\
    DataInfo.content (Response.result resp) =
      trailer (ser_all [handle_obj handle; VArray (objects m SIZEOF_INT32 (run_model window))]).

Lemma answer_wf window :
  Forall value_wf [handle_obj handle; VArray (objects m SIZEOF_INT32 (run_model window))] /\
  zlen (ser_all [handle_obj handle; VArray (objects m SIZEOF_INT32 (run_model window))]) <= 2 ^ 24.
Proof.
  pose proof (objects_wf m SIZEOF_INT32 _ (Hmodel window)) as W. split.
  - repeat apply Forall_cons_2; try apply Forall_nil_2; [done|]. destruct m as [|m']; [lia|]. cbn [objects] in *.
    split; [done|]. cbn [hd]. assert (length (take SIZEOF_INT32 (run_model window)) = SIZEOF_INT32) as E.
    { rewrite length_take, Hmodel. unfold SIZEOF_INT32. lia. }
    rewrite E. split; [done|exact W].
  - unfold ser_all. cbn -[le size_t_bytes]. rewrite app_nil_r, !zlen_app, !zlen_size_t, zlen_objects by done.
    unfold SIZEOF_INT32. lia.
Qed.

Lemma make_inference_spec s h q window :
  is_Some (adapter_ s) -> Memory.wf h -> Ptr.block q <> Ptr.block pin ->
  in_range (Memory.cells h) q (Z.of_nat WINDOW_BYTES) -> peek (Memory.cells h) q (Z.of_nat WINDOW_BYTES) = window ->
  in_range (Memory.cells h) pin (Z.of_nat WINDOW_BYTES) -> in_range (Memory.cells h) pout (Z.of_nat (m * SIZEOF_INT32)) ->
  wp (MakeInference handle (Arr.mk (Some q) DEFAULT_SLIDE_WINDOW_SIZE) model_config) (fun r s' =>
    r.1 = RETCODE_SUCCESS /\
    DataInfo.content r.2 = trailer (ser_all [handle_obj handle; VArray (objects m SIZEOF_INT32 (run_model window))]) /\
    is_Some (adapter_ s'.1) /\ handles_ s'.1 = handles_ s /\ handed h s'.2 r.2 /\ Memory.ub s'.2 = Memory.ub h /\
    Memory.cells s'.2 = poke (poke (Memory.cells h) pin window) pout (run_model window)) (s, h).
Proof.
  intros [a PA] W Hq Rq Pq Rin Rout. pose proof window_Z as WZ.
  unfold MakeInference. apply wp_bind, wp_self. rewrite PA. cbn [bool_decide]. 
  cbn [model_config PluginConfig.inputAddr PluginConfig.outputAddr PluginConfig.inputSize PluginConfig.outputSize Arr.data Arr.size].
  rewrite !bool_decide_eq_false_2 by done. rewrite Z.eqb_refl. cbn [orb negb].
  rewrite <- WZ, wrap_u_small by (rewrite WZ; unfold DEFAULT_SLIDE_WINDOW_SIZE, SIZEOF_INT32; lia).
  apply wp_bind, wp_on_memory. apply wp_memcpy_s; [| | |exact Rin|exact Rq| |].
  1-3: rewrite WZ; unfold DEFAULT_SLIDE_WINDOW_SIZE, SIZEOF_INT32, SECUREC_MEM_MAX_LEN; lia.
  { unfold overlap. by rewrite bool_decide_eq_false_2. }
  rewrite Z.eqb_refl. cbn [negb]. set (h1 := h <| Memory.cells ::= _ |>).
  assert (LW : zlen window = Z.of_nat WINDOW_BYTES).
  { unfold zlen. rewrite <- Pq, length_peek, Nat2Z.id by done. done. }
  assert (C1 : Memory.cells h1 = poke (Memory.cells h) pin window) by (subst h1; cbn; by rewrite Pq).
  assert (I1 : forall p l, in_range (Memory.cells h1) p l = in_range (Memory.cells h) p l).
  { intros p l. rewrite C1. apply in_range_poke. by rewrite LW. }
  assert (PW : peek (Memory.cells h1) pin (Z.of_nat WINDOW_BYTES) = window).
  { rewrite C1, <- LW. apply peek_poke_same. by rewrite LW. }
  assert (M1 : Memory.mem h1 = Memory.mem h /\ Memory.ub h1 = Memory.ub h) by (split; reflexivity). clearbody h1. destruct M1 as [M1 U1].
  apply wp_bind. eapply wp_call; [exact PA|]. eapply wp_mono; [apply Hengine; by rewrite I1|].
  intros r [a' h2] [-> E2]. cbn [fst snd] in *. rewrite Z.eqb_refl. cbn [negb].
  assert (LM : zlen (run_model window) = Z.of_nat (m * SIZEOF_INT32)) by (unfold zlen; by rewrite Hmodel).
  assert (C2 : Memory.cells h2 = poke (poke (Memory.cells h) pin window) pout (run_model window)).
  { rewrite E2. cbn. by rewrite PW, C1. }
  assert (M2 : Memory.mem h2 = Memory.mem h /\ Memory.ub h2 = Memory.ub h) by (rewrite E2; split; assumption).
  destruct M2 as [M2 U2].
  assert (Rp : in_range (poke (Memory.cells h) pin window) pout (Z.of_nat (m * SIZEOF_INT32))) by by rewrite <- C1, I1.
  apply wp_bind, wp_on_memory. unfold load_array. apply wp_bind. rewrite <- Nat2Z.inj_mul. apply wp_load.
  { rewrite C2, in_range_poke; by rewrite ?LM. }
  apply wp_ret. rewrite Nat2Z.id, C2, <- LM, peek_poke_same by (by rewrite LM).
  destruct (answer_wf window) as [AW AL].
  assert (D2 : dom (Memory.cells h2) = dom (Memory.cells h)) by by rewrite C2, !dom_poke.
  assert (W2 : Memory.wf h2) by (destruct W; split; [by rewrite M2|by rewrite D2, M2]).
  apply wp_on_memory. eapply wp_mono; [apply encode_handed; [done|done|done|unfold INT_MAX; lia]|].
  intros [r d] h3 (E & _ & HD & HH & C3 & U3). cbn [fst snd] in *. subst r.
  split_and!; [done|exact HD|by eexists|done| |congruence|congruence].
  apply (handed_after h h2); [|done]. apply spares_dom; [by rewrite M2|done].
Qed.

(** A request of audio samples, two bytes each. *)
Definition audio_values (smp : list (list Z)) : list value := [handle_obj handle; VArray smp].
Definition audio_request (smp : list (list Z)) : Request.t := Request.ctor <| Request.msg := message 0 (audio_values smp) |>.

(** A full request whose features [fs] are all defined. *)
Record audio (smp : list (list Z)) (fs : list (list Z)) : Prop := {
  au_length : length smp = SAMPLES /\ length fs = SAMPLES;
  au_bytes : Forall (fun x => length x = 2%nat /\ Forall DecoderFacts.is_byte x) smp;
  au_features : forall i, (i < SAMPLES)%nat -> feature par i (nth i smp []) = Some (nth i fs []);
}.

Lemma concat_bytes (smp : list (list Z)) :
  Forall (fun x => length x = 2%nat /\ Forall DecoderFacts.is_byte x) smp ->
  Forall DecoderFacts.is_byte (concat smp) /\ length (concat smp) = (length smp * 2)%nat.
Proof.
  induction 1 as [|x l [Hx Hb] _ [IH1 IH2]]; [done|]. cbn. rewrite length_app, Hx, IH2. split; [by apply Forall_app|lia].
Qed.

Lemma audio_carries smp fs : audio smp fs -> carries (Request.msg (audio_request smp)) (audio_values smp).
Proof.
  intros [[L _] B _]. destruct (concat_bytes _ B) as [CB CL]. pose proof samples_pos as SP. pose proof samples_Z as SZ.
  unfold DEFAULT_SLIDE_STEP_SIZE in SZ. apply message_carries.
  - repeat apply Forall_cons_2; try apply Forall_nil_2; [done|].
    destruct smp as [|x smp]; [cbn in L; lia|]. apply Forall_cons in B as [[Hx Hb] B].
    split; [done|]. cbn [hd]. rewrite Hx. split; [done|]. constructor; [done|]. eapply Forall_impl; [exact B|]. by intros ? [].
  - unfold ser_all, audio_values. cbn -[le size_t_bytes concat]. cbn [concat]. rewrite app_nil_r.
    repeat apply Forall_app_2; try apply DecoderFacts.le_bytes. done.
  - unfold ser_all, audio_values. cbn -[le size_t_bytes concat]. cbn [concat]. rewrite app_nil_r, !zlen_app, !zlen_size_t.
    unfold zlen, INT_MAX. rewrite CL, L. lia.
Qed.

Lemma sync_process_spec bl hist s h smp fs req :
  prepared bl hist s h -> audio smp fs -> carries (Request.msg req) (audio_values smp) ->
  let window := recent WINDOW_BYTES (hist ++ concat fs) in
  wp (SyncProcess (Some req) None) (fun r s' => answered window r /\
    prepared bl (hist ++ concat fs) s'.1 s'.2 /\ Memory.ub s'.2 = Memory.ub h /\
    handed h s'.2 (default DataInfo.null (Response.result <$> r.2))) (s, h).
Proof.
  intros [KA (w & KW & KC & KR) W KI KO [KB1 KB2]] A C window.
  destruct A as [[L Lf] B F]. destruct (concat_bytes _ B) as [CB CL]. pose proof samples_pos as SP.
  unfold SyncProcess. rewrite (carries_data _ _ C). apply wp_bind, wp_on_memory.
  pose proof (decode_array_spec (Request.msg req) [handle_obj handle] smp h HR W C ltac:(by repeat constructor)) as D.
  change (type_of <$> [handle_obj handle]) with [TObj SIZEOF_INTPTR] in D.
  assert (E2 : length (hd [] smp) = 2%nat).
  { destruct smp as [|x smp]; [cbn in L; lia|]. apply Forall_cons in B as [[Hx _] _]. done. }
  rewrite E2 in D. eapply wp_mono; [exact D|]. clear D. intros r h1 (b & -> & Hfresh & C1 & U1 & W1 & _ & Lb & L1).
  assert (S1 : spares h h1) by (by eapply spares_new).
  rewrite Z.eqb_refl. cbn [negb app nth]. rewrite handle_val_obj by done. apply wp_bind, wp_self. rewrite KW.
  assert (SB : Memory.cells h1 !! b = Some (concat smp)) by (by rewrite C1, lookup_insert_eq).
  assert (Nb : forall b', is_Some (Memory.cells h !! b') -> b' <> b) by (intros b' [x Hx] ->; congruence).
  assert (Kb : forall b', is_Some (Memory.cells h !! b') -> Memory.cells h1 !! b' = Memory.cells h !! b').
  { intros b' Hb'. rewrite C1, lookup_insert_ne by (apply not_eq_sym; by apply Nb). done. }
  assert (Hbl : b ∉ all_blocks bl) by (intros Hin; apply (Nb b); [by eapply ready_live|done]).
  assert (KR1 : ready par bl hist w h1) by (eapply ready_ext; [|exact KR]; intros b' Hb'; apply Kb; by eapply ready_live).
  assert (IR : forall p l, in_range (Memory.cells h) p l -> in_range (Memory.cells h1) p l /\ Ptr.block p <> b).
  { intros p l Hp. pose proof Hp as (x & Ex & _)%in_range_inv. unfold in_range in *. rewrite Kb by by eexists. split; [done|]. apply Nb. by eexists. }
  assert (ZS : zlen smp = Z.of_nat SAMPLES) by (unfold zlen; by rewrite L). rewrite ZS.
  assert (Q1 : in_range (Memory.cells h1) (Ptr.mk b 0) (Z.of_nat (SAMPLES * elem_size UINT16))).
  { apply (in_range_at _ b 0 _ _ SB); [done|apply Nat2Z.is_nonneg|]. unfold zlen. by rewrite CL, L, Z.add_0_l. }
  assert (G1 : forall i, (i < SAMPLES)%nat ->
    feature par i (elem (Memory.cells h1) (Ptr.mk b 0) (elem_size UINT16) i) = Some (nth i fs [])).
  { intros i Hi. rewrite (elem_of_concat _ b (concat smp) (elem_size UINT16) SAMPLES (fun i => nth i smp []) i SB); [by apply F| | |done].
    - intros j Hj. rewrite <- L in Hj. destruct (lookup_lt_is_Some_2 smp j Hj) as [x Hx]. rewrite (nth_lookup_Some _ _ _ _ Hx).
      rewrite Forall_forall in B. apply B. by eapply list_elem_of_lookup_2.
    - rewrite <- L at 2. rewrite fmap_nth_seq. unfold read_at. rewrite drop_0, take_ge; [done|]. rewrite CL, L. done. }
  pose proof (get_normed_spec par bl hist w h1 (Ptr.mk b 0) (fun i => nth i fs []) KR1 Hbl Q1 G1) as N.
  rewrite <- Lf in N at 2. rewrite fmap_nth_seq in N.
  apply wp_bind. unfold on_workplace, wp at 1. cbn [fst snd]. rewrite KW.
  unfold wp in N. destruct (GetNormedFeatures (Arr.mk (Some (Ptr.mk b 0)) (Z.of_nat SAMPLES)) (w, h1)) as [f [w2 h2]].
  cbn [fst snd] in N |- *. destruct N as (o & -> & KR2 & KC2 & WI & Q2 & P2). cbn [fst snd] in *. rewrite Z.eqb_refl. cbn [negb].
  set (s2 := s <| handles_ ::= <[handle := w2]> |>). rewrite KC.
  assert (I2 : forall p l, (Ptr.block p ∉ all_blocks bl) -> in_range (Memory.cells h) p l -> in_range (Memory.cells h2) p l).
  { intros p l Hp Hr. apply IR in Hr as [Hr _]. unfold in_range in *. by rewrite (within_other _ _ _ WI). }
  assert (W2 : Memory.wf h2).
  { destruct W1 as [WM WD]. split; [by rewrite (within_mem _ _ _ WI)|by rewrite (within_dom _ _ _ WI), (within_mem _ _ _ WI)]. }
  assert (LW : zlen window = Z.of_nat WINDOW_BYTES) by (unfold zlen, window; f_equal; apply length_recent).
  assert (LM : zlen (run_model window) = Z.of_nat (m * SIZEOF_INT32)) by (unfold zlen; by rewrite Hmodel).
  assert (RP : forall p l, in_range (poke (poke (Memory.cells h2) pin window) pout (run_model window)) p l = in_range (Memory.cells h2) p l).
  { intros p l. rewrite in_range_poke; [rewrite in_range_poke; [done|rewrite LW; by apply I2]|].
    rewrite LM, in_range_poke; [by apply I2|rewrite LW; by apply I2]. }
  apply wp_bind. eapply wp_mono; [apply (make_inference_spec s2 h2 (Ptr.mk (bslide bl) o) window); try done|].
  - intros E. apply KB1. rewrite <- E. apply slide_in.
  - by apply I2.
  - by apply I2.
  - intros [r d] [s3 h3] (-> & HD & KA3 & EH3 & HH3 & U3 & C3). pose proof (handed_wf _ _ _ HH3) as W3. cbn [fst snd] in *. rewrite Z.eqb_refl. cbn [negb].
    apply wp_bind, wp_on_memory. unfold respond. apply wp_bind, wp_on_mem.
    unfold Response.Create. apply wp_bind. unfold AIE_NEW, wp at 1. cbn. rewrite Hnew. apply wp_ret. cbn. apply wp_ret, wp_ret. cbn.
    split; [by eexists|]. split; [|split; [by rewrite U3, (within_ub _ _ _ WI)|]].
    2:{ apply (handed_after h h1); [done|]. apply (handed_after h1 h2).
        - apply spares_dom; [by rewrite (within_mem _ _ _ WI)|by rewrite (within_dom _ _ _ WI)].
        - by apply (handed_before h2 h3); [|..|apply HH3]. }
    split; cbn; try done.
    + exists w2. rewrite EH3. cbn. split; [by rewrite lookup_insert_eq|]. split; [by rewrite KC2|].
      eapply ready_ext; [|exact KR2]. intros b' Hb'. cbn. rewrite C3, !lookup_poke_other; [done|intros ->; done|intros ->; done].
    + rewrite C3, RP. by apply I2.
    + rewrite C3, RP. by apply I2.
Qed.


(** ** Setting up *)

(** Both parameter files are there and hold a number for every channel. *)
Record files_ok (mchars dchars : list Z) : Prop := {
  fo_mean : exists real, realpath DEFAULT_NORM_MEAN_FILE_PATH = Some real /\ fopen real = Some mchars;
  fo_std : exists real, realpath DEFAULT_NORM_STD_FILE_PATH = Some real /\ fopen real = Some dchars;
  fo_numbers : (CHANNELS <= length (tokens mchars []))%nat /\ (CHANNELS <= length (tokens dchars []))%nat;
}.

Definition parameters_of (mchars dchars : list Z) : parameters :=
  Parameters (fun i => NormProcessorFacts.stored (nth i (tokens mchars []) []))
             (fun i => NormProcessorFacts.stored (nth i (tokens dchars []) [])).

Lemma malloc_small : forall t n, 0 <= n <= 2 ^ 34 -> malloc_ok t n = true.
Proof. apply HR. Qed.

Lemma slide_buffer_small : 0 <= Z.of_nat (SlideWindowFacts.buffer_bytes slideWindowConfig) <= 2 ^ 34.
Proof. pose proof (SlideWindowFacts.buffer_bound _ slide_config_ok). lia. Qed.

#[local] Arguments NormProcessor.Init : simpl never.
#[local] Arguments TypeConverter.Init : simpl never.
#[local] Arguments SlideWindow.Init : simpl never.

(** The workplace is set up in new blocks; what was there before stays. *)
Definition set_up (c : PluginConfig.t) (h : Memory.t) (w : KWSWorkplace.t) (h' : Memory.t) : Prop :=
  config w = c /\ Memory.ub h' = Memory.ub h /\ Memory.wf h' /\ spares h h' /\ exists bl, ready par bl [] w h' /\
    forall b, is_Some (Memory.cells h !! b) -> Memory.cells h' !! b = Memory.cells h !! b /\ (b ∉ all_blocks bl).

Lemma init_components_spec c mchars dchars h :
  par = parameters_of mchars dchars -> files_ok mchars dchars -> Memory.wf h ->
  wp InitComponents (fun r s => r = RETCODE_SUCCESS /\ set_up c h s.1 s.2) (new_workplace c, h).
Proof.
  intros Hpar [FM FS [FN1 FN2]] W. unfold InitComponents, InitWorkplace. apply wp_bind, wp_bind, wp_on_member.
  eapply wp_mono; [apply (SlideWindowFacts.slide_init_spec slideWindowConfig h); [apply slide_config_ok|done]|].
  intros r [sw h1] (U1 & [[_ E]|(-> & bs & Bs & I1 & W1 & Sp1 & K1)]); [by rewrite malloc_small in E by apply slide_buffer_small|].
  cbn [fst snd] in *. rewrite Z.eqb_refl. cbn [negb]. apply wp_bind, wp_on_member.
  unfold convertConfig. rewrite <- samples_Z.
  assert (SB : Z.of_nat (SAMPLES * elem_size INT32) <= MAX_SAMPLE_SIZE).
  { change (elem_size INT32) with 4%nat. rewrite Nat2Z.inj_mul, samples_Z. unfold DEFAULT_SLIDE_STEP_SIZE, MAX_SAMPLE_SIZE. lia. }
  eapply wp_mono; [by apply (NormProcessorFacts.converter_init malloc_small INT32 SAMPLES)|].
  intros r [tc h2] (-> & W2 & U2 & bc & cs & Bc & C2 & Sp2 & R2). cbn [fst snd] in *. rewrite Z.eqb_refl. cbn [negb].
  assert (K2 : forall b, is_Some (Memory.cells h1 !! b) -> Memory.cells h2 !! b = Memory.cells h1 !! b /\ b <> bc).
  { intros b [x Hb]. assert (b <> bc) as Hne by (intros ->; congruence). by rewrite C2, lookup_insert_ne by done. }
  assert (OK : NormProcessorFacts.cfg_ok normConfig SAMPLES CHANNELS mchars dchars).
  { split; try done. split; [by apply Nat.ltb_lt|apply samples_pos]. }
  apply wp_bind, wp_on_member. eapply wp_mono; [by eapply (NormProcessorFacts.norm_init_spec malloc_small Hnew)|].
  intros r [np h3] (-> & U3 & W3 & Sp3 & bn & R3 & EC & LM & LD & K3). cbn [fst snd] in *. rewrite Z.eqb_refl. cbn [negb].
  apply wp_ret. rewrite Z.eqb_refl. apply wp_ret. split; [done|]. cbn [fst snd].
  change (_ <| normProcessor := np |>) with (KWSWorkplace.mk c np tc sw).
  destruct I1 as [J1 J2 (o & ls & J3 & J4 & J5 & J6 & J7 & J8)].
  destruct R2 as [T1 T2 T3 (lc & T4 & T5)].
  assert (Hbs : Memory.cells h2 !! bs = Memory.cells h1 !! bs /\ bs <> bc) by (apply K2; by eexists).
  destruct Hbs as [Hbs Nbs]. rewrite J6 in Hbs.
  destruct (K3 bs) as [Hbs3 Nbs3]; [by eexists|]. destruct (K3 bc) as [Hbc3 Nbc3]; [by eexists|].
  split; [done|]. split; [congruence|]. split; [done|].
  split; [by eapply spares_trans, spares_trans|]. exists (WBlocks bn bc bs). split.
  - split; cbn [normProcessor typeConverter slideProcessor bnorm bcast bslide]; [done|by rewrite EC| | | |].
    + intros i Hi. rewrite Hpar. destruct LM as (? & _ & _ & LM), LD as (? & _ & _ & LD). by rewrite LM, LD.
    + split; try done. exists lc. by rewrite Hbc3.
    + split; try done. exists o, ls. by rewrite Hbs3, Hbs.
    + pose proof (NormProcessorFacts.np_distinct _ _ _ _ _ R3) as ND. unfold all_blocks. cbn.
      change ([?a; ?b; ?c; ?d; bc; bs]) with ([a; b; c; d] ++ [bc; bs]).
      apply NoDup_app. split_and!; [done| |].
      * intros x Hx. rewrite !not_elem_of_cons. split_and!; [intros ->; done|intros ->; done|apply not_elem_of_nil].
      * apply NoDup_cons. split; [|apply NoDup_singleton]. rewrite list_elem_of_singleton. done.
  - intros b Hb. assert (b <> bs) as N1 by (intros ->; destruct Hb; congruence).
    assert (is_Some (Memory.cells h1 !! b)) as Hb1 by (by rewrite K1). destruct (K2 b Hb1) as [E2 N2].
    assert (is_Some (Memory.cells h2 !! b)) as Hb2 by (by rewrite E2). destruct (K3 b Hb2) as [E3 N3].
    split; [by rewrite E3, E2, K1|]. unfold all_blocks. cbn [bnorm bcast bslide]. clear -N1 N2 N3. set_solver.
Qed.

(** The engine loads the keyword spotting model under [handle]. *)
Definition model_loads : Prop :=
  engine_loads PLUGIN_MODEL_PATH MODEL_INPUT_NODE_ID MODEL_OUTPUT_NODE_ID handle pin pout DEFAULT_SLIDE_WINDOW_SIZE (Z.of_nat m).

Lemma build_config_spec a h :
  model_loads -> wp (BuildConfig handle) (fun r s => r = (RETCODE_SUCCESS, model_config) /\
    is_Some (adapter_ s.1) /\ handles_ s.1 = ∅ /\ s.2 = h) (mk (Some a) ∅, h).
Proof.
  intros [_ _ EI EO]. unfold BuildConfig. apply wp_bind, wp_self. cbn [adapter_]. unfold engine.
  apply wp_bind. eapply wp_call; [done|]. eapply wp_mono; [apply EI|]. intros r [a' h1] [-> E1]. cbn [fst snd] in *. subst h1.
  rewrite Z.eqb_refl. cbn [negb]. apply wp_bind. eapply wp_call; [done|]. eapply wp_mono; [apply EO|].
  intros r [a2 h1] [-> E1]. cbn [fst snd] in *. subst h1. rewrite Z.eqb_refl. cbn [negb]. apply wp_ret. split_and!; done.
Qed.

Lemma prepare_spec mchars dchars h :
  model_loads -> par = parameters_of mchars dchars -> files_ok mchars dchars -> Memory.wf h ->
  in_range (Memory.cells h) pin (Z.of_nat WINDOW_BYTES) -> in_range (Memory.cells h) pout (Z.of_nat (m * SIZEOF_INT32)) ->
  wp (Prepare DataInfo.null) (fun r s => r.1 = RETCODE_SUCCESS /\
    DataInfo.content r.2 = trailer (ser_all [handle_obj handle]) /\ Memory.ub s.2 = Memory.ub h /\
    handed h s.2 r.2 /\ IpcFacts.di_ok r.2 /\ exists bl, prepared bl [] s.1 s.2) (ctor, h).
Proof.
  intros EL Hpar FO W Rin Rout. pose proof EL as [[a0 EN] EI _ _]. unfold Prepare. apply wp_bind, wp_self. cbn [adapter_ ctor].
  apply wp_bind, wp_set_self, wp_bind, wp_self. change (_ <| adapter_ := new_adapter |>) with (mk new_adapter ∅). rewrite EN. cbn [adapter_].
  apply wp_bind. unfold engine at 1. eapply wp_call; [done|]. eapply wp_mono; [apply EI|]. intros r [a1 h1] [-> E1].
  cbn [fst snd] in *. subst h1. rewrite Z.eqb_refl. cbn [negb]. apply wp_bind, wp_self.
  change (_ <| adapter_ := Some a1 |>) with (mk (Some a1) ∅). cbn [handles_]. rewrite lookup_empty.
  apply wp_bind. eapply wp_mono; [by apply build_config_spec|]. intros r [s2 h2] (-> & [a2 EA] & EH & E2). cbn [fst snd] in *. subst h2.
  rewrite Z.eqb_refl. cbn [negb]. apply wp_bind. unfold build_workplace, wp at 1. cbn [fst snd].
  pose proof (init_components_spec model_config mchars dchars h Hpar FO W) as IC. unfold wp in IC.
  destruct (InitComponents (new_workplace model_config, h)) as [r [w h3]]. cbn [fst snd] in *.
  destruct IC as (-> & EC & U3 & W3 & Sp3 & bl & R3 & K3). rewrite Z.eqb_refl. cbn [negb].
  apply wp_bind, wp_set_self, wp_on_memory.
  assert (LA : zlen (ser_all [handle_obj handle]) = 8) by (unfold zlen; cbn -[le]; by rewrite app_nil_r, length_le).
  eapply wp_mono; [apply (encode_handed [handle_obj handle]); [done|done|by repeat constructor|rewrite LA; unfold INT_MAX; lia]|].
  intros r h4 (E & _ & HD & HH & C4 & U4). cbn [fst snd]. split; [done|]. split; [done|]. split; [congruence|]. split; [by eapply handed_after|].
  split; [apply whole_ok; [apply HH|]|].
  { rewrite (proj1 (handed_whole _ _ _ HH)), HD. unfold trailer. rewrite zlen_app, zlen_size_t, LA. by unfold MAX_SHM_DATA_SIZE. }
  exists bl.
  assert (KI : forall p l, in_range (Memory.cells h) p l -> in_range (Memory.cells h4) p l /\ (Ptr.block p ∉ all_blocks bl)).
  { intros p l Hp. pose proof Hp as (x & Ex & _)%in_range_inv. destruct (K3 (Ptr.block p)) as [EE N]; [by eexists|].
    split; [|done]. unfold in_range in *. by rewrite C4, EE. }
  destruct (KI _ _ Rin), (KI _ _ Rout). split; cbn; try done; [|apply HH].
  exists w. rewrite EH. split; [by rewrite lookup_insert_eq|]. split; [done|]. apply (ready_ext par bl [] w h3); [|done]. intros b _. by rewrite C4.
Qed.

Fixpoint send_audio (smps : list (list (list Z))) : ST (t * Memory.t) (list (Z * option Response.t)) :=
  match smps with
  | [] => mret []
  | smp :: rest => r ← SyncProcess (Some (audio_request smp)) None; rs ← send_audio rest; mret (r :: rs)
  end.

Lemma send_audio_spec smps fss : Forall2 audio smps fss -> forall bl hist s h,
  prepared bl hist s h ->
  wp (send_audio smps) (fun rs s' => Memory.ub s'.2 = Memory.ub h /\
    Forall2 answered (windows_of WINDOW_BYTES hist ((fun fs : list (list Z) => concat fs) <$> fss)) rs) (s, h).
Proof.
  induction 1 as [|smp fs smps fss A _ IH]; intros bl hist s h P; cbn [send_audio windows_of fmap list_fmap].
  - apply wp_ret. split; [done|constructor].
  - apply wp_bind. eapply wp_mono; [by eapply sync_process_spec, audio_carries|]. intros r [s1 h1] (RA & P1 & U1 & _). cbn [fst snd] in *.
    apply wp_bind. eapply wp_mono; [by eapply IH|]. intros rs s2 (U2 & F). apply wp_ret. split; [congruence|by constructor].
Qed.

(** A client: prepare the algorithm, then stream audio. *)
Definition session (smps : list (list (list Z))) : ST (t * Memory.t) (Z * list (Z * option Response.t)) :=
  r ← Prepare DataInfo.null; rs ← send_audio smps; mret (r.1, rs).

End plugin.
End KwsFacts.

(** ** Properties *)

Import KWSPlugin KwsFacts.

(** C25. From a freshly constructed plugin: [Prepare] succeeds, and the answer to
    the k-th request of 400 audio samples is the model's output for the window of
    the last 4000 features - each sample normalised by its channel and converted
    to an integer - of all requests so far, preceded by zeros.  Nothing is read or
    written outside a block. *)
Theorem kws_sees_the_window
    `{!Allocator, !Securec, !AllocatorLaws, !SecurecMemory, !SecurecMemoryLaws, !Files, !EngineAdapter}
    (handle : Z) (pin pout : Ptr.t) (m : nat) (run_model : list Z -> list Z) (mchars dchars : list Z)
    (smps fss : list (list (list Z))) (h : Memory.t) :
  resources -> (forall t, new_ok t = true) ->
  - 2 ^ 63 <= handle < 2 ^ 63 -> 0 < Z.of_nat m <= 2 ^ 20 -> Ptr.block pin <> Ptr.block pout ->
  model_loads handle pin pout m -> engine_runs handle pin pout WINDOW_BYTES m run_model ->
  (forall i, length (run_model i) = (m * SIZEOF_INT32)%nat) -> files_ok mchars dchars -> Memory.wf h ->
  in_range (Memory.cells h) pin (Z.of_nat WINDOW_BYTES) -> in_range (Memory.cells h) pout (Z.of_nat (m * SIZEOF_INT32)) ->
  Forall2 (audio (parameters_of mchars dchars)) smps fss ->
  let '((r, rs), s) := session handle smps (ctor, h) in
  r = RETCODE_SUCCESS /\ Memory.ub s.2 = Memory.ub h /\
  Forall2 (answered handle m run_model) (windows_of WINDOW_BYTES [] ((fun fs : list (list Z) => concat fs) <$> fss)) rs.
Proof.
  intros HR Hnew Hh Hm Hb EL ER Hmod FO W Rin Rout HF.
  assert (U : wp (session handle smps) (fun r s => r.1 = RETCODE_SUCCESS /\ Memory.ub s.2 = Memory.ub h /\
    Forall2 (answered handle m run_model) (windows_of WINDOW_BYTES [] ((fun fs : list (list Z) => concat fs) <$> fss)) r.2) (ctor, h)).
  { unfold session. apply wp_bind.
    eapply wp_mono; [by eapply (prepare_spec HR Hnew)|].
    intros r [s h1] (-> & _ & U1 & _ & _ & bl & P). cbn [fst snd] in *. apply wp_bind.
    eapply wp_mono; [by eapply (send_audio_spec HR Hnew)|].
    intros rs s2 (U2 & F). apply wp_ret. cbn. split_and!; [done|congruence|done]. }
  unfold wp in U. by destruct (session handle smps (ctor, h)) as [[r rs] s].
Qed.

(** ** Witness *)

Import SecurecSample.
#[local] Existing Instances sys_alloc sys_securec sys_alloc_laws.

(** Forty channels with mean 0 and deviation 1. *)
Definition zeros_file : list Z := concat (replicate 40 [48; 32]).
Definition ones_file : list Z := concat (replicate 40 [49; 32]).

#[local] Instance kws_files : Files := {|
  realpath := Some;
  fopen := fun s => if decide (s = DEFAULT_NORM_MEAN_FILE_PATH) then Some zeros_file
                    else if decide (s = DEFAULT_NORM_STD_FILE_PATH) then Some ones_file else None;
  atof := fun tok => match tok with [49] => SFone 53 1024 | _ => S754_zero false end;
|}.

(** A model whose two outputs are the first and the last feature of the window. *)
Definition ends_model (window : list Z) : list Z :=
  le 4 (le_val (take 4 window)) ++ le 4 (le_val (take 4 (drop (Z.to_nat 15996) window))).

#[local] Instance kws_engine : EngineAdapter := {|
  adapter := unit;
  new_adapter := Some tt;
  engine_Init := fun _ => mret (RETCODE_SUCCESS, 42);
  engine_Deinit := mret RETCODE_SUCCESS;
  engine_Invoke := fun _ s => (RETCODE_SUCCESS, (s.1, s.2 <| Memory.cells ::= fun cs =>
                     poke cs (Ptr.mk 1 0) (ends_model (peek cs (Ptr.mk 0 0) (Z.of_nat WINDOW_BYTES))) |>));
  engine_GetInputAddr := fun _ _ => mret (RETCODE_SUCCESS, (Some (Ptr.mk 0 0), DEFAULT_SLIDE_WINDOW_SIZE));
  engine_GetOutputAddr := fun _ _ => mret (RETCODE_SUCCESS, (Some (Ptr.mk 1 0), Z.of_nat 2));
  engine_ReleaseHandle := fun _ => mret RETCODE_SUCCESS;
|}.

Definition model_buffers : Memory.t := ((new_array (Z.of_nat WINDOW_BYTES) ;; new_array 8) Memory.empty).2.

Definition sample_audio : list (list Z) := (fun i => [Z.of_nat (i mod 7); 0]) <$> seq 0 SAMPLES.
Definition features_of (smp : list (list Z)) : list (list Z) :=
  imap (fun i x => default [] (feature (parameters_of zeros_file ones_file) i x)) smp.

Definition check_features (smp fs : list (list Z)) : bool :=
  forallb (fun i => bool_decide (feature (parameters_of zeros_file ones_file) i (nth i smp []) = Some (nth i fs []))) (seq 0 SAMPLES).

Lemma check_features_ok smp fs i :
  check_features smp fs = true -> (i < SAMPLES)%nat ->
  feature (parameters_of zeros_file ones_file) i (nth i smp []) = Some (nth i fs []).
Proof.
  unfold check_features. rewrite forallb_forall. intros F Hi. specialize (F i).
  apply bool_decide_eq_true in F; [done|]. apply in_seq. lia.
Qed.

Lemma sample_audio_ok : audio (parameters_of zeros_file ones_file) sample_audio (features_of sample_audio).
Proof.
  split.
  - split; vm_compute; reflexivity.
  - apply Forall_forall. intros x (i & -> & _)%list_elem_of_fmap. split; [done|].
    assert (i mod 7 < 7)%nat by (by apply Nat.mod_upper_bound). repeat constructor; lia.
  - intros i Hi. apply check_features_ok; [vm_compute; reflexivity|done].
Qed.

Lemma kws_sees_the_window_witness :
  let '((r, rs), s) := session 42 [sample_audio; sample_audio] (ctor, model_buffers) in
  r = RETCODE_SUCCESS /\ Memory.ub s.2 = Memory.ub model_buffers /\
  Forall2 (answered 42 2 ends_model)
    (windows_of WINDOW_BYTES [] ((fun fs : list (list Z) => concat fs) <$> [features_of sample_audio; features_of sample_audio])) rs.
Proof.
  apply (kws_sees_the_window 42 (Ptr.mk 0 0) (Ptr.mk 1 0) 2 ends_model zeros_file ones_file [sample_audio; sample_audio]
    [features_of sample_audio; features_of sample_audio] model_buffers).
  - apply sys_resources.
  - done.
  - by vm_compute.
  - by vm_compute.
  - done.
  - split; [by eexists|by intros ??..].
  - by intros a h ??.
  - done.
  - split; [eexists; split; [done|vm_compute; reflexivity]..|].
    split; apply Nat.leb_le; vm_compute; reflexivity.
  - apply wf_decide. vm_compute. reflexivity.
  - vm_compute. exact I.
  - vm_compute. exact I.
  - constructor; [apply sample_audio_ok|constructor; [apply sample_audio_ok|constructor]].
Defined.
