(* ===== verification/PcmIterator.v ===== *)
(** * PcmIterator: windows over a stream of audio samples

    pcm_iterator.cpp over [Memory].  The iterator shows a stream that arrives in
    inputs of any length as windows of [windowSize] samples, [stepSize] apart.
    It points into the caller's input where it can; the end of one input and the
    beginning of the next are joined in a cache of its own. *)

From Stdlib Require Import ZArith Lia.
From stdpp Require Import gmap list.
From S2P Require Import Prelude Protocol Encdec Memory PluginBase.

#[local] Open Scope Z_scope.

Definition MAX_CACHE_SIZE : Z := 16384.
Definition SIZEOF_INT16 : nat := 2.

(** [p + n] and [n * sizeof(int16_t)] on an [int16_t *] *)
Definition sample_at (p : option Ptr.t) (n : Z) : option Ptr.t := ptr_add p (n * Z.of_nat SIZEOF_INT16).
Definition sample_bytes (n : Z) : Z := u64 (n * Z.of_nat SIZEOF_INT16).

Module PCMIterator.

Record t := mk {
  stepSize_ : Z;
  windowSize_ : Z;
  numCopy_ : Z;
  numRealCopy_ : Z;
  nextCachePos_ : Z;
  maxCacheSize_ : Z;
  isInitialized_ : bool;
  hasNext_ : bool;
  pcmCache_ : Arr.t;
  pcmData_ : Arr.t;
}.
#[global] Instance eta_pcm_iterator : Eta t := fun r =>
  mk (stepSize_ r) (windowSize_ r) (numCopy_ r) (numRealCopy_ r) (nextCachePos_ r) (maxCacheSize_ r)
     (isInitialized_ r) (hasNext_ r) (pcmCache_ r) (pcmData_ r).

Definition none : Arr.t := Arr.mk None 0.

Definition ctor : t := mk 1 1 0 0 0 0 false false none none.

(** [pcmCache_.size = n] *)
Definition set_cache_size (n : Z) (s : t) : t := s <| pcmCache_ ::= fun a => Arr.mk (Arr.data a) n |>.
Definition set_data_size (n : Z) (s : t) : t := s <| pcmData_ ::= fun a => Arr.mk (Arr.data a) n |>.

Section operations.
  Context `{!Allocator, !SecurecMemory}.

Definition Init (stepSize windowSize : Z) : ST (t * Memory.t) Z :=
  s ← self id;
  if isInitialized_ s then mret RETCODE_FAILURE else
  if (stepSize =? 0) || (windowSize =? 0) then mret RETCODE_FAILURE else
  if windowSize <? stepSize then mret RETCODE_FAILURE else
  let maxNumRemain := u64 (windowSize - 1) in
  let maxNumSlide := u64 (maxNumRemain - 1) / stepSize in
  let maxCacheSize := s32 (u64 (maxNumSlide * stepSize + windowSize)) in
  set_self (fun s => s <| stepSize_ := stepSize |> <| windowSize_ := windowSize |> <| maxCacheSize_ := maxCacheSize |>) ;;
  if MAX_CACHE_SIZE <? maxCacheSize then mret RETCODE_FAILURE else
  data ← (if maxCacheSize <? 0 then mret None else on_memory (new_array (maxCacheSize * Z.of_nat SIZEOF_INT16)));
  set_self (fun s => s <| pcmCache_ := Arr.mk data (Arr.size (pcmCache_ s)) |>) ;;
  if bool_decide (data = None) then mret RETCODE_OUT_OF_MEMORY else
  set_self (fun s => s <| isInitialized_ := true |>) ;;
  mret RETCODE_SUCCESS.

Definition Reset : ST (t * Memory.t) unit :=
  set_self (fun s => s <| numCopy_ := 0 |> <| numRealCopy_ := 0 |> <| nextCachePos_ := 0 |>
                       <| pcmCache_ := none |> <| pcmData_ := none |> <| hasNext_ := false |>).

Definition Release : ST (t * Memory.t) unit :=
  i ← self isInitialized_;
  if (i : bool) then
    c ← self pcmCache_;
    on_memory (delete_array (Arr.data c)) ;;
    Reset ;;
    set_self (fun s => s <| isInitialized_ := false |>)
  else mret tt.

Definition dtor : ST (t * Memory.t) unit := Release.

Definition MoveDataToCache (input : Arr.t) : ST (t * Memory.t) Z :=
  s ← self id;
  retCode ← on_memory (memcpy_s (Arr.data (pcmCache_ s)) (sample_bytes (maxCacheSize_ s))
                                (Arr.data input) (sample_bytes (Arr.size input)));
  if negb (retCode =? EOK) then mret RETCODE_MEMORY_COPY_FAILURE else
  set_self (set_cache_size (Arr.size input)) ;;
  set_self (fun s => s <| nextCachePos_ := 0 |>) ;;
  let numSlide := u64 (Arr.size input - 1) / stepSize_ s in
  set_self (fun s => s <| numCopy_ := u64 (numSlide * stepSize_ s + windowSize_ s - Arr.size input) |>) ;;
  mret RETCODE_SUCCESS.

(** Copy the beginning of the input behind the remainder in the cache. *)
Definition fill_cache (input : Arr.t) : ST (t * Memory.t) Z :=
  s ← self id;
  let numReal := if Arr.size input <? numCopy_ s then Arr.size input else numCopy_ s in
  set_self (fun s => s <| numRealCopy_ := numReal |>) ;;
  let realCacheSize := u64 (nextCachePos_ s + Arr.size (pcmCache_ s)) in
  retCode ← on_memory (memcpy_s (sample_at (Arr.data (pcmCache_ s)) realCacheSize)
                                (sample_bytes (u64 (maxCacheSize_ s - realCacheSize)))
                                (Arr.data input) (sample_bytes numReal));
  if negb (retCode =? EOK) then mret RETCODE_MEMORY_COPY_FAILURE else
  set_self (set_cache_size (u64 (Arr.size (pcmCache_ s) + numReal))) ;;
  set_self (fun s => s <| numCopy_ ::= fun n => u64 (n - numReal) |>) ;;
  (if u64 (numCopy_ s - numReal) =? 0 then
     let diff := s32 (numReal - windowSize_ s + stepSize_ s) in
     set_self (fun s => s <| pcmData_ :=
       if 0 <? diff then Arr.mk (sample_at (Arr.data input) diff) (u64 (Arr.size input - diff)) else input |>)
   else set_self (fun s => s <| pcmData_ := none |>)) ;;
  mret RETCODE_SUCCESS.

Definition Prepare (input : Arr.t) : ST (t * Memory.t) Z :=
  set_self (fun s => s <| numRealCopy_ := 0 |>) ;;
  s ← self id;
  retCode ← (if 0 <? numCopy_ s then fill_cache input
             else set_self (fun s => s <| pcmData_ := input |>) ;; mret RETCODE_SUCCESS);
  if negb (retCode =? RETCODE_SUCCESS) then mret retCode else
  s ← self id;
  if (windowSize_ s <=? Arr.size (pcmCache_ s)) || (windowSize_ s <=? Arr.size (pcmData_ s)) then
    set_self (fun s => s <| hasNext_ := true |>) ;; mret RETCODE_SUCCESS
  else if (Arr.size (pcmCache_ s) =? 0) && (0 <? Arr.size (pcmData_ s)) && (Arr.size (pcmData_ s) <? windowSize_ s)
  then MoveDataToCache (pcmData_ s)
  else mret RETCODE_SUCCESS.

Definition HasNext : ST (t * Memory.t) bool :=
  s ← self id;
  let cacheSize := Arr.size (pcmCache_ s) in
  (if (0 <? nextCachePos_ s) && (numCopy_ s =? 0) && (0 <? cacheSize) && (cacheSize <? windowSize_ s) then
     MoveDataToCache (Arr.mk (sample_at (Arr.data (pcmCache_ s)) (nextCachePos_ s)) cacheSize) ;;
     Prepare (pcmData_ s) ;; mret tt
   else if (cacheSize =? 0) && (0 <? Arr.size (pcmData_ s)) && (Arr.size (pcmData_ s) <? windowSize_ s) then
     MoveDataToCache (pcmData_ s) ;;
     set_self (set_data_size 0)
   else mret tt) ;;
  self hasNext_.

Definition SetInput (input : Arr.t) : ST (t * Memory.t) Z :=
  i ← self isInitialized_;
  if negb i then mret RETCODE_FAILURE else
  h ← HasNext;
  if (h : bool) then mret RETCODE_FAILURE else
  if bool_decide (Arr.data input = None) || (Arr.size input =? 0) then mret RETCODE_NULL_PARAM else
  Prepare input.

(** The window from the cache or from the input, and the move to the next. *)
Definition take_cached : ST (t * Memory.t) Arr.t :=
  s ← self id;
  let size := u64 (Arr.size (pcmCache_ s) - stepSize_ s) in
  set_self (fun s => s <| nextCachePos_ ::= fun n => u64 (n + stepSize_ s) |>) ;;
  set_self (set_cache_size
    (if (numCopy_ s =? 0) && (size <? windowSize_ s) then
       let diff := s32 (windowSize_ s - stepSize_ s - numRealCopy_ s) in if 0 <? diff then diff else 0
     else size)) ;;
  mret (Arr.mk (sample_at (Arr.data (pcmCache_ s)) (nextCachePos_ s)) (windowSize_ s)).

Definition take_input : ST (t * Memory.t) Arr.t :=
  s ← self id;
  if windowSize_ s <=? Arr.size (pcmData_ s) then
    set_self (fun s => s <| pcmData_ ::= fun a => Arr.mk (sample_at (Arr.data a) (stepSize_ s)) (u64 (Arr.size a - stepSize_ s)) |>) ;;
    mret (Arr.mk (Arr.data (pcmData_ s)) (windowSize_ s))
  else mret none.

Definition Next : ST (t * Memory.t) Arr.t :=
  h ← HasNext;
  if negb h then mret none else
  s ← self id;
  output ← (if windowSize_ s <=? Arr.size (pcmCache_ s) then take_cached else take_input);
  s ← self id;
  (if (Arr.size (pcmCache_ s) <? windowSize_ s) && (Arr.size (pcmData_ s) <? windowSize_ s)
   then set_self (fun s => s <| hasNext_ := false |>) else mret tt) ;;
  mret output.

End operations.
End PCMIterator.
