(* ===== verification/PcmProps.v ===== *)
(** * PcmProps: the iterator shows the windows of the whole stream

    The reference [windows] cuts a stream into overlapping windows.  When every
    input has at least the size of a window, the windows the iterator shows, one
    input after the other, are those of the inputs put together; with shorter
    inputs windows are lost, as [short_inputs_lose_windows] shows. *)

From Stdlib Require Import ZArith Lia.
From stdpp Require Import gmap list.
From S2P Require Import Prelude Protocol Encdec Memory PluginBase PcmIterator.

#[local] Open Scope Z_scope.

(** ** The reference *)

(** How many windows a stream of [n] elements has. *)
Definition count (step win n : nat) : nat := if (n <? win)%nat then 0 else S ((n - win) / step).

Definition window {A} (step win : nat) (s : list A) (k : nat) : list A := take win (drop (k * step) s).

Definition windows {A} (step win : nat) (s : list A) : list (list A) :=
  window step win s <$> seq 0 (count step win (length s)).

(** What is left for the next windows. *)
Definition rest {A} (step win : nat) (s : list A) : list A := drop (count step win (length s) * step) s.

Section reference.
  Context {A : Type} (step win : nat) (Hstep : (0 < step)%nat) (Hle : (step <= win)%nat).
  Implicit Types (s c : list A).

Lemma count_spec n k : (k < count step win n)%nat <-> (k * step + win <= n)%nat.
Proof.
  unfold count. destruct (Nat.ltb_spec n win); [nia|].
  rewrite Nat.lt_succ_r. split.
  - intros Hk. pose proof (Nat.Div0.mul_div_le (n - win) step). nia.
  - intros Hk. apply Nat.div_le_lower_bound; nia.
Qed.

Lemma count_unique n k : (k * step + win <= n)%nat -> (n < S k * step + win)%nat -> count step win n = S k.
Proof.
  intros L U. pose proof (proj2 (count_spec n k) L). assert (~ (S k < count step win n)%nat) by (rewrite count_spec; lia). lia.
Qed.

Lemma count_short n : (n < win)%nat -> count step win n = 0%nat.
Proof. intros. unfold count. by rewrite (proj2 (Nat.ltb_lt _ _)). Qed.

Lemma count_rest n : (count step win n * step <= n)%nat /\ (n < count step win n * step + win)%nat.
Proof.
  split.
  - destruct (count step win n) as [|k] eqn:E; [lia|]. assert (k * step + win <= n)%nat by (apply count_spec; lia). lia.
  - apply Nat.nle_gt. rewrite <- count_spec. lia.
Qed.

Lemma length_rest s : (length (rest step win s) < win)%nat.
Proof. unfold rest. rewrite length_drop. pose proof (count_rest (length s)). lia. Qed.

Lemma count_app n m : count step win (n + m) = (count step win n + count step win (n - count step win n * step + m))%nat.
Proof.
  pose proof (count_rest n) as [L U]. pose proof (count_rest (n - count step win n * step + m)) as [L' U'].
  set (k := count step win n) in *. set (j := count step win (n - k * step + m)) in *.
  destruct (k + j)%nat as [|i] eqn:E.
  - apply count_short. nia.
  - apply count_unique; [|nia].
    destruct j as [|j'] eqn:Ej.
    + assert (i < k)%nat as Hi%count_spec by lia. lia.
    + assert (j' < count step win (n - k * step + m))%nat as Hj%count_spec by (subst j; lia). nia.
Qed.

Lemma window_app s c k : (k * step + win <= length s)%nat -> window step win (s ++ c) k = window step win s k.
Proof. intros. unfold window. rewrite drop_app_le, take_app_le; [done|rewrite length_drop; lia|lia]. Qed.

Lemma windows_app s c : windows step win (s ++ c) = windows step win s ++ windows step win (rest step win s ++ c).
Proof.
  unfold windows. pose proof (count_rest (length s)) as [L U].
  rewrite length_app, count_app, seq_app, fmap_app. f_equal.
  - apply list_fmap_ext. intros i k Hk%lookup_seq. apply window_app, count_spec. lia.
  - unfold rest. rewrite length_app, length_drop. cbn [Nat.add].
    rewrite <- (Nat.add_0_r (count step win (length s))) at 1. rewrite <- fmap_add_seq, <- list_fmap_compose.
    apply list_fmap_ext. intros i k _. unfold window. cbn. f_equal.
    rewrite Nat.mul_add_distr_r, <- drop_drop, drop_app_le by lia. done.
Qed.

Lemma rest_app s c : rest step win (s ++ c) = rest step win (rest step win s ++ c).
Proof.
  pose proof (count_rest (length s)) as [L U]. unfold rest at 1 2. rewrite !length_app, count_app.
  unfold rest. rewrite length_drop, Nat.mul_add_distr_r, <- drop_drop, drop_app_le by lia. done.
Qed.

End reference.

(** ** The caller's loop *)

Import PCMIterator.

Section loop.
  Context `{!Allocator, !SecurecMemory}.

(** [while (HasNext()) { ... Next() ... }] of a caller who reads each window;
    nothing when the fuel does not suffice. *)
Fixpoint drain (fuel : nat) : ST (t * Memory.t) (option (list (list Z))) :=
  match fuel with
  | O => mret None
  | S fuel' =>
      h ← HasNext;
      if (h : bool) then
        out ← Next;
        w ← on_memory (load (Arr.data out) (Arr.size out * Z.of_nat SIZEOF_INT16));
        ws ← drain fuel';
        mret (cons w <$> ws)
      else mret (Some [])
  end.

(** The caller reuses one buffer for its inputs. *)
Definition feed (pin : Ptr.t) (chunk : list Z) : ST (t * Memory.t) (option (list (list Z))) :=
  on_memory (store (Some pin) chunk) ;;
  r ← SetInput (Arr.mk (Some pin) (Z.of_nat (length chunk / SIZEOF_INT16)));
  if r =? RETCODE_SUCCESS then drain (S (length chunk)) else mret None.

Fixpoint feed_all (pin : Ptr.t) (chunks : list (list Z)) : ST (t * Memory.t) (option (list (list Z))) :=
  match chunks with
  | [] => mret (Some [])
  | c :: cs => ws ← feed pin c; ws' ← feed_all pin cs; mret (a ← ws; b ← ws'; Some (a ++ b))
  end.

Definition iterate (step win : Z) (pin : Ptr.t) (chunks : list (list Z)) : ST (t * Memory.t) (Z * option (list (list Z))) :=
  r ← Init step win;
  if r =? RETCODE_SUCCESS then ws ← feed_all pin chunks; mret (r, ws) else mret (r, None).

End loop.

(** ** Invariants *)

Section invariants.
  Context `{!Allocator, !SecurecMemory, !SecurecMemoryLaws}.
  Context (step win : nat) (Hstep : (0 < step)%nat) (Hle : (step <= win)%nat) (Htwo : (2 <= win)%nat).

#[local] Notation sstep := (step * SIZEOF_INT16)%nat.
#[local] Notation swin := (win * SIZEOF_INT16)%nat.

Definition cache_samples : nat := (win - 2) / step * step + win.

  Context (Hmax : Z.of_nat cache_samples <= MAX_CACHE_SIZE).

(** What holds between two calls: block [b] is the cache, [l] its bytes. *)
Record base (b : nat) (l : list Z) (s : t) (h : Memory.t) : Prop := {
  base_step : stepSize_ s = Z.of_nat step;
  base_win : windowSize_ s = Z.of_nat win;
  base_max : maxCacheSize_ s = Z.of_nat cache_samples;
  base_init : isInitialized_ s = true;
  base_data : Arr.data (pcmCache_ s) = Some (Ptr.mk b 0);
  base_cells : Memory.cells h !! b = Some l;
  base_length : length l = (cache_samples * SIZEOF_INT16)%nat;
}.

(** No window is left; the cache holds the remainder [r] of [n] samples. *)
Record idle (b : nat) (r : list Z) (n : nat) (l : list Z) (s : t) (h : Memory.t) : Prop := {
  idle_base : base b l s h;
  idle_next : hasNext_ s = false;
  idle_data : Arr.size (pcmData_ s) = 0;
  idle_length : length r = (n * SIZEOF_INT16)%nat;
  idle_short : (n < win)%nat;
  idle_size : Arr.size (pcmCache_ s) = Z.of_nat n;
  idle_cache : read_at l 0 (n * SIZEOF_INT16) = r;
  idle_copy : n = 0%nat /\ numCopy_ s = 0 \/
    exists q, (q * step < n <= S q * step)%nat /\ nextCachePos_ s = 0 /\
              numCopy_ s = Z.of_nat (q * step + win - n);
}.

(** [k] windows of the remainder [r] and the input [x] at [p] have been shown:
    the next is in the cache, or in the input. *)
Inductive place (p : Ptr.t) (stream : list Z) (rn n k : nat) (l : list Z) (s : t) : Prop :=
  | in_cache (q : nat) :
      (k * step < rn)%nat -> (q * step < rn <= S q * step)%nat ->
      Arr.size (pcmCache_ s) = Z.of_nat (q * step + win - k * step) ->
      nextCachePos_ s = Z.of_nat (k * step) ->
      numRealCopy_ s = Z.of_nat (q * step + win - rn) ->
      pcmData_ s = Arr.mk (Some (Ptr.add p (Z.of_nat ((S q * step - rn) * SIZEOF_INT16)))) (Z.of_nat (rn + n - S q * step)) ->
      read_at l 0 ((q * step + win) * SIZEOF_INT16) = take ((q * step + win) * SIZEOF_INT16) stream ->
      place p stream rn n k l s
  | in_input :
      (rn <= k * step)%nat ->
      Arr.size (pcmCache_ s) = 0 ->
      pcmData_ s = Arr.mk (Some (Ptr.add p (Z.of_nat ((k * step - rn) * SIZEOF_INT16)))) (Z.of_nat (rn + n - k * step)) ->
      place p stream rn n k l s.

Record phase (b : nat) (p : Ptr.t) (r x : list Z) (rn n k : nat) (l : list Z) (s : t) (h : Memory.t) : Prop := {
  phase_base : base b l s h;
  phase_block : Ptr.block p <> b;
  phase_range : in_range (Memory.cells h) p (Z.of_nat (n * SIZEOF_INT16));
  phase_input : peek (Memory.cells h) p (Z.of_nat (n * SIZEOF_INT16)) = x;
  phase_rn : length r = (rn * SIZEOF_INT16)%nat;
  phase_n : length x = (n * SIZEOF_INT16)%nat;
  phase_short : (rn < win)%nat;
  phase_long : (win <= n)%nat;
  phase_size : Z.of_nat (rn + n) < 2 ^ 31;
  phase_k : (k * step <= rn + n)%nat;
  phase_copy : numCopy_ s = 0;
  phase_next : hasNext_ s = bool_decide (k * step + win <= rn + n)%nat;
  phase_place : place p (r ++ x) rn n k l s;
}.

Lemma cache_small : Z.of_nat cache_samples < 2 ^ 15.
Proof. unfold MAX_CACHE_SIZE in Hmax. lia. Qed.

Lemma win_le_cache : (win <= cache_samples)%nat.
Proof. unfold cache_samples. lia. Qed.

Lemma slide_le_cache q n : (q * step < n)%nat -> (n < win)%nat -> (q * step + win <= cache_samples)%nat.
Proof.
  intros. unfold cache_samples. enough (q <= (win - 2) / step)%nat by nia.
  apply Nat.div_le_lower_bound; nia.
Qed.

(** The number of slides the code computes. *)
Lemma num_slide n : (0 < n)%nat -> (n < win)%nat -> exists q, (q * step < n <= S q * step)%nat /\
  u64 (Z.of_nat n - 1) / Z.of_nat step = Z.of_nat q.
Proof.
  intros. pose proof win_le_cache. pose proof cache_small. exists ((n - 1) / step)%nat. split.
  - pose proof (Nat.Div0.mul_div_le (n - 1) step).
    pose proof (Nat.mul_succ_div_gt (n - 1) step ltac:(lia)). nia.
  - rewrite wrap_u_small by lia. replace (Z.of_nat n - 1) with (Z.of_nat (n - 1)) by lia. by rewrite <- Nat2Z.inj_div.
Qed.

Lemma sample_bytes_small n : Z.of_nat n < 2 ^ 32 -> sample_bytes (Z.of_nat n) = Z.of_nat (n * SIZEOF_INT16).
Proof. intros. unfold sample_bytes, SIZEOF_INT16. rewrite wrap_u_small; lia. Qed.

(** ** The operations *)

Lemma has_next_skip s h (Q : bool -> t * Memory.t -> Prop) :
  (Arr.size (pcmCache_ s) = 0 /\ (Arr.size (pcmData_ s) = 0 \/ windowSize_ s <= Arr.size (pcmData_ s)) \/
   0 < Arr.size (pcmCache_ s) /\ (windowSize_ s <= Arr.size (pcmCache_ s) \/ nextCachePos_ s = 0 \/ numCopy_ s <> 0)) ->
  Q (hasNext_ s) (s, h) -> wp HasNext Q (s, h).
Proof.
  intros C HQ. unfold HasNext. apply wp_bind, wp_self. cbn [id].
  replace ((0 <? nextCachePos_ s) && (numCopy_ s =? 0) && (0 <? Arr.size (pcmCache_ s)) &&
           (Arr.size (pcmCache_ s) <? windowSize_ s)) with false by (symmetry; boolify; split_guards; lia).
  replace ((Arr.size (pcmCache_ s) =? 0) && (0 <? Arr.size (pcmData_ s)) && (Arr.size (pcmData_ s) <? windowSize_ s))
    with false by (symmetry; lia).
  by apply wp_bind, wp_ret, wp_self.
Qed.

Lemma slide_le k q m : (k * step < m)%nat -> (m <= S q * step)%nat -> (k <= q)%nat.
Proof. intros. apply Nat.lt_succ_r, (Nat.mul_lt_mono_pos_r step); lia. Qed.

Lemma has_next_more b p r x rn n k l s h (Q : bool -> t * Memory.t -> Prop) :
  phase b p r x rn n k l s h -> (k * step + win <= rn + n)%nat -> Q true (s, h) -> wp HasNext Q (s, h).
Proof.
  intros P Hk HQ. destruct (phase_base _ _ _ _ _ _ _ _ _ _ P) as [? W _ _ _ _ _].
  assert (E : hasNext_ s = true) by (rewrite (phase_next _ _ _ _ _ _ _ _ _ _ P); by apply bool_decide_eq_true_2).
  apply has_next_skip; [|by rewrite E].
  destruct (phase_place _ _ _ _ _ _ _ _ _ _ P) as [q Hc Hq Es En Er Ed Ec|Hr Es Ed]; rewrite W, Es.
  - right. assert (k * step <= q * step)%nat by (apply Nat.mul_le_mono_r, (slide_le k q rn); lia). split; [|left]; lia.
  - left. rewrite Ed. cbn [Arr.size]. split; [done|right; lia].
Qed.

(** The pointer [Next] returns, and the state it leaves. *)
Definition shown (b : nat) (p : Ptr.t) (r x : list Z) (rn n k : nat) (l : list Z) (h : Memory.t)
    (out : Arr.t) (s : t * Memory.t) : Prop :=
  exists q, out = Arr.mk (Some q) (Z.of_nat win) /\ in_range (Memory.cells h) q (Z.of_nat swin) /\
    peek (Memory.cells h) q (Z.of_nat swin) = window sstep swin (r ++ x) k /\
    (Ptr.block q = b \/ Ptr.block q = Ptr.block p) /\ s.2 = h /\ phase b p r x rn n (S k) l s.1 h.

(** The end of [Next]: the flag is cleared when neither source has a window. *)
Lemma next_flag out s h (Q : Arr.t -> t * Memory.t -> Prop) :
  (let more := (windowSize_ s <=? Arr.size (pcmCache_ s)) || (windowSize_ s <=? Arr.size (pcmData_ s)) in
   Q out (s <| hasNext_ := hasNext_ s && more |>, h)) ->
  wp (s ← self id;
      (if (Arr.size (pcmCache_ s) <? windowSize_ s) && (Arr.size (pcmData_ s) <? windowSize_ s)
       then set_self (fun s => s <| hasNext_ := false |>) else mret tt) ;; mret out) Q (s, h).
Proof.
  intros HQ. apply wp_bind, wp_self. cbn [id]. cbv zeta in HQ. apply wp_bind.
  destruct (Z.ltb_spec (Arr.size (pcmCache_ s)) (windowSize_ s)) as [C|C], (Z.ltb_spec (Arr.size (pcmData_ s)) (windowSize_ s)) as [D|D];
    cbn [andb]; (apply wp_set_self || apply wp_ret); apply wp_ret.
  - rewrite (proj2 (Z.leb_gt _ _)), (proj2 (Z.leb_gt _ _)), andb_false_r in HQ by done. done.
  - rewrite (proj2 (Z.leb_le (windowSize_ s) (Arr.size (pcmData_ s)))), orb_true_r, andb_true_r in HQ by done. by destruct s.
  - rewrite (proj2 (Z.leb_le (windowSize_ s) (Arr.size (pcmCache_ s)))), andb_true_r in HQ by done. by destruct s.
  - rewrite (proj2 (Z.leb_le (windowSize_ s) (Arr.size (pcmCache_ s)))), andb_true_r in HQ by done. by destruct s.
Qed.

Lemma next_in_input b p r x rn n k l s h :
  phase b p r x rn n k l s h -> (k * step + win <= rn + n)%nat -> (rn <= k * step)%nat ->
  Arr.size (pcmCache_ s) = 0 ->
  pcmData_ s = Arr.mk (Some (Ptr.add p (Z.of_nat ((k * step - rn) * SIZEOF_INT16)))) (Z.of_nat (rn + n - k * step)) ->
  wp Next (shown b p r x rn n k l h) (s, h).
Proof.
  intros P Hk Hr Es Ed. unfold Next. apply wp_bind. eapply has_next_more; [done..|]. cbn [negb].
  apply wp_bind, wp_self. cbn [id]. destruct P as [[B1 B2 B3 B4 B5 B6 B7] ? R X Lr Lx ????? Hn _].
  rewrite B2, Es, (proj2 (Z.leb_gt _ _)) by lia. apply wp_bind. unfold take_input. apply wp_bind, wp_self. cbn [id].
  rewrite B2, Ed. cbn [Arr.size Arr.data]. rewrite (proj2 (Z.leb_le _ _)) by lia.
  apply wp_bind, wp_set_self, wp_ret, next_flag. cbv zeta.
  destruct (peek_sub _ p x _ ((k * step - rn) * SIZEOF_INT16) swin R X) as [R' X']; [nia|].
  eexists. split_and!; [done|exact R'| |by right|done|].
  { rewrite X'. unfold window. rewrite drop_app_ge by nia. do 2 f_equal. nia. }
  split; try done; [cbn [Nat.mul]; nia| |].
  - cbn. rewrite Hn, Ed, Es, B2, bool_decide_eq_true_2 by done. cbn [Arr.size]. rewrite wrap_u_small by lia.
    rewrite (proj2 (Z.leb_gt _ 0)) by lia. cbn [orb andb]. apply Bool.eq_true_iff_eq.
    rewrite Z.leb_le, bool_decide_eq_true. lia.
  - apply in_input; [lia|done|]. cbn. rewrite Ed. cbn [Arr.data Arr.size]. unfold sample_at, ptr_add. cbn.
    rewrite B1, wrap_u_small by lia. unfold Ptr.add. cbn. f_equal; [|lia]. do 2 f_equal. unfold SIZEOF_INT16. lia.
Qed.

(** The size of the cache after a window: what is left, or nothing with the last. *)
Lemma cached_left q rn n k :
  (k * step < rn)%nat -> (q * step < rn <= S q * step)%nat -> (rn < win)%nat ->
  Z.of_nat (rn + n) < 2 ^ 31 -> (win <= n)%nat ->
  exists left : nat, ((k < q)%nat /\ left = (q * step + win - S k * step)%nat \/ k = q /\ left = 0%nat) /\
  let size := u64 (Z.of_nat (q * step + win - k * step) - Z.of_nat step) in
  (if size <? Z.of_nat win
   then let diff := s32 (Z.of_nat win - Z.of_nat step - Z.of_nat (q * step + win - rn)) in if 0 <? diff then diff else 0
   else size) = Z.of_nat left.
Proof.
  intros Hk Hq Hr Hn Hw. assert (k <= q)%nat as Hkq by (apply (slide_le k q rn); lia).
  assert (k * step <= q * step)%nat by (by apply Nat.mul_le_mono_r). cbv zeta. rewrite wrap_u_small by lia.
  destruct (Nat.ltb_spec k q) as [Hlt|Hge].
  - assert (S k * step <= q * step)%nat by (by apply Nat.mul_le_mono_r).
    eexists. split; [by left|]. cbn [Nat.mul] in *. rewrite (proj2 (Z.ltb_ge _ _)) by lia. lia.
  - assert (k = q) as -> by lia. exists 0%nat. split; [by right|]. cbn [Nat.mul] in *. rewrite (proj2 (Z.ltb_lt _ _)) by lia.
    rewrite wrap_s_small by lia. by rewrite (proj2 (Z.ltb_ge _ _)) by lia.
Qed.

Lemma next_in_cache b p r x rn n k l q s h :
  phase b p r x rn n k l s h -> (k * step + win <= rn + n)%nat ->
  (k * step < rn)%nat -> (q * step < rn <= S q * step)%nat ->
  Arr.size (pcmCache_ s) = Z.of_nat (q * step + win - k * step) ->
  nextCachePos_ s = Z.of_nat (k * step) ->
  numRealCopy_ s = Z.of_nat (q * step + win - rn) ->
  pcmData_ s = Arr.mk (Some (Ptr.add p (Z.of_nat ((S q * step - rn) * SIZEOF_INT16)))) (Z.of_nat (rn + n - S q * step)) ->
  read_at l 0 ((q * step + win) * SIZEOF_INT16) = take ((q * step + win) * SIZEOF_INT16) (r ++ x) ->
  wp Next (shown b p r x rn n k l h) (s, h).
Proof.
  intros P Hk Hr Hq Es En Er Ed Ec. unfold Next. apply wp_bind. eapply has_next_more; [done..|]. cbn [negb].
  apply wp_bind, wp_self. cbn [id]. destruct P as [[B1 B2 B3 B4 B5 B6 B7] Hb R X Lr Lx ???? Hcp Hn _].
  assert (k <= q)%nat as Hkq by (apply (slide_le k q rn); lia).
  assert (k * step <= q * step)%nat by (by apply Nat.mul_le_mono_r).
  assert (q * step + win <= cache_samples)%nat as Hfit by (apply (slide_le_cache q rn); lia).
  rewrite B2, Es, (proj2 (Z.leb_le _ _)) by lia. apply wp_bind. unfold take_cached. apply wp_bind, wp_self. cbn [id].
  rewrite Hcp, B1, B2, Es, Er. cbn [Z.eqb andb]. cbv zeta.
  pose proof (cached_left q rn n k Hr Hq ltac:(done) ltac:(done) ltac:(done)) as (left & Hleft & L).
  cbv zeta in L. rewrite L. clear L.
  apply wp_bind, wp_set_self, wp_bind, wp_set_self, wp_ret, next_flag. cbv zeta.
  assert (O : (k * sstep + swin <= (q * step + win) * SIZEOF_INT16)%nat) by (unfold SIZEOF_INT16; lia).
  eexists. rewrite B5, En. split_and!; [reflexivity| | |by left|done|].
  - apply (in_range_at _ _ _ _ l); [done|cbn; unfold SIZEOF_INT16; lia|lia|]. unfold zlen. rewrite B7. cbn. unfold SIZEOF_INT16 in *. lia.
  - etrans; [apply (peek_at _ _ _ _ l B6)|]. rewrite Nat2Z.id. unfold window. rewrite <- (read_at_sub l _ _ _ _ Ec O).
    f_equal. cbn. unfold SIZEOF_INT16. lia.
  - split; try done; [cbn [Nat.mul]; lia| |].
    + cbn. rewrite Hn, Ed, B2, bool_decide_eq_true_2 by done. cbn [Arr.size andb]. apply Bool.eq_true_iff_eq.
      rewrite orb_true_iff, !Z.leb_le, bool_decide_eq_true. destruct Hleft as [[Hlt ->]|[-> ->]].
      * assert (S k * step <= q * step)%nat by (by apply Nat.mul_le_mono_r). cbn [Nat.mul] in *. lia.
      * cbn [Nat.mul] in *. lia.
    + destruct Hleft as [[Hlt ->]|[-> ->]].
      * assert (S k * step <= q * step)%nat by (by apply Nat.mul_le_mono_r).
        apply (in_cache _ _ _ _ _ _ _ q); cbn; try done; [cbn in *; lia|].
        rewrite En, B1, wrap_u_small by lia. lia.
      * apply in_input; [cbn in *; lia|done|]. exact Ed.
Qed.

Lemma next_spec b p r x rn n k l s h :
  phase b p r x rn n k l s h -> (k * step + win <= rn + n)%nat -> wp Next (shown b p r x rn n k l h) (s, h).
Proof.
  intros P Hk. destruct (phase_place _ _ _ _ _ _ _ _ _ _ P) as [q|]; [by eapply next_in_cache|by apply next_in_input].
Qed.

Lemma read_write_front (l : list Z) bs n : length bs = n -> (n <= length l)%nat -> read_at (write_at l 0 bs) 0 n = bs.
Proof. intros <- ?. apply read_write_at. lia. Qed.

Lemma read_write_join (l : list Z) o bs n :
  (o + n <= length l)%nat -> length bs = n -> read_at (write_at l o bs) 0 (o + n) = read_at l 0 o ++ bs.
Proof.
  intros ? <-. unfold read_at. rewrite !drop_0. apply take_write_at. lia.
Qed.

Lemma no_overlap p q n : Ptr.block p <> Ptr.block q -> overlap p q n = false.
Proof. intros. unfold overlap. by rewrite bool_decide_eq_false_2. Qed.

(** The end of an input goes to the cache. *)
Lemma move_spec b l q m s h (Q : Z -> t * Memory.t -> Prop) :
  base b l s h -> Ptr.block q <> b -> in_range (Memory.cells h) q (Z.of_nat (m * SIZEOF_INT16)) -> (0 < m < win)%nat ->
  (forall i s' h', (i * step < m <= S i * step)%nat ->
     let bs := peek (Memory.cells h) q (Z.of_nat (m * SIZEOF_INT16)) in
     base b (write_at l 0 bs) s' h' -> frame b h h' -> hasNext_ s' = hasNext_ s ->
     Arr.size (pcmCache_ s') = Z.of_nat m -> nextCachePos_ s' = 0 -> numCopy_ s' = Z.of_nat (i * step + win - m) ->
     Q RETCODE_SUCCESS (s', h')) ->
  wp (MoveDataToCache (Arr.mk (Some q) (Z.of_nat m))) Q (s, h).
Proof.
  intros [B1 B2 B3 B4 B5 B6 B7] Hb R Hm HQ. pose proof win_le_cache as Wc. pose proof cache_small as Cs.
  unfold MoveDataToCache. apply wp_bind, wp_self. cbn [id Arr.data Arr.size]. rewrite B3, B5.
  rewrite !sample_bytes_small by lia. apply wp_bind, wp_on_memory, wp_memcpy_s;
    [unfold SIZEOF_INT16, SECUREC_MEM_MAX_LEN; lia..| |done|by apply no_overlap; apply not_eq_sym|].
  { apply (in_range_at _ _ _ _ l); [done|lia|lia|]. unfold zlen. rewrite B7. unfold SIZEOF_INT16. lia. }
  cbn [Z.eqb negb]. destruct (num_slide m) as (i & Hi & E); [lia..|]. rewrite B1, E.
  assert (i * step < m)%nat by lia. assert (i * step + win <= cache_samples)%nat as Hfit by (apply (slide_le_cache i m); lia).
  apply wp_bind, wp_set_self, wp_bind, wp_set_self, wp_bind, wp_set_self, wp_ret. apply (HQ i); try done.
  - split; try done; cbn.
    + rewrite (lookup_poke_same _ (Ptr.mk b 0) _ l) by done. done.
    + rewrite length_write_at; [done|]. rewrite length_peek by done. rewrite B7. unfold SIZEOF_INT16. lia.
  - apply frame_poke.
  - cbn. rewrite B1, B2. replace (Z.of_nat i * Z.of_nat step + Z.of_nat win - Z.of_nat m) with (Z.of_nat (i * step + win - m)) by lia.
    by rewrite wrap_u_small by lia.
Qed.

Lemma has_next_end b p r x rn n k l s h :
  phase b p r x rn n k l s h -> (rn + n < k * step + win)%nat ->
  wp HasNext (fun more s' => more = false /\ frame b h s'.2 /\
    exists l', idle b (drop (k * sstep) (r ++ x)) (rn + n - k * step) l' s'.1 s'.2) (s, h).
Proof.
  intros P Hk. pose proof P as [B Hb R X Lr Lx ?? Hsz Hkk Hcp Hn Pl]. rewrite bool_decide_eq_false_2 in Hn by lia.
  destruct Pl as [|Hr Es Ed]; [lia|]. destruct (peek_sub _ p x _ ((k * step - rn) * SIZEOF_INT16) ((rn + n - k * step) * SIZEOF_INT16) R X) as [R' X'].
  { unfold SIZEOF_INT16. lia. }
  assert (EX : take ((rn + n - k * step) * SIZEOF_INT16) (drop ((k * step - rn) * SIZEOF_INT16) x) = drop (k * sstep) (r ++ x)).
  { rewrite take_ge by (rewrite length_drop, Lx; unfold SIZEOF_INT16; lia). rewrite drop_app_ge by (rewrite Lr; unfold SIZEOF_INT16; nia).
    f_equal. rewrite Lr. unfold SIZEOF_INT16. nia. }
  assert (LX : length (drop (k * sstep) (r ++ x)) = ((rn + n - k * step) * SIZEOF_INT16)%nat).
  { rewrite length_drop, length_app, Lr, Lx. unfold SIZEOF_INT16. nia. }
  destruct (decide (rn + n - k * step = 0)%nat) as [E0|E0].
  - apply has_next_skip; [left; split; [done|left; rewrite Ed, E0; done]|]. split_and!; [done|done|].
    exists l. cbn [fst snd]. rewrite E0 in *. split; try done; [by rewrite Ed|lia|by left].
  - unfold HasNext. apply wp_bind, wp_self. cbn [id]. rewrite Es, Ed. cbn [Arr.size Z.eqb Z.ltb Z.compare andb].
    rewrite andb_false_r. cbn [andb]. rewrite (base_win _ _ _ _ B), (proj2 (Z.ltb_lt 0 _)), (proj2 (Z.ltb_lt _ (Z.of_nat win))) by lia. cbn [andb].
    apply wp_bind, wp_bind. eapply move_spec; [done|done|exact R'|lia|]. intros i s' h' Hi bs [C1 C2 C3 C4 C5 C6 C7] F Hn' Hs' Hnx Hc'.
    apply wp_set_self, wp_self. split_and!; [cbn; by rewrite Hn'|done|].
    subst bs. rewrite X', EX in *. eexists. cbn [fst snd].
    assert (LW : (length (drop (k * sstep) (r ++ x)) <= length l)%nat).
    { rewrite LX, (base_length _ _ _ _ B). pose proof win_le_cache. unfold SIZEOF_INT16. lia. }
    split; [by split|cbn; by rewrite Hn'|done|done|lia|done|apply read_write_front; lia|right; by exists i].
Qed.

(** The remainder in the cache is completed from the input. *)
Lemma fill_spec b p r x rn n q l s h (Q : Z -> t * Memory.t -> Prop) :
  base b l s h -> Ptr.block p <> b -> in_range (Memory.cells h) p (Z.of_nat (n * SIZEOF_INT16)) ->
  peek (Memory.cells h) p (Z.of_nat (n * SIZEOF_INT16)) = x -> Z.of_nat (rn + n) < 2 ^ 31 ->
  (win <= n)%nat -> (rn < win)%nat -> (q * step < rn <= S q * step)%nat ->
  nextCachePos_ s = 0 -> Arr.size (pcmCache_ s) = Z.of_nat rn -> numCopy_ s = Z.of_nat (q * step + win - rn) ->
  read_at l 0 (rn * SIZEOF_INT16) = r -> length r = (rn * SIZEOF_INT16)%nat ->
  (forall l' s' h', base b l' s' h' -> frame b h h' -> place p (r ++ x) rn n 0 l' s' -> numCopy_ s' = 0 ->
     windowSize_ s' <= Arr.size (pcmCache_ s') -> Q RETCODE_SUCCESS (s', h')) ->
  wp (fill_cache (Arr.mk (Some p) (Z.of_nat n))) Q (s, h).
Proof.
  intros [B1 B2 B3 B4 B5 B6 B7] Hb R X Hsz Hw Hr Hq En Es Ec Hl Lr HQ. pose proof win_le_cache as Wc. pose proof cache_small as Cs.
  assert (q * step + win <= cache_samples)%nat as Hfit by (apply (slide_le_cache q rn); lia).
  destruct (peek_sub (Memory.cells h) p x (n * SIZEOF_INT16) 0 ((q * step + win - rn) * SIZEOF_INT16)) as [R' X']; [exact R|exact X|unfold SIZEOF_INT16; lia|].
  rewrite drop_0 in X'.
  assert (Ptr.add p (Z.of_nat 0) = p) as Ep by (destruct p; unfold Ptr.add; cbn; by rewrite Z.add_0_r). rewrite Ep in R', X'.
  unfold fill_cache. apply wp_bind, wp_self. cbn [id Arr.data Arr.size]. rewrite Ec, (proj2 (Z.ltb_ge _ _)) by lia.
  apply wp_bind, wp_set_self. rewrite En, Es, B3, B5, Z.add_0_l, (wrap_u_small 64 (Z.of_nat rn)) by lia.
  replace (Z.of_nat cache_samples - Z.of_nat rn) with (Z.of_nat (cache_samples - rn)) by lia.
  rewrite (wrap_u_small 64 (Z.of_nat (cache_samples - rn))), !sample_bytes_small by lia. apply wp_bind, wp_on_memory.
  unfold sample_at, ptr_add. cbn [fmap option_fmap option_map].
  apply wp_memcpy_s; [unfold SIZEOF_INT16, SECUREC_MEM_MAX_LEN; lia..| |done|apply no_overlap; cbn; congruence|].
  { apply (in_range_at _ _ _ _ l); [done|cbn; unfold SIZEOF_INT16; lia|lia|]. unfold zlen. rewrite B7. cbn. unfold SIZEOF_INT16. lia. }
  cbn [Z.eqb negb]. set (bs := take ((q * step + win - rn) * SIZEOF_INT16) x) in *.
  assert (LB : length bs = ((q * step + win - rn) * SIZEOF_INT16)%nat).
  { rewrite <- X', length_peek, Nat2Z.id by done. done. }
  apply wp_bind, wp_set_self, wp_bind, wp_set_self. rewrite Z.sub_diag. change (u64 0 =? 0) with true. cbv iota.
  rewrite B1, B2. replace (Z.of_nat (q * step + win - rn) - Z.of_nat win + Z.of_nat step) with (Z.of_nat (S q * step - rn)) by lia.
  rewrite wrap_s_small by lia. apply wp_bind, wp_set_self, wp_ret.
  assert (EM : ((q * step + win) * SIZEOF_INT16 = rn * SIZEOF_INT16 + (q * step + win - rn) * SIZEOF_INT16)%nat) by (unfold SIZEOF_INT16; lia).
  apply (HQ (write_at l (rn * SIZEOF_INT16) bs)).
  - split; try done; cbn.
    + rewrite X', (lookup_poke_same _ (Ptr.mk b (Z.of_nat rn * 2)) _ l) by done. cbn. do 2 f_equal. unfold SIZEOF_INT16. lia.
    + rewrite length_write_at; [done|]. rewrite LB, B7. unfold SIZEOF_INT16. lia.
  - apply frame_poke.
  - apply (in_cache _ _ _ _ _ _ _ q); cbn [Nat.mul]; try done; cbn.
    + lia.
    + rewrite wrap_u_small by lia. lia.
    + destruct (Z.ltb_spec 0 (Z.of_nat (step + q * step - rn))) as [Hd|Hd]; cbn [Nat.mul] in *.
      * rewrite wrap_u_small by lia. f_equal; [|lia]. do 2 f_equal. unfold SIZEOF_INT16. lia.
      * replace (step + q * step - rn)%nat with 0%nat by lia. cbn. rewrite Ep. f_equal. lia.
    + rewrite EM, read_write_join by (rewrite ?B7; unfold SIZEOF_INT16 in *; lia). rewrite Hl.
      rewrite take_app_add' by (by rewrite Lr). done.
  - cbn. rewrite Ec, Z.sub_diag. done.
  - cbn. rewrite B2, wrap_u_small by lia. lia.
Qed.

Lemma idle_has_next b r rn l s h (Q : bool -> t * Memory.t -> Prop) :
  idle b r rn l s h -> Q false (s, h) -> wp HasNext Q (s, h).
Proof.
  intros [B Hn Hd Lr Hs Es Hl Hc] HQ. apply has_next_skip; [|by rewrite Hn].
  destruct Hc as [[-> _]|(q & Hq & En & _)]; [left; split; [done|by left]|right]. rewrite Es. split; [lia|]. by right; left.
Qed.

Lemma set_input_spec b p r x rn n l s h :
  idle b r rn l s h -> Ptr.block p <> b -> in_range (Memory.cells h) p (Z.of_nat (n * SIZEOF_INT16)) ->
  peek (Memory.cells h) p (Z.of_nat (n * SIZEOF_INT16)) = x -> Z.of_nat (rn + n) < 2 ^ 31 -> (win <= n)%nat ->
  wp (SetInput (Arr.mk (Some p) (Z.of_nat n))) (fun c s' => c = RETCODE_SUCCESS /\ frame b h s'.2 /\
    exists l', phase b p r x rn n 0 l' s'.1 s'.2) (s, h).
Proof.
  intros I Hb R X Hsz Hw. pose proof I as [B Hn Hd Lr Hs Es Hl Hc].
  assert (Lx : length x = (n * SIZEOF_INT16)%nat) by (rewrite <- X, length_peek, Nat2Z.id; done).
  unfold SetInput. apply wp_bind, wp_self. rewrite (base_init _ _ _ _ B). cbn [negb].
  apply wp_bind. eapply idle_has_next; [exact I|]. cbn [Arr.data Arr.size bool_decide orb].
  rewrite bool_decide_eq_false_2, (proj2 (Z.eqb_neq _ _)) by (done || lia). cbn [orb].
  unfold Prepare. apply wp_bind, wp_set_self, wp_bind, wp_self. cbn [id]. apply wp_bind.
  destruct Hc as [[-> Ec]|(q & Hq & En & Ec)].
  - change (numCopy_ (s <| numRealCopy_ := 0 |>)) with (numCopy_ s). rewrite Ec. cbn [Z.ltb Z.compare].
    apply wp_bind, wp_set_self, wp_ret. cbn [Z.eqb negb RETCODE_SUCCESS]. apply wp_bind, wp_self. cbn.
    rewrite Es, (base_win _ _ _ _ B), (proj2 (Z.leb_gt _ 0)), (proj2 (Z.leb_le _ (Z.of_nat n))) by lia. cbn [orb].
    apply wp_bind, wp_set_self, wp_ret. split_and!; [done|done|]. exists l.
    destruct B as [B1 B2 B3 B4 B5 B6 B7]. split; try done; try lia.
    + cbn. by rewrite bool_decide_eq_true_2 by lia.
    + apply in_input; [lia|done|]. cbn. destruct p. unfold Ptr.add. cbn. rewrite Z.add_0_r. f_equal. lia.
  - change (numCopy_ (s <| numRealCopy_ := 0 |>)) with (numCopy_ s). rewrite Ec, (proj2 (Z.ltb_lt _ _)) by lia.
    eapply (fill_spec b p r x rn n q); try done; [by destruct B|].
    intros l' s' h' B' F Pl Ec' Hfull. cbn [Z.eqb negb RETCODE_SUCCESS]. apply wp_bind, wp_self. cbn [id].
    rewrite (proj2 (Z.leb_le _ _) Hfull). cbn [orb]. apply wp_bind, wp_set_self, wp_ret. split_and!; [done|done|]. exists l'.
    destruct B' as [B1 B2 B3 B4 B5 B6 B7]. split; try done; try lia.
    + by eapply frame_in_range.
    + cbn. by rewrite (frame_peek _ _ _ _ _ F).
    + cbn. by rewrite bool_decide_eq_true_2 by lia.
    + destruct Pl as [q' ? ? ? ? ? ? ?|? ? ?]; [by apply (in_cache _ _ _ _ _ _ _ q')|by apply in_input].
Qed.

(** ** The whole loop *)

Lemma sstep_pos : (0 < sstep)%nat.
Proof. unfold SIZEOF_INT16. lia. Qed.

Lemma sstep_le : (sstep <= swin)%nat.
Proof. unfold SIZEOF_INT16. lia. Qed.

Lemma more_iff (rn n k : nat) : (k < count sstep swin ((rn + n) * SIZEOF_INT16))%nat <-> (k * step + win <= rn + n)%nat.
Proof. rewrite count_spec by apply sstep_pos || apply sstep_le. unfold SIZEOF_INT16. nia. Qed.

(** What a loop over the windows of [stream] leaves in memory and iterator. *)
Definition drained (b : nat) (stream : list Z) (h : Memory.t) (s : t * Memory.t) : Prop :=
  frame b h s.2 /\ exists n l, idle b (rest sstep swin stream) n l s.1 s.2.

Lemma drain_spec fuel : forall b p r x rn n k l s h,
  phase b p r x rn n k l s h -> (k <= count sstep swin (length (r ++ x)) < fuel + k)%nat ->
  wp (drain fuel) (fun ws s' =>
    ws = Some (window sstep swin (r ++ x) <$> seq k (count sstep swin (length (r ++ x)) - k)) /\
    drained b (r ++ x) h s') (s, h).
Proof.
  induction fuel as [|fuel IH]; intros b p r x rn n k l s h P Hk; [lia|]. cbn [drain].
  assert (L : length (r ++ x) = ((rn + n) * SIZEOF_INT16)%nat).
  { rewrite length_app, (phase_rn _ _ _ _ _ _ _ _ _ _ P), (phase_n _ _ _ _ _ _ _ _ _ _ P). lia. }
  rewrite L in *. set (c := count sstep swin ((rn + n) * SIZEOF_INT16)) in *. destruct (decide (k < c)%nat) as [Hlt|Hge].
  - pose proof (proj1 (more_iff rn n k) Hlt) as Hw. apply wp_bind. eapply has_next_more; [done..|].
    apply wp_bind. eapply wp_mono; [by apply next_spec|]. intros out [s1 h1] (q & -> & R & W & _ & E & P'). cbn in E, P'. subst h1.
    apply wp_bind, wp_on_memory. cbn [Arr.data Arr.size]. replace (Z.of_nat win * Z.of_nat SIZEOF_INT16) with (Z.of_nat swin) by lia.
    apply wp_load; [done|]. rewrite W. apply wp_bind. eapply wp_mono; [apply (IH _ _ _ _ _ _ _ _ _ _ P'); rewrite L; fold c; lia|].
    cbn beta. rewrite L. fold c. intros ws s2 [-> D]. apply wp_ret. split; [|done].
    replace (c - k)%nat with (S (c - S k)) by lia. done.
  - assert (k = c) as -> by lia. assert (rn + n < c * step + win)%nat as Hw.
    { apply Nat.nle_gt. intros C%more_iff. unfold c in Hge. lia. }
    apply wp_bind. eapply wp_mono; [by eapply has_next_end|]. intros more s2 (-> & F & l' & I).
    apply wp_ret. rewrite Nat.sub_diag. split; [done|]. split; [done|]. eexists _, l'. unfold rest. rewrite L. exact I.
Qed.

(** The iterator does not notice changes outside its cache and the input. *)
Lemma base_ext b l s h h' : Memory.cells h' !! b = Memory.cells h !! b -> base b l s h -> base b l s h'.
Proof. intros E [B1 B2 B3 B4 B5 B6 B7]. split; try done. congruence. Qed.

Lemma idle_ext b r rn l s h h' : Memory.cells h' !! b = Memory.cells h !! b -> idle b r rn l s h -> idle b r rn l s h'.
Proof. intros E [B I2 I3 I4 I5 I6 I7 I8]. split; try done. by eapply base_ext. Qed.

Lemma phase_ext b p r x rn n k l s h h' :
  Memory.cells h' !! b = Memory.cells h !! b -> Memory.cells h' !! Ptr.block p = Memory.cells h !! Ptr.block p ->
  phase b p r x rn n k l s h -> phase b p r x rn n k l s h'.
Proof.
  intros E Ep [B Hb R X P5 P6 P7 P8 P9 P10 P11 P12 P13].
  split; try done; [by eapply base_ext|by unfold in_range in *; rewrite Ep|by unfold peek in *; rewrite Ep].
Qed.

(** A store to the caller's buffer does not concern the iterator. *)
Lemma idle_store b r rn l s h q bs : Ptr.block q <> b -> idle b r rn l s h ->
  idle b r rn l s (h <| Memory.cells ::= fun c => poke c q bs |>).
Proof. intros Hq. apply idle_ext. cbn. by rewrite lookup_poke_other by (by apply not_eq_sym). Qed.

(** An input of the caller: whole samples, a window at least. *)
Definition input_ok (pin : Ptr.t) (h : Memory.t) (c : list Z) : Prop :=
  (exists n, length c = (n * SIZEOF_INT16)%nat /\ (win <= n)%nat) /\ zlen c <= INT_MAX /\
  in_range (Memory.cells h) pin (zlen c).

Lemma count_at_most rn n : (rn < win)%nat -> (count sstep swin ((rn + n) * SIZEOF_INT16) <= n)%nat.
Proof.
  intros. destruct (count sstep swin ((rn + n) * SIZEOF_INT16)) as [|j] eqn:E; [lia|].
  assert (j * step + win <= rn + n)%nat by (apply more_iff; lia). nia.
Qed.

Lemma pcm_feed_spec b pin r rn l c s h :
  idle b r rn l s h -> Ptr.block pin <> b -> input_ok pin h c ->
  wp (feed pin c) (fun ws s' => ws = Some (windows sstep swin (r ++ c)) /\ Memory.ub s'.2 = Memory.ub h /\
    (forall m, in_range (Memory.cells h) pin m -> in_range (Memory.cells s'.2) pin m) /\
    exists n l', idle b (rest sstep swin (r ++ c)) n l' s'.1 s'.2) (s, h).
Proof.
  intros I Hb ((n & Lc & Hn) & Hs & R). unfold feed. apply wp_bind, wp_on_memory, wp_store; [done|].
  apply (idle_store _ _ _ _ _ _ pin c Hb) in I. pose proof (idle_short _ _ _ _ _ _ I) as Hr.
  set (h1 := h <| Memory.cells ::= fun c' => poke c' pin c |>) in *.
  assert (Ez : zlen c = Z.of_nat (n * SIZEOF_INT16)) by (unfold zlen; by rewrite Lc).
  assert (R1 : in_range (Memory.cells h1) pin (Z.of_nat (n * SIZEOF_INT16))).
  { unfold h1. cbn. rewrite in_range_poke by done. by rewrite <- Ez. }
  assert (X1 : peek (Memory.cells h1) pin (Z.of_nat (n * SIZEOF_INT16)) = c).
  { unfold h1. cbn. rewrite <- Ez. by apply peek_poke_same. }
  pose proof win_le_cache as Wc. pose proof cache_small as Cs.
  apply wp_bind. rewrite Lc, Nat.div_mul by done. eapply wp_mono.
  { eapply set_input_spec; [exact I|done|exact R1|exact X1| |done]. unfold INT_MAX, SIZEOF_INT16 in *. lia. }
  intros r1 [s2 h2] (-> & F & l2 & P). cbn [fst snd] in F, P. cbn [Z.eqb RETCODE_SUCCESS].
  assert (L : length (r ++ c) = ((rn + n) * SIZEOF_INT16)%nat).
  { rewrite length_app, (phase_rn _ _ _ _ _ _ _ _ _ _ P), Lc. lia. }
  eapply wp_mono.
  { apply (drain_spec _ _ _ _ _ _ _ _ _ _ _ P). rewrite L. pose proof (count_at_most rn n Hr). assert (n <= n * SIZEOF_INT16)%nat by (unfold SIZEOF_INT16; lia). lia. }
  intros ws s3 [-> [F' D]]. rewrite Nat.sub_0_r. split_and!; [done| | |done].
  - by rewrite (frame_ub _ _ _ F'), (frame_ub _ _ _ F).
  - intros m Hm. eapply frame_in_range; [exact F'|done|]. eapply frame_in_range; [exact F|done|]. unfold h1. cbn. by rewrite in_range_poke.
Qed.

Lemma pcm_feed_all_spec b pin cs : Ptr.block pin <> b -> forall r rn l s h,
  idle b r rn l s h -> Forall (input_ok pin h) cs ->
  wp (feed_all pin cs) (fun ws s' => ws = Some (windows sstep swin (r ++ concat cs)) /\ Memory.ub s'.2 = Memory.ub h) (s, h).
Proof.
  intros Hb. induction cs as [|c cs IH]; intros r rn l s h I HF; cbn [feed_all concat].
  - apply wp_ret. split; [|done]. rewrite app_nil_r. unfold windows. rewrite count_short; [done|].
    rewrite (idle_length _ _ _ _ _ _ I). pose proof (idle_short _ _ _ _ _ _ I). unfold SIZEOF_INT16. lia.
  - apply Forall_cons in HF as [Hc HF]. apply wp_bind. eapply wp_mono; [by eapply pcm_feed_spec|].
    intros ws [s1 h1] (-> & U & Hin & n & l1 & I1). cbn [fst snd] in *. apply wp_bind. eapply wp_mono.
    { eapply IH; [exact I1|]. eapply Forall_impl; [exact HF|]. intros d (A & B & C). split_and!; [done|done|by apply Hin]. }
    intros ws2 s2 [-> U2]. apply wp_ret. split; [|congruence]. cbn [mbind option_bind].
    rewrite app_assoc, (windows_app sstep swin sstep_pos sstep_le (r ++ c)). done.
Qed.

Lemma cache_size_computed :
  s32 (u64 (u64 (u64 (Z.of_nat win - 1) - 1) / Z.of_nat step * Z.of_nat step + Z.of_nat win)) = Z.of_nat cache_samples.
Proof.
  pose proof win_le_cache as Wc. pose proof cache_small as Cs.
  rewrite (wrap_u_small 64 (Z.of_nat win - 1)) by lia. rewrite (wrap_u_small 64 (Z.of_nat win - 1 - 1)) by lia.
  replace (Z.of_nat win - 1 - 1) with (Z.of_nat (win - 2)) by lia. rewrite <- Nat2Z.inj_div.
  replace (Z.of_nat ((win - 2) / step) * Z.of_nat step + Z.of_nat win) with (Z.of_nat cache_samples) by (unfold cache_samples; lia).
  by rewrite wrap_u_small, wrap_s_small by lia.
Qed.

Lemma init_spec h :
  Memory.wf h -> malloc_ok (Mem.tick (Memory.mem h)) (Z.of_nat (cache_samples * SIZEOF_INT16)) = true ->
  wp (Init (Z.of_nat step) (Z.of_nat win)) (fun r s' => r = RETCODE_SUCCESS /\ Memory.ub s'.2 = Memory.ub h /\ Memory.wf s'.2 /\
    exists b l, Memory.cells h !! b = None /\ Memory.cells s'.2 = <[b := l]> (Memory.cells h) /\
                idle b [] 0 l s'.1 s'.2) (ctor, h).
Proof.
  intros W A. pose proof win_le_cache as Wc. pose proof cache_small as Cs.
  unfold Init. apply wp_bind, wp_self. cbn [id isInitialized_ ctor].
  rewrite !(proj2 (Z.eqb_neq _ 0)), (proj2 (Z.ltb_ge _ _)) by lia. cbn [orb].
  rewrite cache_size_computed. apply wp_bind, wp_set_self. rewrite (proj2 (Z.ltb_ge _ _)) by done.
  apply wp_bind. rewrite (proj2 (Z.ltb_ge _ 0)) by lia. apply wp_on_memory, wp_new_array; [done| |].
  { intros h' _ _ _ C. rewrite <- Nat2Z.inj_mul in C. congruence. }
  intros b bs h' W' Hfresh Lb Hc U _. apply wp_bind, wp_set_self. cbn [bool_decide]. rewrite bool_decide_eq_false_2 by done.
  apply wp_bind, wp_set_self, wp_ret. split_and!; [done|done|done|]. exists b, bs. split_and!; [done|done|].
  assert (length bs = (cache_samples * SIZEOF_INT16)%nat) by (unfold zlen in Lb; unfold SIZEOF_INT16 in *; lia).
  split; try done; [|lia|by left]. split; try done. cbn. rewrite Hc. apply lookup_insert_eq.
Qed.

End invariants.

(** ** The theorem *)

(** C27. From construction: when every input has at least [win] samples, the
    windows a caller reads in his loops, one input after the other, are exactly
    the windows of all inputs put together, in order and each once; [SetInput]
    always succeeds, every loop ends, and nothing is read or written outside a
    block. *)
Theorem pcm_iterator_windows `{!Allocator, !SecurecMemory, !SecurecMemoryLaws}
    (step win : nat) (pin : Ptr.t) (cap : Z) (chunks : list (list Z)) (h : Memory.t) :
  (0 < step)%nat -> (step <= win)%nat -> (2 <= win)%nat ->
  Z.of_nat (cache_samples step win) <= MAX_CACHE_SIZE ->
  Memory.wf h -> malloc_ok (Mem.tick (Memory.mem h)) (Z.of_nat (cache_samples step win * SIZEOF_INT16)) = true ->
  in_range (Memory.cells h) pin cap -> cap <= INT_MAX ->
  Forall (fun c => zlen c <= cap /\ exists n, length c = (n * SIZEOF_INT16)%nat /\ (win <= n)%nat) chunks ->
  let '((r, ws), s) := iterate (Z.of_nat step) (Z.of_nat win) pin chunks (ctor, h) in
  r = RETCODE_SUCCESS /\ Memory.ub s.2 = Memory.ub h /\
  ws = Some (windows (step * SIZEOF_INT16) (win * SIZEOF_INT16) (concat chunks)).
Proof.
  intros P1 P2 P3 P4 W A R Hcap HF.
  assert (S : wp (iterate (Z.of_nat step) (Z.of_nat win) pin chunks) (fun a s =>
    a.1 = RETCODE_SUCCESS /\ Memory.ub s.2 = Memory.ub h /\
    a.2 = Some (windows (step * SIZEOF_INT16) (win * SIZEOF_INT16) (concat chunks))) (ctor, h)).
  { unfold iterate. apply wp_bind. eapply wp_mono; [by apply init_spec|]. intros r [s1 h1] (-> & U & _ & b & l & Hb & Hc & I).
    cbn [fst snd Z.eqb RETCODE_SUCCESS] in *. apply wp_bind.
    apply in_range_inv in R as (l0 & El & Ho & Hn & Hlen). assert (Ptr.block pin <> b) as Hne by congruence.
    eapply wp_mono; [eapply (pcm_feed_all_spec step win P1 P2 P3 P4 b pin chunks Hne); [exact I|]|].
    - eapply Forall_impl; [exact HF|]. intros c (Hz & n & Hl & Hw). split_and!; [by exists n|lia|].
      destruct pin as [pb po]. cbn in *. apply (in_range_at _ _ _ _ l0); [by rewrite Hc, lookup_insert_ne|done|apply zlen_nonneg|lia].
    - intros ws s2 [-> U2]. apply wp_ret. split_and!; [done|cbn; congruence|done]. }
  unfold wp in S. destruct (iterate _ _ _ _ (ctor, h)) as [[r ws] s]. cbn [fst snd] in S. done.
Qed.

(** ** Witness and runs *)

Import SecurecSample.
#[local] Existing Instance always_alloc.

Definition caller_memory : Memory.t := (new_array 64 Memory.empty).2.
Definition caller_buffer : Ptr.t := Ptr.mk 0 0.

(** [n] samples that count from [k]. *)
Definition samples (k n : nat) : list Z := concat ((fun i => le 2 (Z.of_nat i)) <$> seq k n).

Lemma pcm_iterator_windows_witness :
  let '((r, ws), s) := iterate 2 5 caller_buffer [samples 0 6; samples 6 7; samples 13 5] (ctor, caller_memory) in
  r = RETCODE_SUCCESS /\ Memory.ub s.2 = Memory.ub caller_memory /\
  ws = Some (windows 4 10 (concat [samples 0 6; samples 6 7; samples 13 5])).
Proof.
  apply (pcm_iterator_windows 2 5 caller_buffer 64 [samples 0 6; samples 6 7; samples 13 5] caller_memory); try lia.
  - vm_compute. discriminate.
  - apply wf_decide. vm_compute. reflexivity.
  - reflexivity.
  - vm_compute. exact I.
  - unfold INT_MAX. lia.
  - repeat (apply Forall_cons; split; [split; [vm_compute; discriminate|]|]); [exists 6%nat|exists 7%nat|exists 5%nat|constructor];
      split; vm_compute; reflexivity || lia.
Defined.

(** Inputs shorter than a window: the remainder is moved inside the cache, onto
    itself, and the copy between overlapping ranges clears the cache; the failure
    is ignored and windows are lost. *)
Definition short_inputs : list (list Z) := [samples 0 22; samples 22 1; samples 23 5; samples 28 14; samples 42 12].

Example short_inputs_lose_windows :
  let '((r, ws), s) := iterate 2 8 caller_buffer short_inputs (ctor, caller_memory) in
  r = RETCODE_SUCCESS /\ length <$> ws = Some 19%nat /\
  length (windows 4 16 (concat short_inputs)) = 24%nat /\ Memory.ub s.2 = false.
Proof. vm_compute. repeat split; reflexivity. Qed.

(** [Reset] forgets the cache: its block stays allocated, and the iterator has none. *)
Example reset_loses_cache :
  let s := (Init 2 5 (ctor, caller_memory)).2 in
  let s' := (Reset s).2 in
  Arr.data (pcmCache_ s'.1) = None /\ Mem.live (Memory.mem s'.2) = Mem.live (Memory.mem s.2) /\
  (SetInput (Arr.mk (Some caller_buffer) 3) s').1 = RETCODE_MEMORY_COPY_FAILURE.
Proof. vm_compute. repeat split; reflexivity. Qed.
