(* ===== verification/AieClient.v ===== *)
(** * AieClient: the interface of the client library

    The functions of i_aie_client.inl that the algorithm SDKs call, as a class,
    and its implementation over [Client], the singleton [ClientFactory] of the
    process.  The memory of the SDK and of the client is one: an operation of the
    client runs on the allocator state inside [Memory]. *)

From Stdlib Require Import ZArith Lia.
From stdpp Require Import gmap strings list.
From S2P Require Import Prelude Protocol Encdec Thread Pools Ipc ClientProxy Client Memory PluginBase.

#[local] Open Scope Z_scope.

(** A callback is known by its number, [None] is a null pointer; the information
    and the output that an operation changes are returned. *)
Class AieClient := {
  client : Type;
  AieClientInit : ConfigInfo.t -> ClientInfo.t -> AlgorithmInfo.t -> option nat -> ST (client * Memory.t) (Z * ClientInfo.t);
  AieClientPrepare : ClientInfo.t -> AlgorithmInfo.t -> DataInfo.t -> DataInfo.t -> option nat -> ST (client * Memory.t) (Z * DataInfo.t);
  AieClientAsyncProcess : ClientInfo.t -> AlgorithmInfo.t -> DataInfo.t -> ST (client * Memory.t) Z;
  AieClientDestroy : ClientInfo.t -> ST (client * Memory.t) (Z * ClientInfo.t);
  AieClientSetOption : ClientInfo.t -> Z -> DataInfo.t -> ST (client * Memory.t) Z;
  AieClientGetOption : ClientInfo.t -> Z -> DataInfo.t -> DataInfo.t -> ST (client * Memory.t) (Z * DataInfo.t);
  AieClientRelease : ClientInfo.t -> AlgorithmInfo.t -> DataInfo.t -> ST (client * Memory.t) Z;
  AieClientSyncProcess : ClientInfo.t -> AlgorithmInfo.t -> DataInfo.t -> DataInfo.t -> ST (client * Memory.t) (Z * DataInfo.t);
}.

(** ** The implementation over [Client] *)

Module ClientLibrary.

Section library.
  Context `{!IpcIo, !Shm, !Connection, !Allocator, !Securec, !Pthread, !Environment}.

(** The singleton, once it exists. *)
Record t := mk { created : bool; factory : Client.t }.
#[global] Instance eta_library : Eta t := fun r => mk (created r) (factory r).

Definition client_mem (c : Client.t) : Mem.t := Ipc.mem (ClientProxy.ipc (Client.px c)).
Definition set_client_mem (m : Mem.t) (c : Client.t) : Client.t :=
  c <| Client.px ::= fun p => p <| ClientProxy.ipc ::= fun i => i <| Ipc.mem := m |> |> |>.

(** Run an operation of the client on the memory of the process. *)
Definition on_client {A} (m : ST Client.t A) : ST (t * Memory.t) A := fun s =>
  let '(a, c) := m (set_client_mem (Memory.mem s.2) (factory s.1)) in
  (a, (s.1 <| factory := c |>, s.2 <| Memory.mem := client_mem c |>)).

(** [SaClientAdapter::GetInstance()]: whether the singleton is there. *)
Definition GetClient : ST (t * Memory.t) bool :=
  e ← self created;
  if (e : bool) then mret true else
  ok ← on_memory (on_mem AIE_NEW); set_self (fun s => s <| created := ok |>) ;; mret ok.

Definition with_client {A} (none : A) (m : ST Client.t A) : ST (t * Memory.t) A :=
  ok ← GetClient; if (ok : bool) then on_client m else mret none.

Definition Init (config : ConfigInfo.t) (c : ClientInfo.t) (a : AlgorithmInfo.t) (cb : option nat) : ST (t * Memory.t) (Z * ClientInfo.t) :=
  with_client (RETCODE_NULL_PARAM, c) (Client.ClientInit config c a cb).
Definition Prepare (c : ClientInfo.t) (a : AlgorithmInfo.t) (i o : DataInfo.t) (cb : option nat) : ST (t * Memory.t) (Z * DataInfo.t) :=
  with_client (RETCODE_NULL_PARAM, o) (Client.ClientPrepare c a i o cb).
Definition AsyncProcess (c : ClientInfo.t) (a : AlgorithmInfo.t) (i : DataInfo.t) : ST (t * Memory.t) Z :=
  with_client RETCODE_NULL_PARAM (Client.ClientAsyncProcess c a i).
Definition Destroy (c : ClientInfo.t) : ST (t * Memory.t) (Z * ClientInfo.t) :=
  with_client (RETCODE_NULL_PARAM, c) (Client.ClientDestroy c).
Definition SetOption (c : ClientInfo.t) (optionType : Z) (i : DataInfo.t) : ST (t * Memory.t) Z :=
  with_client RETCODE_NULL_PARAM (Client.ClientSetOption c optionType i).
Definition GetOption (c : ClientInfo.t) (optionType : Z) (i o : DataInfo.t) : ST (t * Memory.t) (Z * DataInfo.t) :=
  with_client (RETCODE_NULL_PARAM, o) (Client.ClientGetOption c optionType i o).
Definition Release (c : ClientInfo.t) (a : AlgorithmInfo.t) (i : DataInfo.t) : ST (t * Memory.t) Z :=
  with_client RETCODE_NULL_PARAM (Client.ClientRelease c a i).
Definition SyncProcess (c : ClientInfo.t) (a : AlgorithmInfo.t) (i o : DataInfo.t) : ST (t * Memory.t) (Z * DataInfo.t) :=
  with_client (RETCODE_NULL_PARAM, o) (Client.ClientSyncProcess c a i o).

#[export] Instance client_library : AieClient := {|
  client := t;
  AieClientInit := Init;
  AieClientPrepare := Prepare;
  AieClientAsyncProcess := AsyncProcess;
  AieClientDestroy := Destroy;
  AieClientSetOption := SetOption;
  AieClientGetOption := GetOption;
  AieClientRelease := Release;
  AieClientSyncProcess := SyncProcess;
|}.

End library.
End ClientLibrary.
