(* ===== verification/IcSdk.v ===== *)
(** * IcSdk: the image classification SDK

    ic_sdk.cpp and ic_sdk_impl.cpp over the client interface: the SDK cuts an
    image into slices that fit a message, sends them one after the other and
    hands the answer to the last one to the application's callback. *)

From Stdlib Require Import ZArith Lia.
From stdpp Require Import gmap strings list.
From S2P Require Import Prelude Protocol Encdec Memory PluginBase IcPlugin AieClient.

#[local] Open Scope Z_scope.

Definition IC_RETCODE_FAILURE : Z := -1.
Definition IC_RETCODE_SUCCESS : Z := 0.
Definition IC_RETCODE_INIT_ERROR : Z := 1001.
Definition IC_RETCODE_NULL_PARAM : Z := 1002.
Definition IC_RETCODE_SERIALIZATION_ERROR : Z := 2001.
Definition IC_RETCODE_UNSERIALIZATION_ERROR : Z := 2002.

Definition CLIENT_VERSION_IC : Z := 20001003.
Definition INVALID_IC_HANDLE : Z := -1.
Definition ALGORITHM_TYPE_IC : Z := 3.
Definition EXT_MSG_LEN_DEFAULT : Z := 0.
Definition STARTING_OPERATE_ID : Z := 0.
Definition STARTING_REQ_ID : Z := 0.
Definition MAX_IPC_BUFFER_SIZE : Z := 25600.

(** What a callback of the application is told: the bytes of a result, or an
    error code. *)
Inductive event := OnResult (result : list Z) | OnError (errorCode : Z).

(** [MallocPointerGuard]: [free] on every way out. *)
Definition pointer_guard {T} `{!Allocator} (d : DataInfo.t) {A} (m : ST (T * Memory.t) A) : ST (T * Memory.t) A :=
  r ← m; on_memory (on_mem (free (DataInfo.data d))) ;; mret r.

(** The handle is written as soon as it is decoded, whatever follows. *)
Definition decoded_handle (old : Z) (vs : list value) : Z :=
  match vs with [] => old | v :: _ => handle_val v end.

Module IcSdkImpl.

Section sdk.
  Context `{!Allocator, !Securec, !AieClient}.

Record t := mk {
  library : client;
  callback_ : option nat;
  icHandle_ : Z;
  configInfo_ : ConfigInfo.t;
  clientInfo_ : ClientInfo.t;
  algorithmInfo_ : AlgorithmInfo.t;
  calls : list (nat * event);              (** calls of callbacks so far *)
}.
#[global] Instance eta_ic_sdk : Eta t := fun r =>
  mk (library r) (callback_ r) (icHandle_ r) (configInfo_ r) (clientInfo_ r) (algorithmInfo_ r) (calls r).

Definition ctor (l : client) : t :=
  mk l None INVALID_IC_HANDLE (ConfigInfo.mk "Ic config description")
     (ClientInfo.mk CLIENT_VERSION_IC INVALID_CLIENT_ID INVALID_SESSION_ID 0 0 EXT_MSG_LEN_DEFAULT None)
     (AlgorithmInfo.mk CLIENT_VERSION_IC false ALGORITHM_TYPE_IC ALGOTYPE_VERSION_IC false STARTING_OPERATE_ID STARTING_REQ_ID
        EXT_MSG_LEN_DEFAULT None) [].

(** Tell the callback, if there is one. *)
Definition notify (e : event) : ST (t * Memory.t) unit :=
  set_self (fun s => match callback_ s with Some cb => s <| calls ::= fun l => l ++ [(cb, e)] |> | None => s end).

Definition fail (event_code code : Z) : ST (t * Memory.t) Z := notify (OnError event_code) ;; mret code.

Definition Create : ST (t * Memory.t) Z :=
  s ← self id;
  if negb (icHandle_ s =? INVALID_IC_HANDLE) then mret IC_RETCODE_INIT_ERROR else
  r ← on_member library (AieClientInit (configInfo_ s) (clientInfo_ s) (algorithmInfo_ s) None);
  set_self (fun s => s <| clientInfo_ := r.2 |>) ;;
  if negb (r.1 =? RETCODE_SUCCESS) then fail IC_RETCODE_INIT_ERROR IC_RETCODE_INIT_ERROR else
  if ClientInfo.clientId r.2 =? INVALID_CLIENT_ID then fail IC_RETCODE_INIT_ERROR IC_RETCODE_INIT_ERROR else
  r ← on_member library (AieClientPrepare r.2 (algorithmInfo_ s) DataInfo.null DataInfo.null None);
  let '(retCode, outputInfo) := r in
  if negb (retCode =? RETCODE_SUCCESS) then fail IC_RETCODE_INIT_ERROR IC_RETCODE_INIT_ERROR else
  if bool_decide (DataInfo.data outputInfo = None) || (DataInfo.length outputInfo <=? 0)
  then fail IC_RETCODE_INIT_ERROR IC_RETCODE_INIT_ERROR else
  pointer_guard outputInfo (
    r ← on_memory (on_mem (EncdecFacade.ProcessDecode outputInfo [TObj SIZEOF_INTPTR]));
    set_self (fun s => s <| icHandle_ ::= fun old => decoded_handle old r.2 |>) ;;
    if negb (r.1 =? RETCODE_SUCCESS) then fail IC_RETCODE_UNSERIALIZATION_ERROR IC_RETCODE_UNSERIALIZATION_ERROR else
    mret IC_RETCODE_SUCCESS).

(** The slice of [inputData] at [offset], as it is encoded. *)
Definition load_slice (inputData : Arr.t) (offset size : Z) : ST (t * Memory.t) value :=
  bs ← on_memory (load (ptr_add (Arr.data inputData) offset) size); mret (VArray ((fun b => [b]) <$> bs)).

(** The loop over the slices; nothing when the fuel does not suffice. *)
Fixpoint slice_loop (fuel : nat) (inputData : Arr.t) (offset : Z) (outputInfo : DataInfo.t) :
    ST (t * Memory.t) (option (Z * DataInfo.t)) :=
  match fuel with
  | O => mret None
  | S fuel' =>
      if negb (offset <? Arr.size inputData) then mret (Some (IC_RETCODE_SUCCESS, outputInfo)) else
      let size := Z.min (u64 (Arr.size inputData - offset)) MAX_IPC_BUFFER_SIZE in
      s ← self id;
      tmpImage ← load_slice inputData offset size;
      r ← on_memory (on_mem (EncdecFacade.ProcessEncode [handle_obj (icHandle_ s); obj SIZEOF_UINT32 offset; tmpImage]));
      let '(retCode, inputInfo) := r in
      if negb (retCode =? RETCODE_SUCCESS) then
        c ← fail IC_RETCODE_SERIALIZATION_ERROR IC_RETCODE_SERIALIZATION_ERROR; mret (Some (c, DataInfo.null))
      else
      r ← on_member library (AieClientSyncProcess (clientInfo_ s) (algorithmInfo_ s) inputInfo DataInfo.null);
      let '(retCode, outputInfo) := r in
      if negb (retCode =? RETCODE_SUCCESS) then
        c ← fail IC_RETCODE_FAILURE IC_RETCODE_FAILURE; mret (Some (c, outputInfo))
      else slice_loop fuel' inputData (u32 (offset + size)) outputInfo
  end.

(** One round more than there are slices. *)
Definition slice_fuel (inputData : Arr.t) : nat := S (S (Z.to_nat (Arr.size inputData / MAX_IPC_BUFFER_SIZE))).

Definition OnSyncExecute (inputData : Arr.t) (outputInfo : DataInfo.t) : ST (t * Memory.t) (option (Z * DataInfo.t)) :=
  if bool_decide (Arr.data inputData = None) || (Arr.size inputData =? 0)
  then mret (Some (IC_RETCODE_NULL_PARAM, outputInfo))
  else slice_loop (slice_fuel inputData) inputData 0 outputInfo.

Definition SyncExecute (inputData : Arr.t) : ST (t * Memory.t) (option Z) :=
  r ← OnSyncExecute inputData DataInfo.null;
  match r with
  | None => mret None
  | Some (retCode, outputInfo) =>
      if bool_decide (DataInfo.data outputInfo = None) || (DataInfo.length outputInfo <=? 0) ||
         negb (retCode =? IC_RETCODE_SUCCESS)
      then c ← fail IC_RETCODE_FAILURE retCode; mret (Some c) else
      c ← pointer_guard outputInfo (
        r ← on_memory (ProcessDecodeArray outputInfo [TObj SIZEOF_INTPTR] SIZEOF_INT32);
        let '(retCode, (vs, icResult)) := r in
        if negb (retCode =? RETCODE_SUCCESS) then fail IC_RETCODE_UNSERIALIZATION_ERROR IC_RETCODE_UNSERIALIZATION_ERROR else
        s ← self id;
        if negb (icHandle_ s =? decoded_handle INVALID_IC_HANDLE vs) then fail IC_RETCODE_FAILURE IC_RETCODE_FAILURE else
        bs ← on_memory (load (Arr.data icResult) (Arr.size icResult * Z.of_nat SIZEOF_INT32));
        notify (OnResult bs) ;; mret IC_RETCODE_SUCCESS);
      mret (Some c)
  end.

Definition SetCallback (callback : option nat) : ST (t * Memory.t) Z :=
  match callback with
  | None => mret IC_RETCODE_FAILURE
  | Some cb => set_self (fun s => s <| callback_ := Some cb |>) ;; mret IC_RETCODE_SUCCESS
  end.

Definition Destroy : ST (t * Memory.t) Z :=
  s ← self id;
  if icHandle_ s =? INVALID_IC_HANDLE then mret IC_RETCODE_SUCCESS else
  r ← on_memory (on_mem (EncdecFacade.ProcessEncode [handle_obj (icHandle_ s)]));
  let '(retCode, inputInfo) := r in
  if negb (retCode =? RETCODE_SUCCESS) then fail IC_RETCODE_SERIALIZATION_ERROR IC_RETCODE_SERIALIZATION_ERROR else
  retCode ← on_member library (AieClientRelease (clientInfo_ s) (algorithmInfo_ s) inputInfo);
  if negb (retCode =? RETCODE_SUCCESS) then fail IC_RETCODE_FAILURE IC_RETCODE_FAILURE else
  r ← on_member library (AieClientDestroy (clientInfo_ s));
  set_self (fun s => s <| clientInfo_ := r.2 |>) ;;
  set_self (fun s => s <| icHandle_ := INVALID_IC_HANDLE |>) ;;
  if negb (r.1 =? RETCODE_SUCCESS) then fail IC_RETCODE_FAILURE IC_RETCODE_FAILURE else
  mret IC_RETCODE_SUCCESS.

End sdk.
End IcSdkImpl.

(** [IcSdk]: every object shares the one implementation of the process. *)
Module IcSdk.

Section sdk.
  Context `{!Allocator, !Securec, !AieClient}.

Definition Create : ST (IcSdkImpl.t * Memory.t) Z := IcSdkImpl.Create.
Definition SetCallback (callback : option nat) : ST (IcSdkImpl.t * Memory.t) Z := IcSdkImpl.SetCallback callback.
Definition SyncExecute (inputData : Arr.t) : ST (IcSdkImpl.t * Memory.t) (option Z) := IcSdkImpl.SyncExecute inputData.
Definition Destroy : ST (IcSdkImpl.t * Memory.t) Z := IcSdkImpl.Destroy.
Definition dtor : ST (IcSdkImpl.t * Memory.t) unit := IcSdkImpl.Destroy ;; mret tt.

End sdk.
End IcSdk.
