(* ===== verification/KwsSdk.v ===== *)
(** * KwsSdk: the keyword spotting SDK

    kws_sdk.cpp and kws_sdk_impl.cpp over the client interface: audio goes
    through the iterator of pcm_iterator.cpp and the MFCC processor, and the
    features of every window are sent to the plugin, whose answer is handed to
    the application's callback.  The MFCC processor comes compiled with the
    feature library; it is the parameter [MfccProcessor]. *)

From Stdlib Require Import ZArith Lia SpecFloat.
From stdpp Require Import gmap strings list.
From S2P Require Import Prelude Protocol Encdec Memory Float32 Feature PluginBase KwsPlugin PcmIterator AieClient IcSdk.

#[local] Open Scope Z_scope.

(** ** kws_retcode.h, kws_constants.h *)

Definition KWS_RETCODE_FAILURE : Z := -1.
Definition KWS_RETCODE_SUCCESS : Z := 0.
Definition KWS_RETCODE_INIT_ERROR : Z := 1001.
Definition KWS_RETCODE_NULL_PARAM : Z := 1002.
Definition KWS_RETCODE_SERIALIZATION_ERROR : Z := 2001.
Definition KWS_RETCODE_UNSERIALIZATION_ERROR : Z := 2002.
Definition KWS_RETCODE_PLUGIN_EXECUTION_ERROR : Z := 3001.
Definition KWS_RETCODE_PLUGIN_SESSION_ERROR : Z := 3002.

(** A decimal literal of type [float]: the quotient rounded once. *)
Definition float_ratio (num den : Z) : spec_float := float_div (float_of_Z num) (float_of_Z den).

Definition ALGORITHM_TYPE_KWS : Z := 2.
Definition DEFAULT_MFCC_WINDOW_SIZE_MS : Z := 30.
Definition DEFAULT_MFCC_SLIDE_SIZE_MS : Z := 20.
Definition DEFAULT_MFCC_SAMPLE_RATE : Z := 16000.
Definition DEFAULT_MFCC_NUM_CHANNELS : Z := 40.
Definition DEFAULT_MFCC_FEATURE_SIZE : Z := DEFAULT_NORM_INPUT_SIZE.
Definition DEFAULT_LOG_SCALE_SHIFT : Z := 6.
Definition DEFAULT_NOISE_SMOOTHING_BITS : Z := 10.
Definition DEFAULT_PCAN_GAIN_BITS : Z := 21.
Definition DEFAULT_PCAN_GAIN_STRENGTH : spec_float := float_ratio 95 100.
Definition DEFAULT_PCAN_GAIN_OFFSET : spec_float := float_of_Z 80.
Definition DEFAULT_FILTERBANK_LOWER_BAND_LIMIT : spec_float := float_of_Z 125.
Definition DEFAULT_FILTERBANK_UPPER_BAND_LIMIT : spec_float := float_of_Z 7500.
Definition DEFAULT_NOISE_EVEN_SMOOTHING : spec_float := float_ratio 25 1000.
Definition DEFAULT_NOISE_ODD_SMOOTHING : spec_float := float_ratio 6 100.
Definition DEFAULT_NOISE_MIN_SIGNAL_REMAINING : spec_float := float_ratio 5 100.
Definition DEFAULT_ENABLE_PCAN_GAIN : bool := true.
Definition DEFAULT_ENABLE_LOG_SCALE : bool := true.
Definition ONE_SECOND_MS : Z := 1000.

(** ** mfcc_processor.h *)

Module MFCCConfig.
Record t := mk {
  dataType : DataType;
  enablePcanGain : bool;
  enableLogScale : bool;
  noiseSmoothingBits : Z;
  pcanGainBits : Z;
  logScaleShift : Z;
  windowSize : Z;
  slideSize : Z;
  sampleRate : Z;
  featureSize : Z;
  numChannels : Z;
  filterbankLowerBandLimit : spec_float;
  filterbankUpperBandLimit : spec_float;
  noiseEvenSmoothing : spec_float;
  noiseOddSmoothing : spec_float;
  noiseMinSignalRemaining : spec_float;
  pcanGainStrength : spec_float;
  pcanGainOffset : spec_float;
}.
End MFCCConfig.

(** The processor as the library provides it. *)
Class MfccProcessor := {
  mfcc : Type;
  new_mfcc : mfcc;
  mfcc_Init : MFCCConfig.t -> ST (mfcc * Memory.t) Z;
  mfcc_Process : FeatureData.t -> FeatureData.t -> ST (mfcc * Memory.t) outcome;
  delete_mfcc : ST (mfcc * Memory.t) unit;
}.

(** [InitMFCCConfiguration] sets every member. *)
Definition mfccConfig : MFCCConfig.t := {|
  MFCCConfig.dataType := UINT16;
  MFCCConfig.windowSize := DEFAULT_MFCC_WINDOW_SIZE_MS * DEFAULT_MFCC_SAMPLE_RATE / ONE_SECOND_MS;
  MFCCConfig.slideSize := DEFAULT_MFCC_SLIDE_SIZE_MS * DEFAULT_MFCC_SAMPLE_RATE / ONE_SECOND_MS;
  MFCCConfig.sampleRate := DEFAULT_MFCC_SAMPLE_RATE;
  MFCCConfig.featureSize := DEFAULT_MFCC_FEATURE_SIZE;
  MFCCConfig.numChannels := DEFAULT_MFCC_NUM_CHANNELS;
  MFCCConfig.filterbankLowerBandLimit := DEFAULT_FILTERBANK_LOWER_BAND_LIMIT;
  MFCCConfig.filterbankUpperBandLimit := DEFAULT_FILTERBANK_UPPER_BAND_LIMIT;
  MFCCConfig.noiseSmoothingBits := DEFAULT_NOISE_SMOOTHING_BITS;
  MFCCConfig.noiseEvenSmoothing := DEFAULT_NOISE_EVEN_SMOOTHING;
  MFCCConfig.noiseOddSmoothing := DEFAULT_NOISE_ODD_SMOOTHING;
  MFCCConfig.noiseMinSignalRemaining := DEFAULT_NOISE_MIN_SIGNAL_REMAINING;
  MFCCConfig.enablePcanGain := DEFAULT_ENABLE_PCAN_GAIN;
  MFCCConfig.pcanGainStrength := DEFAULT_PCAN_GAIN_STRENGTH;
  MFCCConfig.pcanGainOffset := DEFAULT_PCAN_GAIN_OFFSET;
  MFCCConfig.pcanGainBits := DEFAULT_PCAN_GAIN_BITS;
  MFCCConfig.enableLogScale := DEFAULT_ENABLE_LOG_SCALE;
  MFCCConfig.logScaleShift := DEFAULT_LOG_SCALE_SHIFT;
|}.

(** ** [KWSSdk::KWSSdkImpl] *)

Module KWSSdkImpl.

Section sdk.
  Context `{!Allocator, !Securec, !SecurecMemory, !AieClient, !MfccProcessor}.

Record t := mk {
  library : client;
  callback_ : option nat;
  pcmIterator_ : option PCMIterator.t;
  mfccProcessor_ : option mfcc;
  configInfo_ : ConfigInfo.t;
  kwsHandle_ : Z;
  clientInfo_ : ClientInfo.t;
  algorithmInfo_ : AlgorithmInfo.t;
  calls : list (nat * event);              (** calls of callbacks so far *)
}.
#[global] Instance eta_kws_sdk_impl : Eta t := fun r =>
  mk (library r) (callback_ r) (pcmIterator_ r) (mfccProcessor_ r) (configInfo_ r) (kwsHandle_ r) (clientInfo_ r)
     (algorithmInfo_ r) (calls r).

Definition ctor (l : client) : t :=
  mk l None None None (ConfigInfo.mk "kws config description") INVALID_KWS_HANDLE
     (ClientInfo.mk CLIENT_VERSION_KWS INVALID_CLIENT_ID INVALID_SESSION_ID 0 0 EXT_MSG_LEN_DEFAULT None)
     (AlgorithmInfo.mk CLIENT_VERSION_KWS false ALGORITHM_TYPE_KWS ALGOTYPE_VERSION_KWS false STARTING_OPERATE_ID
        STARTING_REQ_ID EXT_MSG_LEN_DEFAULT None) [].

(** [callback_->OnError(code)] and the like *)
Definition notify (e : event) : ST (t * Memory.t) unit := fun s =>
  match callback_ s.1 with
  | Some cb => (tt, (s.1 <| calls ::= fun l => l ++ [(cb, e)] |>, s.2))
  | None => (tt, (s.1, s.2 <| Memory.ub := true |>))
  end.

Definition fail (code : Z) : ST (t * Memory.t) Z := notify (OnError code) ;; mret code.

(** [mfccProcessor_ = value], and the same of the iterator: the object that was
    there is deleted. *)
Definition reset_mfcc (value : option mfcc) : ST (t * Memory.t) unit :=
  old ← self mfccProcessor_;
  (match old with Some _ => call mfccProcessor_ tt delete_mfcc | None => mret tt end) ;;
  set_self (fun s => s <| mfccProcessor_ := value |>).

Definition reset_iterator (value : option PCMIterator.t) : ST (t * Memory.t) unit :=
  old ← self pcmIterator_;
  (match old with Some _ => call pcmIterator_ tt PCMIterator.dtor | None => mret tt end) ;;
  set_self (fun s => s <| pcmIterator_ := value |>).

Definition InitComponents : ST (t * Memory.t) Z :=
  ok ← on_memory (on_mem AIE_NEW);
  reset_mfcc (if (ok : bool) then Some new_mfcc else None) ;;
  if negb ok then mret KWS_RETCODE_FAILURE else
  r ← call mfccProcessor_ RETCODE_FAILURE (mfcc_Init mfccConfig);
  if negb (r =? RETCODE_SUCCESS) then mret KWS_RETCODE_FAILURE else
  ok ← on_memory (on_mem AIE_NEW);
  reset_iterator (if (ok : bool) then Some PCMIterator.ctor else None) ;;
  if negb ok then mret KWS_RETCODE_FAILURE else
  let stepSize := DEFAULT_SLIDE_STEP_SIZE / DEFAULT_MFCC_NUM_CHANNELS * MFCCConfig.slideSize mfccConfig in
  let windowSize := stepSize + MFCCConfig.windowSize mfccConfig - MFCCConfig.slideSize mfccConfig in
  r ← call pcmIterator_ RETCODE_FAILURE (PCMIterator.Init stepSize windowSize);
  if negb (r =? RETCODE_SUCCESS) then mret KWS_RETCODE_FAILURE else
  mret KWS_RETCODE_SUCCESS.

Definition Create : ST (t * Memory.t) Z :=
  s ← self id;
  if negb (kwsHandle_ s =? INVALID_KWS_HANDLE) then mret KWS_RETCODE_INIT_ERROR else
  r ← InitComponents;
  if negb (r =? KWS_RETCODE_SUCCESS) then mret KWS_RETCODE_INIT_ERROR else
  r ← on_member library (AieClientInit (configInfo_ s) (clientInfo_ s) (algorithmInfo_ s) None);
  set_self (fun s => s <| clientInfo_ := r.2 |>) ;;
  if negb (r.1 =? RETCODE_SUCCESS) then mret KWS_RETCODE_INIT_ERROR else
  if ClientInfo.clientId r.2 =? INVALID_CLIENT_ID then mret KWS_RETCODE_INIT_ERROR else
  r ← on_member library (AieClientPrepare r.2 (algorithmInfo_ s) DataInfo.null DataInfo.null None);
  let '(retCode, outputInfo) := r in
  if negb (retCode =? RETCODE_SUCCESS) then mret KWS_RETCODE_INIT_ERROR else
  if bool_decide (DataInfo.data outputInfo = None) || (DataInfo.length outputInfo <=? 0)
  then mret KWS_RETCODE_INIT_ERROR else
  pointer_guard outputInfo (
    r ← on_memory (on_mem (EncdecFacade.ProcessDecode outputInfo [TObj SIZEOF_INTPTR]));
    set_self (fun s => s <| kwsHandle_ ::= fun old => decoded_handle old r.2 |>) ;;
    if negb (r.1 =? RETCODE_SUCCESS) then mret KWS_RETCODE_UNSERIALIZATION_ERROR else
    mret KWS_RETCODE_SUCCESS).

(** The value [Array<uint16_t>{data, size}] that is encoded. *)
Definition load_features (input : Arr.t) : ST Memory.t value :=
  match Arr.data input with
  | None => mret (VArray [])
  | Some _ => bs ← load (Arr.data input) (Arr.size input * Z.of_nat SIZEOF_INT16);
              mret (VArray (objects (Z.to_nat (Arr.size input)) SIZEOF_INT16 bs))
  end.

Definition Execute (input : Arr.t) : ST (t * Memory.t) Z :=
  s ← self id;
  features ← on_memory (load_features input);
  r ← on_memory (on_mem (EncdecFacade.ProcessEncode [handle_obj (kwsHandle_ s); features]));
  let '(retCode, inputInfo) := r in
  if negb (retCode =? RETCODE_SUCCESS) then fail KWS_RETCODE_SERIALIZATION_ERROR else
  r ← on_member library (AieClientSyncProcess (clientInfo_ s) (algorithmInfo_ s) inputInfo DataInfo.null);
  let '(retCode, outputInfo) := r in
  if negb (retCode =? RETCODE_SUCCESS) then fail KWS_RETCODE_PLUGIN_EXECUTION_ERROR else
  if bool_decide (DataInfo.data outputInfo = None) || (DataInfo.length outputInfo <=? 0)
  then fail KWS_RETCODE_NULL_PARAM else
  pointer_guard outputInfo (
    r ← on_memory (ProcessDecodeArray outputInfo [TObj SIZEOF_INTPTR] SIZEOF_INT32);
    let '(retCode, (vs, kwsResult)) := r in
    if negb (retCode =? RETCODE_SUCCESS) then fail KWS_RETCODE_UNSERIALIZATION_ERROR else
    if negb (kwsHandle_ s =? decoded_handle 0 vs) then fail KWS_RETCODE_PLUGIN_SESSION_ERROR else
    bs ← on_memory (load (Arr.data kwsResult) (Arr.size kwsResult * Z.of_nat SIZEOF_INT32));
    notify (OnResult bs) ;; mret KWS_RETCODE_SUCCESS).

(** The loop over the windows; nothing when the fuel does not suffice. *)
Fixpoint window_loop (fuel : nat) (mfccFeature : FeatureData.t) : ST (t * Memory.t) (option Z) :=
  match fuel with
  | O => mret None
  | S fuel' =>
      more ← call pcmIterator_ false PCMIterator.HasNext;
      if negb more then mret (Some KWS_RETCODE_SUCCESS) else
      pcmInput ← call pcmIterator_ PCMIterator.none PCMIterator.Next;
      r ← call mfccProcessor_ (RETCODE_FAILURE, mfccFeature)
            (mfcc_Process (FeatureData.mk INT16 (Arr.data pcmInput) (Arr.size pcmInput)) mfccFeature);
      let '(retCode, mfccFeature) := r in
      if negb (retCode =? RETCODE_SUCCESS) then mret (Some KWS_RETCODE_FAILURE) else
      retCode ← Execute (Arr.mk (FeatureData.data mfccFeature) (FeatureData.size mfccFeature));
      if negb (retCode =? KWS_RETCODE_SUCCESS) then mret (Some retCode) else
      window_loop fuel' (mfccFeature <| FeatureData.data := None |> <| FeatureData.size := 0 |>)
  end.

(** An input of [n] samples completes at most [n] windows. *)
Definition window_fuel (input : Arr.t) : nat := S (Z.to_nat (Arr.size input)).

Definition SyncExecute (input : Arr.t) : ST (t * Memory.t) (option Z) :=
  s ← self id;
  if kwsHandle_ s =? INVALID_KWS_HANDLE then mret (Some KWS_RETCODE_FAILURE) else
  if bool_decide (callback_ s = None) then mret (Some KWS_RETCODE_FAILURE) else
  retCode ← call pcmIterator_ RETCODE_FAILURE (PCMIterator.SetInput input);
  if negb (retCode =? RETCODE_SUCCESS) then mret (Some KWS_RETCODE_FAILURE) else
  window_loop (window_fuel input) (FeatureData.empty UINT16).

Definition SetCallback (callback : option nat) : ST (t * Memory.t) Z :=
  match callback with
  | None => mret KWS_RETCODE_NULL_PARAM
  | Some cb => set_self (fun s => s <| callback_ := Some cb |>) ;; mret KWS_RETCODE_SUCCESS
  end.

Definition Destroy : ST (t * Memory.t) Z :=
  s ← self id;
  if kwsHandle_ s =? INVALID_KWS_HANDLE then mret KWS_RETCODE_SUCCESS else
  r ← on_memory (on_mem (EncdecFacade.ProcessEncode [handle_obj (kwsHandle_ s)]));
  let '(retCode, inputInfo) := r in
  if negb (retCode =? RETCODE_SUCCESS) then mret KWS_RETCODE_SERIALIZATION_ERROR else
  retCode ← on_member library (AieClientRelease (clientInfo_ s) (algorithmInfo_ s) inputInfo);
  if negb (retCode =? RETCODE_SUCCESS) then mret KWS_RETCODE_FAILURE else
  r ← on_member library (AieClientDestroy (clientInfo_ s));
  set_self (fun s => s <| clientInfo_ := r.2 |>) ;;
  if negb (r.1 =? RETCODE_SUCCESS) then mret KWS_RETCODE_FAILURE else
  reset_mfcc None ;;
  reset_iterator None ;;
  set_self (fun s => s <| callback_ := None |>) ;;
  set_self (fun s => s <| kwsHandle_ := INVALID_KWS_HANDLE |>) ;;
  mret KWS_RETCODE_SUCCESS.

(** The destructor; the members go after its body. *)
Definition dtor : ST (t * Memory.t) unit :=
  Destroy ;; reset_mfcc None ;; reset_iterator None.

End sdk.
End KWSSdkImpl.

(** ** [KWSSdk] *)

Module KWSSdk.

Section sdk.
  Context `{!Allocator, !Securec, !SecurecMemory, !AieClient, !MfccProcessor}.

Record t := mk {
  library : client;
  kwsSdkImpl_ : option KWSSdkImpl.t;
  calls : list (nat * event);
}.
#[global] Instance eta_kws_sdk : Eta t := fun r => mk (library r) (kwsSdkImpl_ r) (calls r).

Definition ctor (l : client) : t := mk l None [].

(** [kwsSdkImpl_->m()]; the client library of the process and the callbacks the
    application has seen outlive the implementation. *)
Definition on_impl {R} (none : R) (m : ST (KWSSdkImpl.t * Memory.t) R) : ST (t * Memory.t) R := fun s =>
  match kwsSdkImpl_ s.1 with
  | None => (none, s)
  | Some i =>
      let '(r, (i, h)) := m (i <| KWSSdkImpl.library := library s.1 |> <| KWSSdkImpl.calls := calls s.1 |>, s.2) in
      (r, (mk (KWSSdkImpl.library i) (Some i) (KWSSdkImpl.calls i), h))
  end.

Definition Create : ST (t * Memory.t) Z :=
  s ← self id;
  match kwsSdkImpl_ s with
  | Some _ => on_impl KWS_RETCODE_FAILURE KWSSdkImpl.Create
  | None =>
      ok ← on_memory (on_mem AIE_NEW);
      set_self (fun s => s <| kwsSdkImpl_ := if (ok : bool) then Some (KWSSdkImpl.ctor (library s)) else None |>) ;;
      if negb ok then mret KWS_RETCODE_FAILURE else
      on_impl KWS_RETCODE_FAILURE KWSSdkImpl.Create
  end.

Definition SetCallback (callback : option nat) : ST (t * Memory.t) Z :=
  on_impl KWS_RETCODE_FAILURE (KWSSdkImpl.SetCallback callback).
Definition SyncExecute (input : Arr.t) : ST (t * Memory.t) (option Z) :=
  on_impl (Some KWS_RETCODE_FAILURE) (KWSSdkImpl.SyncExecute input).
Definition Destroy : ST (t * Memory.t) Z := on_impl KWS_RETCODE_SUCCESS KWSSdkImpl.Destroy.

Definition dtor : ST (t * Memory.t) unit :=
  on_impl KWS_RETCODE_SUCCESS KWSSdkImpl.Destroy ;;
  on_impl tt KWSSdkImpl.dtor ;;
  set_self (fun s => s <| kwsSdkImpl_ := None |>).

End sdk.
End KWSSdk.
