(* ===== verification/AieClientProps.v ===== *)
(** * AieClientProps: what an SDK expects of the client library

    The specification of [AieClient] that the theorems about the SDKs rely on: a
    request reaches the plugin on the other side and its answer comes back in a
    block of the caller ([connected]); [serves] adds the steps that lead there.
    The lemmas are those both SDKs use on messages. *)

From Stdlib Require Import ZArith Lia.
From stdpp Require Import gmap strings list.
From S2P Require Import Prelude Protocol Ipc Encdec EncdecFacts EncdecProps Memory PluginBase Handover AieClient IcSdk.

#[local] Open Scope Z_scope.

(** ** The specification *)

(** A request that brings the plugin the message [d]. *)
Definition presents (d : DataInfo.t) (r : Request.t) : Prop :=
  DataInfo.content (Request.msg r) = DataInfo.content d /\ DataInfo.length (Request.msg r) = DataInfo.length d.

(** The client's copy of a message. *)
Definition copied (sent d : DataInfo.t) : Prop :=
  DataInfo.content d = DataInfo.content sent /\ DataInfo.length d = zlen (DataInfo.content d).

(** The output for a response; a request without one leaves it empty. *)
Definition result_of (resp : option Response.t) : DataInfo.t := default DataInfo.null (Response.result <$> resp).

Section specification.
  Context `{!AieClient}.
  Context {P : Type} (server : client -> P * Memory.t)
    (prepare : ST (P * Memory.t) (Z * DataInfo.t))
    (process : option Request.t -> option Response.t -> ST (P * Memory.t) (Z * option Response.t)).

(** The plugin runs with the effect [Q] and hands its output over in a message
    that the IPC layer can carry. *)
Definition does (m : ST (P * Memory.t) (Z * option Response.t)) (Q : Z * option Response.t -> P * Memory.t -> Prop)
    (s : P * Memory.t) : Prop :=
  wp m (fun x s' => handed s.2 s'.2 (result_of x.2) /\ IpcFacts.di_ok (result_of x.2) /\ Q x s') s.

(** What a caller with the memory [h] sees of that: the plugin is left as it was
    after the call, and the output of a success comes back in a block of the
    caller. *)
Definition brings {B} (out : B -> DataInfo.t) (Q : Z * B -> P * Memory.t -> Prop) (h : Memory.t)
    (r : Z * DataInfo.t) (s' : client * Memory.t) : Prop :=
  kept h s'.2 /\ exists x srv, Q x srv /\ (server s'.1).1 = srv.1 /\ kept srv.2 (server s'.1).2 /\
    (x.1 = RETCODE_SUCCESS -> r.1 = RETCODE_SUCCESS /\ copied (out x.2) r.2 /\ owned s'.2 r.2).

(** Every request of a session that has [joined] is processed by the plugin on the
    other side: what the plugin does of any request with this message, in any
    memory that differs only in allocations, is what the caller sees. *)
Definition connected (joined : client -> ClientInfo.t -> Prop) (ci : ClientInfo.t) (ai : AlgorithmInfo.t) : Prop :=
  forall l h d o Q, joined l ci -> Memory.wf h -> is_Some (DataInfo.data d) -> IpcFacts.di_ok d ->
  (forall r h0, presents d r -> kept (server l).2 h0 -> owned h0 (Request.msg r) ->
     does (process (Some r) None) Q ((server l).1, h0)) ->
  wp (AieClientSyncProcess ci ai d o) (fun r s' => joined s'.1 ci /\ brings result_of Q h r s') (l, h).

(** A client that [can_join] initialises, gets a number under which it can prepare
    the algorithm, and sends requests. *)
Record serves (can_join : client -> Prop) (entered joined : client -> ClientInfo.t -> Prop)
    (config : ConfigInfo.t) (ci0 : ClientInfo.t) (ai : AlgorithmInfo.t) : Prop := {
  serves_init : forall l h, can_join l -> Memory.wf h ->
    wp (AieClientInit config ci0 ai None) (fun r s' => r.1 = RETCODE_SUCCESS /\ entered s'.1 r.2 /\
      ClientInfo.clientId r.2 <> INVALID_CLIENT_ID /\ (server s'.1).1 = (server l).1 /\ kept (server l).2 (server s'.1).2 /\
      kept h s'.2) (l, h);
  serves_prepare : forall ci l h Q, entered l ci -> Memory.wf h ->
    (forall h0, kept (server l).2 h0 -> wp prepare (fun x s' => x.1 = RETCODE_SUCCESS /\ handed h0 s'.2 x.2 /\
       IpcFacts.di_ok x.2 /\ Q x s') ((server l).1, h0)) ->
    wp (AieClientPrepare ci ai DataInfo.null DataInfo.null None) (fun r s' => joined s'.1 ci /\ brings id Q h r s' /\ r.1 = RETCODE_SUCCESS) (l, h);
  serves_process : forall ci, connected joined ci ai;
}.

End specification.

(** ** Messages *)

Lemma presents_carries d r vs : presents d r -> carries d vs -> carries (Request.msg r) vs.
Proof. intros [EC EL] [Ok Wf B L]. split; [|done|congruence|congruence]. unfold message_ok in *. by rewrite EC, EL. Qed.

Lemma encode_carries `{!Allocator, !Securec, !AllocatorLaws} (vs : list value) h :
  resources -> Memory.wf h -> Forall value_wf vs -> Forall DecoderFacts.is_byte (ser_all vs) ->
  zlen (ser_all vs) + 8 <= MAX_SHM_DATA_SIZE ->
  wp (on_mem (EncdecFacade.ProcessEncode vs)) (fun r h' => r.1 = RETCODE_SUCCESS /\ is_Some (DataInfo.data r.2) /\
    carries r.2 vs /\ IpcFacts.di_ok r.2 /\ kept h h') h.
Proof.
  intros HR W Wf Hb Hl. unfold MAX_SHM_DATA_SIZE in Hl. pose proof (zlen_nonneg (ser_all vs)).
  assert (L : zlen (trailer (ser_all vs)) = zlen (ser_all vs) + 8) by (unfold trailer; by rewrite zlen_app, zlen_size_t).
  eapply wp_mono; [apply encode_handed; [done|done|done|unfold INT_MAX; lia]|].
  intros r h' (E & Hd & Hc & [W' _ [HL HP] _ _] & C & U). rewrite Hc, L in HL. split_and!; try done.
  - pose proof (message_carries 0 vs Wf Hb ltac:(unfold INT_MAX; lia)) as M.
    refine (presents_carries (message 0 vs) (Request.ctor <| Request.msg := r.2 |>) vs _ M). split; cbn; [done|by rewrite HL, L].
  - apply whole_ok; [|unfold MAX_SHM_DATA_SIZE; lia]. split; [by rewrite Hc, L|done].
Qed.

Lemma free_owned `{!Allocator} d (Q : unit -> Memory.t -> Prop) h :
  Memory.wf h -> owned h d ->
  (forall h', Memory.wf h' -> Memory.cells h' = Memory.cells h -> Memory.ub h' = Memory.ub h -> Q tt h') ->
  wp (on_mem (free (DataInfo.data d))) Q h.
Proof.
  intros [W D] HO HQ. apply wp_on_mem. unfold wp, free. destruct (DataInfo.data d) as [blk|] eqn:E; [|by apply HQ].
  destruct (HO blk E) as [HL HC]. apply not_elem_of_dom in HC. rewrite decide_True by done. apply HQ; try done.
  split; cbn; [|set_solver]. intros a Ha. cbn in Ha. apply W. set_solver.
Qed.

Lemma bytes_concat (l : list (list Z)) : Forall (Forall DecoderFacts.is_byte) l -> Forall DecoderFacts.is_byte (concat l).
Proof. induction 1; [done|]. by apply Forall_app. Qed.

Lemma whole_block (cs : gmap nat (list Z)) b l :
  in_range (<[b := l]> cs) (Ptr.mk b 0) (zlen l) /\ peek (<[b := l]> cs) (Ptr.mk b 0) (zlen l) = l.
Proof.
  assert (E : <[b := l]> cs !! b = Some l) by apply lookup_insert_eq. pose proof (zlen_nonneg l). split.
  - by apply (in_range_at _ _ _ _ l); [|lia|lia|].
  - rewrite (peek_at _ _ _ _ l E). unfold read_at, zlen. rewrite drop_0. apply take_ge. lia.
Qed.

(** A message of objects, such as a handle, is decoded in place. *)
Lemma objects_decode `{!Allocator, !Securec} d vs h :
  resources -> carries d vs -> Forall (fun v => is_obj (type_of v)) vs ->
  wp (on_mem (EncdecFacade.ProcessDecode d (type_of <$> vs))) (fun r h' => r = (RETCODE_SUCCESS, vs) /\ h' = h) h.
Proof.
  intros HR C HF. pose proof C as [Hok Hwf Hb Hl]. apply wp_on_mem. unfold wp, EncdecFacade.ProcessDecode.
  pose proof (carries_data _ _ C) as [N1%bool_decide_eq_false_1 N2]%orb_false_iff.
  destruct (DataInfo.data d) as [blk|]; [|done]. rewrite N2.
  pose proof (DecodeBody_parses d vs (Memory.mem h) HR Hwf Hok Hb Hl) as P.
  pose proof (DecodeBody_objects (type_of <$> vs) ltac:(by apply Forall_fmap) (DataDecoder.ctor (Memory.mem h) d)) as G. unfold wp in P, G.
  destruct (EncdecFacade.DecodeBody _ _) as [r s]. cbn [fst snd] in *. rewrite P, G. split; [|by destruct h].
  f_equal. clear -HF. induction HF as [|v vs Hv _ IH]; [done|]. cbn. rewrite IH. by destruct v.
Qed.

(** The answer to [Prepare]: a handle. *)
Lemma handle_carries handle out d :
  DataInfo.content out = trailer (ser_all [handle_obj handle]) -> copied out d -> carries d [handle_obj handle].
Proof.
  intros Hc (Hcd & Hld). rewrite Hc in Hcd.
  assert (LA : zlen (ser_all [handle_obj handle]) = 8) by (unfold zlen; cbn -[le]; by rewrite app_nil_r, length_le).
  assert (L : zlen (trailer (ser_all [handle_obj handle])) = 16) by (unfold trailer; by rewrite zlen_app, zlen_size_t, LA).
  split; [|by repeat constructor|done|by rewrite Hld, Hcd]. unfold message_ok. rewrite Hld, Hcd, L. unfold INT_MAX.
  split; [lia|]. split; [lia|]. apply Forall_app. split; [|apply DecoderFacts.le_bytes].
  apply bytes_concat. apply Forall_cons_2; [apply DecoderFacts.le_bytes|apply Forall_nil_2].
Qed.

(** An answer of a handle and an array of numbers, read by the SDK: the array is
    in a block of its own, which was not there before. *)
Lemma answer_decodes `{!Allocator, !Securec} d handle es h :
  resources -> Memory.wf h -> carries d [handle_obj handle; VArray es] -> length (hd [] es) = SIZEOF_INT32 ->
  wp (ProcessDecodeArray d [TObj SIZEOF_INTPTR] SIZEOF_INT32) (fun r h' => exists b,
    r = (RETCODE_SUCCESS, ([handle_obj handle; VArray es], Arr.mk (Some (Ptr.mk b 0)) (zlen es))) /\
    in_range (Memory.cells h') (Ptr.mk b 0) (zlen es * Z.of_nat SIZEOF_INT32) /\
    peek (Memory.cells h') (Ptr.mk b 0) (zlen es * Z.of_nat SIZEOF_INT32) = concat es /\
    (forall b', is_Some (Memory.cells h !! b') -> Memory.cells h' !! b' = Memory.cells h !! b') /\
    (forall d', owned h d' -> owned h' d') /\ Memory.wf h' /\ Memory.ub h' = Memory.ub h) h.
Proof.
  intros HR W C L. pose proof (carries_wf _ _ C) as WF. apply Forall_cons in WF as [_ WF]. apply Forall_cons in WF as [(_ & _ & WE) _].
  rewrite L in WE. rewrite <- L at 1.
  eapply wp_mono; [apply (decode_array_spec d [handle_obj handle] es); [done|done|done|by repeat constructor]|].
  intros r h' (b & -> & Hb & E & U & W' & _ & HN & HL). exists b. destruct (whole_block (Memory.cells h) b (concat es)) as [IR PK].
  rewrite <- (DecoderFacts.zlen_concat SIZEOF_INT32) by done. rewrite E. split_and!; try done.
  - intros b' [x Hx]. rewrite lookup_insert_ne; [done|]. intros ->. congruence.
  - intros d' HO blk Ed. destruct (HO blk Ed) as [OL OC]. split; [by apply HL|]. rewrite E, lookup_insert_ne; [done|].
    intros ->. done.
Qed.

(** ** A client library in the process of the server *)

Section loopback.
  Context {P : Type} (prepare : ST (P * Memory.t) (Z * DataInfo.t))
    (process : option Request.t -> option Response.t -> ST (P * Memory.t) (Z * option Response.t)).

(** A message is copied into a new block; there is none of no bytes. *)
Definition copy (out : DataInfo.t) : ST Memory.t DataInfo.t := fun h =>
  match DataInfo.data out with
  | None => (DataInfo.null, h)
  | Some _ => (DataInfo.mk (Some (Block.mk (Mem.next (Memory.mem h)) (DataInfo.content out))) (zlen (DataInfo.content out)),
               h <| Memory.mem ::= granted |>)
  end.

Definition on_server {A} (m : ST (P * Memory.t) A) : ST ((P * Memory.t) * Memory.t) A := fun s =>
  let '(a, srv) := m s.1 in (a, (srv, s.2)).

Definition loopback : AieClient := {|
  client := P * Memory.t;
  AieClientInit := fun _ c _ _ => mret (RETCODE_SUCCESS, c <| ClientInfo.clientId := 1 |>);
  AieClientPrepare := fun _ _ _ _ _ => r ← on_server prepare; d ← on_memory (copy r.2); mret (r.1, d);
  AieClientAsyncProcess := fun _ _ _ => mret RETCODE_FAILURE;
  AieClientDestroy := fun c => mret (RETCODE_SUCCESS, c <| ClientInfo.clientId := INVALID_CLIENT_ID |>);
  AieClientSetOption := fun _ _ _ => mret RETCODE_FAILURE;
  AieClientGetOption := fun _ _ _ o => mret (RETCODE_FAILURE, o);
  AieClientRelease := fun _ _ _ => mret RETCODE_SUCCESS;
  AieClientSyncProcess := fun _ _ d _ =>
    msg ← on_server (on_memory (copy d));
    r ← on_server (process (Some (Request.ctor <| Request.msg := msg |>)) None);
    d ← on_memory (copy (result_of r.2)); mret (r.1, d);
|}.

#[local] Existing Instance loopback.

Definition loopback_server (l : client) : P * Memory.t := l.

Lemma copy_spec out h (Q : DataInfo.t -> Memory.t -> Prop) :
  Memory.wf h -> (forall d h', kept h h' -> owned h' d -> copied out d -> (IpcFacts.di_ok out -> DataInfo.length d = DataInfo.length out) -> Q d h') ->
  wp (copy out) Q h.
Proof.
  intros [W D] HQ. unfold wp, copy. destruct (DataInfo.data out) as [blk|] eqn:E; apply HQ.
  - split; try done. split; cbn; [|set_solver].
    intros a Ha. cbn in Ha |- *. apply elem_of_union in Ha as [->%elem_of_singleton|Ha]; [lia|]. specialize (W a Ha). cbn in W. lia.
  - intros b Eb. injection Eb as <-. cbn. split; [set_solver|]. apply not_elem_of_dom. intros Hin. specialize (W _ (D _ Hin)). lia.
  - split; [|done]. done.
  - unfold IpcFacts.di_ok, DataInfo.content. rewrite E. intros [<- _]. done.
  - by apply kept_refl.
  - by intros ?.
  - unfold copied, DataInfo.content. by rewrite E.
  - unfold IpcFacts.di_ok. rewrite E. by intros ->.
Qed.

Lemma on_server_spec {A} (m : ST (P * Memory.t) A) (Q : A -> (P * Memory.t) * Memory.t -> Prop) srv h :
  wp m (fun a srv' => Q a (srv', h)) srv -> wp (on_server m) Q (srv, h).
Proof. unfold wp, on_server. cbn. by destruct (m srv). Qed.

(** The memory of the server is well formed. *)
Definition loopback_joined (l : client) (_ : ClientInfo.t) : Prop := Memory.wf l.2.

Lemma loopback_connected ci ai : connected loopback_server process loopback_joined ci ai.
Proof.
  intros [ps ph] h d o Q J W Hd Hok HD. unfold loopback_server, loopback_joined in *. cbn [fst snd] in *.
  unfold AieClientSyncProcess, loopback. apply wp_bind, on_server_spec, wp_on_memory, copy_spec; [done|].
  intros msg h0 K0 O0 [C0 L0] HL. specialize (HL Hok).
  specialize (HD (Request.ctor <| Request.msg := msg |>) h0 (conj C0 HL) K0 O0). unfold does in HD. cbn [fst snd] in HD.
  apply wp_bind, on_server_spec. eapply wp_mono; [exact HD|]. intros x srv (HH & HK & HQ).
  apply wp_bind, wp_on_memory, copy_spec; [done|]. intros d' h' K' O' C' _. apply wp_ret. cbn [fst snd].
  split; [apply HH|]. split; [done|]. exists x, srv. split_and!; try done. by apply kept_refl, HH.
Qed.

Lemma loopback_serves config ci ai :
  serves loopback_server prepare process (fun l => Memory.wf l.2) loopback_joined loopback_joined config ci ai.
Proof.
  split.
  - intros [ps ph] h J W. cbn in J. apply wp_ret. unfold loopback_server, loopback_joined. cbn. split_and!; try done; by apply kept_refl.
  - intros ci' [ps ph] h Q J W HD. unfold loopback_server, loopback_joined in *. cbn [fst snd] in *.
    specialize (HD ph (kept_refl _ J)). unfold AieClientPrepare, loopback.
    apply wp_bind, on_server_spec. eapply wp_mono; [exact HD|]. intros x srv (HC & HH & HK & HQ). pose proof (handed_wf _ _ _ HH) as HW.
    apply wp_bind, wp_on_memory, copy_spec; [done|]. intros d' h' K' O' C' _. apply wp_ret. cbn [fst snd].
    split; [done|]. split; [|done]. split; [done|]. exists x, srv. by split_and!.
  - intros ci'. apply loopback_connected.
Qed.

End loopback.
