(* ===== verification/IcSdkProps.v ===== *)
(** * IcSdkProps: an image classified by the SDK and the plugin together

    The SDK is proved against the interface [AieClient]: all it needs of the
    client library is that a request reaches the plugin and its answer comes back
    ([connected]).  Then the application's callback is told the best classes of
    the whole image, however many slices it takes. *)

From Stdlib Require Import ZArith Lia.
From stdpp Require Import gmap strings list sorting.
From S2P Require Import Prelude Protocol Ipc Encdec EncdecFacts EncdecProps Memory PluginBase Handover IcPlugin IcProps AieClient IcSdk AieClientProps.

#[local] Open Scope Z_scope.

(** The model that the engine runs for the plugin's handle: its buffers, what it
    computes, and that its input and its output fit the messages. *)
Record model_facts `{!EngineAdapter} (handle : Z) (c : ICPluginConfig.t) (pin pout : Ptr.t) (n m : nat)
    (run_model : list Z -> list Z) : Prop := {
  mf_handle : - 2 ^ 63 <= handle < 2 ^ 63;
  mf_input : 0 < Z.of_nat n <= 2 ^ 30;
  mf_output : 0 < Z.of_nat m <= 2 ^ 16;
  mf_apart : Ptr.block pin <> Ptr.block pout;
  mf_in : PluginConfig.inputAddr (ICPluginConfig.base c) = Some pin;
  mf_insize : PluginConfig.inputSize (ICPluginConfig.base c) = Z.of_nat n;
  mf_out : PluginConfig.outputAddr (ICPluginConfig.base c) = Some pout;
  mf_outsize : ICPluginConfig.maxOutputSize c = Z.of_nat m;
  mf_topk : 0 < PluginConfig.outputSize (ICPluginConfig.base c);
  mf_engine : engine_runs handle pin pout n m run_model;
  mf_length : forall i, length (run_model i) = (m * SIZEOF_INT32)%nat;
}.

Section slices.
  Context `{!Allocator, !Securec, !AllocatorLaws, !SecurecMemory, !SecurecMemoryLaws, !StdHeap, !StdHeapLaws, !EngineAdapter, !AieClient}.
  Context (HR : resources) (Hnew : forall t, new_ok t = true).
  Context (handle : Z) (c : ICPluginConfig.t) (pin pout : Ptr.t) (n m : nat) (run_model : list Z -> list Z).
  Context (Hhandle : - 2 ^ 63 <= handle < 2 ^ 63) (Hn : Z.of_nat n <= 2 ^ 30) (Hm : Z.of_nat m <= 2 ^ 16).
  Context (Hblocks : Ptr.block pin <> Ptr.block pout).
  Context (Hin : PluginConfig.inputAddr (ICPluginConfig.base c) = Some pin)
          (Hinsize : PluginConfig.inputSize (ICPluginConfig.base c) = Z.of_nat n)
          (Hout : PluginConfig.outputAddr (ICPluginConfig.base c) = Some pout)
          (Houtsize : ICPluginConfig.maxOutputSize c = Z.of_nat m)
          (Htopk : 0 < PluginConfig.outputSize (ICPluginConfig.base c)).
  Context (Hengine : engine_runs handle pin pout n m run_model) (Hmodel : forall i, length (run_model i) = (m * SIZEOF_INT32)%nat).
  Context (server : client -> ICPlugin.t * Memory.t) (joined : client -> ClientInfo.t -> Prop)
          (ci : ClientInfo.t) (ai : AlgorithmInfo.t) (image : list Z) (p : Ptr.t).
  Context (Hconnected : connected server ICPlugin.SyncProcess joined ci ai).
  Context (Himage : length image = n) (Hbytes : Forall DecoderFacts.is_byte image).

#[local] Notation slice_values := (IcPluginFacts.slice_values handle).
#[local] Notation answered := (IcPluginFacts.answered handle c m run_model).
#[local] Notation prepared := (IcPluginFacts.prepared handle c pin pout n m).

(** The SDK between two images. *)
Record seated (s : IcSdkImpl.t) (h : Memory.t) : Prop := {
  seated_handle : IcSdkImpl.icHandle_ s = handle;
  seated_requests : IcSdkImpl.clientInfo_ s = ci /\ IcSdkImpl.algorithmInfo_ s = ai;
  seated_joined : joined (IcSdkImpl.library s) ci;
  seated_server : prepared (server (IcSdkImpl.library s)).1 (server (IcSdkImpl.library s)).2;
  seated_safe : Memory.ub (server (IcSdkImpl.library s)).2 = false;
  seated_wf : Memory.wf h;
}.

(** The image is in the application's memory. *)
Definition shown (h : Memory.t) : Prop :=
  in_range (Memory.cells h) p (Z.of_nat n) /\ peek (Memory.cells h) p (Z.of_nat n) = image.

(** The session with [k] bytes of the image at the server; the rest of the SDK
    does not change while it sends. *)
Record session (k : nat) (s : IcSdkImpl.t) (h : Memory.t) : Prop := {
  session_seated : seated s h;
  session_sent : peek (Memory.cells (server (IcSdkImpl.library s)).2) pin (Z.of_nat k) = take k image;
  session_shown : shown h;
}.

Lemma session_start s h : seated s h -> shown h -> session 0 s h.
Proof. intros S I. split; [done| |done]. unfold peek. case_match; [|done]. unfold read_at. by rewrite take_0. Qed.

(** What the SDK keeps. *)
Definition same_sdk (s s' : IcSdkImpl.t) : Prop := exists l, s' = s <| IcSdkImpl.library := l |>.

Definition slice (k len : nat) : list Z := take len (drop k image).

Lemma length_slice k len : (k + len <= n)%nat -> length (slice k len) = len.
Proof. intros. unfold slice. rewrite length_take, length_drop. lia. Qed.

Lemma slice_ser k len : zlen (ser_all (slice_values (Z.of_nat k) (slice k len))) = 20 + zlen (slice k len).
Proof.
  unfold ser_all, IcPluginFacts.slice_values. cbn -[le size_t_bytes slice].
  rewrite app_nil_r, IcPluginFacts.concat_singletons, !zlen_app, !zlen_size_t.
  unfold zlen. rewrite ?length_le. unfold SIZEOF_INTPTR, SIZEOF_UINT32. lia.
Qed.

Lemma slice_bytes k len : Forall DecoderFacts.is_byte (slice k len).
Proof. unfold slice. by apply Forall_take, Forall_drop. Qed.

Lemma slice_nonempty k len : (k + len <= n)%nat -> (0 < len)%nat -> slice k len <> [].
Proof. intros Hk Hl E. pose proof (length_slice k len Hk) as L. rewrite E in L. cbn in L. lia. Qed.

(** A slice is encoded into the message the plugin understands. *)
Lemma encode_slice k len s h (Q : Z * DataInfo.t -> IcSdkImpl.t * Memory.t -> Prop) :
  (k + len <= n)%nat -> (0 < len)%nat -> Z.of_nat len <= MAX_IPC_BUFFER_SIZE -> Memory.wf h ->
  (forall d h', is_Some (DataInfo.data d) -> carries d (slice_values (Z.of_nat k) (slice k len)) -> IpcFacts.di_ok d ->
     kept h h' -> Q (RETCODE_SUCCESS, d) (s, h')) ->
  wp (on_memory (on_mem (EncdecFacade.ProcessEncode (slice_values (Z.of_nat k) (slice k len))))) Q (s, h).
Proof.
  intros Hk Hl Hb W HQ. apply wp_on_memory. pose proof (length_slice k len Hk) as L.
  assert (slice k len <> []) as Hne by by apply slice_nonempty.
  assert (carries (Request.msg (IcPluginFacts.slice_request handle (Z.of_nat k) (slice k len))) (slice_values (Z.of_nat k) (slice k len)))
    as [Ok Wf _ _] by (eapply IcPluginFacts.slice_carries; [done..|apply slice_bytes|unfold zlen; lia]).
  eapply wp_mono; [apply encode_carries; try done|].
  - destruct Ok as (_ & _ & B). by apply Forall_app in B as [B _].
  - rewrite slice_ser. unfold zlen, MAX_SHM_DATA_SIZE, MAX_IPC_BUFFER_SIZE in *. lia.
  - intros [r d] h' (E & Hd & C & O & K). cbn [fst snd] in *. subst r. by apply HQ.
Qed.

Lemma load_slice_spec k len s h (Q : value -> IcSdkImpl.t * Memory.t -> Prop) :
  in_range (Memory.cells h) p (Z.of_nat n) -> peek (Memory.cells h) p (Z.of_nat n) = image -> (k + len <= n)%nat ->
  Q (VArray ((fun b => [b]) <$> slice k len)) (s, h) ->
  wp (IcSdkImpl.load_slice (Arr.mk (Some p) (Z.of_nat n)) (Z.of_nat k) (Z.of_nat len)) Q (s, h).
Proof.
  intros R X Hk HQ. destruct (peek_sub _ p image n k len R X Hk) as [R' X'].
  unfold IcSdkImpl.load_slice. apply wp_bind, wp_on_memory. cbn [Arr.data ptr_add fmap option_fmap option_map].
  apply wp_load; [done|]. rewrite X'. by apply wp_ret.
Qed.

Lemma ic_prepared_kept ps h h' : kept h h' -> prepared ps h -> prepared ps h'.
Proof. intros [W C U] [PA PH PW PI PO]. split; try done; by rewrite C. Qed.

(** What the plugin makes of a request that presents a slice. *)
Definition slice_made (k len : nat) (r : Z * option Response.t) (srv : ICPlugin.t * Memory.t) : Prop :=
  prepared srv.1 srv.2 /\ Memory.ub srv.2 = false /\
  if (k + len =? n)%nat then answered image r
  else r = (RETCODE_SUCCESS, None) /\ peek (Memory.cells srv.2) pin (Z.of_nat (k + len)) = take (k + len) image.

Lemma ic_answered_ok r : answered image r -> (0 < m)%nat -> whole (result_of r.2) -> IpcFacts.di_ok (result_of r.2).
Proof.
  intros (resp & res & -> & Hc & T) Hm0 W. apply whole_ok; [done|]. destruct W as [-> _].
  unfold result_of. cbn [snd fmap option_fmap option_map default from_option id]. rewrite Hc.
  etransitivity; [apply (IcPluginFacts.zlen_answer_small handle pin pout n m Hblocks res); [rewrite (top_length _ _ _ _ T); lia|done]|by unfold MAX_SHM_DATA_SIZE].
Qed.

Lemma plugin_slice k len ps ph req :
  prepared ps ph -> peek (Memory.cells ph) pin (Z.of_nat k) = take k image -> (k + len <= n)%nat -> (0 < len)%nat -> (0 < m)%nat ->
  carries (Request.msg req) (slice_values (Z.of_nat k) (slice k len)) -> Memory.ub ph = false ->
  does (ICPlugin.SyncProcess (Some req) None) (slice_made k len) (ps, ph).
Proof.
  intros P X Hk Hl Hm0 HC HU. pose proof (length_slice k len Hk) as L. unfold does, slice_made. cbn [snd].
  assert (ET : take k image ++ slice k len = take (k + len) image) by (unfold slice; by rewrite take_take_drop).
  eapply IcPluginFacts.sync_process_slice; try done; [by apply slice_nonempty|by rewrite L|].
  intros h' (P' & U & SP & X'). rewrite X, L, ET in X'. unfold IcPluginFacts.last_slice. rewrite L.
  destruct (Nat.eqb_spec (k + len) n) as [E|E].
  - rewrite E in X'. rewrite take_ge in X' by lia.
    eapply wp_mono; [eapply IcPluginFacts.do_process_spec; try done; lia|]. intros r s' (Ec & A & U2 & HH & P2).
    pose proof (handed_after _ _ _ _ SP HH) as HH'. split; [done|]. split; [done|].
    split; [apply ic_answered_ok; [done|done|apply HH']|]. split_and!; [done|congruence|done].
  - split; [apply (handed_after _ _ _ _ SP), handed_null, P'|]. split; [by apply whole_ok; [apply whole_null|]|]. split; [done|]; split; [cbn in *; congruence|done].
Qed.

(** One round of the loop with its request. *)
Lemma slice_round fuel k s h o (Q : option (Z * DataInfo.t) -> IcSdkImpl.t * Memory.t -> Prop) :
  session k s h -> (k < n)%nat -> (0 < m)%nat ->
  let len := Nat.min (n - k) (Z.to_nat MAX_IPC_BUFFER_SIZE) in
  (forall s' h' d, same_sdk s s' -> kept h h' -> seated s' h' ->
     (if (k + len =? n)%nat
      then exists resp, answered image (RETCODE_SUCCESS, Some resp) /\ copied (Response.result resp) d /\ owned h' d
      else session (k + len) s' h') ->
     wp (IcSdkImpl.slice_loop fuel (Arr.mk (Some p) (Z.of_nat n)) (Z.of_nat (k + len)) d) Q (s', h')) ->
  wp (IcSdkImpl.slice_loop (S fuel) (Arr.mk (Some p) (Z.of_nat n)) (Z.of_nat k) o) Q (s, h).
Proof.
  intros [[S1 [SC SA] SJ S3 SU S5] S4 [S6 S7]] Hk Hm0 len HQ. assert (k + len <= n)%nat as Hkl by lia. assert (0 < len)%nat as Hlen by (unfold MAX_IPC_BUFFER_SIZE in *; lia).
  cbn [IcSdkImpl.slice_loop Arr.size]. rewrite (proj2 (Z.ltb_lt _ _)) by lia. cbn [negb].
  assert (EZ : Z.min (u64 (Z.of_nat n - Z.of_nat k)) MAX_IPC_BUFFER_SIZE = Z.of_nat len).
  { rewrite wrap_u_small by lia. unfold len, MAX_IPC_BUFFER_SIZE. lia. }
  rewrite EZ. apply wp_bind, wp_self. cbn [id]. apply wp_bind, load_slice_spec; [done..|].
  rewrite S1. apply wp_bind. apply (encode_slice k len s h); [done..|lia|done|]. intros d h1 Hd HC Hok K1.
  cbn [Z.eqb negb RETCODE_SUCCESS]. apply wp_bind, wp_on_member.
  rewrite SC, SA. eapply wp_mono; [apply (Hconnected _ _ _ _ (slice_made k len)); [done|apply K1|done|done|]|].
  { intros r h0 HP K0 _. apply plugin_slice; try done; [by eapply ic_prepared_kept|by rewrite (kept_cells _ _ K0)|by eapply presents_carries|by rewrite (kept_ub _ _ K0)]. }
  intros [rc d'] [l' h2] (J' & K2 & x & srv & (PP & PU & Qx) & Es & Ks & Hsucc). cbn [fst snd] in *.
  assert (EU : u32 (Z.of_nat k + Z.of_nat len) = Z.of_nat (k + len)) by (rewrite wrap_u_small; lia).
  assert (Hx : x.1 = RETCODE_SUCCESS).
  { destruct (k + len =? n)%nat; [by destruct Qx as (? & ? & -> & _)|by destruct Qx as (-> & _)]. }
  destruct (Hsucc Hx) as (-> & Hcp & HO). cbn [fst snd]. cbn [Z.eqb negb RETCODE_SUCCESS]. rewrite EU.
  pose proof (kept_trans _ _ _ K1 K2) as K. set (s' := s <| IcSdkImpl.library := l' |>).
  assert (seated s' h2) as ST by (split; try done; [cbn; rewrite Es; by eapply ic_prepared_kept|cbn; by rewrite (kept_ub _ _ Ks)|apply K]).
  apply HQ; [by eexists|done|done|]. destruct (Nat.eqb_spec (k + len) n) as [E|E].
  - destruct Qx as (resp' & res & Ex & A). subst x. exists resp'. split; [|done]. exists resp', res. by split.
  - destruct Qx as (_ & P2). split; [done|cbn; by rewrite (kept_cells _ _ Ks)|]. unfold shown. by rewrite (kept_cells _ _ K).
Qed.

(** The loop from the first byte that has not been sent. *)
Lemma slice_loop_spec fuel : forall k s h o,
  session k s h -> (k < n)%nat -> (0 < m)%nat -> Z.of_nat (n - k) < Z.of_nat fuel * MAX_IPC_BUFFER_SIZE ->
  wp (IcSdkImpl.slice_loop (S fuel) (Arr.mk (Some p) (Z.of_nat n)) (Z.of_nat k) o) (fun r s' =>
    same_sdk s s'.1 /\ kept h s'.2 /\ seated s'.1 s'.2 /\
    exists d resp, r = Some (IC_RETCODE_SUCCESS, d) /\ answered image (RETCODE_SUCCESS, Some resp) /\
      copied (Response.result resp) d /\ owned s'.2 d) (s, h).
Proof.
  induction fuel as [|fuel IH]; intros k s h o S Hk Hm0 Hf; [lia|]. apply slice_round; [done|done|done|].
  set (len := Nat.min (n - k) (Z.to_nat MAX_IPC_BUFFER_SIZE)). intros s' h' d [l ->] K ST A.
  destruct (Nat.eqb_spec (k + len) n) as [E|E].
  - destruct A as (resp & A & R & HO). cbn [IcSdkImpl.slice_loop Arr.size]. rewrite E, (proj2 (Z.ltb_ge _ _)) by lia. cbn [negb].
    apply wp_ret. split_and!; [by eexists|done|done|]. by exists d, resp.
  - assert (Z.of_nat len = MAX_IPC_BUFFER_SIZE) as El by (unfold len, MAX_IPC_BUFFER_SIZE in *; lia).
    eapply wp_mono; [apply IH; [done|lia|done|lia]|]. intros r s2 ([l2 E2] & K2 & ST2 & D).
    split_and!; [exists l2; by rewrite E2|by eapply kept_trans|done|done].
Qed.

(** The bytes of a result: the classes, then their scores. *)
Definition result_bytes (res : list Item.t) : list Z :=
  concat ((fun x => le 4 (Item.first x)) <$> res) ++ concat ((fun x => le 4 (Item.second x)) <$> res).

Definition result_elems (res : list Item.t) : list (list Z) := (ICPlugin.item_bytes <$> res).*1 ++ (ICPlugin.item_bytes <$> res).*2.

Lemma concat_result_elems res : concat (result_elems res) = result_bytes res.
Proof. unfold result_elems, result_bytes. by rewrite concat_app, <- !list_fmap_compose. Qed.

(** A result read as an array of numbers is the same message. *)
Lemma ser_result_elems vs res :
  ser_all (vs ++ [VItems (ICPlugin.item_bytes <$> res)]) = ser_all (vs ++ [VArray (result_elems res)]).
Proof.
  unfold ser_all. rewrite !fmap_app, !concat_app. f_equal. cbn [fmap list_fmap concat ser]. f_equal.
  unfold result_elems. rewrite concat_app. f_equal. f_equal. unfold zlen. rewrite length_app, !length_fmap. unfold PAIR_SIZE. lia.
Qed.

Lemma result_elems_wf res : res <> [] -> value_wf (VArray (result_elems res)) /\ length (hd [] (result_elems res)) = SIZEOF_INT32.
Proof.
  intros Hne. destruct (IcPluginFacts.items_wf res) as [W1 W2].
  assert (length (hd [] (result_elems res)) = 4%nat) as L4 by (destruct res as [|x res]; [done|apply length_le]).
  split; [|done]. split; [by destruct res|]. rewrite L4. split; [done|]. by apply Forall_app.
Qed.

Lemma result_elems_bytes res : Forall (Forall DecoderFacts.is_byte) (result_elems res).
Proof.
  unfold result_elems. apply Forall_app. rewrite <- !list_fmap_compose.
  split; apply Forall_fmap, Forall_forall; intros x _; apply DecoderFacts.le_bytes.
Qed.

(** The answer, read as an array of numbers. *)
Lemma ic_answer_carries resp d res :
  DataInfo.content (Response.result resp) = trailer (ser_all [handle_obj handle; VItems (ICPlugin.item_bytes <$> res)]) ->
  copied (Response.result resp) d -> (0 < length res <= m)%nat ->
  carries d [handle_obj handle; VArray (result_elems res)].
Proof.
  intros Hc (Hcd & Hld) Hres. assert (LA : zlen (ser_all [handle_obj handle; VItems (ICPlugin.item_bytes <$> res)]) <= 2 ^ 24) by (apply (IcPluginFacts.zlen_answer handle pin pout n m ltac:(lia) Hblocks); lia).
  pose proof (ser_result_elems [handle_obj handle] res) as ES. cbn [app] in ES. rewrite Hc in Hcd. rewrite ES in *.
  assert (Hne : res <> []) by (destruct res; [cbn in *; lia|done]). destruct (result_elems_wf res Hne) as [WA _].
  set (bs := ser_all [handle_obj handle; VArray (result_elems res)]) in *. pose proof (zlen_nonneg bs) as Hp.
  assert (L : zlen (trailer bs) = zlen bs + 8) by (unfold trailer; by rewrite zlen_app, zlen_size_t).
  assert (B : Forall DecoderFacts.is_byte bs).
  { apply bytes_concat. apply Forall_cons_2; [apply DecoderFacts.le_bytes|]. apply Forall_cons_2; [|apply Forall_nil_2].
    apply Forall_app. split; [apply DecoderFacts.le_bytes|apply bytes_concat, result_elems_bytes]. }
  split; [|apply Forall_cons_2; [done|]; apply Forall_cons_2; [done|apply Forall_nil_2]|done|by rewrite Hld, Hcd].
  unfold message_ok. rewrite Hld, Hcd, L. unfold INT_MAX. split; [lia|]. split; [lia|].
  apply Forall_app. split; [done|apply DecoderFacts.le_bytes].
Qed.


(** The callback [cb] has been told the best classes for [img]. *)
Definition told (cb : nat) (img : list Z) (call : nat * event) : Prop := exists res,
  call = (cb, OnResult (result_bytes res)) /\
  top m (score_of (run_model img)) (Nat.min (Z.to_nat (PluginConfig.outputSize (ICPluginConfig.base c))) m) res.

(** Blocks that are there stay, with their bytes. *)
Definition bytes_stay (h h' : Memory.t) : Prop := forall b, is_Some (Memory.cells h !! b) -> Memory.cells h' !! b = Memory.cells h !! b.

(** The whole call. *)
Lemma ic_sync_execute_spec cb s h :
  (0 < n)%nat -> (0 < m)%nat -> session 0 s h -> IcSdkImpl.callback_ s = Some cb ->
  wp (IcSdkImpl.SyncExecute (Arr.mk (Some p) (Z.of_nat n))) (fun r s' =>
    r = Some IC_RETCODE_SUCCESS /\ Memory.ub s'.2 = Memory.ub h /\ (exists call, told cb image call /\
      IcSdkImpl.calls s'.1 = IcSdkImpl.calls s ++ [call]) /\
    seated s'.1 s'.2 /\ IcSdkImpl.callback_ s'.1 = Some cb /\ bytes_stay h s'.2) (s, h).
Proof.
  intros Hn0 Hm0 S0 Hcb. unfold IcSdkImpl.SyncExecute, IcSdkImpl.OnSyncExecute. apply wp_bind. cbn [Arr.data Arr.size].
  rewrite bool_decide_eq_false_2, (proj2 (Z.eqb_neq _ _)) by (done || lia). cbn [orb].
  eapply wp_mono; [apply (slice_loop_spec (S (Z.to_nat (Z.of_nat n / MAX_IPC_BUFFER_SIZE))) 0); [done|lia|done|]|].
  { pose proof (Z.mod_pos_bound (Z.of_nat n) MAX_IPC_BUFFER_SIZE ltac:(done)).
    pose proof (Z.div_mod (Z.of_nat n) MAX_IPC_BUFFER_SIZE ltac:(done)). pose proof (Z.div_pos (Z.of_nat n) MAX_IPC_BUFFER_SIZE ltac:(lia) ltac:(done)).
    unfold MAX_IPC_BUFFER_SIZE in *. lia. }
  intros r [s1 h1] ([l E1] & [W1 C1 U1] & ST & d & resp & -> & (resp' & res & E & Hc & T) & Hret & HO). cbn [fst snd] in *.
  injection E as <-. pose proof (top_length _ _ _ _ T) as TL.
  assert (0 < length res <= m)%nat as HL by (rewrite TL; lia).
  assert (Hne : res <> []) by (destruct res; [cbn in *; lia|done]). destruct (result_elems_wf res Hne) as [_ L4].
  pose proof (ic_answer_carries resp d res Hc Hret HL) as C. rewrite (carries_data _ _ C), Z.eqb_refl. cbn [orb negb].
  apply wp_bind. unfold pointer_guard. apply wp_bind, wp_bind, wp_on_memory.
  eapply wp_mono; [by apply (answer_decodes d handle (result_elems res))|].
  intros r h2 (b & -> & IR & PK & K1 & K2 & W2 & U2). cbn [fst snd Arr.data Arr.size]. rewrite Z.eqb_refl. cbn [negb].
  apply wp_bind, wp_self. cbn [id decoded_handle]. rewrite handle_val_obj by done.
  rewrite (seated_handle _ _ ST), Z.eqb_refl. cbn [negb].
  apply wp_bind, wp_on_memory, wp_load; [done|]. rewrite PK, concat_result_elems.
  apply wp_bind, wp_set_self, wp_ret, wp_bind, wp_on_memory, free_owned; [done|by apply K2|].
  intros h3 W3 C3 U3. apply wp_ret, wp_ret. assert (IcSdkImpl.callback_ s1 = Some cb) as -> by by rewrite E1. cbn [fst snd].
  split; [done|]. split; [cbn; congruence|]. split.
  - exists (cb, OnResult (result_bytes res)). split; [by exists res|]. by rewrite E1.
  - split; [destruct ST as [A1 A2 A3 A4 A5 _]; split; done|]. split; [by rewrite E1|]. intros b' Hb'. cbn. rewrite C3, <- C1. apply K1. by rewrite C1.
Qed.

End slices.

(** ** Setting up *)

(** What the constructor of [IcSdk::IcSdkImpl] puts into the requests. *)
Definition ic_config : ConfigInfo.t := ConfigInfo.mk "Ic config description".
Definition ic_client : ClientInfo.t :=
  ClientInfo.mk CLIENT_VERSION_IC INVALID_CLIENT_ID INVALID_SESSION_ID 0 0 EXT_MSG_LEN_DEFAULT None.
Definition ic_algorithm : AlgorithmInfo.t :=
  AlgorithmInfo.mk CLIENT_VERSION_IC false ALGORITHM_TYPE_IC ALGOTYPE_VERSION_IC false STARTING_OPERATE_ID
    STARTING_REQ_ID EXT_MSG_LEN_DEFAULT None.

Section creation.
  Context `{!Allocator, !Securec, !AllocatorLaws, !SecurecMemory, !StdHeap, !EngineAdapter, !AieClient}.
  Context (HR : resources) (handle : Z) (pin pout : Ptr.t) (n m : nat) (Hhandle : - 2 ^ 63 <= handle < 2 ^ 63).
  Context (server : client -> ICPlugin.t * Memory.t) (can_join : client -> Prop) (entered joined : client -> ClientInfo.t -> Prop)
          (Hserves : serves server (ICPlugin.Prepare DataInfo.null) ICPlugin.SyncProcess can_join entered joined
             ic_config ic_client ic_algorithm).

(** The SDK after [s] has done nothing but connect. *)
Definition created (h : Memory.t) (s : IcSdkImpl.t * Memory.t) : Prop :=
  (exists ci, seated handle (IcPluginFacts.model_config pin pout n m) pin pout n m server joined ci ic_algorithm s.1 s.2) /\
  IcSdkImpl.calls s.1 = [] /\ Memory.cells s.2 = Memory.cells h /\ Memory.ub s.2 = Memory.ub h.

Lemma ic_create_spec l h :
  IcPluginFacts.model_loads handle pin pout n m -> can_join l ->
  (server l).1 = ICPlugin.ctor -> Memory.wf (server l).2 -> Memory.ub (server l).2 = false ->
  in_range (Memory.cells (server l).2) pin (Z.of_nat n) ->
  in_range (Memory.cells (server l).2) pout (Z.of_nat (m * SIZEOF_INT32)) -> Memory.wf h ->
  wp IcSdk.Create (fun r s => r = IC_RETCODE_SUCCESS /\ created h s) (IcSdkImpl.ctor l, h).
Proof.
  intros EL HJ Hc Ws Us Rin Rout W. unfold IcSdk.Create, IcSdkImpl.Create. apply wp_bind, wp_self. cbn [id IcSdkImpl.icHandle_ IcSdkImpl.ctor].
  rewrite Z.eqb_refl. cbn [negb].
  apply wp_bind, wp_on_member. eapply wp_mono; [by apply (serves_init _ _ _ _ _ _ _ _ _ Hserves)|].
  intros [rc ci] [l2 h2] (E2 & J & Hid & Es & Ks & K2). cbn [fst snd] in E2, J, Hid, Es, Ks, K2. subst rc.
  change (IcSdkImpl.library (IcSdkImpl.ctor l)) with l in Es, Ks.
  apply wp_bind, wp_set_self. cbn [fst snd]. rewrite Z.eqb_refl, (proj2 (Z.eqb_neq _ _) Hid). cbn [negb].
  apply wp_bind, wp_on_member. eapply wp_mono; [apply (serves_prepare _ _ _ _ _ _ _ _ _ Hserves ci _ _
    (fun x srv => x.1 = RETCODE_SUCCESS /\ DataInfo.content x.2 = trailer (ser_all [handle_obj handle]) /\ Memory.ub srv.2 = false /\
       IcPluginFacts.prepared handle (IcPluginFacts.model_config pin pout n m) pin pout n m srv.1 srv.2)); [done|apply K2|]|].
  { intros h0 K0. cbn in Es, Ks, K0 |- *. rewrite Es, Hc. pose proof (kept_trans _ _ _ Ks K0) as [W0 C0 U0].
    eapply wp_mono; [apply (IcPluginFacts.ic_prepare_spec HR handle pin pout n m h0); done || by rewrite C0|].
    intros x srv (Ex & HC & HU & HH & Hok & PP). rewrite U0 in HU. split_and!; try done. congruence. }
  intros [rc d] [l3 h3] (J3 & (K3 & [code out] & srv & (Ex & HC & HU & PP) & E3 & Ks3 & Hsucc) & Erc). cbn [fst snd] in *. subst rc.
  destruct (Hsucc Ex) as (_ & Hcp & HO).
  rewrite Z.eqb_refl. cbn [negb]. pose proof (handle_carries handle out d HC Hcp) as CA. rewrite (carries_data _ _ CA).
  pose proof (kept_trans _ _ _ K2 K3) as [W3 C3 U3].
  unfold pointer_guard. apply wp_bind, wp_bind, wp_on_memory.
  eapply wp_mono; [apply (objects_decode d [handle_obj handle]); [done|done|by repeat constructor]|].
  intros r h' [-> ->]. apply wp_bind, wp_set_self. cbn [fst snd decoded_handle]. rewrite handle_val_obj, Z.eqb_refl by done. cbn [negb].
  apply wp_ret, wp_bind, wp_on_memory, free_owned; [done|done|]. intros h4 W4 C4 U4. apply wp_ret.
  split; [done|]. split; [|cbn [fst snd] in *; split; [done|split; congruence]].
  exists ci. split; try done; cbn [fst snd] in *.
  - cbn. rewrite E3. by eapply ic_prepared_kept.
  - cbn. by rewrite (kept_ub _ _ Ks3).
Qed.

End creation.

(** ** Property *)

(** C7. An application that gives the SDK an image of the size the model takes
    has its callback told once, with the bytes of the best classes and scores of
    the model's output on exactly this image: whatever the number of slices the
    SDK cuts the image into, they are put together at the plugin in order, the
    loop ends within its fuel, no access of either side leaves a block, and the SDK is ready for
    the next image.  All it relies on is that the client library brings each
    request to the plugin and the plugin's answer back ([connected]). *)
Theorem ic_sdk_classifies_image
    `{!Allocator, !Securec, !AllocatorLaws, !SecurecMemory, !SecurecMemoryLaws, !StdHeap, !StdHeapLaws, !EngineAdapter, !AieClient}
    (handle : Z) (c : ICPluginConfig.t) (pin pout : Ptr.t) (n m : nat) (run_model : list Z -> list Z)
    (server : client -> ICPlugin.t * Memory.t) (joined : client -> ClientInfo.t -> Prop)
    (ci : ClientInfo.t) (ai : AlgorithmInfo.t) (image : list Z) (p : Ptr.t) (cb : nat) (s : IcSdkImpl.t) (h : Memory.t) :
  resources -> (forall t, new_ok t = true) ->
  model_facts handle c pin pout n m run_model -> connected server ICPlugin.SyncProcess joined ci ai ->
  Forall DecoderFacts.is_byte image -> length image = n ->
  seated handle c pin pout n m server joined ci ai s h -> shown n image p h -> IcSdkImpl.callback_ s = Some cb ->
  let '(r, s') := IcSdk.SyncExecute (Arr.mk (Some p) (Z.of_nat n)) (s, h) in
  r = Some IC_RETCODE_SUCCESS /\ Memory.ub s'.2 = Memory.ub h /\
  (exists call, told c m run_model cb image call /\ IcSdkImpl.calls s'.1 = IcSdkImpl.calls s ++ [call]) /\
  seated handle c pin pout n m server joined ci ai s'.1 s'.2.
Proof.
  intros HR Hnew [Hh Hn Hm Hb C1 C2 C3 C4 C5 He Hmod] HC HB Hlen ST HI Hcb.
  pose proof (ic_sync_execute_spec HR Hnew handle c pin pout n m run_model Hh ltac:(lia) ltac:(lia) Hb C1 C2 C3 C4 C5 He Hmod
    server joined ci ai image p HC Hlen HB cb s h ltac:(lia) ltac:(lia)
    (session_start handle c pin pout n m server joined ci ai image p s h ST HI) Hcb) as U.
  unfold wp, IcSdk.SyncExecute in *. destruct (IcSdkImpl.SyncExecute _ (s, h)). naive_solver.
Qed.

(** ** Witness: a client library that calls the plugin *)

Import SecurecSample HeapSample.
#[local] Existing Instances sys_alloc sys_securec sys_alloc_laws sample_engine.

#[local] Instance local_client : AieClient := loopback (ICPlugin.Prepare DataInfo.null) ICPlugin.SyncProcess.

Definition local_server : client -> ICPlugin.t * Memory.t := loopback_server (ICPlugin.Prepare DataInfo.null) ICPlugin.SyncProcess.
Definition local_joined : client -> ClientInfo.t -> Prop := loopback_joined (ICPlugin.Prepare DataInfo.null) ICPlugin.SyncProcess.

Definition sample_image : list Z := [5; 9; 7; 1].
Definition sample_memory : Memory.t := ((p ← new_array 4; store p sample_image) Memory.empty).2.
Definition sample_sdk : IcSdkImpl.t :=
  (IcSdkImpl.ctor after_prepare) <| IcSdkImpl.icHandle_ := 77 |> <| IcSdkImpl.callback_ := Some 3%nat |>.

Definition sample_client_info : ClientInfo.t := IcSdkImpl.clientInfo_ sample_sdk.
Definition sample_algorithm_info : AlgorithmInfo.t := IcSdkImpl.algorithmInfo_ sample_sdk.

Lemma sample_seated :
  seated 77 sample_cfg sample_in sample_out 4 3 local_server local_joined sample_client_info sample_algorithm_info sample_sdk sample_memory.
Proof. split; [done|done|apply sample_prepared|apply sample_prepared|by vm_compute|apply wf_decide; vm_compute; reflexivity]. Qed.

Lemma sample_facts : model_facts 77 sample_cfg sample_in sample_out 4 3 sample_model.
Proof. split; [vm_compute; split; done|vm_compute; split; done|vm_compute; split; done|by vm_compute|by vm_compute..|by intros a h ??|done]. Qed.

Lemma ic_sdk_classifies_image_witness :
  let '(r, s') := IcSdk.SyncExecute (Arr.mk (Some sample_in) (Z.of_nat 4)) (sample_sdk, sample_memory) in
  r = Some IC_RETCODE_SUCCESS /\ Memory.ub s'.2 = Memory.ub sample_memory /\
  (exists call, told sample_cfg 3 sample_model 3 sample_image call /\ IcSdkImpl.calls s'.1 = IcSdkImpl.calls sample_sdk ++ [call]) /\
  seated 77 sample_cfg sample_in sample_out 4 3 local_server local_joined sample_client_info sample_algorithm_info s'.1 s'.2.
Proof.
  apply (ic_sdk_classifies_image 77 sample_cfg sample_in sample_out 4 3 sample_model local_server local_joined
    sample_client_info sample_algorithm_info sample_image);
    [apply sys_resources|done|apply sample_facts|apply loopback_connected|repeat constructor; done|done|apply sample_seated|by vm_compute|done].
Defined.

(** The classes 1, 2, 0 and the scores 9, 7, 5. *)
Example sample_result :
  IcSdkImpl.calls (IcSdk.SyncExecute (Arr.mk (Some sample_in) 4) (sample_sdk, sample_memory)).2.1 =
  [(3%nat, OnResult (le 4 1 ++ le 4 2 ++ le 4 0 ++ le 4 9 ++ le 4 7 ++ le 4 5))].
Proof. vm_compute. reflexivity. Qed.

(** The encoded request stays allocated: nothing in the SDK frees it. *)
Example request_stays_allocated :
  size (Mem.live (Memory.mem (IcSdk.SyncExecute (Arr.mk (Some sample_in) 4) (sample_sdk, sample_memory)).2.2)) =
  (size (Mem.live (Memory.mem sample_memory)) + 2)%nat.
Proof. vm_compute. reflexivity. Qed.

(** An answer that does not come is an error to the callback and a success to
    the caller. *)
Example no_answer_is_success :
  let s := sample_sdk <| IcSdkImpl.callback_ := Some 4%nat |> in
  let '(r, s') := IcSdk.SyncExecute (Arr.mk (Some sample_in) 3) (s, sample_memory) in
  r = Some IC_RETCODE_SUCCESS /\ IcSdkImpl.calls s'.1 = [(4%nat, OnError IC_RETCODE_FAILURE)].
Proof. vm_compute. split; reflexivity. Qed.
