(* ===== verification/KwsSdkProps.v ===== *)
(** * KwsSdkProps: from the application's audio to its callback

    The iterator, the MFCC processor, the SDK, the client library and the plugin
    put together: what the callback hears is the model's output for the features
    of every window of the audio, wherever the application cuts it into pieces of
    at least one window ([PcmProps.short_inputs_lose_windows] shows what shorter
    pieces lose). *)

From Stdlib Require Import ZArith Lia.
From stdpp Require Import gmap strings list.
From S2P Require Import Prelude Protocol Ipc Encdec EncdecFacts EncdecProps Memory Float32 Feature SlideProps NormProcessor FeatureProps PluginBase Handover KwsPlugin KwsProps PcmIterator PcmProps AieClient IcSdk AieClientProps KwsSdk.

#[local] Open Scope Z_scope.

Import KwsFacts.

(** ** The windows the SDK reads *)

Definition STEP : nat := Z.to_nat 3200.
Definition WIN : nat := Z.to_nat 3360.

Lemma STEP_Z : Z.of_nat STEP = 3200.
Proof. apply Z2Nat.id. lia. Qed.
Lemma WIN_Z : Z.of_nat WIN = 3360.
Proof. apply Z2Nat.id. lia. Qed.

#[local] Opaque STEP WIN WINDOW_BYTES.

Lemma cache_samples_Z : Z.of_nat (cache_samples STEP WIN) = 6560.
Proof.
  unfold cache_samples. rewrite Nat2Z.inj_add, Nat2Z.inj_mul, Nat2Z.inj_div, Nat2Z.inj_sub by (apply Nat2Z.inj_le; rewrite WIN_Z; lia).
  rewrite WIN_Z, STEP_Z. done.
Qed.

(** ** What the SDK relies on of the MFCC processor

    [features ws] are the 400 numbers it computes for the last of the windows
    [ws] it has been given; [live own ws m h] says that it works, with its
    buffers in the blocks [own]. *)
Record mfcc_contract `{!MfccProcessor} (features : list (list Z) -> list (list Z))
    (live : gset nat -> list (list Z) -> mfcc -> Memory.t -> Prop) : Prop := {
  mc_init : forall h, Memory.wf h ->
    wp (mfcc_Init mfccConfig) (fun r s => r = RETCODE_SUCCESS /\ Memory.wf s.2 /\ Memory.ub s.2 = Memory.ub h /\
      exists own, live own [] s.1 s.2 /\ (forall b, b ∈ own -> Memory.cells h !! b = None) /\
                  (forall b, b ∉ own -> Memory.cells s.2 !! b = Memory.cells h !! b)) (new_mfcc, h);
  mc_blocks : forall own ws m h b, live own ws m h -> b ∈ own -> is_Some (Memory.cells h !! b);
  mc_ext : forall own ws m h h', live own ws m h ->
    (forall b, b ∈ own -> Memory.cells h' !! b = Memory.cells h !! b) -> live own ws m h';
  mc_process : forall own ws m h p w, live own ws m h -> Memory.wf h -> Ptr.block p ∉ own ->
    in_range (Memory.cells h) p (Z.of_nat (WIN * SIZEOF_INT16)) -> peek (Memory.cells h) p (Z.of_nat (WIN * SIZEOF_INT16)) = w ->
    wp (mfcc_Process (FeatureData.mk INT16 (Some p) (Z.of_nat WIN)) (FeatureData.empty UINT16)) (fun r s => exists q,
      r = (RETCODE_SUCCESS, FeatureData.mk UINT16 (Some q) DEFAULT_MFCC_FEATURE_SIZE) /\
      in_range (Memory.cells s.2) q (DEFAULT_MFCC_FEATURE_SIZE * Z.of_nat SIZEOF_INT16) /\
      peek (Memory.cells s.2) q (DEFAULT_MFCC_FEATURE_SIZE * Z.of_nat SIZEOF_INT16) = concat (features (ws ++ [w])) /\
      live own (ws ++ [w]) s.1 s.2 /\ (forall b, b ∉ own -> Memory.cells s.2 !! b = Memory.cells h !! b) /\
      Memory.wf s.2 /\ Memory.ub s.2 = Memory.ub h) (m, h);
}.

(** The outputs of the processor for [wins], after [ws]. *)
Fixpoint outputs (features : list (list Z) -> list (list Z)) (ws wins : list (list Z)) : list (list (list Z)) :=
  match wins with
  | [] => []
  | w :: wins => features (ws ++ [w]) :: outputs features (ws ++ [w]) wins
  end.

Lemma objects_concat n (l : list (list Z)) : Forall (fun x => length x = n) l -> objects (length l) n (concat l) = l.
Proof. induction 1 as [|x l Hx _ IH]; [done|]. cbn. by rewrite take_app_length', drop_app_length', IH. Qed.

Lemma concat_objects n sz (bs : list Z) : length bs = (n * sz)%nat -> concat (objects n sz bs) = bs.
Proof.
  revert bs. induction n as [|n IH]; intros bs Hl; [by destruct bs|]. cbn in Hl |- *.
  rewrite IH by (rewrite length_drop; lia). apply take_drop.
Qed.

(** What the constructor of [KWSSdk::KWSSdkImpl] puts into the requests. *)
Definition kws_config : ConfigInfo.t := ConfigInfo.mk "kws config description".
Definition kws_client : ClientInfo.t :=
  ClientInfo.mk CLIENT_VERSION_KWS INVALID_CLIENT_ID INVALID_SESSION_ID 0 0 EXT_MSG_LEN_DEFAULT None.
Definition kws_algorithm : AlgorithmInfo.t :=
  AlgorithmInfo.mk CLIENT_VERSION_KWS false ALGORITHM_TYPE_KWS ALGOTYPE_VERSION_KWS false STARTING_OPERATE_ID
    STARTING_REQ_ID EXT_MSG_LEN_DEFAULT None.

Section session.
  Context `{!Allocator, !Securec, !AllocatorLaws, !SecurecMemory, !SecurecMemoryLaws, !Files, !EngineAdapter, !AieClient, !MfccProcessor}.
  Context (HR : resources) (Hnew : forall t, new_ok t = true).
  Context (par : parameters) (handle : Z) (pin pout : Ptr.t) (m : nat) (run_model : list Z -> list Z).
  Context (Hhandle : - 2 ^ 63 <= handle < 2 ^ 63) (Hvalid : handle <> INVALID_KWS_HANDLE)
          (Hm : 0 < Z.of_nat m <= 2 ^ 16) (Hblocks : Ptr.block pin <> Ptr.block pout).
  Context (Hengine : engine_runs handle pin pout WINDOW_BYTES m run_model)
          (Hmodel : forall i, length (run_model i) = (m * SIZEOF_INT32)%nat) (Hbytes : forall i, Forall DecoderFacts.is_byte (run_model i)).
  Context (server : client -> KWSPlugin.t * Memory.t) (can_join : client -> Prop) (entered joined : client -> ClientInfo.t -> Prop)
          (Hserves : serves server (KWSPlugin.Prepare DataInfo.null) KWSPlugin.SyncProcess can_join entered joined
             kws_config kws_client kws_algorithm).
  Context (features : list (list Z) -> list (list Z)) (live : gset nat -> list (list Z) -> mfcc -> Memory.t -> Prop)
          (Hmfcc : mfcc_contract features live).
  Context (cb : nat).
  Import KWSSdkImpl.

#[local] Notation answered := (answered handle m run_model).
#[local] Notation prepared := (prepared par handle pin pout m).

Lemma m_small : 0 < Z.of_nat m <= 2 ^ 20.
Proof. lia. Qed.

Lemma hd_objects window : length (hd [] (objects m SIZEOF_INT32 (run_model window))) = SIZEOF_INT32.
Proof.
  pose proof (Hmodel window) as L. destruct m as [|m']; [lia|]. cbn [objects hd]. rewrite length_take, L. unfold SIZEOF_INT32. lia.
Qed.

(** The answer, read as an array of numbers. *)
Lemma kws_answer_carries window resp d :
  answered window (RETCODE_SUCCESS, Some resp) -> copied (Response.result resp) d ->
  carries d [handle_obj handle; VArray (objects m SIZEOF_INT32 (run_model window))].
Proof.
  intros (resp' & E & Hc) (Hcd & Hld). injection E as <-.
  destruct (answer_wf handle pin pout m run_model m_small Hblocks Hengine Hmodel window) as [WF LA]. rewrite Hc in Hcd.
  set (bs := ser_all [handle_obj handle; VArray (objects m SIZEOF_INT32 (run_model window))]) in *. pose proof (zlen_nonneg bs) as Hp.
  assert (L : zlen (trailer bs) = zlen bs + 8) by (unfold trailer; by rewrite zlen_app, zlen_size_t).
  assert (B : Forall DecoderFacts.is_byte bs).
  { apply bytes_concat. apply Forall_cons_2; [apply DecoderFacts.le_bytes|]. apply Forall_cons_2; [|apply Forall_nil_2].
    apply Forall_app. split; [apply DecoderFacts.le_bytes|]. rewrite concat_objects by apply Hmodel. apply Hbytes. }
  split; [|done|done|by rewrite Hld, Hcd]. unfold message_ok. rewrite Hld, Hcd, L. unfold INT_MAX.
  split; [lia|]. split; [lia|]. apply Forall_app. split; [done|apply DecoderFacts.le_bytes].
Qed.

Lemma kws_prepared_kept bl hist ps h h' : kept h h' -> prepared bl hist ps h -> prepared bl hist ps h'.
Proof.
  intros [W C U] [PA (w & PH & PC & PR) PW PI PO PD]. split; try done; [|by rewrite C..].
  exists w. split_and!; try done. eapply ready_ext; [|exact PR]. intros b _. by rewrite C.
Qed.

Lemma kws_answered_ok window r : answered window r -> whole (result_of r.2) -> IpcFacts.di_ok (result_of r.2).
Proof.
  intros (resp & -> & Hc) W. apply whole_ok; [done|]. destruct W as [-> _].
  unfold result_of. cbn [snd fmap option_fmap option_map default from_option id]. rewrite Hc.
  unfold trailer, ser_all. cbn -[le size_t_bytes MAX_SHM_DATA_SIZE]. rewrite app_nil_r, !zlen_app, !zlen_size_t, zlen_objects by done.
  unfold zlen, SIZEOF_INT32, MAX_SHM_DATA_SIZE. rewrite ?length_le. unfold SIZEOF_INTPTR. lia.
Qed.

(** The SDK between two windows: [ws] have gone through the MFCC processor, whose
    blocks are [own]; the plugin has seen the features [hist]. *)
Record linked (own : gset nat) (bl : wblocks) (ws : list (list Z)) (hist : list Z) (s : t) (h : Memory.t) : Prop := {
  li_handle : kwsHandle_ s = handle;
  li_callback : callback_ s = Some cb;
  li_joined : joined (library s) (clientInfo_ s);
  li_algorithm : algorithmInfo_ s = kws_algorithm;
  li_plugin : prepared bl hist (server (library s)).1 (server (library s)).2;
  li_mfcc : exists mf, mfccProcessor_ s = Some mf /\ live own ws mf h;
  li_wf : Memory.wf h;
}.

(** What [Execute] leaves. *)
Definition heard (window : list Z) (s s' : t) : Prop :=
  exists l, s' = s <| library := l |> <| calls ::= fun c => c ++ [(cb, OnResult (run_model window))] |>.

Lemma execute_spec own bl ws hist s h q smp fs :
  linked own bl ws hist s h -> in_range (Memory.cells h) q (DEFAULT_MFCC_FEATURE_SIZE * Z.of_nat SIZEOF_INT16) ->
  peek (Memory.cells h) q (DEFAULT_MFCC_FEATURE_SIZE * Z.of_nat SIZEOF_INT16) = concat smp -> audio par smp fs ->
  wp (Execute (Arr.mk (Some q) DEFAULT_MFCC_FEATURE_SIZE)) (fun r s' => r = KWS_RETCODE_SUCCESS /\
    heard (recent WINDOW_BYTES (hist ++ concat fs)) s s'.1 /\ linked own bl ws (hist ++ concat fs) s'.1 s'.2 /\
    Memory.ub s'.2 = Memory.ub h /\
    (forall b, is_Some (Memory.cells h !! b) -> Memory.cells s'.2 !! b = Memory.cells h !! b)) (s, h).
Proof.
  intros [L1 L2 L3 LA L4 (mf & LM & LL) L6] R X A. set (window := recent WINDOW_BYTES (hist ++ concat fs)).
  pose proof A as [[AL _] AB _]. pose proof samples_Z as SZ. destruct (concat_bytes pin pout m Hblocks _ AB) as [CB CL].
  pose proof (audio_carries par handle pin pout m Hblocks smp fs A) as [(_ & _ & CY) CW _ _].
  assert (EO : objects (Z.to_nat DEFAULT_MFCC_FEATURE_SIZE) SIZEOF_INT16 (concat smp) = smp).
  { replace (Z.to_nat DEFAULT_MFCC_FEATURE_SIZE) with (length smp) by (rewrite AL; unfold DEFAULT_MFCC_FEATURE_SIZE, DEFAULT_NORM_INPUT_SIZE; lia).
    apply objects_concat. eapply Forall_impl; [exact AB|]. by intros x [? _]. }
  unfold Execute. apply wp_bind, wp_self. cbn [id]. apply wp_bind, wp_on_memory. unfold load_features. cbn [Arr.data Arr.size].
  apply wp_bind, wp_load; [done|]. rewrite X, EO. apply wp_ret. rewrite L1. apply wp_bind, wp_on_memory.
  assert (LT : zlen (ser_all (audio_values handle smp)) + 8 <= MAX_SHM_DATA_SIZE).
  { unfold ser_all, audio_values. cbn -[le size_t_bytes concat MAX_SHM_DATA_SIZE]. cbn [concat]. rewrite app_nil_r, !zlen_app, !zlen_size_t.
    unfold zlen, MAX_SHM_DATA_SIZE. rewrite CL, AL. unfold DEFAULT_SLIDE_STEP_SIZE in SZ. lia. }
  eapply wp_mono; [apply (encode_carries (audio_values handle smp)); try done|].
  { change (Forall DecoderFacts.is_byte (trailer (ser_all (audio_values handle smp)))) in CY. by apply Forall_app in CY as [CY _]. }
  intros [r d] h1 (Er & Hd & HC & Hok & K1). cbn [fst snd] in *. subst r. cbn [Z.eqb negb RETCODE_SUCCESS].
  apply wp_bind, wp_on_member. rewrite LA.
  eapply wp_mono; [apply (serves_process _ _ _ _ _ _ _ _ _ Hserves (clientInfo_ s) _ _ _ _
    (fun x srv => answered window x /\ prepared bl (hist ++ concat fs) srv.1 srv.2)); [done|apply K1|done|done|]|].
  { intros r h0 HP K0 _. unfold does. cbn [fst snd].
    eapply wp_mono; [apply (sync_process_spec HR Hnew par handle pin pout m run_model Hhandle m_small Hblocks Hengine Hmodel bl hist
      (server (library s)).1 h0 smp fs r); [by eapply kws_prepared_kept|done|by eapply presents_carries]|].
    intros x srv (PA & PP & _ & HH). split; [done|]. split; [|done]. by eapply kws_answered_ok, HH. }
  intros [rc d'] [l' h2] (J' & K2 & [code resp] & srv & [PA PP] & Es & Ks & Hsucc). cbn [fst snd] in *.
  pose proof PA as (resp' & Ea & _). injection Ea as -> ->. destruct (Hsucc eq_refl) as (-> & Hcp & HO). cbn [fst snd Z.eqb negb RETCODE_SUCCESS].
  pose proof (kws_answer_carries window resp' d' PA Hcp) as C. rewrite (carries_data _ _ C).
  pose proof (kept_trans _ _ _ K1 K2) as [W2 C2 U2].
  unfold pointer_guard. apply wp_bind, wp_bind, wp_on_memory.
  assert (L4' : length (hd [] (objects m SIZEOF_INT32 (run_model window))) = SIZEOF_INT32) by apply hd_objects.
  eapply wp_mono; [by apply (answer_decodes d' handle (objects m SIZEOF_INT32 (run_model window)))|].
  intros r h3 (b & -> & IR & PK & K3 & K4 & W3 & U3). cbn [fst snd Arr.data Arr.size]. rewrite Z.eqb_refl. cbn [negb decoded_handle].
  rewrite handle_val_obj, Z.eqb_refl by done. cbn [negb].
  apply wp_bind, wp_on_memory, wp_load; [done|]. rewrite PK, concat_objects by apply Hmodel. apply wp_bind. unfold notify, wp at 1.
  cbn [fst snd callback_]. change (callback_ (s <| library := l' |>)) with (callback_ s). rewrite L2. apply wp_ret, wp_bind, wp_on_memory, free_owned; [done|by apply K4|].
  intros h4 W4 C4 U4. apply wp_ret.
  assert (K : forall b', is_Some (Memory.cells h !! b') -> Memory.cells h4 !! b' = Memory.cells h !! b').
  { intros b' Hb. rewrite C4, K3 by (by rewrite C2). by rewrite C2. }
  split; [done|]. split; [by exists l'|]. split; [|split; [cbn; congruence|done]].
  split; try done; [cbn; rewrite Es; by eapply kws_prepared_kept|]. exists mf. split; [done|]. eapply (mc_ext _ _ Hmfcc); [exact LL|].
  intros b' Hb. apply K. by eapply (mc_blocks _ _ Hmfcc).
Qed.

(** What is linked does not see the iterator, nor its cache. *)
Lemma linked_iterator own bl ws hist s h h' b it :
  frame b h h' -> b ∉ own -> linked own bl ws hist s h -> linked own bl ws hist (s <| pcmIterator_ := it |>) h'.
Proof.
  intros F Hb [L1 L2 L3 LA L4 (mf & LM & LL) L6]. split; try done; [|by eapply frame_wf]. exists mf. split; [done|].
  eapply (mc_ext _ _ Hmfcc); [exact LL|]. intros b' Hb'. apply (frame_other _ _ _ F). intros ->. done.
Qed.

(** The calls of the callback for the features of some windows. *)
Definition told (hist : list Z) (fss : list (list (list Z))) : list (nat * event) :=
  (fun window => (cb, OnResult (run_model window))) <$> windows_of WINDOW_BYTES hist ((fun fs : list (list Z) => concat fs) <$> fss).

#[local] Notation swin := (WIN * SIZEOF_INT16)%nat.
#[local] Notation sstep := (STEP * SIZEOF_INT16)%nat.
#[local] Notation all_features fss := (concat ((fun fs : list (list Z) => concat fs) <$> fss)).

(** The memory of others: neither the processor's nor the iterator's. *)
Definition others_kept (own : gset nat) (b : nat) (h h' : Memory.t) : Prop :=
  forall q z, Ptr.block q ∉ own -> Ptr.block q <> b -> in_range (Memory.cells h) q z -> in_range (Memory.cells h') q z.

Lemma step_facts : (0 < STEP)%nat /\ (STEP <= WIN)%nat /\ (2 <= WIN)%nat /\ Z.of_nat (cache_samples STEP WIN) <= MAX_CACHE_SIZE.
Proof. pose proof STEP_Z. pose proof WIN_Z. rewrite cache_samples_Z. unfold MAX_CACHE_SIZE. lia. Qed.

(** One window through processor and plugin. *)
Lemma window_round own bl ws hist b p r x rn n k l it s h fs fss wins fuel (Q : option Z -> t * Memory.t -> Prop) :
  phase STEP WIN b p r x rn n k l it h -> pcmIterator_ s = Some it -> linked own bl ws hist s h ->
  b ∉ own -> Ptr.block p ∉ own -> (k * STEP + WIN <= rn + n)%nat ->
  let w := window sstep swin (r ++ x) k in
  Forall2 (audio par) (outputs features ws (w :: wins)) (fs :: fss) ->
  (forall it' s' h', phase STEP WIN b p r x rn n (S k) l it' h' -> pcmIterator_ s' = Some it' ->
     linked own bl (ws ++ [w]) (hist ++ concat fs) s' h' -> Memory.ub h' = Memory.ub h -> others_kept own b h h' ->
     calls s' = calls s ++ [(cb, OnResult (run_model (recent WINDOW_BYTES (hist ++ concat fs))))] ->
     Forall2 (audio par) (outputs features (ws ++ [w]) wins) fss ->
     wp (window_loop fuel (FeatureData.empty UINT16)) Q (s', h')) ->
  wp (window_loop (S fuel) (FeatureData.empty UINT16)) Q (s, h).
Proof.
  intros P EI L Hb Hp Hk w HF HQ. destruct step_facts as (S1 & S2 & S3 & S4). cbn [window_loop outputs] in *.
  apply Forall2_cons in HF as [HA HF]. apply wp_bind. eapply wp_call; [done|]. eapply (has_next_more STEP WIN S1 S2 S3); [done..|]. cbn [negb].
  apply wp_bind. eapply wp_call; [done|]. eapply wp_mono; [by eapply (next_spec STEP WIN S1 S2 S3)|].
  intros out [it1 h0] (q & -> & R & X & Hq & E & P1). cbn [fst snd] in *. subst h0. fold w in X.
  assert (Hqo : Ptr.block q ∉ own) by (by destruct Hq as [->| ->]).
  destruct L as [L1 L2 L3 LA L4 (mf & LM & LL) L6].
  apply wp_bind. eapply wp_call; [exact LM|]. cbn [Arr.data Arr.size].
  eapply wp_mono; [by eapply (mc_process _ _ Hmfcc)|]. intros rr [mf1 h1] (q1 & -> & R1 & X1 & LL1 & K1 & W1 & U1).
  cbn [fst snd] in *. rewrite Z.eqb_refl. cbn [negb FeatureData.data FeatureData.size]. apply wp_bind.
  set (s1 := s <| pcmIterator_ := Some it1 |> <| mfccProcessor_ := Some mf1 |>).
  assert (LK : linked own bl (ws ++ [w]) hist s1 h1) by (split; try done; by exists mf1).
  eapply wp_mono; [by eapply execute_spec|]. intros rc [s2 h2] (-> & [l2 E2] & LK2 & U2 & K2). cbn [fst snd] in *.
  assert (K : forall b', b' ∉ own -> is_Some (Memory.cells h !! b') -> Memory.cells h2 !! b' = Memory.cells h !! b').
  { intros b' Hb1 Hb2. rewrite K2; [by apply K1|]. rewrite K1; done. }
  rewrite Z.eqb_refl. cbn [negb]. apply (HQ it1); try done; try congruence; try (by rewrite E2).
  - eapply phase_ext; [| |exact P1]; apply K; try done.
    + eexists. apply (base_cells _ _ _ _ _ _ (phase_base _ _ _ _ _ _ _ _ _ _ _ _ P1)).
    + pose proof (phase_range _ _ _ _ _ _ _ _ _ _ _ _ P1) as (y & Ey & _)%in_range_inv. by eexists.
  - intros q' z Hq1 Hq2 Hr. pose proof Hr as (y & Ey & _)%in_range_inv. unfold in_range in *. rewrite K; [done|done|by eexists].
Qed.

(** The iterator at rest in the SDK. *)
Definition resting (b : nat) (r : list Z) (s : t) (h : Memory.t) : Prop :=
  exists it rn l, pcmIterator_ s = Some it /\ idle STEP WIN b r rn l it h.

(** What a loop over the windows [wins] leaves. *)
Definition streamed own bl ws hist b r wins fss (s : t) (h : Memory.t) (res : option Z) (s' : t * Memory.t) : Prop :=
  res = Some KWS_RETCODE_SUCCESS /\ Memory.ub s'.2 = Memory.ub h /\
  KWSSdkImpl.calls s'.1 = KWSSdkImpl.calls s ++ told hist fss /\
  linked own bl (ws ++ wins) (hist ++ all_features fss) s'.1 s'.2 /\ resting b r s'.1 s'.2 /\ others_kept own b h s'.2.

Lemma others_kept_trans own b h1 h2 h3 : others_kept own b h1 h2 -> others_kept own b h2 h3 -> others_kept own b h1 h3.
Proof. intros A B q z ???. by apply B, A. Qed.

Lemma window_loop_spec fuel : forall own bl ws hist b p r x rn n k l it s h fss,
  phase STEP WIN b p r x rn n k l it h -> pcmIterator_ s = Some it -> linked own bl ws hist s h ->
  b ∉ own -> Ptr.block p ∉ own ->
  let c := count sstep swin (length (r ++ x)) in
  (k <= c < fuel + k)%nat ->
  let wins := window sstep swin (r ++ x) <$> seq k (c - k) in
  Forall2 (audio par) (outputs features ws wins) fss ->
  wp (window_loop fuel (FeatureData.empty UINT16)) (streamed own bl ws hist b (rest sstep swin (r ++ x)) wins fss s h) (s, h).
Proof.
  destruct step_facts as (S1 & S2 & S3 & S4).
  induction fuel as [|fuel IH]; intros own bl ws hist b p r x rn n k l it s h fss P EI L Hb Hp c Hk wins HF; [lia|].
  assert (EL : length (r ++ x) = ((rn + n) * SIZEOF_INT16)%nat).
  { rewrite length_app, (phase_rn _ _ _ _ _ _ _ _ _ _ _ _ P), (phase_n _ _ _ _ _ _ _ _ _ _ _ _ P). lia. }
  destruct (decide (k < c)%nat) as [Hlt|Hge].
  - assert (Hw : (k * STEP + WIN <= rn + n)%nat) by (apply (more_iff STEP WIN S1 S2 S3); by rewrite <- EL).
    assert (EW : wins = window sstep swin (r ++ x) k :: (window sstep swin (r ++ x) <$> seq (S k) (c - S k))).
    { unfold wins. replace (c - k)%nat with (S (c - S k)) by lia. done. }
    rewrite EW in *. set (wins' := window sstep swin (r ++ x) <$> seq (S k) (c - S k)) in *.
    destruct fss as [|fs fss]; [by inversion HF|].
    eapply window_round; [done..|]. intros it' s' h' P' EI' L' U' K' C' HF'.
    eapply wp_mono; [apply (IH _ _ _ _ _ _ _ _ _ _ _ _ _ _ _ fss P' EI' L' Hb Hp)|]; [fold c; lia|done|].
    intros res s2 (-> & U2 & C2 & L2 & R2 & K2). split_and!; try done.
    + congruence.
    + rewrite C2, C'. unfold told. cbn [fmap list_fmap windows_of]. by rewrite <- app_assoc.
    + cbn [fmap list_fmap concat]. rewrite <- !app_assoc in L2. exact L2.
    + by eapply others_kept_trans.
  - assert (k = c) as -> by lia. assert (Hw : (rn + n < c * STEP + WIN)%nat).
    { apply Nat.nle_gt. intros C%(more_iff STEP WIN S1 S2 S3). rewrite <- EL in C. fold c in C. lia. }
    unfold wins in *. rewrite Nat.sub_diag in *. cbn [seq fmap list_fmap outputs] in HF. inversion HF; subst fss.
    cbn [window_loop]. apply wp_bind. eapply wp_call; [done|]. eapply wp_mono; [by eapply (has_next_end STEP WIN S1 S2 S3 S4)|].
    intros more [it' h'] (-> & F & l' & I). cbn [fst snd negb] in *. apply wp_ret. split_and!; try done.
    + by apply frame_ub in F.
    + unfold told. cbn. by rewrite app_nil_r.
    + cbn. rewrite !app_nil_r. by eapply linked_iterator.
    + eexists it', _, l'. split; [done|]. exact I.
    + intros q z ? Hq Hr. by eapply frame_in_range.
Qed.

Lemma kws_sync_execute_spec own bl ws hist b p r x n s h fss :
  linked own bl ws hist s h -> resting b r s h -> b ∉ own -> Ptr.block p ∉ own -> Ptr.block p <> b ->
  in_range (Memory.cells h) p (Z.of_nat (n * SIZEOF_INT16)) -> peek (Memory.cells h) p (Z.of_nat (n * SIZEOF_INT16)) = x ->
  Z.of_nat n <= 2 ^ 30 -> (WIN <= n)%nat ->
  let wins := windows sstep swin (r ++ x) in
  Forall2 (audio par) (outputs features ws wins) fss ->
  wp (SyncExecute (Arr.mk (Some p) (Z.of_nat n))) (streamed own bl ws hist b (rest sstep swin (r ++ x)) wins fss s h) (s, h).
Proof.
  intros L (it & rn & l & EI & I) Hb Hp Hpb R X Hn Hw wins HF. destruct step_facts as (S1 & S2 & S3 & S4).
  pose proof (idle_short _ _ _ _ _ _ _ _ I) as Hrn. pose proof WIN_Z as WZ.
  unfold SyncExecute. apply wp_bind, wp_self. cbn [id]. rewrite (li_handle _ _ _ _ _ _ L), (li_callback _ _ _ _ _ _ L).
  rewrite (proj2 (Z.eqb_neq _ _) Hvalid), bool_decide_eq_false_2 by done. apply wp_bind. eapply wp_call; [done|].
  eapply wp_mono; [by eapply (set_input_spec STEP WIN S1 S2 S3 S4 b p r x rn n l it h); [| | | |lia|]|].
  intros rc [it1 h1] (-> & F & l1 & P). cbn [fst snd] in *. rewrite Z.eqb_refl. cbn [negb].
  assert (EL : length (r ++ x) = ((rn + n) * SIZEOF_INT16)%nat).
  { rewrite length_app, (phase_rn _ _ _ _ _ _ _ _ _ _ _ _ P), (phase_n _ _ _ _ _ _ _ _ _ _ _ _ P). lia. }
  eapply wp_mono.
  { eapply (window_loop_spec (window_fuel (Arr.mk (Some p) (Z.of_nat n)))); [exact P|done|by eapply linked_iterator|done|done| |].
    - unfold window_fuel. cbn [Arr.size]. rewrite Nat2Z.id, EL. pose proof (count_at_most STEP WIN S1 S2 S3 rn n Hrn). lia.
    - rewrite Nat.sub_0_r. exact HF. }
  rewrite Nat.sub_0_r. intros res s2 (E1 & U2 & C2 & L2 & R2 & K2). split_and!; try done.
  - by rewrite U2, (frame_ub _ _ _ F).
  - intros q z A B C. apply K2; [done|done|]. by eapply frame_in_range.
Qed.

(** ** The application *)

(** It reuses one buffer for its audio. *)
Definition speak (p : Ptr.t) (chunk : list Z) : ST (KWSSdk.t * Memory.t) (option Z) :=
  on_memory (store (Some p) chunk) ;;
  KWSSdk.SyncExecute (Arr.mk (Some p) (Z.of_nat (length chunk / SIZEOF_INT16))).

Fixpoint speak_all (p : Ptr.t) (chunks : list (list Z)) : ST (KWSSdk.t * Memory.t) (list (option Z)) :=
  match chunks with
  | [] => mret []
  | c :: cs => r ← speak p c; rs ← speak_all p cs; mret (r :: rs)
  end.

Definition listen (p : Ptr.t) (chunks : list (list Z)) : ST (KWSSdk.t * Memory.t) (Z * Z * list (option Z)) :=
  c ← KWSSdk.Create; r ← KWSSdk.SetCallback (Some cb); rs ← speak_all p chunks; mret (c, r, rs).

(** The wrapper over an implementation that is there. *)
Lemma wp_on_impl {R} (none : R) op (Q : R -> KWSSdk.t * Memory.t -> Prop) i h :
  wp op (fun r s => Q r (KWSSdk.mk (library s.1) (Some s.1) (calls s.1), s.2)) (i, h) ->
  wp (KWSSdk.on_impl none op) Q (KWSSdk.mk (library i) (Some i) (calls i), h).
Proof.
  unfold wp, KWSSdk.on_impl. cbn. replace (i <| library := library i |> <| calls := calls i |>) with i by by destruct i.
  by destruct (op (i, h)) as [r [i' h']].
Qed.

(** The application's session after some audio: [ws] are its windows so far, [r]
    the samples that are left. *)
Definition attending own bl ws hist b r (cs : list (nat * event)) (s : KWSSdk.t) (h : Memory.t) : Prop :=
  exists i, s = KWSSdk.mk (library i) (Some i) (calls i) /\ calls i = cs /\ linked own bl ws hist i h /\ resting b r i h.

Lemma outputs_app ws a c : outputs features ws (a ++ c) = outputs features ws a ++ outputs features (ws ++ a) c.
Proof.
  revert ws. induction a as [|w a IH]; intros ws; cbn [app outputs]; [by rewrite app_nil_r|]. by rewrite IH, <- app_assoc.
Qed.

Lemma told_app hist fs1 fs2 : told hist (fs1 ++ fs2) = told hist fs1 ++ told (hist ++ all_features fs1) fs2.
Proof.
  unfold told. rewrite fmap_app. revert hist. induction fs1 as [|fs fs1 IH]; intros hist; cbn.
  - by rewrite app_nil_r.
  - f_equal. rewrite IH. by rewrite <- app_assoc.
Qed.

Lemma linked_store own bl ws hist s h q bs :
  Ptr.block q ∉ own -> linked own bl ws hist s h -> linked own bl ws hist s (h <| Memory.cells ::= fun c => poke c q bs |>).
Proof.
  intros Hq [L1 L2 L3 LA L4 (mf & LM & LL) [W D]]. split; try done; [|split; [done|]; cbn; by rewrite dom_poke].
  exists mf. split; [done|]. eapply (mc_ext _ _ Hmfcc); [exact LL|]. intros b' Hb'. cbn. apply lookup_poke_other. by intros ->.
Qed.

Lemma speak_all_spec own b p chunks : b ∉ own -> Ptr.block p ∉ own -> Ptr.block p <> b ->
  forall bl ws hist r cs s h fss,
  attending own bl ws hist b r cs s h -> Forall (fun c => input_ok WIN p h c /\ zlen c <= 2 ^ 30) chunks ->
  Forall2 (audio par) (outputs features ws (windows sstep swin (r ++ concat chunks))) fss ->
  wp (speak_all p chunks) (fun rs s' => rs = replicate (length chunks) (Some KWS_RETCODE_SUCCESS) /\
    Memory.ub s'.2 = Memory.ub h /\ KWSSdk.calls s'.1 = cs ++ told hist fss) (s, h).
Proof.
  intros Hb Hp Hpb. destruct step_facts as (S1 & S2 & S3 & S4).
  induction chunks as [|c chunks IH]; intros bl ws hist r cs s h fss (i & -> & EC & L & R) HF HA; cbn [speak_all concat length replicate].
  - apply wp_ret. split_and!; [done|done|]. destruct R as (it & rn & l & _ & I). rewrite app_nil_r in HA.
    unfold windows in HA. rewrite count_short in HA.
    + cbn in HA. inversion HA; subst fss. unfold told. cbn. by rewrite app_nil_r.
    + rewrite (idle_length _ _ _ _ _ _ _ _ I). pose proof (idle_short _ _ _ _ _ _ _ _ I). unfold SIZEOF_INT16. lia.
  - apply Forall_cons in HF as [[((n & Lc & Hn) & _ & Rc) Hsz] HF].
    cbn [concat] in HA. rewrite app_assoc, (windows_app sstep swin (sstep_pos _ _ S1 S2 S3) (sstep_le _ _ S1 S2 S3)) in HA.
    rewrite outputs_app in HA. apply Forall2_app_inv_l in HA as (fs1 & fs2 & HA1 & HA2 & ->).
    apply wp_bind. unfold speak. apply wp_bind, wp_on_memory, wp_store; [done|].
    set (h1 := h <| Memory.cells ::= fun c' => poke c' p c |>).
    assert (Ez : zlen c = Z.of_nat (n * SIZEOF_INT16)) by (unfold zlen; by rewrite Lc).
    rewrite Lc, Nat.div_mul by done. apply wp_on_impl. eapply wp_mono.
    { apply (kws_sync_execute_spec own bl ws hist b p r c n i h1 fs1); try done.
      - by apply linked_store.
      - destruct R as (it & rn & l & EI & I). exists it, rn, l. split; [done|]. by apply idle_store.
      - unfold h1. cbn. rewrite in_range_poke by done. by rewrite <- Ez.
      - unfold h1. cbn. rewrite <- Ez. by apply peek_poke_same.
      - unfold SIZEOF_INT16 in *. lia. }
    intros res [i2 h2] (-> & U2 & C2 & L2 & R2 & K2). cbn [fst snd] in *. apply wp_bind. eapply wp_mono.
    { eapply (IH bl (ws ++ windows sstep swin (r ++ c)) _ _ (calls i2) _ h2 fs2); [by exists i2| |exact HA2].
      eapply Forall_impl; [exact HF|]. intros d [(A & B & C) D]. split; [|done]. split_and!; [done|done|]. apply K2; [done|done|].
      unfold h1. cbn. by rewrite in_range_poke. }
    intros rs s3 (-> & U3 & C3). apply wp_ret. split; [done|]. split; [by rewrite U3, U2|].
    rewrite C3, C2, EC, told_app. by rewrite <- app_assoc.
Qed.

(** ** Setting up *)

(** A memory that differs in the allocator's clock only. *)
Lemma wp_new (Q : bool -> t * Memory.t -> Prop) s h :
  Memory.wf h ->
  (forall h', Memory.wf h' -> Memory.cells h' = Memory.cells h -> Memory.ub h' = Memory.ub h -> Q true (s, h')) ->
  wp (on_memory (on_mem AIE_NEW)) Q (s, h).
Proof. intros [W D] HQ. apply wp_on_memory, wp_on_mem. unfold wp, AIE_NEW. cbn [fst snd]. rewrite Hnew. by apply HQ. Qed.

(** What [InitComponents] sets up in a fresh implementation. *)
Lemma sdk_components_spec l h :
  Memory.wf h ->
  wp InitComponents (fun r s => r = KWS_RETCODE_SUCCESS /\ Memory.wf s.2 /\ Memory.ub s.2 = Memory.ub h /\
    exists it mf own b ln, s.1 = (ctor l) <| pcmIterator_ := Some it |> <| mfccProcessor_ := Some mf |> /\
      idle STEP WIN b [] 0 ln it s.2 /\ live own [] mf s.2 /\ b ∉ own /\
      forall q, is_Some (Memory.cells h !! q) -> q ∉ own /\ q <> b /\ Memory.cells s.2 !! q = Memory.cells h !! q) (ctor l, h).
Proof.
  intros W. destruct step_facts as (S1 & S2 & S3 & S4). unfold InitComponents.
  apply wp_bind, wp_new; [done|]. intros h1 W1 C1 U1. apply wp_bind. unfold reset_mfcc. apply wp_bind, wp_self. cbn [mfccProcessor_ ctor].
  apply wp_bind, wp_ret, wp_set_self. cbn [negb]. apply wp_bind. eapply wp_call; [done|].
  eapply wp_mono; [by apply (mc_init _ _ Hmfcc)|]. intros r [mf h2] (-> & W2 & U2 & own & LL & Own & K2). cbn [fst snd] in *.
  rewrite Z.eqb_refl. cbn [negb]. apply wp_bind, wp_new; [done|]. intros h3 W3 C3 U3.
  apply wp_bind. unfold reset_iterator. apply wp_bind, wp_self. cbn [pcmIterator_ ctor].
  apply wp_bind, wp_ret, wp_set_self. cbn [negb]. apply wp_bind. eapply wp_call; [done|].
  match goal with |- wp (PCMIterator.Init ?a ?b) _ _ => replace a with (Z.of_nat STEP) by apply STEP_Z; replace b with (Z.of_nat WIN) by apply WIN_Z end.
  eapply wp_mono; [apply (init_spec STEP WIN S1 S2 S3 S4); [done|]|].
  { apply HR. rewrite Nat2Z.inj_mul, cache_samples_Z. unfold SIZEOF_INT16. lia. }
  intros r [it h4] (-> & U4 & W4 & b & ln & Hb & C4 & I). cbn [fst snd] in *. rewrite Z.eqb_refl. cbn [negb]. apply wp_ret.
  assert (Hbo : b ∉ own) by (intros Hin; destruct (mc_blocks _ _ Hmfcc _ _ _ _ _ LL Hin) as [y Ey]; congruence).
  assert (Hlive : forall q, q ∈ own -> q <> b /\ Memory.cells h4 !! q = Memory.cells h2 !! q).
  { intros q Hq. assert (q <> b) as Hne by (by intros ->). split; [done|]. by rewrite C4, lookup_insert_ne, C3. }
  split; [done|]. split; [done|]. split; [cbn; congruence|]. exists it, mf, own, b, ln. split_and!; try done.
  - eapply (mc_ext _ _ Hmfcc); [exact LL|]. intros q Hq. by apply Hlive.
  - intros q [y Ey]. assert (q ∉ own) as Hq by (intros Hq; apply Own in Hq; congruence). assert (q <> b) as Hqb.
    { intros ->. rewrite C3, K2, C1, Ey in Hb by done. done. }
    split_and!; [done|done|]. cbn. by rewrite C4, lookup_insert_ne, C3, K2, C1.
Qed.

(** A new session, once the application has set its callback. *)
Definition opened (h : Memory.t) (s : t * Memory.t) : Prop :=
  exists own bl b, b ∉ own /\ linked own bl [] [] (s.1 <| callback_ := Some cb |>) s.2 /\ resting b [] s.1 s.2 /\
    calls s.1 = [] /\ forall q, is_Some (Memory.cells h !! q) -> q ∉ own /\ q <> b /\ Memory.cells s.2 !! q = Memory.cells h !! q.

Lemma create_spec mchars dchars l h :
  model_loads handle pin pout m -> par = parameters_of mchars dchars -> files_ok mchars dchars ->
  can_join l ->
  (server l).1 = KWSPlugin.ctor -> Memory.wf (server l).2 ->
  in_range (Memory.cells (server l).2) pin (Z.of_nat WINDOW_BYTES) ->
  in_range (Memory.cells (server l).2) pout (Z.of_nat (m * SIZEOF_INT32)) -> Memory.wf h ->
  wp Create (fun r s => r = KWS_RETCODE_SUCCESS /\ Memory.ub s.2 = Memory.ub h /\ opened h s) (ctor l, h).
Proof.
  intros EL Hpar FO HJ Hc Ws Rin Rout W. unfold Create. apply wp_bind, wp_self. cbn [id kwsHandle_ ctor]. rewrite Z.eqb_refl. cbn [negb].
  apply wp_bind. eapply wp_mono; [by apply sdk_components_spec|].
  intros r [s1 h1] (-> & W1 & U1 & it & mf & own & b & ln & E1 & I & LL & Hb & K1). cbn [fst snd] in *. subst s1.
  rewrite Z.eqb_refl. cbn [negb]. apply wp_bind, wp_on_member. eapply wp_mono; [by apply (serves_init _ _ _ _ _ _ _ _ _ Hserves)|].
  intros [rc ci] [l2 h2] (E2 & J & Hid & Es & Ks & K2). cbn [fst snd library] in E2, J, Hid, Es, Ks, K2. subst rc.
  change (library ((ctor l) <| pcmIterator_ := Some it |> <| mfccProcessor_ := Some mf |>)) with l in Es, Ks.
  apply wp_bind, wp_set_self. cbn [fst snd]. rewrite Z.eqb_refl, (proj2 (Z.eqb_neq _ _) Hid). cbn [negb].
  apply wp_bind, wp_on_member. eapply wp_mono; [apply (serves_prepare _ _ _ _ _ _ _ _ _ Hserves ci _ _
    (fun x srv => x.1 = RETCODE_SUCCESS /\ DataInfo.content x.2 = trailer (ser_all [handle_obj handle]) /\ exists bl, prepared bl [] srv.1 srv.2)); [done|apply K2|]|].
  { intros h0 K0. cbn in Es, Ks, K0 |- *. rewrite Es, Hc. pose proof (kept_trans _ _ _ Ks K0) as [W0 C0 _].
    eapply wp_mono; [eapply (prepare_spec HR Hnew par handle pin pout m Hblocks mchars dchars h0); done || by rewrite C0|].
    intros x srv (Ex & HC & _ & HO & Hok & bl & PP). do 5 (split; [done|]). by exists bl. }
  intros [rc d] [l3 h3] (J3 & (K3 & [code out] & srv & (Ex & HC & bl & PP) & E3 & Ks3 & Hsucc) & Erc). cbn [fst snd library] in *. subst rc.
  destruct (Hsucc Ex) as (_ & Hcp & HO).
  rewrite Z.eqb_refl. cbn [negb]. pose proof (handle_carries handle out d HC Hcp) as CA. rewrite (carries_data _ _ CA).
  pose proof (kept_trans _ _ _ K2 K3) as [W3 C3 U3].
  unfold pointer_guard. apply wp_bind, wp_bind, wp_on_memory.
  eapply wp_mono; [apply (objects_decode d [handle_obj handle]); [done|done|by repeat constructor]|].
  intros r h' [-> ->]. apply wp_bind, wp_set_self. cbn [fst snd decoded_handle]. rewrite handle_val_obj, Z.eqb_refl by done. cbn [negb].
  apply wp_ret, wp_bind, wp_on_memory, free_owned; [done|done|]. intros h4 W4 C4 U4. apply wp_ret.
  assert (C : Memory.cells h4 = Memory.cells h1) by (cbn [snd] in C4; congruence).
  split; [done|]. split; [cbn [snd] in *; congruence|]. exists own, bl, b. split_and!; try done.
  - split; try done; [cbn; rewrite E3; by eapply kws_prepared_kept|]. exists mf. split; [done|]. eapply (mc_ext _ _ Hmfcc); [exact LL|]. intros q _. cbn. by rewrite C.
  - exists it, 0%nat, ln. split; [done|]. eapply idle_ext; [|exact I]. cbn. by rewrite C.
  - cbn. rewrite C. exact K1.
Qed.

(** The whole session. *)
Lemma listen_spec mchars dchars l h p chunks fss :
  model_loads handle pin pout m -> par = parameters_of mchars dchars -> files_ok mchars dchars -> can_join l ->
  (server l).1 = KWSPlugin.ctor -> Memory.wf (server l).2 ->
  in_range (Memory.cells (server l).2) pin (Z.of_nat WINDOW_BYTES) ->
  in_range (Memory.cells (server l).2) pout (Z.of_nat (m * SIZEOF_INT32)) -> Memory.wf h ->
  Forall (fun c => input_ok WIN p h c /\ zlen c <= 2 ^ 30) chunks -> is_Some (Memory.cells h !! Ptr.block p) ->
  Forall2 (audio par) (outputs features [] (windows sstep swin (concat chunks))) fss ->
  wp (listen p chunks) (fun r s => r = (KWS_RETCODE_SUCCESS, KWS_RETCODE_SUCCESS, replicate (length chunks) (Some KWS_RETCODE_SUCCESS)) /\
    Memory.ub s.2 = Memory.ub h /\ KWSSdk.calls s.1 = told [] fss) (KWSSdk.ctor l, h).
Proof.
  intros EL Hpar FO HJ Hc Ws Rin Rout W HF Hp HA. unfold listen. apply wp_bind. unfold KWSSdk.Create.
  apply wp_bind, wp_self. cbn [id KWSSdk.kwsSdkImpl_ KWSSdk.ctor]. apply wp_bind, wp_on_memory, wp_on_mem.
  unfold wp at 1, AIE_NEW. cbn [fst snd]. rewrite Hnew. apply wp_bind, wp_set_self. cbn [negb].
  change ((KWSSdk.ctor l) <| KWSSdk.kwsSdkImpl_ := Some (ctor (KWSSdk.library (KWSSdk.ctor l))) |>)
    with (KWSSdk.mk (library (ctor l)) (Some (ctor l)) (calls (ctor l))).
  apply wp_on_impl. set (h1 := h <| Memory.mem := _ |>).
  eapply wp_mono; [apply (create_spec mchars dchars l h1); try done; by destruct W|].
  intros r [i h2] (-> & U2 & own & bl & b & Hb & L & R & EC & K). cbn [fst snd] in *.
  destruct (K (Ptr.block p) Hp) as (Hpo & Hpb & _). apply wp_bind. unfold KWSSdk.SetCallback. apply wp_on_impl.
  unfold SetCallback. apply wp_bind, wp_set_self, wp_ret. apply wp_bind. cbn [fst snd]. eapply wp_mono.
  { eapply (speak_all_spec own b p chunks Hb Hpo Hpb bl [] [] [] [] _ h2 fss); [|  |exact HA].
    - exists (i <| callback_ := Some cb |>). split_and!; done.
    - eapply Forall_impl; [exact HF|]. intros c [(A & B & C) D]. split; [|done]. split_and!; [done|done|].
      unfold in_range in *. destruct (K (Ptr.block p) Hp) as (_ & _ & ->). exact C. }
  intros rs s3 (-> & U3 & C3). apply wp_ret. split; [done|]. split; [by rewrite U3, U2|done].
Qed.

End session.

(** ** Property *)

(** C6. An application creates the SDK, sets its callback and gives it its audio
    in pieces of at least a window.  Every call succeeds, and the callback hears,
    for every window of 3360 samples of the whole audio, 3200 samples apart,
    exactly one result, in order: the model's output for the last 4000 normalised
    features of the MFCC processor, preceded by zeros.  Where the audio is cut into
    such pieces makes no difference, every loop ends, and no access leaves a block.
    (With pieces shorter than a window some are lost, see
    [PcmProps.short_inputs_lose_windows].)  The SDK
    relies on the contracts of the client library ([serves]) and of the MFCC
    processor ([mfcc_contract]). *)
Theorem kws_sdk_hears_the_stream
    `{!Allocator, !Securec, !AllocatorLaws, !SecurecMemory, !SecurecMemoryLaws, !Files, !EngineAdapter, !AieClient, !MfccProcessor}
    (handle : Z) (pin pout : Ptr.t) (m : nat) (run_model : list Z -> list Z) (mchars dchars : list Z)
    (server : client -> KWSPlugin.t * Memory.t) (can_join : client -> Prop) (entered joined : client -> ClientInfo.t -> Prop)
    (features : list (list Z) -> list (list Z)) (live : gset nat -> list (list Z) -> mfcc -> Memory.t -> Prop)
    (cb : nat) (p : Ptr.t) (chunks : list (list Z)) (fss : list (list (list Z))) (l : client) (h : Memory.t) :
  resources -> (forall t, new_ok t = true) ->
  - 2 ^ 63 <= handle < 2 ^ 63 -> handle <> INVALID_KWS_HANDLE -> 0 < Z.of_nat m <= 2 ^ 16 -> Ptr.block pin <> Ptr.block pout ->
  model_loads handle pin pout m -> engine_runs handle pin pout WINDOW_BYTES m run_model ->
  (forall i, length (run_model i) = (m * SIZEOF_INT32)%nat) -> (forall i, Forall DecoderFacts.is_byte (run_model i)) ->
  files_ok mchars dchars ->
  serves server (KWSPlugin.Prepare DataInfo.null) KWSPlugin.SyncProcess can_join entered joined kws_config kws_client kws_algorithm ->
  can_join l -> mfcc_contract features live ->
  (server l).1 = KWSPlugin.ctor -> Memory.wf (server l).2 ->
  in_range (Memory.cells (server l).2) pin (Z.of_nat WINDOW_BYTES) ->
  in_range (Memory.cells (server l).2) pout (Z.of_nat (m * SIZEOF_INT32)) -> Memory.wf h ->
  Forall (fun c => input_ok WIN p h c /\ zlen c <= 2 ^ 30) chunks -> is_Some (Memory.cells h !! Ptr.block p) ->
  let wins := windows (STEP * SIZEOF_INT16) (WIN * SIZEOF_INT16) (concat chunks) in
  Forall2 (audio (parameters_of mchars dchars)) (outputs features [] wins) fss ->
  let '((c, r, rs), s) := listen cb p chunks (KWSSdk.ctor l, h) in
  c = KWS_RETCODE_SUCCESS /\ r = KWS_RETCODE_SUCCESS /\ rs = replicate (length chunks) (Some KWS_RETCODE_SUCCESS) /\
  Memory.ub s.2 = Memory.ub h /\
  KWSSdk.calls s.1 = (fun w => (cb, OnResult (run_model w))) <$>
    windows_of WINDOW_BYTES [] ((fun fs : list (list Z) => concat fs) <$> fss).
Proof.
  intros HR Hnew Hh Hv Hm Hb EL ER Hmod Hby FO HS HJ HM Hc Ws Rin Rout W HF Hp wins HA.
  pose proof (listen_spec HR Hnew _ handle pin pout m run_model Hh Hv Hm Hb ER Hmod Hby server can_join entered joined HS features live HM cb
    mchars dchars l h p chunks fss EL eq_refl FO HJ Hc Ws Rin Rout W HF Hp HA) as U.
  unfold wp in U. destruct (listen cb p chunks (KWSSdk.ctor l, h)) as [[[c r] rs] s]. cbn [fst snd] in U.
  destruct U as (E & U1 & U2). injection E as -> -> ->. done.
Qed.

(** ** Witness *)

Import SecurecSample.
#[local] Existing Instances sys_alloc sys_securec sys_alloc_laws kws_files kws_engine.

Definition FEATURES : nat := Z.to_nat DEFAULT_MFCC_FEATURE_SIZE.

(** A processor whose features are the first 400 samples of the window. *)
Definition first_samples (w : list Z) : list Z := take (FEATURES * SIZEOF_INT16) w.

#[local] Instance sample_mfcc : MfccProcessor := {|
  mfcc := option Ptr.t;
  new_mfcc := None;
  mfcc_Init := fun _ s => let '(p, h) := new_array (Z.of_nat (FEATURES * SIZEOF_INT16)) s.2 in
    (match p with Some _ => RETCODE_SUCCESS | None => RETCODE_FAILURE end, (p, h));
  mfcc_Process := fun i o s =>
    match s.1, FeatureData.data i with
    | Some q, Some p => ((RETCODE_SUCCESS, FeatureData.mk UINT16 (Some q) DEFAULT_MFCC_FEATURE_SIZE),
        (s.1, s.2 <| Memory.cells ::= fun cs => poke cs q (first_samples (peek cs p (Z.of_nat (WIN * SIZEOF_INT16)))) |>))
    | _, _ => ((RETCODE_FAILURE, o), s)
    end;
  delete_mfcc := fun s => let '(r, h) := delete_array s.1 s.2 in (r, (None, h));
|}.

Definition sample_features (ws : list (list Z)) : list (list Z) := objects FEATURES SIZEOF_INT16 (first_samples (default [] (last ws))).

Definition sample_live (own : gset nat) (ws : list (list Z)) (m : mfcc) (h : Memory.t) : Prop :=
  exists b x, m = Some (Ptr.mk b 0) /\ own = {[b]} /\ Memory.cells h !! b = Some x /\ length x = (FEATURES * SIZEOF_INT16)%nat.

Lemma FEATURES_Z : Z.of_nat FEATURES = DEFAULT_MFCC_FEATURE_SIZE.
Proof. apply Z2Nat.id. done. Qed.

Lemma features_fit : (FEATURES * SIZEOF_INT16 <= WIN * SIZEOF_INT16)%nat.
Proof. pose proof FEATURES_Z as F. pose proof WIN_Z. unfold DEFAULT_MFCC_FEATURE_SIZE, DEFAULT_NORM_INPUT_SIZE, DEFAULT_SLIDE_STEP_SIZE in F. unfold SIZEOF_INT16. lia. Qed.

#[local] Opaque FEATURES.

Lemma sample_contract : mfcc_contract sample_features sample_live.
Proof.
  split.
  - intros h W. unfold mfcc_Init, sample_mfcc. cbn. pose proof FEATURES_Z as F.
    assert (N : wp (new_array (Z.of_nat (FEATURES * SIZEOF_INT16))) (fun p h' => exists b, p = Some (Ptr.mk b 0) /\ Memory.wf h' /\
      Memory.ub h' = Memory.ub h /\ Memory.cells h !! b = None /\
      exists x, Memory.cells h' = <[b := x]> (Memory.cells h) /\ length x = (FEATURES * SIZEOF_INT16)%nat) h).
    { apply wp_new_array; [done| |].
      - intros h' _ _ _ C. rewrite Nat2Z.inj_mul, F in C. done.
      - intros b bs h' W' Hb L C U _. exists b. split_and!; try done. exists bs. split; [done|]. unfold zlen in L. lia. }
    unfold wp in N |- *. cbn [snd]. destruct (new_array (Z.of_nat (FEATURES * SIZEOF_INT16)) h) as [q h'].
    cbn [fst snd] in *. destruct N as (b & -> & W' & U & Hb & x & E & Hx). split_and!; try done. exists {[b]}. split_and!.
    + exists b, x. split_and!; try done. rewrite E. apply lookup_insert_eq.
    + by intros b' ->%elem_of_singleton.
    + intros b' Hb'. rewrite E, lookup_insert_ne; [done|set_solver].
  - intros own ws mf h b (b' & x & _ & -> & E & _) ->%elem_of_singleton. by eexists.
  - intros own ws mf h h' (b & x & -> & -> & E & Hx) K. exists b, x. split_and!; try done. rewrite K; [done|set_solver].
  - intros own ws mf h p w (b & x & -> & -> & E & Hx) W Hp R X. unfold mfcc_Process, sample_mfcc, wp. cbn [fst snd FeatureData.data].
    set (h' := h <| Memory.cells ::= fun cs => poke cs (Ptr.mk b 0) (first_samples (peek cs p (Z.of_nat (WIN * SIZEOF_INT16)))) |>).
    assert (EC : Memory.cells h' = poke (Memory.cells h) (Ptr.mk b 0) (first_samples w)) by (unfold h'; cbn; by rewrite X).
    pose proof features_fit as FF. pose proof FEATURES_Z as F.
    assert (Lw : length w = (WIN * SIZEOF_INT16)%nat) by (rewrite <- X, length_peek, Nat2Z.id; done).
    assert (LF : length (first_samples w) = (FEATURES * SIZEOF_INT16)%nat) by (unfold first_samples; rewrite length_take, Lw; lia).
    assert (EZ : DEFAULT_MFCC_FEATURE_SIZE * Z.of_nat SIZEOF_INT16 = zlen (first_samples w)) by (unfold zlen; rewrite LF, Nat2Z.inj_mul, F; done).
    assert (IR : in_range (Memory.cells h) (Ptr.mk b 0) (zlen (first_samples w))).
    { apply (in_range_at _ _ _ _ x); [done|done|apply zlen_nonneg|]. unfold zlen. rewrite LF, Hx. lia. }
    exists (Ptr.mk b 0). rewrite EZ. split; [done|]. cbn [fst snd]. rewrite EC. split; [by rewrite in_range_poke|].
    split; [|split; [|split; [|split; [|done]]]].
    + rewrite peek_poke_same by done. unfold sample_features. rewrite last_snoc. cbn. by rewrite concat_objects.
    + exists b, (write_at x 0 (first_samples w)). split_and!; try done; [rewrite EC; by rewrite (lookup_poke_same _ (Ptr.mk b 0) _ x E)|].
      rewrite length_write_at; lia.
    + intros b' Hb'. apply lookup_poke_other. cbn. set_solver.
    + destruct W as [WM WD]. split; [done|]. by rewrite EC, dom_poke.
Qed.

#[local] Instance plugin_client : AieClient := loopback (KWSPlugin.Prepare DataInfo.null) KWSPlugin.SyncProcess.

Definition plugin_server : client -> KWSPlugin.t * Memory.t := loopback_server (KWSPlugin.Prepare DataInfo.null) KWSPlugin.SyncProcess.
Definition plugin_joined : client -> ClientInfo.t -> Prop := loopback_joined (KWSPlugin.Prepare DataInfo.null) KWSPlugin.SyncProcess.
Definition plugin_process : client := (KWSPlugin.ctor, model_buffers).

(** The application's audio: the sample, then silence, and once more. *)
Definition application_memory : Memory.t := (new_array (Z.of_nat (WIN * SIZEOF_INT16)) Memory.empty).2.
Definition application_buffer : Ptr.t := Ptr.mk 0 0.
Definition sample_chunk : list Z := concat sample_audio ++ replicate (Z.to_nat 5920) 0.
Definition sample_windows : list (list Z) := windows (STEP * SIZEOF_INT16) (WIN * SIZEOF_INT16) (concat [sample_chunk; sample_chunk]).
Definition sample_outputs : list (list (list Z)) := outputs sample_features [] sample_windows.

(** The processor's outputs are audio whose features are defined. *)
Definition check_audio (smp fs : list (list Z)) : bool :=
  (length smp =? SAMPLES)%nat && (length fs =? SAMPLES)%nat &&
  forallb (fun x => (length x =? 2)%nat && forallb (fun b => (0 <=? b) && (b <? 2 ^ 8)) x) smp && check_features smp fs.

Lemma check_audio_ok smp fs : check_audio smp fs = true -> audio (parameters_of zeros_file ones_file) smp fs.
Proof.
  unfold check_audio. rewrite !andb_true_iff, !Nat.eqb_eq, forallb_forall. intros [[[L1 L2] B] F]. split; [done| |].
  - apply Forall_forall. intros x Hx%list_elem_of_In%B. apply andb_true_iff in Hx as [Hl Hb]. apply Nat.eqb_eq in Hl. split; [done|].
    rewrite forallb_forall in Hb. apply Forall_forall. intros y Hy%list_elem_of_In%Hb. unfold DecoderFacts.is_byte. lia.
  - intros i Hi. by apply check_features_ok.
Qed.

Lemma sample_outputs_ok :
  Forall2 (audio (parameters_of zeros_file ones_file)) sample_outputs (features_of <$> sample_outputs).
Proof.
  assert (E : forallb (fun smp => check_audio smp (features_of smp)) sample_outputs = true) by (vm_compute; reflexivity).
  rewrite forallb_forall in E. apply Forall2_fmap_r, Forall_Forall2_diag, Forall_forall.
  intros smp Hin%list_elem_of_In. by apply check_audio_ok, E.
Qed.

Lemma sample_chunk_ok : input_ok WIN application_buffer application_memory sample_chunk /\ zlen sample_chunk <= 2 ^ 30.
Proof.
  assert (L : length sample_chunk = (WIN * SIZEOF_INT16)%nat) by (vm_compute; reflexivity).
  pose proof WIN_Z as WZ. assert (Z : zlen sample_chunk = 6720) by (unfold zlen; rewrite L, Nat2Z.inj_mul, WZ; done).
  unfold input_ok. rewrite Z. split_and!; [by exists WIN|done|vm_compute; exact I|done].
Qed.

Lemma kws_sdk_hears_the_stream_witness :
  let '((c, r, rs), s) := listen 5 application_buffer [sample_chunk; sample_chunk] (KWSSdk.ctor plugin_process, application_memory) in
  c = KWS_RETCODE_SUCCESS /\ r = KWS_RETCODE_SUCCESS /\ rs = replicate 2 (Some KWS_RETCODE_SUCCESS) /\
  Memory.ub s.2 = Memory.ub application_memory /\
  KWSSdk.calls s.1 = (fun w => (5%nat, OnResult (ends_model w))) <$>
    windows_of WINDOW_BYTES [] ((fun fs : list (list Z) => concat fs) <$> (features_of <$> sample_outputs)).
Proof.
  apply (kws_sdk_hears_the_stream 42 (Ptr.mk 0 0) (Ptr.mk 1 0) 2 ends_model zeros_file ones_file plugin_server (fun l => Memory.wf l.2) plugin_joined plugin_joined
    sample_features sample_live 5 application_buffer [sample_chunk; sample_chunk] (features_of <$> sample_outputs)).
  - apply sys_resources.
  - done.
  - by vm_compute.
  - by vm_compute.
  - by vm_compute.
  - done.
  - split; [by eexists|by intros ??..].
  - by intros a h ??.
  - done.
  - intros i. apply Forall_app. split; apply DecoderFacts.le_bytes.
  - split; [eexists; split; [done|vm_compute; reflexivity]..|].
    split; apply Nat.leb_le; vm_compute; reflexivity.
  - apply loopback_serves.
  - apply wf_decide. vm_compute. reflexivity.
  - apply sample_contract.
  - done.
  - apply wf_decide. vm_compute. reflexivity.
  - vm_compute. exact I.
  - vm_compute. exact I.
  - apply wf_decide. vm_compute. reflexivity.
  - apply Forall_cons_2; [|apply Forall_cons_2; [|apply Forall_nil_2]]; apply sample_chunk_ok.
  - eexists. vm_compute. reflexivity.
  - apply sample_outputs_ok.
Defined.
