(* ===== verification/FullStack.v ===== *)
(** * FullStack: a request from the client library to the plugin and back

    The client library of [AieClient], the messages, the server, its executor and
    a plugin of [PluginHost] put together do what an SDK relies on once its
    session is open: every request reaches the plugin, and the plugin's answer
    comes back ([library_connected]).  The plugin, an object on the memory of its
    process, is shown to be an algorithm that calls can rely on. *)

From Stdlib Require Import ZArith Lia.
From stdpp Require Import gmap strings list.
From S2P Require Import Prelude Protocol Sync Queue Thread Pools PluginManager FutureFactory Executor ExecutorProps Ipc ClientProxy ServerAdapter SaServer Samgr Client EndToEnd AdapterProps SyncCall Encdec EncdecFacts EncdecProps Memory NormProcessor PluginBase Handover IcPlugin IcProps KwsPlugin AieClient IcSdk AieClientProps IcSdkProps PluginHost.

#[local] Open Scope Z_scope.
#[local] Existing Instances Hosted.hosted ClientLibrary.client_library.

(** ** A plugin behind [IPlugin] is an algorithm that calls can rely on *)

Section hosted.
  Context `{!Allocator, !AllocatorLaws} {P : IPlugin.t}.

Lemma wp_on_plugin {A} algo (op : ST (IPlugin.object * Memory.t) A) Q g m :
  wp op (fun a s' => Q a (Hosted.mk (fun i => if (i =? algo)%nat then s'.1 else Hosted.objects g i)
    (Memory.cells s'.2) (Memory.ub s'.2), Memory.mem s'.2)) (Hosted.objects g algo, Hosted.memory g m) ->
  wp (Hosted.on_plugin algo op) Q (g, m).
Proof. unfold wp, Hosted.on_plugin. cbn [fst snd]. by destruct (op _) as [a [p h]]. Qed.

(** A message that a plugin has handed over, and the blocks of the others. *)
Lemma handed_blocks g m h' out :
  handed (Hosted.memory g m) h' out ->
  IpcFacts.owned out ∪ (Mem.live m ∖ Hosted.blocks g) ⊆ Mem.live (Memory.mem h') ∖ dom (Memory.cells h') /\
  IpcFacts.owned out ## Mem.live m ∖ Hosted.blocks g.
Proof.
  intros [HW HS Hw HOut HF].
  assert (forall b, b ∈ IpcFacts.owned out -> exists blk, DataInfo.data out = Some blk /\ Block.addr blk = b) as RO.
  { intros b. unfold IpcFacts.owned. destruct (DataInfo.data out); set_solver. }
  split.
  - intros b [(blk & E & <-)%RO|[B1 B2]%elem_of_difference]%elem_of_union.
    + destruct (HOut blk E) as [O1 O2]. apply elem_of_difference. split; [done|]. by apply not_elem_of_dom.
    + destruct (HS b B1 ltac:(by apply not_elem_of_dom)) as [C1 C2].
      apply elem_of_difference. split; [done|]. by apply not_elem_of_dom.
  - intros b (blk & E & <-)%RO [B1 B2]%elem_of_difference. destruct (HF blk E B1) as [x Hx]. apply B2. apply elem_of_dom. by exists x.
Qed.

(** What the plugin does of a request that presents [d]. *)
Lemma hosted_safe algo g m0 d Q :
  (forall r h0, presents d r -> kept (Hosted.memory g m0) h0 -> owned h0 (Request.msg r) ->
     does (IPlugin.SyncProcess (Some r) None) Q (Hosted.objects g algo, h0)) ->
  SyncCallFacts.safe_call Hosted.blocks False algo g d (fun code resp g' =>
    exists m', Q (code, resp) (Hosted.objects g' algo, Hosted.memory g' m')).
Proof.
  intros HD r m W HO HL EC El. set (h0 := Hosted.memory g m).
  assert (kept (Hosted.memory g m0) h0) as K by (by split).
  assert (owned h0 (Request.msg r)) as Ow.
  { intros blk E. unfold IpcFacts.owned in HL. rewrite E in HL. split; [cbn; set_solver|].
    apply not_elem_of_dom. unfold Hosted.blocks in HL. cbn. set_solver. }
  specialize (HD r h0 (conj EC El) K Ow). unfold does, wp in HD. cbn [sync_process Hosted.hosted]. unfold Hosted.on_plugin.
  cbn [fst snd]. fold h0. destruct (IPlugin.SyncProcess (Some r) None (Hosted.objects g algo, h0)) as [[code resp] [p' h']].
  cbn [fst snd] in HD. destruct HD as (HH & Hok & HQ). pose proof (handed_wf _ _ _ HH) as HW.
  destruct (handed_blocks g m h' (result_of resp) HH) as [B1 B2].
  eexists code, resp, _, _. split; [reflexivity|].
  assert (SyncCallFacts.result_owned resp = IpcFacts.owned (result_of resp)) as -> by by destruct resp.
  unfold Hosted.blocks at 1 3 4. cbn [Hosted.cells Hosted.objects]. rewrite Nat.eqb_refl.
  split_and!; try done.
  - exists (Memory.mem h'). by destruct h'.
  - apply HW.
  - apply HW.
  - by intros y ->.
Qed.

(** What the plugin does when it is prepared. *)
Lemma hosted_prepare algo g m0 (prepare : ST (IPlugin.object * Memory.t) (Z * DataInfo.t)) Q :
  (forall transactionId inputInfo, IPlugin.Prepare transactionId inputInfo DataInfo.null = prepare) ->
  (forall h0, kept (Hosted.memory g m0) h0 -> wp prepare (fun x s' => x.1 = RETCODE_SUCCESS /\ handed h0 s'.2 x.2 /\
     IpcFacts.di_ok x.2 /\ Q x s') (Hosted.objects g algo, h0)) ->
  forall transactionId inputInfo m, mem_wf m -> Hosted.blocks g ⊆ Mem.live m -> exists out g' m',
    Executor.prepare algo transactionId inputInfo (g, m) = ((RETCODE_SUCCESS, out), (g', m')) /\
    (exists m1, Q (RETCODE_SUCCESS, out) (Hosted.objects g' algo, Hosted.memory g' m1)) /\ mem_wf m' /\ Hosted.blocks g' ⊆ Mem.live m' /\
    IpcFacts.owned out ∪ (Mem.live m ∖ Hosted.blocks g) ⊆ Mem.live m' ∖ Hosted.blocks g' /\
    IpcFacts.owned out ## Mem.live m ∖ Hosted.blocks g /\ IpcFacts.di_ok out.
Proof.
  intros EP HD tid input m W HO. specialize (HD (Hosted.memory g m) ltac:(by split)). cbn [Executor.prepare Hosted.hosted].
  unfold Hosted.on_plugin. cbn [fst snd]. rewrite EP. unfold wp in HD.
  destruct (prepare (Hosted.objects g algo, Hosted.memory g m)) as [[code out] [p' h']]. cbn [fst snd] in HD.
  destruct HD as (-> & HH & Hok & HQ). pose proof (handed_wf _ _ _ HH) as HW. destruct (handed_blocks g m h' out HH) as [B1 B2].
  eexists out, _, _. split; [reflexivity|]. unfold Hosted.blocks at 1 3. cbn [Hosted.cells Hosted.objects]. rewrite Nat.eqb_refl.
  split_and!; try done.
  - exists (Memory.mem h'). by destruct h'.
  - apply HW.
  - apply HW.
Qed.

End hosted.

(** ** The client library over the connection to the server *)

Section library.
  Context `{!Allocator, !AllocatorLaws, !DynLib, !Pthread, !IpcIo, !IpcIoLaws, !Shm, !ShmLaws, !IpcFacts.ShmReliable,
            !Securec, !SecurecLaws, !Environment} {P : IPlugin.t}.
  Context (new_works : forall k, new_ok k = true) (malloc_works : malloc_serves).
  Context (room_works : 700 <= room io_init).
  Context (cap : Z) (Hcap : MAX_SYNC_MSG_NUM <= cap < 2 ^ 64) (Hdiv : (cap | 2 ^ 64)).
  Context (eid : nat) (e : Engine.t) (algo : nat).
  Context (getuid : Z) (fuel : nat) (now : Z) (Hfuel : (0 < fuel)%nat).
#[local] Hint Extern 0 Connection => exact (SyncCallFacts.this_connection getuid fuel now) : typeclass_instances.
Implicit Types (l : ClientLibrary.t).

Definition proxy_of l : ClientProxy.t := Client.px (ClientLibrary.factory l).
Definition server_of l : SaServer.t := ClientProxy.remote (proxy_of l).
Definition hosted_of l : Hosted.t := SyncCallFacts.states (SaServer.adapters (server_of l)).

(** The plugin on the other side, with the memory of its process. *)
Definition plugin_of l : IPlugin.object * Memory.t :=
  (Hosted.objects (hosted_of l) algo, Hosted.memory (hosted_of l) (SaServer.mem (server_of l))).

(** A session of the library that the server serves. *)
Record session_open l (ci : ClientInfo.t) : Prop := {
  so_created : ClientLibrary.created l = true;
  so_client : Client.sa_client (ClientLibrary.factory l) = true;
  so_proxy : Client.proxy_ (ClientLibrary.factory l) = true;
  so_invoke : ClientProxy.Invoke (proxy_of l) = true;
  so_key : IpcFacts.key_ok (Ipc.g_shmKey (ClientProxy.ipc (proxy_of l)));
  so_keys : Z.of_nat (size (segments (Ipc.os (ClientProxy.ipc (proxy_of l))))) + 3 <= SHM_KEY_END - SHM_KEY_START;
  so_session : ClientInfo.sessionId ci <> INVALID_SESSION_ID;
  so_ext : IpcFacts.di_ok (Wire.client_ext ci);
  so_serving : SyncCallFacts.serving cap eid e algo Hosted.blocks (ClientInfo.clientId ci) (ClientInfo.sessionId ci) (server_of l);
}.

Lemma wp_on_client {A} (m : ST Client.t A) Q l h :
  wp m (fun a c => Q a (l <| ClientLibrary.factory := c |>, h <| Memory.mem := ClientLibrary.client_mem c |>))
    (ClientLibrary.set_client_mem (Memory.mem h) (ClientLibrary.factory l)) ->
  wp (ClientLibrary.on_client m) Q (l, h).
Proof. unfold wp, ClientLibrary.on_client. cbn [fst snd]. by destruct (m _). Qed.

(** A request of an open session reaches the proxy. *)
Lemma sync_process_proxy ci ai d o Q l h :
  session_open l ci -> AlgorithmInfo.isAsync ai = false ->
  wp (ClientProxy.SyncExecAlgorithmProxy ci ai d o) (fun r p' => Q r
    (l <| ClientLibrary.factory ::= fun c => c <| Client.px := p' |> |>, h <| Memory.mem := Ipc.mem (ClientProxy.ipc p') |>))
    (Client.px (ClientLibrary.set_client_mem (Memory.mem h) (ClientLibrary.factory l))) ->
  wp (AieClientSyncProcess ci ai d o) Q (l, h).
Proof.
  intros [S1 S2 S3 _ _ _ S7 _ _] Ha HQ. cbn [AieClientSyncProcess ClientLibrary.client_library].
  unfold ClientLibrary.SyncProcess, ClientLibrary.with_client, ClientLibrary.GetClient.
  apply wp_bind, wp_bind, wp_self. rewrite S1. apply wp_ret. apply wp_on_client.
  unfold Client.ClientSyncProcess. rewrite (proj2 (Z.eqb_neq _ _) S7), Ha.
  unfold Client.SyncExecute, Client.with_client, Client.GetSaClient. apply wp_bind, wp_bind, wp_gets.
  cbn -[ClientProxy.SyncExecAlgorithmProxy]. rewrite S2. apply wp_ret. cbn [negb].
  unfold Client.SaSyncExecuteAlgorithm, Client.with_proxy. apply wp_bind, wp_gets.
  cbn -[ClientProxy.SyncExecAlgorithmProxy]. rewrite S3. cbn [negb]. unfold Client.on_px. apply wp_on_field.
  eapply wp_mono; [exact HQ|]. intros r p'. by destruct l as [? []].
Qed.

(** The server, the messages and the library carry requests to the plugin. *)
Lemma library_connected ci ai :
  AlgorithmInfo.isAsync ai = false -> IpcFacts.di_ok (Wire.algorithm_ext ai) ->
  connected plugin_of IPlugin.SyncProcess session_open ci ai.
Proof.
  intros Ha Hai l h d o Q SO [W D] _ Hd HD. pose proof SO as [S1 S2 S3 S4 S5 S6 S7 S8 S9].
  apply sync_process_proxy; [done|done|].
  set (p := Client.px (ClientLibrary.set_client_mem (Memory.mem h) (ClientLibrary.factory l))).
  assert (SyncCallFacts.calling getuid fuel now p) as HC by (by split).
  pose proof (hosted_safe algo (hosted_of l) (SaServer.mem (server_of l)) d Q HD) as Hsafe.
  eapply wp_mono.
  { apply (SyncCallFacts.SyncExecAlgorithmProxy_spec new_works malloc_works room_works cap Hcap Hdiv eid e algo
      (Hosted.blocks : @algorithms Hosted.hosted -> gset nat) False getuid fuel now Hfuel ci ai d o _ p HC S9 Ha S8 Hai Hd Hsafe). }
  intros r p' (code & resp & (m' & HQ) & Er & Ec & El & [C1 C2 C3 C4] & HS' & HK & HL & HF & _). cbn [fst snd].
  change (Mem.live (Ipc.mem (ClientProxy.ipc p')) = IpcFacts.owned r.2 ∪ Mem.live (Memory.mem h)) in HL.
  change (IpcFacts.owned r.2 ## Mem.live (Memory.mem h)) in HF.
  split; [split; try done; cbn; exact C4|]. split; [split; [split; [exact C2|]; change (dom (Memory.cells h) ⊆ Mem.live (Ipc.mem (ClientProxy.ipc p'))); rewrite HL; set_solver|done|done]|].
  exists (code, resp), (Hosted.objects (SyncCallFacts.states (SaServer.adapters (ClientProxy.remote p'))) algo,
    Hosted.memory (SyncCallFacts.states (SaServer.adapters (ClientProxy.remote p'))) m').
  split; [exact HQ|]. split; [done|]. split.
  - split; [|done|done]. destruct HS' as [_ V1 V2 _]. split; [exact V1|exact V2].
  - cbn [fst snd]. intros ->. rewrite Er. split; [done|]. split.
    + split; [|done]. rewrite Ec. unfold SyncCallFacts.reply_bytes, SyncCallFacts.result_bytes. cbn [fst snd]. rewrite Z.eqb_refl. by destruct resp.
    + intros blk E. unfold IpcFacts.owned in HL, HF. rewrite E in HL, HF.
      change (Block.addr blk ∈ Mem.live (Ipc.mem (ClientProxy.ipc p')) /\ Memory.cells h !! Block.addr blk = None). split; [rewrite HL; set_solver|].
      apply not_elem_of_dom. set_solver.
Qed.

End library.
