(* ===== verification/FullSession.v ===== *)
(** * FullSession: a session from its first call to its last answer

    A process that has no connection yet and a server that has just started
    satisfy what an SDK relies on ([serves]): the first call connects and gives the
    client its number, [Prepare] loads the plugin, starts its engine and prepares
    it, and the requests reach the plugin as [FullStack] shows.  With the keyword
    spotting SDK on top, this is the way of the audio from the application to the
    model and of the results back. *)

From Stdlib Require Import ZArith Lia.
From stdpp Require Import gmap strings list.
From S2P Require Import Prelude Protocol Sync Queue Thread Pools PluginManager FutureFactory Executor ExecutorProps Ipc ClientProxy ServerAdapter SaServer Samgr Client ClientProps EndToEnd AdapterProps SyncCall Admission Encdec EncdecFacts EncdecProps Memory Float32 Feature SlideProps NormProcessor FeatureProps PluginBase Handover KwsPlugin KwsProps PcmIterator PcmProps AieClient IcSdk AieClientProps IcPlugin IcProps KwsSdk KwsSdkProps IcSdkProps PluginHost FullStack.

#[local] Open Scope Z_scope.
#[local] Existing Instances Hosted.hosted ClientLibrary.client_library.

Section session.
  Context `{!Allocator, !AllocatorLaws, !DynLib, !Pthread, !IpcIo, !IpcIoLaws, !Shm, !ShmLaws, !IpcFacts.ShmReliable,
            !Securec, !SecurecLaws, !Environment} {P : IPlugin.t}.
  Context (new_works : forall k, new_ok k = true) (malloc_works : malloc_serves) (attr_works : forall n, pthread_attr_init n = 0)
          (create_works : forall n, pthread_create n = 0) (room_works : 700 <= room io_init).
  Context (sync_mode : IPlugin.GetInferMode = PLUGIN_SYNC_INFER) (prepare : ST (IPlugin.object * Memory.t) (Z * DataInfo.t))
          (Hprepare : forall transactionId inputInfo, IPlugin.Prepare transactionId inputInfo DataInfo.null = prepare).
  Context (uid : Z) (fuel : nat) (now : Z) (Hfuel : (0 < fuel)%nat).
#[local] Hint Extern 0 Connection => exact (SyncCallFacts.this_connection uid fuel now) : typeclass_instances.
Implicit Types (l : ClientLibrary.t).

#[local] Notation proxy_of := (proxy_of uid fuel now).
#[local] Notation server_of := (server_of uid fuel now).
#[local] Notation hosted_of := (hosted_of uid fuel now).
#[local] Notation plugin_of := (plugin_of 1 uid fuel now).
#[local] Notation session_open := (session_open Executor.MAX_SYNC_MSG_NUM 0 AdmissionFacts.first_engine 1 uid fuel now).

(** A process without connection, and a server that nobody has used. *)
Record can_join l : Prop := {
  cj_client : ClientFacts.unconnected (ClientLibrary.factory l);
  cj_remote : remote_unknown (Client.proxies (ClientLibrary.factory l)) = Some true;
  cj_key : IpcFacts.key_ok (Ipc.g_shmKey (ClientProxy.ipc (proxy_of l)));
  cj_keys : Z.of_nat (size (segments (Ipc.os (ClientProxy.ipc (proxy_of l))))) + 3 <= SHM_KEY_END - SHM_KEY_START;
  cj_server : AdmissionFacts.open_server Hosted.blocks (server_of l);
}.

(** A client that the server knows, and no algorithm yet. *)
Record entered l (ci : ClientInfo.t) : Prop := {
  et_created : ClientLibrary.created l = true;
  et_client : Client.sa_client (ClientLibrary.factory l) = true;
  et_proxy : Client.proxy_ (ClientLibrary.factory l) = true;
  et_invoke : ClientProxy.Invoke (proxy_of l) = true;
  et_key : IpcFacts.key_ok (Ipc.g_shmKey (ClientProxy.ipc (proxy_of l)));
  et_keys : Z.of_nat (size (segments (Ipc.os (ClientProxy.ipc (proxy_of l))))) + 3 <= SHM_KEY_END - SHM_KEY_START;
  et_session : ClientInfo.sessionId ci <> INVALID_SESSION_ID;
  et_ext : IpcFacts.di_ok (Wire.client_ext ci);
  et_server : AdmissionFacts.awaiting Hosted.blocks (ClientInfo.clientId ci) (server_of l);
}.

(** ** The library *)

Lemma ticked_kept h m : Memory.wf h -> AdmissionFacts.ticked (Memory.mem h) m -> kept h (h <| Memory.mem := m |>).
Proof. intros [W D] [n ->]. by split. Qed.

(** An operation of the library creates the client if there is none. *)
Lemma wp_with_client {A} (none : A) (m : ST Client.t A) Q l h :
  (forall n, AdmissionFacts.ticked (Memory.mem h) n ->
     wp m (fun a c => Q a (ClientLibrary.mk true c, h <| Memory.mem := ClientLibrary.client_mem c |>))
       (ClientLibrary.set_client_mem n (ClientLibrary.factory l))) ->
  wp (ClientLibrary.with_client none m) Q (l, h).
Proof.
  intros HQ. unfold ClientLibrary.with_client, ClientLibrary.GetClient. apply wp_bind, wp_bind, wp_self.
  destruct (ClientLibrary.created l) eqn:E.
  - apply wp_ret, wp_on_client. eapply wp_mono; [by apply HQ|]. intros a c. destruct l as [b f]. cbn in *. by subst.
  - apply wp_bind, wp_on_memory, wp_on_mem. unfold wp at 1, AIE_NEW. rewrite new_works. cbn [fst snd].
    apply wp_bind, wp_set_self, wp_ret, wp_on_client. eapply wp_mono; [apply HQ; by eexists|]. intros a c. by destruct l.
Qed.

(** Attempts to allocate leave the proxy as it is. *)
Lemma quiet_facts p p' : ClientFacts.quiet p p' ->
  ClientProxy.Invoke p' = ClientProxy.Invoke p /\ ClientProxy.remote p' = ClientProxy.remote p /\
  Ipc.os (ClientProxy.ipc p') = Ipc.os (ClientProxy.ipc p) /\ Ipc.g_shmKey (ClientProxy.ipc p') = Ipc.g_shmKey (ClientProxy.ipc p) /\
  AdmissionFacts.ticked (Ipc.mem (ClientProxy.ipc p)) (Ipc.mem (ClientProxy.ipc p')).
Proof. intros [n ->]. split_and!; try done. by exists n. Qed.

(** ** The first call *)

Lemma library_resources : ClientFacts.resources.
Proof using new_works attr_works create_works. by split_and!. Qed.

(** The proxy after the first request that it makes from [p0] on. *)
Definition admitted p0 (id : Z) (p' : ClientProxy.t) : Prop := exists p, ClientFacts.quiet p0 p /\
  AdmissionFacts.welcomed Hosted.blocks uid fuel now (p <| ClientProxy.Invoke := true |>) id p'.

Lemma first_request config c p0 :
  AdmissionFacts.open_server Hosted.blocks (ClientProxy.remote p0) -> ClientFacts.requests uid (admitted p0) config c p0.
Proof using new_works room_works H3.
  intros HO p Hp. pose proof (quiet_facts _ _ Hp) as (_ & R & _). eapply wp_mono.
  { apply (AdmissionFacts.InitSaEngine_welcomes new_works room_works
      (Hosted.blocks : @algorithms Hosted.hosted -> gset nat) uid fuel now config c (p <| ClientProxy.Invoke := true |>)); [done|].
    cbn. by rewrite R. }
  intros r p' (id & Hid & -> & HW). exists id. split; [done|]. split; [done|]. by exists p.
Qed.

(** What the first request leaves of the two processes. *)
Lemma admitted_facts p0 id p1 p' : admitted p0 id p1 -> ClientFacts.quiet p1 p' ->
  ClientProxy.Invoke p' = true /\ Ipc.os (ClientProxy.ipc p') = Ipc.os (ClientProxy.ipc p0) /\
  Ipc.g_shmKey (ClientProxy.ipc p') = Ipc.g_shmKey (ClientProxy.ipc p0) /\
  AdmissionFacts.ticked (Ipc.mem (ClientProxy.ipc p0)) (Ipc.mem (ClientProxy.ipc p')) /\
  AdmissionFacts.awaiting Hosted.blocks id (ClientProxy.remote p') /\
  SyncCallFacts.states (SaServer.adapters (ClientProxy.remote p')) = SyncCallFacts.states (SaServer.adapters (ClientProxy.remote p0)) /\
  AdmissionFacts.ticked (SaServer.mem (ClientProxy.remote p0)) (SaServer.mem (ClientProxy.remote p')).
Proof.
  intros (p & Q1 & [W1 W2 W3 W4 W5 W6 W7]) Q2. cbn in W1, W2, W3, W4, W6, W7.
  destruct (quiet_facts _ _ Q1) as (_ & R1 & O1 & K1 & M1), (quiet_facts _ _ Q2) as (I2 & R2 & O2 & K2 & M2).
  rewrite R1 in W6, W7. rewrite R2. split_and!; try done; try congruence. rewrite W2 in M2. by etransitivity.
Qed.

Context (Hdeath : add_death_recipient = 0)
        (Hruns : exists j, (j < Client.CHECK_CONNECTION_TIMES)%nat /\ actions_before_check j <> 0%nat).

Lemma library_init config c ai l h :
  ClientInfo.sessionId c = INVALID_SESSION_ID -> IpcFacts.di_ok (Wire.client_ext c) -> can_join l -> Memory.wf h ->
  wp (AieClientInit config c ai None) (fun r s' => r.1 = RETCODE_SUCCESS /\ entered s'.1 r.2 /\
    ClientInfo.clientId r.2 <> INVALID_CLIENT_ID /\ (plugin_of s'.1).1 = (plugin_of l).1 /\
    kept (plugin_of l).2 (plugin_of s'.1).2 /\ kept h s'.2) (l, h).
Proof.
  intros Hc Hext [CU CR CK CKs CS] W. cbn [AieClientInit ClientLibrary.client_library]. unfold ClientLibrary.Init.
  apply wp_with_client. intros n T. set (s0 := ClientLibrary.set_client_mem n (ClientLibrary.factory l)).
  eapply wp_mono.
  { apply (ClientFacts.ClientInit_spec library_resources Hdeath uid (admitted (Client.px s0)) config c ai None s0 Hruns).
    - intros k. by apply first_request.
    - exact CR.
    - destruct CU. by split.
    - done. }
  intros r c' (k & Hk & -> & [C1 C2 C3 C4 C5 (p & Qp & HA)]). cbn [fst snd].
  destruct (admitted_facts _ _ _ _ HA Qp) as (F1 & F2 & F3 & F4 & F5 & F6 & F7).
  split; [done|]. split; [|split; [done|split; [|split]]].
  - split; [done|done|done|done| | | |done|done].
    + change (IpcFacts.key_ok (Ipc.g_shmKey (ClientProxy.ipc (Client.px c')))). rewrite F3. exact CK.
    + change (Z.of_nat (size (segments (Ipc.os (ClientProxy.ipc (Client.px c'))))) + 3 <= SHM_KEY_END - SHM_KEY_START).
      rewrite F2. exact CKs.
    + cbn. intros E. unfold AIE_SESSION_ID_BEGIN, INVALID_SESSION_ID in *. lia.
  - exact (f_equal (fun g => Hosted.objects g 1%nat) F6).
  - change (SyncCallFacts.states (SaServer.adapters (ClientProxy.remote (Client.px c')))) with (hosted_of (ClientLibrary.mk true c')) in F6.
    unfold FullStack.plugin_of. cbn [snd]. rewrite F6. destruct CS as [_ _ _ SW SO _].
    apply (ticked_kept (Hosted.memory (hosted_of l) (SaServer.mem (server_of l)))); [by split|exact F7].
  - apply ticked_kept; [done|]. etransitivity; [exact T|exact F4].
Qed.

(** ** The algorithm is loaded *)

Lemma wp_LoadAlgorithm c ai d o Q s :
  Client.sa_client s = true -> Client.proxy_ s = true -> AlgorithmInfo.isAsync ai = false ->
  (forall p, ClientFacts.quiet (Client.px s) p -> wp (ClientProxy.LoadAlgorithmProxy c ai d o)
     (fun r p' => Q r (s <| Client.sa_async := true |> <| Client.px := p' |>)) p) ->
  wp (Client.LoadAlgorithm c ai d o) Q s.
Proof using new_works attr_works create_works.
  intros Hc Hp Ha HQ. unfold Client.LoadAlgorithm, Client.GetSaClient. apply wp_bind, wp_bind, wp_gets. rewrite Hc. apply wp_ret. cbn [negb].
  apply wp_bind, ClientFacts.wp_GetSaAsync; [apply library_resources|]. intros p Qp. cbn [negb]. apply wp_bind, wp_gets. rewrite Ha. cbn [andb].
  unfold Client.SaLoadAlgorithm, Client.with_proxy. apply wp_bind, wp_gets. cbn -[ClientProxy.LoadAlgorithmProxy]. rewrite Hp. cbn [negb].
  unfold Client.on_px. apply wp_on_field. eapply wp_mono; [by apply HQ|]. intros r p'. by destruct s.
Qed.

Lemma library_prepare ci ai l h Q :
  AdmissionFacts.installed ai -> AlgorithmInfo.isAsync ai = false -> IpcFacts.di_ok (Wire.algorithm_ext ai) ->
  entered l ci -> Memory.wf h ->
  (forall h0, kept (plugin_of l).2 h0 -> wp prepare (fun x s' => x.1 = RETCODE_SUCCESS /\ handed h0 s'.2 x.2 /\
     IpcFacts.di_ok x.2 /\ Q x s') ((plugin_of l).1, h0)) ->
  wp (AieClientPrepare ci ai DataInfo.null DataInfo.null None) (fun r s' => session_open s'.1 ci /\
    brings plugin_of id Q h r s' /\ r.1 = RETCODE_SUCCESS) (l, h).
Proof.
  intros Hin Ha Hai [E1 E2 E3 E4 E5 E6 E7 E8 E9] W HD. cbn [AieClientPrepare ClientLibrary.client_library]. unfold ClientLibrary.Prepare.
  apply wp_with_client. intros n T. set (s0 := ClientLibrary.set_client_mem n (ClientLibrary.factory l)).
  unfold Client.ClientPrepare. rewrite (proj2 (Z.eqb_neq _ _) E7), Ha. apply wp_bind, wp_ret. rewrite Z.eqb_refl. cbn [negb].
  apply wp_bind, wp_LoadAlgorithm; [done|done|done|]. intros p Qp. destruct (quiet_facts _ _ Qp) as (F1 & F2 & F3 & F4 & F5).
  assert (exists k, Ipc.mem (ClientProxy.ipc p) = (Memory.mem h) <| Mem.tick := k |>) as [k Ek].
  { destruct T as [a ->], F5 as [b ->]. by eexists. }
  assert (SyncCallFacts.calling uid fuel now p) as HC.
  { split; rewrite ?F1, ?F3, ?F4; [done| |done|done]. rewrite Ek. apply W. }
  assert (AdmissionFacts.safe_prepare (Hosted.blocks : @algorithms Hosted.hosted -> gset nat) (hosted_of l) (fun out g' =>
    exists m', Q (RETCODE_SUCCESS, out) (Hosted.objects g' 1%nat, Hosted.memory g' m'))) as Hsafe.
  { intros tid input m. by apply (hosted_prepare 1 (hosted_of l) (SaServer.mem (server_of l)) prepare Q Hprepare HD). }
  assert (infer_mode 1 = Some PLUGIN_SYNC_INFER) as Hmode by (cbn; by rewrite sync_mode).
  eapply wp_mono.
  { apply (AdmissionFacts.LoadAlgorithmProxy_spec new_works malloc_works attr_works create_works Hmode room_works
      (Hosted.blocks : @algorithms Hosted.hosted -> gset nat) uid fuel now ci ai DataInfo.null DataInfo.null
      (fun out g' => exists m', Q (RETCODE_SUCCESS, out) (Hosted.objects g' 1%nat, Hosted.memory g' m')) p); try done; rewrite F2; done. }
  intros r p' (out & (m' & HQ) & Er & Ec & El & [C1 C2 C3 C4] & HS & HL & HF). rewrite Er, Z.eqb_refl. cbn [negb].
  apply wp_bind, wp_ret, wp_ret. rewrite Ek in HL, HF.
  change (Mem.live (Ipc.mem (ClientProxy.ipc p')) = IpcFacts.owned r.2 ∪ Mem.live (Memory.mem h)) in HL.
  change (IpcFacts.owned r.2 ## Mem.live (Memory.mem h)) in HF. destruct W as [WM WD]. cbn [fst snd].
  split; [split; try done; cbn; exact C4|]. split; [|done]. split; [split; [split; [exact C2|]; change (dom (Memory.cells h) ⊆ Mem.live (Ipc.mem (ClientProxy.ipc p'))); rewrite HL; set_solver|done|done]|].
  exists (RETCODE_SUCCESS, out), (Hosted.objects (SyncCallFacts.states (SaServer.adapters (ClientProxy.remote p'))) 1%nat,
    Hosted.memory (SyncCallFacts.states (SaServer.adapters (ClientProxy.remote p'))) m').
  split; [exact HQ|]. split; [done|]. split.
  - split; [|done|done]. destruct HS as [_ V1 V2 _]. split; [exact V1|exact V2].
  - cbn [fst snd id]. intros _. split; [done|]. split; [split; [exact Ec|done]|].
    intros blk E. unfold IpcFacts.owned in HL, HF. rewrite E in HL, HF.
    change (Block.addr blk ∈ Mem.live (Ipc.mem (ClientProxy.ipc p')) /\ Memory.cells h !! Block.addr blk = None). split; [rewrite HL; set_solver|].
    apply not_elem_of_dom. set_solver.
Qed.

(** ** The contract *)

Lemma library_serves config c ai :
  AdmissionFacts.installed ai -> AlgorithmInfo.isAsync ai = false -> IpcFacts.di_ok (Wire.algorithm_ext ai) ->
  ClientInfo.sessionId c = INVALID_SESSION_ID -> IpcFacts.di_ok (Wire.client_ext c) ->
  serves plugin_of prepare IPlugin.SyncProcess can_join entered session_open config c ai.
Proof.
  intros Hin Ha Hai Hc Hext. split.
  - intros l h. by apply library_init.
  - intros ci l h Q. by apply library_prepare.
  - intros ci. apply (library_connected new_works malloc_works room_works Executor.MAX_SYNC_MSG_NUM); try done.
    exists (2 ^ 64 / Executor.MAX_SYNC_MSG_NUM). reflexivity.
Qed.

End session.

(** ** Images one after the other *)

Section images.
  Context `{!Allocator, !Securec, !AllocatorLaws, !SecurecMemory, !SecurecMemoryLaws, !StdHeap, !StdHeapLaws, !EngineAdapter, !AieClient}.
  Context (HR : resources) (Hnew : forall t, new_ok t = true).
  Context (handle : Z) (c : ICPluginConfig.t) (pin pout : Ptr.t) (n m : nat) (run_model : list Z -> list Z)
          (Hfacts : model_facts handle c pin pout n m run_model).
  Context (server : client -> ICPlugin.t * Memory.t) (joined : client -> ClientInfo.t -> Prop)
          (ci : ClientInfo.t) (ai : AlgorithmInfo.t) (Hconnected : connected server ICPlugin.SyncProcess joined ci ai).
  Context (cb : nat).

(** The application gives the SDK the images at [ps]. *)
Fixpoint classify (ps : list Ptr.t) : ST (IcSdkImpl.t * Memory.t) (list (option Z)) :=
  match ps with
  | [] => mret []
  | p :: ps => r ← IcSdk.SyncExecute (Arr.mk (Some p) (Z.of_nat n)); rs ← classify ps; mret (r :: rs)
  end.

(** An image of the model's size in the memory. *)
Definition image_at (h : Memory.t) (p : Ptr.t) (image : list Z) : Prop :=
  shown n image p h /\ length image = n /\ Forall DecoderFacts.is_byte image.

Lemma image_stays h h' p image : bytes_stay h h' -> image_at h p image -> image_at h' p image.
Proof.
  intros B ([R X] & L & F). split; [|done]. pose proof R as (x & Ex & _)%in_range_inv.
  assert (Memory.cells h' !! Ptr.block p = Memory.cells h !! Ptr.block p) as E by (apply B; by exists x).
  unfold shown, in_range, peek in *. by rewrite E.
Qed.

Lemma classify_spec ps images s h :
  Forall2 (image_at h) ps images -> seated handle c pin pout n m server joined ci ai s h -> IcSdkImpl.callback_ s = Some cb ->
  wp (classify ps) (fun rs s' => rs = replicate (length ps) (Some IC_RETCODE_SUCCESS) /\ Memory.ub s'.2 = Memory.ub h /\
    (exists calls, Forall2 (told c m run_model cb) images calls /\ IcSdkImpl.calls s'.1 = IcSdkImpl.calls s ++ calls) /\
    seated handle c pin pout n m server joined ci ai s'.1 s'.2) (s, h).
Proof.
  revert images s h. induction ps as [|p ps IH]; intros images s h F ST Hcb; inversion F as [|? image ? images' I F']; subst; cbn [classify].
  - apply wp_ret. split_and!; try done. exists []. by rewrite app_nil_r.
  - destruct I as (I & L & B). destruct Hfacts as [Hh Hn Hm Hb C1 C2 C3 C4 C5 He Hmod]. apply wp_bind. eapply wp_mono.
    { apply (ic_sync_execute_spec HR Hnew handle c pin pout n m run_model Hh ltac:(lia) ltac:(lia) Hb C1 C2 C3 C4 C5 He Hmod
        server joined ci ai image p Hconnected L B cb s h ltac:(lia) ltac:(lia)); [by apply session_start|done]. }
    intros r [s1 h1] (-> & U & (call & T & EC) & ST1 & Hcb1 & BS). cbn [fst snd] in *. apply wp_bind.
    eapply wp_mono; [apply IH; [|done|done]|].
    { eapply Forall2_impl; [exact F'|]. intros. by eapply image_stays. }
    intros rs s2 (-> & U2 & (calls & T2 & EC2) & ST2). apply wp_ret. split; [done|]. split; [congruence|]. split; [|done].
    exists (call :: calls). split; [by constructor|]. rewrite EC2, EC. by rewrite <- app_assoc.
Qed.

(** From the creation of the SDK on. *)
Definition show_images (cb : nat) (ps : list Ptr.t) : ST (IcSdkImpl.t * Memory.t) (Z * Z * list (option Z)) :=
  c ← IcSdk.Create; r ← IcSdk.SetCallback (Some cb); rs ← classify ps; mret (c, r, rs).

End images.

Section gallery.
  Context `{!Allocator, !Securec, !AllocatorLaws, !SecurecMemory, !SecurecMemoryLaws, !StdHeap, !StdHeapLaws, !EngineAdapter, !AieClient}.
  Context (HR : resources) (Hnew : forall t, new_ok t = true).
  Context (handle : Z) (pin pout : Ptr.t) (n m : nat) (run_model : list Z -> list Z).
#[local] Notation config := (IcPluginFacts.model_config pin pout n m).
  Context (Hfacts : model_facts handle config pin pout n m run_model) (Hloads : IcPluginFacts.model_loads handle pin pout n m).
  Context (server : client -> ICPlugin.t * Memory.t) (can_join : client -> Prop) (entered joined : client -> ClientInfo.t -> Prop)
          (Hserves : serves server (ICPlugin.Prepare DataInfo.null) ICPlugin.SyncProcess can_join entered joined
             ic_config ic_client ic_algorithm).
  Context (cb : nat).

Lemma show_images_spec ps images l h :
  Forall2 (image_at n h) ps images -> can_join l -> (server l).1 = ICPlugin.ctor -> Memory.wf (server l).2 ->
  Memory.ub (server l).2 = false -> in_range (Memory.cells (server l).2) pin (Z.of_nat n) ->
  in_range (Memory.cells (server l).2) pout (Z.of_nat (m * SIZEOF_INT32)) -> Memory.wf h ->
  wp (show_images n cb ps) (fun r s => r = (IC_RETCODE_SUCCESS, IC_RETCODE_SUCCESS, replicate (length ps) (Some IC_RETCODE_SUCCESS)) /\
    Memory.ub s.2 = Memory.ub h /\ Forall2 (told config m run_model cb) images (IcSdkImpl.calls s.1) /\
    exists ci, seated handle config pin pout n m server joined ci ic_algorithm s.1 s.2) (IcSdkImpl.ctor l, h).
Proof.
  intros HF HJ Hc Ws Us Rin Rout W. unfold show_images. apply wp_bind. eapply wp_mono.
  { apply (ic_create_spec HR handle pin pout n m (mf_handle _ _ _ _ _ _ _ Hfacts) server can_join entered joined Hserves l h); done. }
  intros r [s1 h1] (-> & (ci & [A1 A2 A3 A4 A5 A6]) & E & C & U). cbn [fst snd] in *.
  apply wp_bind. unfold IcSdk.SetCallback, IcSdkImpl.SetCallback. apply wp_bind, wp_set_self, wp_ret.
  apply wp_bind. eapply wp_mono.
  { apply (classify_spec HR Hnew handle config pin pout n m run_model Hfacts server joined ci ic_algorithm (serves_process _ _ _ _ _ _ _ _ _ Hserves ci) cb ps images
      (s1 <| IcSdkImpl.callback_ := Some cb |>) h1); [|by split|done].
    eapply Forall2_impl; [exact HF|]. intros q img. apply image_stays. intros b _. by rewrite C. }
  intros rs s2 (-> & U2 & (calls & T & E2) & ST). apply wp_ret. split; [done|]. split; [congruence|]. split; [|by exists ci].
  rewrite E2. cbn. by rewrite E.
Qed.

End gallery.

(** ** Properties *)

Import KwsFacts.

(** C1. An application that has not used the AI engine before gives the image
    classification SDK images of the size the model takes, one after the other,
    and the server has just started.  Every call succeeds, from the creation on,
    and the callback is told, for every image, in order, the best classes of the
    model's output on exactly that image.  Nothing between the application and
    the inference engine is assumed to work: the first call connects, the server
    loads the plugin's library, creates queue, thread and engine and prepares the
    plugin; the slices go through the client library, the messages and shared
    memory, the server with its executor and engine worker, to the plugin, and its
    answer comes back the same way.  No access leaves a block on either side, and
    the session stays open. *)
Theorem images_classified_across_the_ipc
    `{!Allocator, !AllocatorLaws, !DynLib, !Pthread, !IpcIo, !IpcIoLaws, !Shm, !ShmLaws, !IpcFacts.ShmReliable,
      !Securec, !SecurecMemory, !SecurecMemoryLaws, !StdHeap, !StdHeapLaws, !EngineAdapter, !Environment}
    (handle : Z) (pin pout : Ptr.t) (n m : nat) (run_model : list Z -> list Z)
    (uid : Z) (fuel : nat) (now : Z) (cb : nat) (ps : list Ptr.t) (images : list (list Z)) :
  let _ : IPlugin.t := ic_plugin in
  let _ : Connection := server_connection uid fuel now in
  let config := IcPluginFacts.model_config pin pout n m in
  resources -> (forall k, new_ok k = true) -> (forall n, pthread_attr_init n = 0) -> (forall n, pthread_create n = 0) ->
  700 <= room io_init -> (0 < fuel)%nat -> add_death_recipient = 0 ->
  (exists j, (j < Client.CHECK_CONNECTION_TIMES)%nat /\ actions_before_check j <> 0%nat) ->
  AdmissionFacts.installed ic_algorithm ->
  model_facts handle config pin pout n m run_model -> IcPluginFacts.model_loads handle pin pout n m ->
  forall (l : ClientLibrary.t) (h : Memory.t),
  let plugin := plugin_of 1 uid fuel now l in
  can_join uid fuel now l -> plugin.1 = ICPlugin.ctor -> Memory.ub plugin.2 = false ->
  in_range (Memory.cells plugin.2) pin (Z.of_nat n) ->
  in_range (Memory.cells plugin.2) pout (Z.of_nat (m * SIZEOF_INT32)) -> Memory.wf h ->
  Forall2 (image_at n h) ps images ->
  let '((c, r, rs), s) := show_images n cb ps (IcSdkImpl.ctor l, h) in
  c = IC_RETCODE_SUCCESS /\ r = IC_RETCODE_SUCCESS /\ rs = replicate (length ps) (Some IC_RETCODE_SUCCESS) /\
  Memory.ub s.2 = Memory.ub h /\ Forall2 (told config m run_model cb) images (IcSdkImpl.calls s.1) /\
  exists ci, seated handle config pin pout n m (plugin_of 1 uid fuel now)
    (session_open Executor.MAX_SYNC_MSG_NUM 0 AdmissionFacts.first_engine 1 uid fuel now) ci ic_algorithm s.1 s.2.
Proof.
  intros P N config HR HN HA HT Hroom Hfuel Hdeath Hruns Hin Hfacts EL l h plugin HJ Hc Us Rin Rout W HF. pose proof (proj2 HR) as HL.
  assert (malloc_serves) as HMa by (intros t k Hk; apply HR; unfold MAX_SHM_DATA_SIZE in Hk; lia).
  pose proof (library_serves HN HMa HA HT Hroom eq_refl (ICPlugin.Prepare DataInfo.null) (fun _ _ => eq_refl) uid fuel now Hfuel
    Hdeath Hruns ic_config ic_client ic_algorithm Hin eq_refl eq_refl eq_refl eq_refl) as HS.
  assert (Memory.wf plugin.2) as Ws by (destruct HJ as [_ _ _ _ [_ _ _ SW SO _]]; by split).
  pose proof (show_images_spec HR HN handle pin pout n m run_model Hfacts EL _ _ _ _ HS cb ps images l h HF HJ Hc Ws Us Rin Rout W) as U.
  unfold wp in U. destruct (show_images _ _ _ _) as [[[c r] rs] s]. cbn [fst snd] in U.
  destruct U as (E & U1 & U2). injection E as -> -> ->. done.
Qed.

(** C2. An application that has not used the AI engine before gives the keyword
    spotting SDK its audio in pieces of at least a window, and the server has just
    started.  Every call succeeds, from the creation on, and the callback hears,
    for every window of 3360 samples of the whole audio, 3200 samples apart,
    exactly one result, in order: the model's output for the last 4000 normalised
    features, preceded by zeros.  Client library, messages, server, executor and
    plugin are those of the code: the first call connects, the server loads the
    plugin's library, creates queue, thread and engine, and prepares the plugin
    under a new client number; every window is then a request through all of
    them.  Assumed are the behaviour of the operating system, the inference engine
    and the MFCC processor, and that the connection thread runs before the client
    gives up. *)
Theorem audio_heard_across_the_ipc
    `{!Allocator, !AllocatorLaws, !DynLib, !Pthread, !IpcIo, !IpcIoLaws, !Shm, !ShmLaws, !IpcFacts.ShmReliable,
      !Securec, !SecurecMemory, !SecurecMemoryLaws, !Files, !EngineAdapter, !Environment, !MfccProcessor}
    (handle : Z) (pin pout : Ptr.t) (m : nat) (run_model : list Z -> list Z) (mchars dchars : list Z)
    (uid : Z) (fuel : nat) (now : Z)
    (features : list (list Z) -> list (list Z)) (live : gset nat -> list (list Z) -> mfcc -> Memory.t -> Prop)
    (cb : nat) (p : Ptr.t) (chunks : list (list Z)) (fss : list (list (list Z))) :
  let _ : IPlugin.t := kws_plugin in
  let _ : Connection := server_connection uid fuel now in
  resources -> (forall k, new_ok k = true) -> (forall n, pthread_attr_init n = 0) -> (forall n, pthread_create n = 0) ->
  700 <= room io_init -> (0 < fuel)%nat -> add_death_recipient = 0 ->
  (exists j, (j < Client.CHECK_CONNECTION_TIMES)%nat /\ actions_before_check j <> 0%nat) ->
  AdmissionFacts.installed kws_algorithm ->
  - 2 ^ 63 <= handle < 2 ^ 63 -> handle <> INVALID_KWS_HANDLE -> 0 < Z.of_nat m <= 2 ^ 16 -> Ptr.block pin <> Ptr.block pout ->
  model_loads handle pin pout m -> engine_runs handle pin pout WINDOW_BYTES m run_model ->
  (forall i, length (run_model i) = (m * SIZEOF_INT32)%nat) -> (forall i, Forall DecoderFacts.is_byte (run_model i)) ->
  files_ok mchars dchars -> mfcc_contract features live ->
  forall (l : ClientLibrary.t) (h : Memory.t),
  let plugin := plugin_of 1 uid fuel now l in
  can_join uid fuel now l -> plugin.1 = KWSPlugin.ctor ->
  in_range (Memory.cells plugin.2) pin (Z.of_nat WINDOW_BYTES) ->
  in_range (Memory.cells plugin.2) pout (Z.of_nat (m * SIZEOF_INT32)) -> Memory.wf h ->
  Forall (fun c => input_ok WIN p h c /\ zlen c <= 2 ^ 30) chunks -> is_Some (Memory.cells h !! Ptr.block p) ->
  let wins := windows (STEP * SIZEOF_INT16) (WIN * SIZEOF_INT16) (concat chunks) in
  Forall2 (audio (parameters_of mchars dchars)) (outputs features [] wins) fss ->
  let '((c, r, rs), s) := listen cb p chunks (KWSSdk.ctor l, h) in
  c = KWS_RETCODE_SUCCESS /\ r = KWS_RETCODE_SUCCESS /\ rs = replicate (length chunks) (Some KWS_RETCODE_SUCCESS) /\
  Memory.ub s.2 = Memory.ub h /\
  KWSSdk.calls s.1 = (fun w => (cb, OnResult (run_model w))) <$>
    windows_of WINDOW_BYTES [] ((fun fs : list (list Z) => concat fs) <$> fss).
Proof.
  intros P N HR HN HA HT Hroom Hfuel Hdeath Hruns Hin Hh Hv Hm Hb EL ER Hmod Hby FO HM l h plugin HJ Hc Rin Rout W HF Hp wins HO. pose proof (proj2 HR) as HL.
  assert (malloc_serves) as HMa by (intros t k Hk; apply HR; unfold MAX_SHM_DATA_SIZE in Hk; lia).
  pose proof (library_serves HN HMa HA HT Hroom eq_refl (KWSPlugin.Prepare DataInfo.null) (fun _ _ => eq_refl) uid fuel now Hfuel
    Hdeath Hruns kws_config kws_client kws_algorithm Hin eq_refl eq_refl eq_refl eq_refl) as HS.
  assert (Memory.wf plugin.2) as Ws by (destruct HJ as [_ _ _ _ [_ _ _ SW SO _]]; by split).
  pose proof (listen_spec HR HN _ handle pin pout m run_model Hh Hv Hm Hb ER Hmod Hby _ _ _ _ HS features live HM cb
    mchars dchars l h p chunks fss EL eq_refl FO HJ Hc Ws Rin Rout W HF Hp HO) as U.
  unfold wp in U. destruct (listen _ _ _ _) as [[[c r] rs] s]. cbn [fst snd] in U.
  destruct U as (E & U1 & U2). injection E as -> -> ->. done.
Qed.

(** ** Witnesses: a process and a server that have just started *)

Import SecurecSample HeapSample IpcSample ExecSample.
#[local] Existing Instances sys_alloc sys_securec sys_alloc_laws.
#[local] Instance prompt_environment : Environment := {|
  remote_unknown := fun _ => Some true; add_death_recipient := 0; actions_before_check := fun _ => 1%nat;
  getuid := 1000; callback_sid := 77 |}.

Section new.
  Context {P : IPlugin.t} (buffers : Memory.t).
#[local] Instance new_connection : Connection := server_connection 0 1 0.

(** The model's buffers are there; nothing has been loaded. *)
Definition new_world : @Executor.world SaAsyncHandler.t Hosted.hosted :=
  (Executor.init (Memory.mem buffers) SaAsyncHandler.ctor)
    <| Executor.plugin_states := Hosted.mk (fun _ => IPlugin.PLUGIN_INTERFACE) (Memory.cells buffers) false |>.
Definition new_server : SaServer.t :=
  SaServer.mk (Adapters.mk new_world ∅ 0 false) (Ipc.os sender) SHM_KEY_START io_init io_init.
Definition new_net : net := new_server.
Definition new_library : client := ClientLibrary.mk false (Client.ctor (ClientProxy.mk sender new_net false 0)).

Lemma new_library_joins : Memory.wf buffers -> can_join 0 1 0 new_library.
Proof.
  intros [W D]. assert (ClientProxy.ipc (proxy_of 0 1 0 new_library) = sender) as E by reflexivity.
  split; [|done| | |].
  - by split.
  - rewrite E. by vm_compute.
  - rewrite E. change (segments (Ipc.os sender)) with busy. by vm_compute.
  - split; [|by vm_compute|by vm_compute|exact W|exact D|by vm_compute]. eexists _, _, _. reflexivity.
Qed.

End new.

Lemma sample_installed path ai :
  PluginLabel.GetLibPath (GetAlgorithmIdByType (AlgorithmInfo.algorithmType ai)) (AlgorithmInfo.algorithmVersion ai) = (RETCODE_SUCCESS, path) ->
  (String.length LIB_PATH <=? String.length path)%nat && String.prefix LIB_PATH path = true ->
  GetAlgorithmIdByType (AlgorithmInfo.algorithmType ai) <> ALGORITHM_ID_INVALID -> AdmissionFacts.installed ai.
Proof.
  intros E [L R]%andb_true_iff Hid. split; [done|done|]. exists path, path. split_and!; try done. by apply Nat.leb_le.
Qed.

Section audio.
#[local] Existing Instances kws_files kws_engine sample_mfcc.
#[local] Instance kws_host : IPlugin.t := kws_plugin.
#[local] Instance kws_connection : Connection := server_connection 0 1 0.
Definition audio_library : client := new_library model_buffers.

Lemma audio_heard_across_the_ipc_witness :
  let '((c, r, rs), s) := listen 5 application_buffer [sample_chunk; sample_chunk] (KWSSdk.ctor audio_library, application_memory) in
  c = KWS_RETCODE_SUCCESS /\ r = KWS_RETCODE_SUCCESS /\ rs = replicate 2 (Some KWS_RETCODE_SUCCESS) /\
  Memory.ub s.2 = Memory.ub application_memory /\
  KWSSdk.calls s.1 = (fun w => (5%nat, OnResult (ends_model w))) <$>
    windows_of WINDOW_BYTES [] ((fun fs : list (list Z) => concat fs) <$> (features_of <$> sample_outputs)).
Proof.
  apply (audio_heard_across_the_ipc 42 (Ptr.mk 0 0) (Ptr.mk 1 0) 2 ends_model zeros_file ones_file 0 1 0
    sample_features sample_live 5 application_buffer [sample_chunk; sample_chunk] (features_of <$> sample_outputs)).
  - apply sys_resources.
  - done.
  - done.
  - done.
  - vm_compute. discriminate.
  - lia.
  - done.
  - exists 0%nat. split; [unfold Client.CHECK_CONNECTION_TIMES; lia|done].
  - by eapply sample_installed.
  - by vm_compute.
  - by vm_compute.
  - by vm_compute.
  - done.
  - split; [by eexists|by intros ??..].
  - by intros a h ??.
  - done.
  - intros i. apply Forall_app. split; apply DecoderFacts.le_bytes.
  - split; [eexists; split; [done|vm_compute; reflexivity]..|].
    split; apply Nat.leb_le; vm_compute; reflexivity.
  - apply sample_contract.
  - apply new_library_joins, wf_decide. vm_compute. reflexivity.
  - done.
  - vm_compute. exact I.
  - vm_compute. exact I.
  - apply wf_decide. vm_compute. reflexivity.
  - apply Forall_cons_2; [|apply Forall_cons_2; [|apply Forall_nil_2]]; apply sample_chunk_ok.
  - eexists. vm_compute. reflexivity.
  - apply sample_outputs_ok.
Defined.

(** The model's outputs for the two windows: silence first, then the audio. *)
Example audio_calls :
  KWSSdk.calls (listen 5 application_buffer [sample_chunk; sample_chunk] (KWSSdk.ctor audio_library, application_memory)).2.1 =
  [(5%nat, OnResult [0; 0; 0; 0; 0; 0; 0; 0]); (5%nat, OnResult [0; 0; 0; 0; 0; 16; 0; 0])].
Proof. vm_compute. reflexivity. Qed.

End audio.

Section pictures.
#[local] Existing Instance sample_engine.
#[local] Instance ic_host : IPlugin.t := ic_plugin.
#[local] Instance ic_connection : Connection := server_connection 0 1 0.
Definition picture_library : client := new_library buffers.

Definition second_image : list Z := [3; 2; 8; 0].
Definition second_pointer : Ptr.t := Ptr.mk 1 0.
Definition two_images : Memory.t :=
  ((p ← new_array 4; store p sample_image ;; q ← new_array 4; store q second_image) Memory.empty).2.

Lemma images_classified_across_the_ipc_witness :
  let '((c, r, rs), s) := show_images 4 3 [sample_in; second_pointer] (IcSdkImpl.ctor picture_library, two_images) in
  c = IC_RETCODE_SUCCESS /\ r = IC_RETCODE_SUCCESS /\ rs = replicate 2 (Some IC_RETCODE_SUCCESS) /\
  Memory.ub s.2 = Memory.ub two_images /\ Forall2 (told sample_cfg 3 sample_model 3) [sample_image; second_image] (IcSdkImpl.calls s.1) /\
  exists ci, seated 77 sample_cfg sample_in sample_out 4 3 (plugin_of 1 0 1 0)
    (session_open Executor.MAX_SYNC_MSG_NUM 0 AdmissionFacts.first_engine 1 0 1 0) ci ic_algorithm s.1 s.2.
Proof.
  apply (images_classified_across_the_ipc 77 sample_in sample_out 4 3 sample_model 0 1 0 3 [sample_in; second_pointer] [sample_image; second_image]).
  - apply sys_resources.
  - done.
  - done.
  - done.
  - vm_compute. discriminate.
  - lia.
  - done.
  - exists 0%nat. split; [unfold Client.CHECK_CONNECTION_TIMES; lia|done].
  - by eapply sample_installed.
  - apply sample_facts.
  - split; [by eexists|by intros ??..].
  - apply new_library_joins, wf_decide. vm_compute. reflexivity.
  - done.
  - done.
  - vm_compute. exact I.
  - vm_compute. exact I.
  - apply wf_decide. vm_compute. reflexivity.
  - repeat (apply Forall2_cons; split); try apply Forall2_nil_2; (split; [split; by vm_compute|split; [done|repeat constructor; done]]).
Defined.

(** The classes 1, 2, 0 of the first image, then 2, 0, 1 of the second. *)
Example picture_calls :
  IcSdkImpl.calls (show_images 4 3 [sample_in; second_pointer] (IcSdkImpl.ctor picture_library, two_images)).2.1 =
  [(3%nat, OnResult (le 4 1 ++ le 4 2 ++ le 4 0 ++ le 4 9 ++ le 4 7 ++ le 4 5));
   (3%nat, OnResult (le 4 2 ++ le 4 0 ++ le 4 1 ++ le 4 8 ++ le 4 3 ++ le 4 2))].
Proof. vm_compute. reflexivity. Qed.

End pictures.
