(* ===== verification/AudioLoader.v ===== *)
(** * AudioLoader: the audio wrapper and its AAC decoder

    audio_wrapper.cpp, decoder_wrapper.cpp and audio_utils.cpp over [Memory].
    The codec driver and the numbers of its formats come with the platform; they
    are the parameter [Codec].  A handler is the address of its decoder object. *)

From Stdlib Require Import ZArith Lia.
From stdpp Require Import gmap strings list.
From S2P Require Import Prelude Protocol Encdec Memory PluginBase.

#[local] Open Scope Z_scope.

(** ** audio_retcode.h, coder_wrapper.h *)

Definition AUDIO_SUCCESS : Z := 0.
Definition AUDIO_INVALID_HANDLER : Z := 1000.
Definition AUDIO_NO_KEY : Z := 1001.
Definition AUDIO_ILLEGAL_TYPE : Z := 1002.
Definition AUDIO_NULL_CODER : Z := 1003.
Definition AUDIO_INIT_FAILURE : Z := 1004.
Definition AUDIO_CONVERT_FAILURE : Z := 1005.
Definition AUDIO_INVALID_OPERATION : Z := 1006.

Definition AUDIO_DECODE_PARAM_NUM : Z := 8.
Definition AUDIO_AUDIO_POINT_NUM : Z := 1024.
Definition INVALID_HANDLER : Z := -1.
Definition CODER_NAME : string := "codec.aac.decoder.wrapper".
Definition DECODE_TIMEOUT_MS : Z := 100.

Inductive ConvertType := CONVERT_AAC_TO_PCM | CONVERT_PCM_TO_AAC | OTHER_TYPE.

Module CoderConfig.
Record t := mk { bitRate : Z; sampleRate : Z; channelCount : Z; audioFormat : Z; bitWidth : Z }.
End CoderConfig.

Module CoderStream.
Record t := mk { buffer : option Ptr.t; size : Z }.
#[global] Instance eta_coder_stream : Eta t := fun r => mk (buffer r) (size r).
End CoderStream.

(** ** The platform

    The driver has a state of its own and works on the memory it shares with its
    callers; a buffer is its address and its length. *)

Inductive param := MimeType (mime : Z) | BufferSize (size : Z) | CodecType (type : Z).

Class Codec := {
  AAC_LC : Z; AAC_HE_V1 : Z; AAC_HE_V2 : Z; AAC_LD : Z; AAC_ELD : Z;
  AAC_LC_PROFILE : Z; AAC_HE_V1_PROFILE : Z; AAC_HE_V2_PROFILE : Z; AAC_LD_PROFILE : Z; AAC_ELD_PROFILE : Z;
  AUD_SAMPLE_RATES : list Z; AUD_SAMPLE_RATE_48000 : Z;
  AUD_SOUND_MODE_MONO : Z; AUD_SOUND_MODE_STEREO : Z;
  AUDIO_DECODER : Z; MEDIA_MIMETYPE_AUDIO_AAC : Z; sizeof_Param : Z;
  clear_attr : Z -> Z;                        (** what [memset_s] returns for [attr] *)
  visit : list Z -> list Z;                   (** the order of an [unordered_map] *)
  codec : Type;
  CodecInit : ST (codec * Memory.t) unit;
  CodecDeinit : ST (codec * Memory.t) unit;
  CodecCreate : string -> list param -> ST (codec * Memory.t) (Z * option Z);
  CodecDestroy : option Z -> ST (codec * Memory.t) unit;
  CodecStart : option Z -> ST (codec * Memory.t) Z;
  CodecStop : option Z -> ST (codec * Memory.t) Z;
  CodecDequeInput : option Z -> Z -> ST (codec * Memory.t) Z;
  CodecQueueInput : option Z -> CoderStream.t -> Z -> ST (codec * Memory.t) Z;
  CodecDequeueOutput : option Z -> Z -> ST (codec * Memory.t) (Z * CoderStream.t);
  CodecQueueOutput : option Z -> CoderStream.t -> Z -> ST (codec * Memory.t) Z;
}.

(** ** [AudioUtils] *)

Module AudioUtils.

Definition AUDIO_CHANNEL_MONO : Z := 1.
Definition AUDIO_CHANNEL_STEREO : Z := 2.

Section utils.
  Context `{!Codec}.

Definition IsAudioCoderFormatSupported (format : Z) : bool := negb ((format <? AAC_LC) || (AAC_ELD <? format)).

Definition GetProfileFromAudioCoderFormat (format : Z) : Z :=
  if format =? AAC_LC then AAC_LC_PROFILE else
  if format =? AAC_HE_V1 then AAC_HE_V1_PROFILE else
  if format =? AAC_HE_V2 then AAC_HE_V2_PROFILE else
  if format =? AAC_LD then AAC_LD_PROFILE else
  if format =? AAC_ELD then AAC_ELD_PROFILE else AAC_LC_PROFILE.

Definition ConvertSampleRateForCoder (sampleRate : Z) : Z :=
  if existsb (Z.eqb sampleRate) AUD_SAMPLE_RATES then sampleRate else AUD_SAMPLE_RATE_48000.

Definition ConvertSoundModeForCoder (channelCount : Z) : Z :=
  if channelCount =? AUDIO_CHANNEL_MONO then AUD_SOUND_MODE_MONO else
  if channelCount =? AUDIO_CHANNEL_STEREO then AUD_SOUND_MODE_STEREO else AUD_SOUND_MODE_MONO.

End utils.
End AudioUtils.

(** ** [DecoderWrapper]

    An object with the driver next to it. *)

Module DecoderWrapper.

Section decoder.
  Context `{!SecurecMemory, !Codec}.

Record t := mk { driver : codec; codeHandle_ : option Z; decodeType_ : Z; codecMime_ : Z; bufSize_ : Z; started_ : bool }.
#[global] Instance eta_decoder_wrapper : Eta t := fun r =>
  mk (driver r) (codeHandle_ r) (decodeType_ r) (codecMime_ r) (bufSize_ r) (started_ r).

Definition ctor (d : codec) : t := mk d None AUDIO_DECODER MEDIA_MIMETYPE_AUDIO_AAC AUDIO_AUDIO_POINT_NUM false.

Definition InitCodecAttr (input : CoderConfig.t) : ST (t * Memory.t) Z :=
  s ← self id;
  if negb (bool_decide (codeHandle_ s = None)) then mret AUDIO_INIT_FAILURE else
  let paramSize := wrap_s 16 (AUDIO_DECODE_PARAM_NUM * sizeof_Param) in
  if negb (clear_attr paramSize =? EOK) then mret AUDIO_INIT_FAILURE else
  r ← on_member driver (CodecCreate CODER_NAME [MimeType (codecMime_ s); BufferSize (bufSize_ s); CodecType (decodeType_ s)]);
  set_self (fun s => s <| codeHandle_ := r.2 |>) ;;
  if negb (r.1 =? AUDIO_SUCCESS) then mret AUDIO_INIT_FAILURE else mret AUDIO_SUCCESS.

Definition Initialize (input : CoderConfig.t) : ST (t * Memory.t) Z :=
  if negb (AudioUtils.IsAudioCoderFormatSupported (CoderConfig.audioFormat input)) then mret AUDIO_INIT_FAILURE else
  ret ← InitCodecAttr input;
  if negb (ret =? AUDIO_SUCCESS) then mret AUDIO_INIT_FAILURE else mret AUDIO_SUCCESS.

Definition Start : ST (t * Memory.t) Z :=
  s ← self id;
  if started_ s then mret AUDIO_SUCCESS else
  if bool_decide (codeHandle_ s = None) then mret AUDIO_NULL_CODER else
  ret ← on_member driver (CodecStart (codeHandle_ s));
  if negb (ret =? AUDIO_SUCCESS) then mret ret else
  set_self (fun s => s <| started_ := true |>) ;; mret ret.

Definition PushSourceStream (stream : CoderStream.t) : ST (t * Memory.t) Z :=
  s ← self id;
  if negb (started_ s) then mret AUDIO_CONVERT_FAILURE else
  if bool_decide (codeHandle_ s = None) then mret AUDIO_NULL_CODER else
  ret ← on_member driver (CodecDequeInput (codeHandle_ s) DECODE_TIMEOUT_MS);
  if negb (ret =? AUDIO_SUCCESS) then mret ret else
  on_member driver (CodecQueueInput (codeHandle_ s) stream DECODE_TIMEOUT_MS).

(** The code with the stream it leaves in its reference argument. *)
Definition PullCodedStream (outStream : CoderStream.t) : ST (t * Memory.t) (Z * CoderStream.t) :=
  s ← self id;
  if negb (started_ s) then mret (AUDIO_INVALID_OPERATION, outStream) else
  if bool_decide (CoderStream.buffer outStream = None) || (CoderStream.size outStream =? 0)
  then mret (AUDIO_INVALID_OPERATION, outStream) else
  if bool_decide (codeHandle_ s = None) then mret (AUDIO_NULL_CODER, outStream) else
  r ← on_member driver (CodecDequeueOutput (codeHandle_ s) DECODE_TIMEOUT_MS);
  let '(ret, pcmBuf) := r in
  if negb (ret =? AUDIO_SUCCESS) || bool_decide (CoderStream.buffer pcmBuf = None)
  then mret (AUDIO_CONVERT_FAILURE, outStream) else
  if CoderStream.size pcmBuf <=? 0 then mret (AUDIO_CONVERT_FAILURE, outStream) else
  let outStream := outStream <| CoderStream.size := CoderStream.size pcmBuf |> in
  retCopy ← on_memory (memcpy_s (CoderStream.buffer outStream) (CoderStream.size outStream)
                                (CoderStream.buffer pcmBuf) (CoderStream.size pcmBuf));
  on_member driver (CodecQueueOutput (codeHandle_ s) pcmBuf DECODE_TIMEOUT_MS) ;;
  if negb (retCopy =? EOK) then mret (AUDIO_INVALID_OPERATION, outStream) else
  mret (AUDIO_SUCCESS, outStream).

Definition Stop : ST (t * Memory.t) Z :=
  s ← self id;
  if negb (started_ s) then mret AUDIO_SUCCESS else
  match codeHandle_ s with
  | None => mret AUDIO_SUCCESS
  | Some _ =>
      ret ← on_member driver (CodecStop (codeHandle_ s));
      if negb (ret =? AUDIO_SUCCESS) then mret AUDIO_INVALID_OPERATION else
      on_member driver (CodecDestroy (codeHandle_ s)) ;;
      set_self (fun s => s <| codeHandle_ := None |>) ;;
      mret AUDIO_SUCCESS
  end.

End decoder.
End DecoderWrapper.

(** ** [AudioWrapper] *)

Module AudioWrapper.

Section wrapper.
  Context `{!Allocator, !SecurecMemory, !Codec}.

(** [coders_] maps a handler, the address of an object, to the object. *)
Record t := mk { driver : codec; coders_ : gmap Z DecoderWrapper.t; hasInitCodec_ : bool; needCodec_ : bool }.
#[global] Instance eta_audio_wrapper : Eta t := fun r => mk (driver r) (coders_ r) (hasInitCodec_ r) (needCodec_ r).

Definition ctor (d : codec) : t := mk d ∅ false true.

(** [AIE_NEW] of a decoder, which gets an address, and [AIE_DELETE]. *)
Definition new_object : ST Memory.t (option nat) := on_mem (fun m =>
  if new_ok (Mem.tick m) then (Some (Mem.next m), granted m) else (None, m <| Mem.tick ::= S |>)).
Definition delete_object (handler : Z) : ST Memory.t unit := on_mem (free (Some (Block.mk (Z.to_nat handler) []))).

(** [iter->second->m()] on the decoder of a handler. *)
Definition on_coder {R} (handler : Z) (none : R) (m : ST (DecoderWrapper.t * Memory.t) R) : ST (t * Memory.t) R := fun s =>
  match coders_ s.1 !! handler with
  | None => (none, s)
  | Some c =>
      let '(r, (c, h)) := m (c <| DecoderWrapper.driver := driver s.1 |>, s.2) in
      (r, (s.1 <| driver := DecoderWrapper.driver c |> <| coders_ ::= <[handler := c]> |>, h))
  end.

Definition SetCodecMode (needCodec : bool) : ST (t * Memory.t) unit := set_self (fun s => s <| needCodec_ := needCodec |>).

(** The handler an initialisation leaves in its reference argument. *)
Definition InitAudioDecoder (handler : Z) : ST (t * Memory.t) Z :=
  a ← on_memory new_object;
  match a with
  | None => mret handler
  | Some a =>
      set_self (fun s => s <| coders_ ::= <[Z.of_nat a := DecoderWrapper.ctor (driver s)]> |>) ;;
      mret (Z.of_nat a)
  end.

Definition Init (typeId : ConvertType) (handler : Z) : ST (t * Memory.t) (Z * Z) :=
  if negb (handler =? INVALID_HANDLER) then mret (AUDIO_INIT_FAILURE, handler) else
  s ← self id;
  (if needCodec_ s && negb (hasInitCodec_ s)
   then on_member driver CodecInit ;; set_self (fun s => s <| hasInitCodec_ := true |>) else mret tt) ;;
  match typeId with
  | CONVERT_AAC_TO_PCM => handler ← InitAudioDecoder handler; mret (AUDIO_SUCCESS, handler)
  | CONVERT_PCM_TO_AAC | OTHER_TYPE => mret (AUDIO_ILLEGAL_TYPE, handler)
  end.

(** [if (... needCodec_ && hasInitCodec_) { CodecDeinit(); hasInitCodec_ = false; }] *)
Definition deinit_codec : ST (t * Memory.t) unit :=
  s ← self id;
  if needCodec_ s && hasInitCodec_ s
  then on_member driver CodecDeinit ;; set_self (fun s => s <| hasInitCodec_ := false |>) else mret tt.

Definition Release : ST (t * Memory.t) unit :=
  s ← self id;
  for_each (fun handler => on_coder handler AUDIO_NO_KEY DecoderWrapper.Stop ;; on_memory (delete_object handler))
           (visit (map_to_list (coders_ s)).*1) ;;
  set_self (fun s => s <| coders_ := ∅ |>) ;;
  deinit_codec.

Definition Deinit (handler : Z) : ST (t * Memory.t) Z :=
  s ← self id;
  match coders_ s !! handler with
  | None => mret AUDIO_NO_KEY
  | Some _ =>
      retCode ← on_coder handler AUDIO_NO_KEY DecoderWrapper.Stop;
      on_memory (delete_object handler) ;;
      set_self (fun s => s <| coders_ ::= delete handler |>) ;;
      s ← self id;
      (if bool_decide (coders_ s = ∅) then deinit_codec else mret tt) ;;
      mret retCode
  end.

Definition SetConfig (handler : Z) (config : CoderConfig.t) : ST (t * Memory.t) Z :=
  on_coder handler AUDIO_NO_KEY (DecoderWrapper.Initialize config).

Definition StartCodec (handler : Z) : ST (t * Memory.t) Z :=
  s ← self id;
  match coders_ s !! handler with
  | None => mret AUDIO_NO_KEY
  | Some _ =>
      r ← on_coder handler AUDIO_NO_KEY DecoderWrapper.Start;
      if negb (r =? AUDIO_SUCCESS) then mret AUDIO_CONVERT_FAILURE else mret AUDIO_SUCCESS
  end.

Definition Convert (handler : Z) (source converted : CoderStream.t) : ST (t * Memory.t) (Z * CoderStream.t) :=
  s ← self id;
  match coders_ s !! handler with
  | None => mret (AUDIO_NO_KEY, converted)
  | Some _ =>
      ret ← on_coder handler AUDIO_NO_KEY (DecoderWrapper.PushSourceStream source);
      if negb (ret =? AUDIO_SUCCESS) then mret (AUDIO_CONVERT_FAILURE, converted) else
      on_coder handler (AUDIO_NO_KEY, converted) (DecoderWrapper.PullCodedStream converted)
  end.

End wrapper.
End AudioWrapper.
