(* ===== verification/AudioProps.v ===== *)
(** * AudioProps: the audio wrapper's handlers and the decoder's output

    Every handler the wrapper has given out stays valid until it is released, and
    no decoder is lost or deleted twice.  The decoder's output is copied with the
    length of the output as the size of the caller's buffer: the copy is in
    bounds exactly when the buffer has room for it, whatever size was stated. *)

From Stdlib Require Import ZArith Lia.
From stdpp Require Import gmap strings list.
From S2P Require Import Prelude Protocol Encdec Memory PluginBase AudioLoader.

#[local] Open Scope Z_scope.

Module AudioFacts.

(** ** The platform *)

(** [unordered_map] visits every element once. *)
Definition visits_all `{!Codec} : Prop := forall l, visit l ≡ₚ l.

(** The driver allocates and frees nothing of the process. *)
Definition keeps {T R} (m : ST (T * Memory.t) R) : Prop := forall s, wp m (fun _ s' => Memory.mem s'.2 = Memory.mem s.2) s.

Record codec_keeps `{!Codec} : Prop := {
  ck_init : keeps CodecInit;
  ck_deinit : keeps CodecDeinit;
  ck_create : forall n ps, keeps (CodecCreate n ps);
  ck_destroy : forall c, keeps (CodecDestroy c);
  ck_start : forall c, keeps (CodecStart c);
  ck_stop : forall c, keeps (CodecStop c);
  ck_deque_input : forall c t, keeps (CodecDequeInput c t);
  ck_queue_input : forall c i t, keeps (CodecQueueInput c i t);
  ck_dequeue_output : forall c t, keeps (CodecDequeueOutput c t);
  ck_queue_output : forall c o t, keeps (CodecQueueOutput c o t);
}.

(** ** What keeps the ledger *)

Section keeping.
  Context {T : Type}.

Lemma audio_keeps_ret {A} (a : A) : keeps (mret a : ST (T * Memory.t) A).
Proof. intros s. by apply wp_ret. Qed.

Lemma audio_keeps_bind {A B} (m : ST (T * Memory.t) A) (k : A -> ST (T * Memory.t) B) :
  keeps m -> (forall a, keeps (k a)) -> keeps (a ← m; k a).
Proof.
  intros Hm Hk s. apply wp_bind. eapply wp_mono; [apply Hm|]. intros a s1 E. eapply wp_mono; [apply Hk|].
  intros b s2 E2. cbn beta in *. congruence.
Qed.

Lemma keeps_self {A} (f : T -> A) : keeps (self f).
Proof. intros [o h]. by apply wp_self. Qed.

Lemma keeps_set_self (f : T -> T) : keeps (set_self f).
Proof. intros [o h]. by apply wp_set_self. Qed.

Lemma keeps_on_member {U A} (proj : T -> U) {setter : FieldSetter proj} (m : ST (U * Memory.t) A) :
  keeps m -> keeps (on_member proj m).
Proof. intros Hm [o h]. apply wp_on_member. eapply wp_mono; [apply Hm|]. by intros. Qed.

Lemma keeps_memcpy `{!SecurecMemory} d n s c : keeps (on_memory (memcpy_s d n s c) : ST (T * Memory.t) Z).
Proof. intros [o h]. apply wp_on_memory. unfold wp, memcpy_s, checked. by destruct (memcpy_at _ _ _ _ _). Qed.

End keeping.

#[local] Ltac keep :=
  repeat first [apply audio_keeps_ret | apply keeps_self | apply keeps_set_self | apply keeps_memcpy
               | apply keeps_on_member; done | apply audio_keeps_bind; [|intros ?] | case_match | progress cbv zeta ].

Section decoder.
  Context `{!SecurecMemory, !Codec}.
  Context (CK : codec_keeps).
  Import DecoderWrapper.

Lemma Initialize_keeps c : keeps (Initialize c).
Proof. destruct CK. unfold Initialize, InitCodecAttr. keep. Qed.

Lemma Start_keeps : keeps Start.
Proof. destruct CK. unfold Start. keep. Qed.

Lemma Push_keeps i : keeps (PushSourceStream i).
Proof. destruct CK. unfold PushSourceStream. keep. Qed.

Lemma Pull_keeps o : keeps (PullCodedStream o).
Proof. destruct CK. unfold PullCodedStream. keep. Qed.

Lemma Stop_keeps : keeps Stop.
Proof. destruct CK. unfold Stop. keep. Qed.

End decoder.
(** ** The wrapper *)

Section wrapper.
  Context `{!Allocator, !SecurecMemory, !Codec}.
  Context (CK : codec_keeps) (Hvisit : visits_all) (m0 : Mem.t).
  Import AudioWrapper.

(** The objects alive are those of before and the decoders of [coders_] that are
    not in [gone]. *)
Record held (gone : list Z) (cs : gmap Z DecoderWrapper.t) (m : Mem.t) : Prop := {
  held_wf : mem_wf m;
  held_frees : Mem.bad_frees m = Mem.bad_frees m0;
  held_new : forall z, is_Some (cs !! z) -> 0 <= z /\ Z.to_nat z ∉ Mem.live m0;
  held_live : forall a, a ∈ Mem.live m <-> a ∈ Mem.live m0 \/ is_Some (cs !! Z.of_nat a) /\ Z.of_nat a ∉ gone;
}.

Definition handlers (s : t * Memory.t) : Prop := held [] (coders_ s.1) (Memory.mem s.2).

(** An operation that changes neither the set of handlers nor the ledger. *)
Definition neutral {R} (m : ST (t * Memory.t) R) : Prop := forall gone s,
  held gone (coders_ s.1) (Memory.mem s.2) ->
  wp m (fun _ s' => held gone (coders_ s'.1) (Memory.mem s'.2) /\ dom (coders_ s'.1) = dom (coders_ s.1)) s.

Lemma held_dom gone cs cs' m : dom cs' = dom cs -> held gone cs m -> held gone cs' m.
Proof.
  intros E [W F N L]. assert (K : forall z, is_Some (cs' !! z) <-> is_Some (cs !! z)) by (intros z; by rewrite <- !elem_of_dom, E).
  split; [done|done| |].
  - intros z Hz. by apply N, K.
  - intros a. by rewrite K.
Qed.

Lemma neutral_on_coder {R} z (none : R) m : keeps m -> neutral (on_coder z none m).
Proof.
  intros Hm gone [s h] HH. unfold wp, on_coder. cbn [fst snd] in *. destruct (coders_ s !! z) as [c|] eqn:E; [|by split].
  specialize (Hm (c <| DecoderWrapper.driver := driver s |>, h)). unfold wp in Hm. destruct (m _) as [r [c' h']]. cbn [fst snd] in *.
  rewrite Hm. assert (D : dom (<[z := c']> (coders_ s)) = dom (coders_ s)).
  { rewrite dom_insert_L. apply elem_of_dom_2 in E. set_solver. }
  split; [|exact D]. by eapply held_dom.
Qed.

Lemma neutral_driver {R} (m : ST (codec * Memory.t) R) : keeps m -> neutral (on_member driver m).
Proof.
  intros Hm gone [s h] HH. apply wp_on_member. eapply wp_mono; [apply Hm|]. intros r [d h'] E. cbn [fst snd] in *. rewrite E. by split.
Qed.

Lemma neutral_set_self (f : t -> t) : (forall s, coders_ (f s) = coders_ s) -> neutral (set_self f).
Proof. intros Hf gone [s h] HH. apply wp_set_self. cbn. by rewrite Hf. Qed.

Lemma neutral_ret {R} (r : R) : neutral (mret r).
Proof. intros gone s HH. by apply wp_ret. Qed.

Lemma neutral_self {R} (f : t -> R) : neutral (self f).
Proof. intros gone [s h] HH. by apply wp_self. Qed.

Lemma neutral_bind {R R'} (m : ST (t * Memory.t) R) (k : R -> ST (t * Memory.t) R') :
  neutral m -> (forall r, neutral (k r)) -> neutral (r ← m; k r).
Proof.
  intros Hm Hk gone s HH. apply wp_bind. eapply wp_mono; [by apply Hm|]. intros r s1 [H1' D1].
  eapply wp_mono; [by apply Hk|]. intros r' s2 [H2' D2]. split; [done|congruence].
Qed.

#[local] Ltac neutral :=
  repeat first [apply neutral_ret | apply neutral_self | by apply neutral_set_self | apply neutral_driver; apply CK
               | apply neutral_bind; [|intros ?] | case_match | progress cbv zeta ].

Lemma deinit_codec_neutral : neutral deinit_codec.
Proof. unfold deinit_codec. neutral. Qed.

(** A new decoder has an address nobody has. *)
Lemma InitAudioDecoder_handlers z s : handlers s -> wp (InitAudioDecoder z) (fun _ s' => handlers s') s.
Proof.
  destruct s as [s h]. intros [W F N L]. cbn [fst snd] in *. unfold InitAudioDecoder. apply wp_bind, wp_on_memory, wp_on_mem. unfold wp at 1.
  destruct (new_ok _); cbn [fst snd].
  - set (a := Mem.next (Memory.mem h)). assert (Ha : a ∉ Mem.live (Memory.mem h)) by (intros Hin; apply W in Hin; unfold a in *; lia).
    apply wp_bind, wp_set_self, wp_ret. split; cbn.
    + intros b Hb. cbn in *. apply elem_of_union in Hb as [->%elem_of_singleton|Hb]; [fold a; lia|]. specialize (W b Hb). lia.
    + exact F.
    + intros z' Hz. destruct (decide (z' = Z.of_nat a)) as [->|Hne].
      * rewrite Nat2Z.id. split; [lia|]. intros Hin. apply Ha, L. by left.
      * rewrite lookup_insert_ne in Hz by done. by apply N.
    + intros b. rewrite elem_of_union, elem_of_singleton, L. fold a. destruct (decide (b = a)) as [->|Hne].
      * rewrite lookup_insert_eq. split; [intros _; right; split; [by eexists|set_solver]|by left].
      * rewrite lookup_insert_ne by lia. set_solver.
  - apply wp_ret. by split.
Qed.

(** Deleting the decoder of a handler. *)
Lemma delete_held gone z s h (Q : unit -> t * Memory.t -> Prop) :
  held gone (coders_ s) (Memory.mem h) -> is_Some (coders_ s !! z) -> z ∉ gone ->
  (forall h', held (z :: gone) (coders_ s) (Memory.mem h') -> Q tt (s, h')) ->
  wp (on_memory (delete_object z)) Q (s, h).
Proof.
  intros [W F N L] Hz Hg HQ. apply wp_on_memory, wp_on_mem. unfold wp, free. cbn [Block.addr].
  destruct (N z Hz) as [Hp Hn]. assert (E : Z.of_nat (Z.to_nat z) = z) by lia.
  rewrite decide_True by (apply L; right; by rewrite E). apply HQ. split; cbn.
  - intros a Ha. cbn in *. apply W. set_solver.
  - exact F.
  - exact N.
  - intros a. rewrite elem_of_difference, elem_of_singleton, L, not_elem_of_cons.
    assert (a <> Z.to_nat z <-> Z.of_nat a <> z) as -> by lia. split; [naive_solver|].
    intros [Ha|(Hs & Hne & Hg')]; [|naive_solver]. split; [by left|]. intros Hc. assert (a = Z.to_nat z) as -> by lia. done.
Qed.

#[local] Notation stop_and_delete :=
  (fun handler => on_coder handler AUDIO_NO_KEY DecoderWrapper.Stop ;; on_memory (delete_object handler)).

Lemma stop_and_delete_held gone z s (Q : unit -> t * Memory.t -> Prop) :
  held gone (coders_ s.1) (Memory.mem s.2) -> is_Some (coders_ s.1 !! z) -> z ∉ gone ->
  (forall s', held (z :: gone) (coders_ s'.1) (Memory.mem s'.2) -> dom (coders_ s'.1) = dom (coders_ s.1) -> Q tt s') ->
  wp (stop_and_delete z) Q s.
Proof.
  intros HH Hz Hg HQ. apply wp_bind. eapply wp_mono; [apply (neutral_on_coder z _ _ (Stop_keeps CK) gone s HH)|].
  intros _ [s1 h1] [HH1 D]. cbn [fst snd] in *. eapply delete_held; [done| |done|].
  - apply elem_of_dom. rewrite D. by apply elem_of_dom.
  - intros h' HH2. by apply HQ.
Qed.

Lemma release_loop l : NoDup l -> forall gone s,
  held gone (coders_ s.1) (Memory.mem s.2) -> (forall z, z ∈ l -> is_Some (coders_ s.1 !! z) /\ z ∉ gone) ->
  wp (for_each stop_and_delete l) (fun _ s' => exists gone', (forall z, z ∈ gone' <-> z ∈ l \/ z ∈ gone) /\
    held gone' (coders_ s'.1) (Memory.mem s'.2) /\ dom (coders_ s'.1) = dom (coders_ s.1)) s.
Proof.
  induction 1 as [|z l Hz _ IH]; intros gone s HH Hl; cbn [for_each].
  - apply wp_ret. exists gone. split_and!; [set_solver|done|done].
  - destruct (Hl z ltac:(set_solver)) as [Hs Hg]. apply wp_bind. apply (stop_and_delete_held gone); [done..|].
    intros s1 HH1 D1. eapply wp_mono; [apply (IH (z :: gone)); [done|]|].
    + intros z' Hz'. destruct (Hl z' ltac:(set_solver)) as [[c Hc] Hg']. split; [|set_solver].
      apply elem_of_dom. rewrite D1. apply elem_of_dom. by eexists.
    + intros _ s2 (gone' & G & HH2 & D2). exists gone'. split_and!; [set_solver|done|congruence].
Qed.

Lemma held_forget (cs cs' : gmap Z DecoderWrapper.t) gone m :
  held gone cs m -> (forall z, is_Some (cs' !! z) <-> is_Some (cs !! z) /\ z ∉ gone) -> held [] cs' m.
Proof.
  intros [W F N L] K. split; [done|done| |].
  - intros z Hz. apply N. by apply K.
  - intros a. rewrite L, K. set_solver.
Qed.

Lemma neutral_handlers {R} (m : ST (t * Memory.t) R) s : neutral m -> handlers s -> wp m (fun _ s' => handlers s') s.
Proof. intros Hm HH. eapply wp_mono; [by apply Hm|]. by intros r s' [? _]. Qed.

Lemma Release_handlers s : handlers s -> wp Release (fun _ s' => handlers s') s.
Proof.
  destruct s as [s h]. intros HH. unfold Release. apply wp_bind, wp_self. cbn [id]. apply wp_bind.
  set (l := visit (map_to_list (coders_ s)).*1). assert (P : l ≡ₚ (map_to_list (coders_ s)).*1) by apply Hvisit.
  assert (Hl : forall z, z ∈ l <-> is_Some (coders_ s !! z)).
  { intros z. rewrite P, list_elem_of_fmap. split.
    - intros ([z' c] & -> & Hin%elem_of_map_to_list). by eexists.
    - intros [c Hc]. exists (z, c). split; [done|]. by apply elem_of_map_to_list. }
  eapply wp_mono; [apply (release_loop l); [rewrite P; apply NoDup_fst_map_to_list|exact HH|]|].
  - intros z Hz%Hl. split; [done|]. apply not_elem_of_nil.
  - intros _ [s1 h1] (gone & G & HH1 & D1). cbn [fst snd] in *. apply wp_bind, wp_set_self.
    apply neutral_handlers; [apply deinit_codec_neutral|]. eapply held_forget; [exact HH1|]. cbn.
    intros z. rewrite lookup_empty. split; [by intros []|]. intros [Hz%elem_of_dom Hg]. exfalso. apply Hg, G. left. apply Hl.
    apply elem_of_dom. by rewrite <- D1.
Qed.

Lemma Deinit_handlers z s : handlers s -> wp (Deinit z) (fun _ s' => handlers s') s.
Proof.
  destruct s as [s h]. intros HH. unfold Deinit. apply wp_bind, wp_self. cbn [id].
  destruct (coders_ s !! z) as [c|] eqn:E; [|by apply wp_ret]. apply wp_bind.
  eapply wp_mono; [apply (neutral_on_coder z _ _ (Stop_keeps CK) [] (s, h) HH)|].
  intros r [s1 h1] [HH1 D]. cbn [fst snd] in *. apply wp_bind. eapply delete_held; [exact HH1| |apply not_elem_of_nil|].
  - apply elem_of_dom. rewrite D. apply elem_of_dom. by eexists.
  - intros h2 HH2. apply wp_bind, wp_set_self, wp_bind, wp_self, wp_bind. cbn [id].
    set (s2 := s1 <| coders_ ::= delete z |>). assert (HH3 : handlers (s2, h2)).
    { eapply held_forget; [exact HH2|]. intros z'. cbn. rewrite list_elem_of_singleton. destruct (decide (z' = z)) as [->|Hne].
      - rewrite lookup_delete_eq. split; [by intros []|naive_solver].
      - rewrite lookup_delete_ne by done. naive_solver. }
    destruct (bool_decide _).
    + eapply wp_mono; [by apply neutral_handlers; [apply deinit_codec_neutral|]|]. intros u s3 HH4. by apply wp_ret.
    + by apply wp_ret, wp_ret.
Qed.

(** ** Histories *)

Inductive operation :=
  | OpSetCodecMode (needCodec : bool)
  | OpInit (typeId : ConvertType) (handler : Z)
  | OpSetConfig (handler : Z) (config : CoderConfig.t)
  | OpStartCodec (handler : Z)
  | OpConvert (handler : Z) (source converted : CoderStream.t)
  | OpDeinit (handler : Z)
  | OpRelease.

Definition perform (o : operation) : ST (t * Memory.t) unit :=
  match o with
  | OpSetCodecMode b => SetCodecMode b
  | OpInit ty z => Init ty z ;; mret tt
  | OpSetConfig z c => SetConfig z c ;; mret tt
  | OpStartCodec z => StartCodec z ;; mret tt
  | OpConvert z i o => Convert z i o ;; mret tt
  | OpDeinit z => Deinit z ;; mret tt
  | OpRelease => Release
  end.

#[local] Ltac on_coder_neutral := apply neutral_on_coder; first [by apply Initialize_keeps | by apply Start_keeps | by apply Push_keeps | by apply Pull_keeps].
#[local] Ltac neutral_ops :=
  repeat first [apply neutral_ret | apply neutral_self | by apply neutral_set_self | apply neutral_driver; apply CK | on_coder_neutral
               | apply neutral_bind; [|intros ?] | case_match | progress cbv zeta ].

Lemma Init_handlers ty z s : handlers s -> wp (Init ty z) (fun _ s' => handlers s') s.
Proof.
  destruct s as [s h]. intros HH. unfold Init. destruct (negb _); [by apply wp_ret|]. apply wp_bind, wp_self. cbn [id]. apply wp_bind.
  eapply wp_mono; [apply neutral_handlers; [neutral_ops|exact HH]|]. intros u s1 HH1. cbn beta in HH1.
  destruct ty; [|by apply wp_ret..]. apply wp_bind. eapply wp_mono; [by apply InitAudioDecoder_handlers|].
  intros z' s2 HH2. by apply wp_ret.
Qed.

Lemma perform_handlers o s : handlers s -> wp (perform o) (fun _ s' => handlers s') s.
Proof.
  intros HH. destruct o; cbn [perform].
  - apply neutral_handlers; [|done]. unfold SetCodecMode. neutral_ops.
  - apply wp_bind. eapply wp_mono; [by apply Init_handlers|]. intros. by apply wp_ret.
  - apply neutral_handlers; [|done]. unfold SetConfig. neutral_ops.
  - apply neutral_handlers; [|done]. unfold StartCodec. neutral_ops.
  - apply neutral_handlers; [|done]. unfold Convert. neutral_ops.
  - apply wp_bind. eapply wp_mono; [by apply Deinit_handlers|]. intros. by apply wp_ret.
  - by apply Release_handlers.
Qed.

End wrapper.
End AudioFacts.

(** ** Properties *)

Import AudioFacts.

(** C30. After any history of calls on a new wrapper the decoder objects alive are
    exactly those of the handlers it has given out and not yet released: none is
    lost, none is deleted twice, and a handler is never the address of an object
    of somebody else. *)
Theorem audio_wrapper_handlers `{!Allocator, !SecurecMemory, !Codec}
    (d : codec) (h : Memory.t) (history : list AudioFacts.operation) :
  codec_keeps -> visits_all -> mem_wf (Memory.mem h) ->
  let '(_, (s, h')) := for_each perform history (AudioWrapper.ctor d, h) in
  Mem.bad_frees (Memory.mem h') = Mem.bad_frees (Memory.mem h) /\
  (forall a, a ∈ Mem.live (Memory.mem h') <-> a ∈ Mem.live (Memory.mem h) \/ is_Some (AudioWrapper.coders_ s !! Z.of_nat a)) /\
  (forall z, is_Some (AudioWrapper.coders_ s !! z) -> 0 <= z /\ Z.to_nat z ∉ Mem.live (Memory.mem h)).
Proof.
  intros CK HV W. assert (U : wp (for_each perform history) (fun _ s' => handlers (Memory.mem h) s') (AudioWrapper.ctor d, h)).
  { apply wp_for_each; [|intros o s _ HH; by apply perform_handlers].
    split; [done|done| |]; cbn; [by intros z []|]. intros a. rewrite lookup_empty. split; [by left|]. by intros [?|[[] _]]. }
  unfold wp in U. destruct (for_each _ _ _) as [u [s h']]. cbn [fst snd] in U. destruct U as [_ F N L]. split_and!; [done| |done].
  intros a. rewrite L. split; [intros [?|[? _]]; [by left|by right]|]. intros [?|?]; [by left|right]. split; [done|apply not_elem_of_nil].
Qed.

Import DecoderWrapper.

(** C31. [PullCodedStream] copies the [n] bytes the decoder has produced and sets the
    size of the caller's stream to [n].  The size the caller states for its buffer
    is not looked at: the copy is in bounds if and only if [n] bytes from the
    buffer's address are the caller's, however small the stated size is. *)
Theorem pull_coded_stream_bounds `{!SecurecMemory, !SecurecMemoryLaws, !Codec}
    (s : t) (c : Z) (p q : Ptr.t) (size n : Z) (h : Memory.t) :
  started_ s = true -> codeHandle_ s = Some c -> size <> 0 -> 0 < n -> n <= SECUREC_MEM_MAX_LEN ->
  (forall d h, wp (CodecDequeueOutput (Some c) DECODE_TIMEOUT_MS)
     (fun r s => r = (AUDIO_SUCCESS, CoderStream.mk (Some q) n) /\ s.2 = h) (d, h)) ->
  (forall o d h, wp (CodecQueueOutput (Some c) o DECODE_TIMEOUT_MS) (fun _ s => s.2 = h) (d, h)) ->
  in_range (Memory.cells h) q n -> Ptr.block p <> Ptr.block q -> Memory.ub h = false ->
  let '((r, out), s') := PullCodedStream (CoderStream.mk (Some p) size) (s, h) in
  CoderStream.size out = n /\ Memory.ub s'.2 = negb (in_range (Memory.cells h) p n) /\
  (in_range (Memory.cells h) p n -> r = AUDIO_SUCCESS /\ out = CoderStream.mk (Some p) n /\
     peek (Memory.cells s'.2) p n = peek (Memory.cells h) q n).
Proof.
  intros Hs Hc Hz Hn Hmax HD HQ Hq Hne Hub.
  assert (U : wp (PullCodedStream (CoderStream.mk (Some p) size)) (fun r s' =>
    CoderStream.size r.2 = n /\ Memory.ub s'.2 = negb (in_range (Memory.cells h) p n) /\
    (in_range (Memory.cells h) p n -> r.1 = AUDIO_SUCCESS /\ r.2 = CoderStream.mk (Some p) n /\
       peek (Memory.cells s'.2) p n = peek (Memory.cells h) q n)) (s, h)); [|by unfold wp in U; destruct (PullCodedStream _ _) as [[r out] s']].
  unfold PullCodedStream. apply wp_bind, wp_self. cbn [id CoderStream.buffer CoderStream.size]. rewrite Hs, Hc, (proj2 (Z.eqb_neq _ _) Hz).
  cbn [negb bool_decide]. rewrite !bool_decide_eq_false_2 by done. cbn [orb]. apply wp_bind, wp_on_member.
  eapply wp_mono; [apply HD|]. intros r [d1 h1] [-> E1]. cbn [fst snd CoderStream.buffer CoderStream.size] in *. subst h1.
  rewrite Z.eqb_refl, bool_decide_eq_false_2, (proj2 (Z.leb_gt _ _) Hn) by done. cbn [negb orb]. apply wp_bind, wp_on_memory.
  unfold wp at 1, memcpy_s. set (out := (CoderStream.mk (Some p) size) <| CoderStream.size := n |>).
  change (CoderStream.buffer out) with (Some p). change (CoderStream.size out) with n. rewrite Z.ltb_irrefl.
  rewrite !bool_decide_eq_false_2 by done. cbn [orb]. rewrite (valid_range _ q n Hq), andb_true_r.
  assert (EV : valid (Memory.cells h) (Some p) n = in_range (Memory.cells h) p n) by done. rewrite EV.
  destruct (in_range (Memory.cells h) p n) eqn:R; unfold checked.
  - rewrite memcpy_at_ok; [|done|lia|done|by rewrite R|done|unfold overlap; by rewrite bool_decide_eq_false_2].
    cbn [fst snd negb]. rewrite orb_false_r. apply wp_bind, wp_on_member. eapply wp_mono; [apply HQ|].
    intros rq [d2 h2] E2. cbn [snd] in E2. subst h2. rewrite Z.eqb_refl. cbn [negb]. apply wp_ret. split_and!; [done|done|].
    intros _. split_and!; [done|done|]. cbn. pose proof (peek_poke_same (Memory.cells h) p (peek (Memory.cells h) q n)) as PP.
    assert (EL : zlen (peek (Memory.cells h) q n) = n) by (unfold zlen; rewrite length_peek by done; lia).
    rewrite EL in PP. apply PP. by rewrite R.
  - destruct (memcpy_at _ _ _ _ _) as [rc cs]. cbn [fst snd negb]. rewrite orb_true_r. apply wp_bind, wp_on_member.
    eapply wp_mono; [apply HQ|]. intros rq [d2 h2] E2. cbn [snd] in E2. subst h2.
    destruct (negb (rc =? EOK)); apply wp_ret; split_and!; try done.
Qed.

(** ** Witnesses *)

Import SecurecSample.
#[local] Existing Instances always_alloc.

(** A driver that decodes everything to the eight bytes of block 0. *)
#[local] Instance sample_codec : Codec := {|
  AAC_LC := 1; AAC_HE_V1 := 2; AAC_HE_V2 := 3; AAC_LD := 4; AAC_ELD := 5;
  AAC_LC_PROFILE := 0; AAC_HE_V1_PROFILE := 1; AAC_HE_V2_PROFILE := 2; AAC_LD_PROFILE := 3; AAC_ELD_PROFILE := 4;
  AUD_SAMPLE_RATES := [8000; 16000; 48000]; AUD_SAMPLE_RATE_48000 := 48000;
  AUD_SOUND_MODE_MONO := 1; AUD_SOUND_MODE_STEREO := 2;
  AUDIO_DECODER := 1; MEDIA_MIMETYPE_AUDIO_AAC := 10; sizeof_Param := 24;
  clear_attr := fun _ => EOK;
  visit := fun l => l;
  codec := nat;
  CodecInit := set_self S;
  CodecDeinit := set_self Nat.pred;
  CodecCreate := fun _ _ => mret (AUDIO_SUCCESS, Some 9);
  CodecDestroy := fun _ => mret tt;
  CodecStart := fun _ => mret AUDIO_SUCCESS;
  CodecStop := fun _ => mret AUDIO_SUCCESS;
  CodecDequeInput := fun _ _ => mret AUDIO_SUCCESS;
  CodecQueueInput := fun _ _ _ => mret AUDIO_SUCCESS;
  CodecDequeueOutput := fun _ _ => mret (AUDIO_SUCCESS, CoderStream.mk (Some (Ptr.mk 0 0)) 8);
  CodecQueueOutput := fun _ _ _ => mret AUDIO_SUCCESS;
|}.

Definition sample_driver : codec := 0%nat.

Lemma sample_codec_keeps : codec_keeps.
Proof. split; intros; repeat intros ?; try by apply wp_ret. all: destruct s; by apply wp_set_self. Qed.

(** The decoder's eight bytes and a buffer of four. *)
Definition audio_memory : Memory.t := ((new_array 8 ;; new_array 4) Memory.empty).2.
Definition sample_config : CoderConfig.t := CoderConfig.mk 0 16000 1 AAC_LC 16.

(** Two decoders, one of which is released before the other. *)
Definition sample_history : list AudioFacts.operation :=
  [OpInit CONVERT_AAC_TO_PCM (-1); OpInit CONVERT_AAC_TO_PCM (-1); OpSetConfig 2 sample_config; OpStartCodec 2;
   OpDeinit 2; OpDeinit 2; OpInit CONVERT_PCM_TO_AAC (-1)].

Lemma audio_wrapper_handlers_witness :
  let '(_, (s, h')) := for_each perform sample_history (AudioWrapper.ctor sample_driver, audio_memory) in
  Mem.bad_frees (Memory.mem h') = Mem.bad_frees (Memory.mem audio_memory) /\
  (forall a, a ∈ Mem.live (Memory.mem h') <->
     a ∈ Mem.live (Memory.mem audio_memory) \/ is_Some (AudioWrapper.coders_ s !! Z.of_nat a)) /\
  (forall z, is_Some (AudioWrapper.coders_ s !! z) -> 0 <= z /\ Z.to_nat z ∉ Mem.live (Memory.mem audio_memory)).
Proof.
  apply (audio_wrapper_handlers sample_driver audio_memory sample_history); [apply sample_codec_keeps|by intros l|].
  apply wf_decide. vm_compute. reflexivity.
Defined.

Definition started_decoder : t := (ctor sample_driver) <| codeHandle_ := Some 9 |> <| started_ := true |>.

(** The caller's buffer has room for four bytes: the copy of eight leaves it. *)
Lemma pull_coded_stream_bounds_witness :
  let p := Ptr.mk 1 0 in
  let '((r, out), s') := PullCodedStream (CoderStream.mk (Some p) 4) (started_decoder, audio_memory) in
  CoderStream.size out = 8 /\ Memory.ub s'.2 = negb (in_range (Memory.cells audio_memory) p 8) /\
  (in_range (Memory.cells audio_memory) p 8 -> r = AUDIO_SUCCESS /\ out = CoderStream.mk (Some p) 8 /\
     peek (Memory.cells s'.2) p 8 = peek (Memory.cells audio_memory) (Ptr.mk 0 0) 8).
Proof.
  apply (pull_coded_stream_bounds started_decoder 9 (Ptr.mk 1 0) (Ptr.mk 0 0) 4 8 audio_memory); done.
Defined.

Example short_buffer_overrun :
  Memory.ub (PullCodedStream (CoderStream.mk (Some (Ptr.mk 1 0)) 4) (started_decoder, audio_memory)).2.2 = true.
Proof. vm_compute. reflexivity. Qed.

(** A decoder that has been configured but never started keeps its codec when it
    is released. *)
Example unstarted_codec_stays :
  let s := (Initialize sample_config (ctor sample_driver, audio_memory)).2 in
  let '(r, s') := Stop s in r = AUDIO_SUCCESS /\ codeHandle_ s'.1 = Some 9.
Proof. vm_compute. split; reflexivity. Qed.

(** [Init] reports success without a decoder. *)
Example init_without_decoder :
  let _ : Allocator := {| malloc_ok := fun _ _ => false; new_ok := fun _ => false |} in
  (AudioWrapper.Init CONVERT_AAC_TO_PCM (-1) (AudioWrapper.ctor sample_driver, Memory.empty)).1 = (AUDIO_SUCCESS, -1).
Proof. vm_compute. reflexivity. Qed.
